(** * guacamole-lite-server: delivery queues, compression, redaction

    A shallow embedding of the delivery pipeline of guacamole-lite-server:
    - [WebhookManager]   : lib/webhook-manager.js (notification queue),
    - [RecordingManager] : lib/recording-manager.js (upload queue and the
                           compression stage),
    - [S3Uploader]       : lib/s3-uploader.js together with
                           [Utils.createRetryWrapper],
    - [Utils]            : lib/utils.js (payload redaction, templates,
                           connection settings),
    - [ConfigLoader]     : lib/config-loader.js (types, environment,
                           validation, templates),
    - [GuacamoleLiteServer] : lib/index.js (the settings of a connection).

    JavaScript runs one synchronous segment at a time; an [async] function is
    suspended at each [await].  Every drain loop is therefore modelled as a
    coroutine: the state records where each running instance of the loop is
    suspended, and an event (a timer firing, a delivery settling, a call from
    outside) runs the code up to the next [await]. *)

From Stdlib Require Import ZArith Lia List String Ascii Bool DecimalString DecimalN.
From stdpp Require Import base tactics option list strings gmap.

Open Scope Z_scope.

(** ** lib/utils.js *)

Module Utils.

(** *** createRetryWrapper *)

Section Retry.
Context {World Val Err : Type}.

(** [fn.apply(this, args)] with its arguments fixed: an effect on the world
    that resolves ([inl]) or rejects ([inr]). *)
Variable fn : World -> (Val + Err) * World.

(** What the wrapper did: the number of calls of [fn] and the delays it
    slept between them, in order. *)
Record retry_run := RetryRun {
  outcome : Val + Err;
  world : World;
  calls : nat;
  delays : list Z
}.

(** The [for] loop of the wrapper from [attempt] on; [remaining] is
    [maxRetries - attempt]. *)
Fixpoint retry_from (baseDelay : Z) (remaining : nat) (attempt : nat) (w : World) : retry_run :=
  match fn w with
  | (inl v, w') => {| outcome := inl v; world := w'; calls := 1; delays := [] |}
  | (inr e, w') =>
      match remaining with
      | O => {| outcome := inr e; world := w'; calls := 1; delays := [] |}  (* attempt === maxRetries *)
      | S r =>
          let delay := baseDelay * 2 ^ Z.of_nat attempt in
          let k := retry_from baseDelay r (S attempt) w' in
          {| outcome := outcome k; world := world k;
             calls := S (calls k); delays := delay :: delays k |}
      end
  end.

Definition createRetryWrapper (maxRetries : nat) (baseDelay : Z) (w : World) : retry_run :=
  retry_from baseDelay maxRetries 0 w.

End Retry.

(** *** getFileExtensionForCompression *)

Definition getFileExtensionForCompression (format : string) : string :=
  if String.eqb format "gzip" then ".gz"
  else if String.eqb format "zip" then ".zip"
  else "".

(** *** sanitizeWebhookPayload on JSON trees *)

(** The values [JSON.parse] builds.  Numbers are integers here; the keys of an
    object are kept in an association list, in the order of [Object.keys]. *)
#[local] Unset Elimination Schemes.
Inductive json :=
| JNull
| JBool (b : bool)
| JNum (n : Z)
| JStr (s : string)
| JArr (elems : list json)
| JObj (fields : list (string * json)).
#[local] Set Elimination Schemes.

Definition sensitiveFields : list string :=
  ["password"; "private-key"; "secret"; "token"; "passphrase";
   "secret_key"; "access_key"; "api_key"]%string.

Definition marker : string := "[REDACTED]".

(** [c.toLowerCase()] on the letters A-Z; other characters are kept. *)
Definition lower_ascii (c : ascii) : ascii :=
  let n := N_of_ascii c in
  if (65 <=? n)%N && (n <=? 90)%N then ascii_of_N (n + 32) else c.

Fixpoint toLowerCase (s : string) : string :=
  match s with
  | EmptyString => EmptyString
  | String c r => String (lower_ascii c) (toLowerCase r)
  end.

(** [s.includes(pat)] *)
Fixpoint includes (s pat : string) : bool :=
  String.prefix pat s ||
  match s with
  | EmptyString => false
  | String _ r => includes r pat
  end.

(** [sensitiveFields.some(field => key.toLowerCase().includes(field))] *)
Definition is_sensitive (key : string) : bool :=
  existsb (fun field => includes (toLowerCase key) field) sensitiveFields.

(** The key of the [i]-th element of an array in [Object.keys]. *)
Definition index_key (i : nat) : string :=
  DecimalString.NilEmpty.string_of_uint (Nat.to_uint i).

(** What the inner function [removeSensitiveFields] leaves in place of a
    tree.  It is called on objects and arrays ([typeof] is ['object'] for
    both, and for [null], on which it does nothing). *)
Fixpoint removeSensitiveFields (j : json) : json :=
  match j with
  | JObj fields =>
      JObj ((fix go (fs : list (string * json)) : list (string * json) :=
               match fs with
               | [] => []
               | (k, v) :: r =>
                   (k, if is_sensitive k then JStr marker else removeSensitiveFields v) :: go r
               end) fields)
  | JArr elems =>
      JArr ((fix go (i : nat) (l : list json) : list json :=
               match l with
               | [] => []
               | v :: r =>
                   (if is_sensitive (index_key i) then JStr marker
                    else removeSensitiveFields v) :: go (S i) r
               end) 0%nat elems)
  | _ => j
  end.

(** [!data || typeof data !== 'object'] on a JSON value.  [false], [0] and
    the empty string are falsy, and no primitive has type ['object']; [null]
    has, but is falsy. *)
Definition returned_as_is (j : json) : bool :=
  match j with
  | JObj _ | JArr _ => false
  | _ => true
  end.

(** [sanitizeWebhookPayload] seen as a function on trees: the copy
    [JSON.parse(JSON.stringify(data))] of a tree is the same tree. *)
Definition sanitizeWebhookPayload (data : json) : json :=
  if returned_as_is data then data else removeSensitiveFields data.

(** Reading a value by a path of keys and indices. *)
Inductive key :=
| Prop_ (name : string)
| Index (i : nat).

Definition key_name (k : key) : string :=
  match k with
  | Prop_ name => name
  | Index i => index_key i
  end.

Fixpoint assoc {A} (name : string) (fields : list (string * A)) : option A :=
  match fields with
  | [] => None
  | (k, v) :: r => if String.eqb k name then Some v else assoc name r
  end.

Definition get (k : key) (j : json) : option json :=
  match k, j with
  | Prop_ name, JObj fields => assoc name fields
  | Index i, JArr elems => elems !! i
  | _, _ => None
  end.

Fixpoint get_path (p : list key) (j : json) : option json :=
  match p with
  | [] => Some j
  | k :: r =>
      match get k j with
      | Some v => get_path r v
      | None => None
      end
  end.

(** *** sanitizeWebhookPayload on the JavaScript heap

    Objects are mutable and shared by reference, so what the function does to
    its argument is read off a store: a value is a primitive or the address
    of an object, and the heap maps the addresses in use to objects.  A new
    object gets the next address. *)

Inductive val :=
| VUndefined
| VNull
| VBool (b : bool)
| VNum (n : Z)
| VStr (s : string)
| VRef (l : nat).

Inductive obj :=
| OObj (props : list (string * val))
| OArr (items : list val).

Abbreviation heap := (list obj).

(** JavaScript truthiness. *)
Definition truthy (v : val) : bool :=
  match v with
  | VUndefined | VNull | VBool false => false
  | VNum n => negb (n =? 0)
  | VStr s => negb (String.eqb s "")
  | _ => true
  end.

Definition alloc (o : obj) (h : heap) : val * heap :=
  (VRef (length h), h ++ [o]).

(** [Object.keys(obj)] *)
Definition keys (o : obj) : list key :=
  match o with
  | OObj props => map (fun kv => Prop_ (fst kv)) props
  | OArr items => map Index (seq 0 (length items))
  end.

(** [obj[key]] *)
Definition get_prop (k : key) (o : obj) : option val :=
  match k, o with
  | Prop_ name, OObj props => assoc name props
  | Index i, OArr items => items !! i
  | _, _ => None
  end.

Fixpoint set_assoc {A} (name : string) (x : A) (fields : list (string * A)) : list (string * A) :=
  match fields with
  | [] => []
  | (k, v) :: r =>
      if String.eqb k name then (k, x) :: r else (k, v) :: set_assoc name x r
  end.

(** [obj[key] = x] for a key the object has. *)
Definition set_prop (k : key) (x : val) (o : obj) : obj :=
  match k, o with
  | Prop_ name, OObj props => OObj (set_assoc name x props)
  | Index i, OArr items => OArr (<[i := x]> items)
  | _, _ => o
  end.

(** [JSON.stringify] up to the text: the tree a value denotes.  A property
    whose value is [undefined] is left out, an [undefined] array element is
    written [null].  [None]: the call throws (on a cyclic structure, which no
    amount of fuel unfolds). *)
Definition stringify_props (rec : val -> option json) :=
  fix go (ps : list (string * val)) : option (list (string * json)) :=
    match ps with
    | [] => Some []
    | (k, VUndefined) :: r => go r
    | (k, x) :: r =>
        match rec x, go r with
        | Some j, Some js => Some ((k, j) :: js)
        | _, _ => None
        end
    end.

Definition stringify_items (rec : val -> option json) :=
  fix go (xs : list val) : option (list json) :=
    match xs with
    | [] => Some []
    | x :: r =>
        match rec x, go r with
        | Some j, Some js => Some (j :: js)
        | _, _ => None
        end
    end.

Fixpoint stringify (fuel : nat) (h : heap) (v : val) : option json :=
  match v with
  | VUndefined | VNull => Some JNull
  | VBool b => Some (JBool b)
  | VNum n => Some (JNum n)
  | VStr s => Some (JStr s)
  | VRef l =>
      match fuel with
      | O => None
      | S f =>
          match h !! l with
          | None => None
          | Some (OObj props) => option_map JObj (stringify_props (stringify f h) props)
          | Some (OArr items) => option_map JArr (stringify_items (stringify f h) items)
          end
      end
  end.

(** [JSON.parse] from the tree: every object and array of the tree is a new
    object on the heap, allocated once its members are. *)
Definition parse_items (rec : json -> heap -> val * heap) :=
  fix go (l : list json) (h : heap) : list val * heap :=
    match l with
    | [] => ([], h)
    | e :: r =>
        let '(x, h1) := rec e h in
        let '(xs, h2) := go r h1 in
        (x :: xs, h2)
    end.

Definition parse_props (rec : json -> heap -> val * heap) :=
  fix go (l : list (string * json)) (h : heap) : list (string * val) * heap :=
    match l with
    | [] => ([], h)
    | (k, e) :: r =>
        let '(x, h1) := rec e h in
        let '(ps, h2) := go r h1 in
        ((k, x) :: ps, h2)
    end.

Fixpoint parse (j : json) (h : heap) : val * heap :=
  match j with
  | JNull => (VNull, h)
  | JBool b => (VBool b, h)
  | JNum n => (VNum n, h)
  | JStr s => (VStr s, h)
  | JArr elems =>
      let '(xs, h1) := parse_items parse elems h in
      alloc (OArr xs) h1
  | JObj fields =>
      let '(ps, h1) := parse_props parse fields h in
      alloc (OObj ps) h1
  end.

(** The loop [for (const key of Object.keys(obj))] of the inner function
    [removeSensitiveFields(obj)] over the keys left, for the object at [l];
    [rec] is the inner function itself. *)
Fixpoint remove_loop (rec : heap -> val -> option heap) (l : nat) (ks : list key)
    (h : heap) : option heap :=
  match ks with
  | [] => Some h
  | k :: r =>
      if is_sensitive (key_name k)
      then remove_loop rec l r (alter (set_prop k (VStr marker)) l h)
      else
        match h !! l with
        | None => None
        | Some o =>
            match get_prop k o with
            | Some (VRef l') =>               (* typeof obj[key] === 'object' *)
                match rec h (VRef l') with
                | Some h' => remove_loop rec l r h'
                | None => None
                end
            | _ => remove_loop rec l r h      (* a primitive, or null *)
            end
        end
  end.

(** The inner function [removeSensitiveFields(obj)], which writes into the
    object it is given.  [None]: out of fuel. *)
Fixpoint removeSensitiveFields_at (fuel : nat) (h : heap) (v : val) : option heap :=
  match v with
  | VRef l =>                      (* typeof obj === 'object' && obj !== null *)
      match fuel with
      | O => None
      | S f =>
          match h !! l with
          | None => None
          | Some o => remove_loop (removeSensitiveFields_at f) l (keys o) h
          end
      end
  | _ => Some h
  end.

(** [Utils.sanitizeWebhookPayload(data)] on the heap: the value returned and
    the heap afterwards.  [None]: [JSON.stringify] throws, or out of fuel. *)
Definition sanitizeWebhookPayload_at (fuel : nat) (h : heap) (data : val) : option (val * heap) :=
  match data with
  | VRef _ =>
      match stringify fuel h data with
      | None => None
      | Some j =>
          let '(sanitized, h1) := parse j h in
          match removeSensitiveFields_at fuel h1 sanitized with
          | Some h2 => Some (sanitized, h2)
          | None => None
          end
      end
  | _ => Some (data, h)            (* !data || typeof data !== 'object' *)
  end.

(** *** Notions the proofs use *)

(** Decimal digits, of which the keys of array elements are made. *)
Definition is_digit (c : ascii) : bool :=
  (48 <=? N_of_ascii c)%N && (N_of_ascii c <=? 57)%N.

Fixpoint all_digits (s : string) : bool :=
  match s with
  | EmptyString => true
  | String c r => is_digit c && all_digits r
  end.

(** What the loop of [removeSensitiveFields] does to one property. *)
Definition redact_field (kv : string * json) : string * json :=
  (fst kv, if is_sensitive (fst kv) then JStr marker else removeSensitiveFields (snd kv)).

(** A path none of whose keys matches the list. *)
Definition plain (p : list key) : Prop :=
  Forall (fun k => is_sensitive (key_name k) = false) p.

(** A value [JSON.parse] can build: not [undefined], and if an address, one
    from [n] up to [m]. *)
Definition val_ok (n m : nat) (v : val) : Prop :=
  match v with
  | VRef l => (n <= l < m)%nat
  | VUndefined => False
  | _ => True
  end.

Definition obj_vals (o : obj) : list val :=
  match o with
  | OObj props => map snd props
  | OArr items => items
  end.

(** From address [n] on, an object only holds addresses between [n] and its
    own: the objects from [n] on are trees or forests built bottom-up. *)
Definition region (n : nat) (h : heap) : Prop :=
  forall l o, (n <= l)%nat -> h !! l = Some o -> Forall (val_ok n l) (obj_vals o).

(** The heap [h'] still holds what [h] held below [n]. *)
Definition same_below (n : nat) (h h' : heap) : Prop :=
  length h' = length h /\ forall i, (i < n)%nat -> h' !! i = h !! i.

(** What [JSON.parse] does to a heap whose objects from [n] on are such trees. *)
Definition parse_ok (j : json) : Prop :=
  forall n h, (n <= length h)%nat -> region n h ->
    exists ext, snd (parse j h) = h ++ ext /\
      val_ok n (length (h ++ ext)) (fst (parse j h)) /\ region n (h ++ ext).

(** [rec] keeps the trees and writes from [n] on only. *)
Definition frames (n : nat) (rec : heap -> val -> option heap) : Prop :=
  forall h v h', region n h -> val_ok n (length h) v -> rec h v = Some h' ->
    region n h' /\ same_below n h h'.

(** [rec] returns on the addresses below [f]. *)
Definition total (n f : nat) (rec : heap -> val -> option heap) : Prop :=
  forall h v, region n h -> val_ok n (Nat.min f (length h)) v -> is_Some (rec h v).

(** One property after some writes of the loop: the name is the same, and
    the value is the same or, under a name that matches, the marker. *)
Definition entry_between (e0 e : string * val) : Prop :=
  fst e = fst e0 /\
  (snd e = snd e0 \/ (is_sensitive (fst e0) = true /\ snd e = VStr marker)).

Definition obj_between (o0 o : obj) : Prop :=
  match o0, o with
  | OObj p0, OObj p => Forall2 entry_between p0 p
  | OArr x0, OArr x => x0 = x
  | _, _ => False
  end.

(** The heap [h] is [h0] after some such writes. *)
Definition between (h0 h : heap) : Prop :=
  length h = length h0 /\
  forall l o0 o, h0 !! l = Some o0 -> h !! l = Some o -> obj_between o0 o.

Definition entry_redacted (P : val -> Prop) (e : string * val) : Prop :=
  if is_sensitive (fst e) then snd e = VStr marker else P (snd e).

(** The object at an address holds the marker under every key that matches
    and objects of which the same holds under the others. *)
Fixpoint redacted (f : nat) (h : heap) (v : val) : Prop :=
  match v with
  | VRef l =>
      match f with
      | O => False
      | S f' =>
          match h !! l with
          | Some (OObj props) => Forall (entry_redacted (redacted f' h)) props
          | Some (OArr items) => Forall (redacted f' h) items
          | None => False
          end
      end
  | _ => True
  end.

(** No object has two properties of the same name, as in JavaScript. *)
Definition obj_distinct (o : obj) : Prop :=
  match o with
  | OObj props => NoDup (map fst props)
  | OArr _ => True
  end.

Definition heap_distinct (h : heap) : Prop := Forall obj_distinct h.

(** The same of a tree. *)
Fixpoint json_distinct (j : json) : Prop :=
  match j with
  | JArr elems => foldr (fun e P => json_distinct e /\ P) True elems
  | JObj fields =>
      NoDup (map fst fields) /\
      foldr (fun kv P => json_distinct (snd kv) /\ P) True fields
  | _ => True
  end.

(** *** Notions for the retry wrapper *)

(** The time the wrapper spends sleeping. *)
Definition total_delay (ds : list Z) : Z := foldr Z.add 0 ds.

(** *** Templates: [template.replace(/\{\{(\w+)\}\}/g, callback)]

    The same call is made by [generateFilename], [createConnectionSettings],
    [S3Uploader.generateS3Key] and [ConfigLoader.interpolateTemplate], each
    with a callback of its own.  Strings are sequences of ASCII characters. *)

(** [\w]: a letter, a digit or the underscore. *)
Definition is_word (c : ascii) : bool :=
  let n := N_of_ascii c in
  ((48 <=? n)%N && (n <=? 57)%N) || ((65 <=? n)%N && (n <=? 90)%N) ||
  ((97 <=? n)%N && (n <=? 122)%N) || (n =? 95)%N.

(** The longest run of word characters at the start of [s], and the rest. *)
Fixpoint span_word (s : string) : string * string :=
  match s with
  | EmptyString => (EmptyString, EmptyString)
  | String c r =>
      if is_word c
      then let '(w, rest) := span_word r in (String c w, rest)
      else (EmptyString, s)
  end.

(** The regular expression at the start of [s]: the key it captures and
    what follows the match.  [\w+] is greedy and what must follow it is no
    word character, so the key is the longest run. *)
Definition match_placeholder (s : string) : option (string * string) :=
  match s with
  | String c1 (String c2 r) =>
      if Ascii.eqb c1 "{" && Ascii.eqb c2 "{"
      then
        match span_word r with
        | (String c w, String d1 (String d2 rest)) =>
            if Ascii.eqb d1 "}" && Ascii.eqb d2 "}" then Some (String c w, rest) else None
        | _ => None
        end
      else None
  | _ => None
  end.

(** A string of word characters. *)
Fixpoint all_word (s : string) : bool :=
  match s with
  | EmptyString => true
  | String c r => is_word c && all_word r
  end.

(** The text a placeholder for [key] matches. *)
Definition placeholder (key : string) : string := ("{{" +:+ key +:+ "}}")%string.

(** The replacement from left to right; [callback key] is the string the
    callback returns for a match with that key, [None] when it returns the
    match itself.  What is put in is not scanned again.  [fuel] bounds the
    number of steps; the length of the string is enough. *)
Fixpoint replace_from (fuel : nat) (callback : string -> option string) (s : string) : string :=
  match fuel with
  | O => s
  | S n =>
      match match_placeholder s with
      | Some (key, rest) =>
          (default (placeholder key) (callback key) +:+ replace_from n callback rest)%string
      | None =>
          match s with
          | EmptyString => EmptyString
          | String c r => String c (replace_from n callback r)
          end
      end
  end.

Definition replace_placeholders (callback : string -> option string) (template : string) : string :=
  replace_from (String.length template) callback template.

(** A JavaScript value as the templates see it: a string, or something else
    of which only the truthiness and the string it converts to matter. *)
Inductive tvalue :=
| TStr (s : string)
| TOther (truthy : bool) (shown : string).

Definition truthy_t (v : tvalue) : bool :=
  match v with
  | TStr s => negb (String.eqb s "")
  | TOther t _ => t
  end.

(** [String(v)] *)
Definition show (v : tvalue) : string :=
  match v with
  | TStr s => s
  | TOther _ shown => shown
  end.

(** [s.replace(/[:.]/g, '-')] *)
Fixpoint dashes (s : string) : string :=
  match s with
  | EmptyString => EmptyString
  | String c r => String (if Ascii.eqb c ":" || Ascii.eqb c "." then "-"%char else c) (dashes r)
  end.

(** What [value || match] puts in place of a placeholder for [key]. *)
Definition fill (value : option tvalue) (key : string) : string :=
  match value with
  | Some v => if truthy_t v then show v else placeholder key
  | None => placeholder key
  end.

Section Templates.
(** The properties of [Object.prototype], which every object read below
    inherits: the value of [({})[key]], if there is one. *)
Variable proto : string -> option tvalue.

(** [obj[key]] for an object with the own properties [own]. *)
Definition read (own : string -> option tvalue) (key : string) : option tvalue :=
  match own key with
  | Some v => Some v
  | None => proto key
  end.

(** [{ timestamp, ...data }], as own properties. *)
Definition templateData (timestamp : string) (data : string -> option tvalue)
    (key : string) : option tvalue :=
  match data key with
  | Some v => Some v
  | None => if String.eqb key "timestamp" then Some (TStr timestamp) else None
  end.

(** [generateFilename(template, data)] for a template that is a string or
    missing; [iso] is [new Date().toISOString()] and [data] gives the own
    properties of [data]. *)
Definition generateFilename (template : option string) (iso : string)
    (data : string -> option tvalue) : string :=
  match template with
  | None => "recording.guac"
  | Some t =>
      if String.eqb t "" then "recording.guac"
      else
        let timestamp := dashes iso in
        replace_placeholders
          (fun key =>                                 (* templateData[key] || match *)
             match read (templateData timestamp data) key with
             | Some v => if truthy_t v then Some (show v) else None
             | None => None
             end) t
  end.

End Templates.

(** *** createConnectionSettings *)

Section Settings.
Variable proto : string -> option tvalue.

(** [Object.assign(target, source)] on the own enumerable properties of the
    two objects: those of [source] are written over those of [target]. *)
Definition assign (target source : gmap string tvalue) : gmap string tvalue :=
  source ∪ target.

(** [obj[key]] for an object whose own properties are a finite map. *)
Definition prop (obj : gmap string tvalue) (key : string) : option tvalue :=
  read proto (fun k => obj !! k) key.

(** [v === 'rdp'] *)
Definition is_rdp (v : option tvalue) : bool :=
  match v with
  | Some (TStr s) => String.eqb s "rdp"
  | _ => false
  end.

(** Is a value that may be missing truthy? *)
Definition truthy_opt (v : option tvalue) : bool :=
  match v with
  | Some x => truthy_t x
  | None => false
  end.

(** A configuration value that is a string or missing is truthy. *)
Definition configured (v : option string) : bool :=
  match v with
  | Some s => negb (String.eqb s "")
  | None => false
  end.

(** Does the regular expression of the templates match somewhere in [s]?
    Then, and only then, [replace] calls its callback. *)
Fixpoint has_placeholder (s : string) : bool :=
  match match_placeholder s with
  | Some _ => true
  | None =>
      match s with
      | EmptyString => false
      | String _ r => has_placeholder r
      end
  end.

(** [createConnectionSettings(token, config)].  [token] holds the own
    properties of the token and [meta] those of [token.meta];
    [defaults] is [config.defaults], an object whose properties are objects
    (the sections [defaults.<name>] of the configuration), or missing: what
    it inherits has no enumerable property of its own, so nothing is copied
    from there.  [drive_path_template] is a string or missing. *)
Definition createConnectionSettings (token : gmap string tvalue)
    (meta : string -> option tvalue)
    (defaults : option (gmap string (gmap string tvalue)))
    (drive_path_template : option string) : gmap string tvalue :=
  let settings := token in                           (* { ...token } *)
  let settings :=
    match defaults with
    | Some d =>
        let settings :=
          match d !! "all"%string with
          | Some all => assign settings all
          | None => settings
          end in
        match prop settings "protocol" with
        | Some p =>
            if truthy_t p
            then match d !! show p with
                 | Some section => assign settings section
                 | None => settings
                 end
            else settings
        | None => settings
        end
    | None => settings
    end in
  if configured drive_path_template && is_rdp (prop settings "protocol")
  then
    let has_meta := truthy_opt (prop token "meta") in (* token.meta && ... *)
    let drivePath :=
      replace_placeholders
        (fun key =>
           if has_meta
           then match read proto meta key with
                | Some v => if truthy_t v then Some (show v) else None
                | None => None
                end
           else None)
        (default ""%string drive_path_template) in
    <["drive-path"%string := TStr drivePath]> settings
  else settings.

End Settings.

End Utils.
(** ** lib/s3-uploader.js *)

Module S3Uploader.

(** What one call of [upload(filePath, connection)] meets. *)
Record env := Env {
  isAvailable : bool;                (* this.initialized && this.s3 *)
  file_exists : bool;                (* fs.existsSync(filePath) *)
  token_bucket : option string;      (* connection.token?.s3?.bucket *)
  default_bucket : option string;    (* this.config.s3_default_bucket *)
  s3Key : string;                    (* this.generateS3Key(filePath, connection) *)
  performUpload : nat -> bool        (* does the n-th call of performUpload resolve *)
}.

Definition truthy (o : option string) : bool :=
  match o with
  | Some s => negb (String.eqb s "")
  | None => false
  end.

(** [None]: 'No S3 bucket specified in token or configuration' is thrown. *)
Definition getBucket (e : env) : option string :=
  if truthy (token_bucket e) then token_bucket e
  else if truthy (default_bucket e) then default_bucket e
  else None.

(** [this.performUpload.bind(this)] as an effect on the number of calls made. *)
Definition perform (e : env) (n : nat) : (unit + unit) * nat :=
  (if performUpload e n then inl tt else inr tt, S n).

(** [upload]: the key it resolves with ([None]: it rejects) and the number of
    calls of [performUpload] it made. *)
Definition upload (e : env) : option string * nat :=
  if negb (isAvailable e) then (None, 0%nat)
  else if negb (file_exists e) then (None, 0%nat)
  else
    match getBucket e with
    | None => (None, 0%nat)
    | Some bucket =>
        let r := Utils.createRetryWrapper (perform e) 3 2000 0%nat in
        match Utils.outcome r with
        | inl _ => (Some (s3Key e), Utils.calls r)
        | inr _ => (None, Utils.calls r)
        end
    end.

(** *** generateS3Key *)

Section Key.
Variable proto : string -> option Utils.tvalue.

(** [generateS3Key(filePath, connection)]: [filename] is
    [path.basename(filePath)], [meta] gives the own properties of
    [connection.token?.meta || {}], and [s3_key_template] is a string or
    missing. *)
Definition generateS3Key (s3_key_template : option string) (filename : string)
    (meta : string -> option Utils.tvalue) : string :=
  let truthy_at key :=                               (* meta[key] is truthy *)
    match Utils.read proto meta key with
    | Some v => Utils.truthy_t v
    | None => false
    end in
  let default_template :=
    if truthy_at "userId" then ("recordings/{{userId}}/" +:+ filename)%string
    else ("recordings/" +:+ filename)%string in
  let keyTemplate :=
    match s3_key_template with
    | Some t => if String.eqb t "" then default_template else t
    | None => default_template
    end in
  Utils.replace_placeholders
    (fun key =>
       if String.eqb key "filename" then Some filename
       else
         match Utils.read proto meta key with
         | Some v => if Utils.truthy_t v then Some (Utils.show v) else None
         | None => None
         end)
    keyTemplate.

End Key.

End S3Uploader.

(** ** lib/recording-manager.js *)

Module RecordingManager.

(** *** compressRecording *)

Inductive io :=
| CompressWithGzip (input output : string)
| CompressWithZip (input output : string)
| ExistsSync (path : string)
| Unlink (path : string).

(** The files that exist, and the calls made so far. *)
Record disk := Disk {
  files : gset string;
  calls : list io
}.

(** What the stream libraries and the file system do during one call of
    [compressRecording]. *)
Record oracle := Oracle {
  transform_resolves : bool;   (* the promise of compressWithGzip/Zip resolves *)
  output_on_disk : bool;       (* the output path exists once it has settled *)
  unlink_resolves : bool       (* fs.unlink calls back without an error *)
}.

Inductive result (A : Type) :=
| Resolved (a : A)
| Rejected.
Arguments Resolved {A} a.
Arguments Rejected {A}.

Definition M (A : Type) : Type := disk -> result A * disk.

Definition ret {A} (a : A) : M A := fun d => (Resolved a, d).

Definition bind {A B} (m : M A) (f : A -> M B) : M B :=
  fun d =>
    match m d with
    | (Resolved a, d') => f a d'
    | (Rejected, d') => (Rejected, d')
    end.

Notation "'let*' x := m 'in' k" := (bind m (fun x => k))
  (at level 10, x pattern, m at level 100, k at level 200).

Definition called (c : io) (d : disk) : disk :=
  {| files := files d; calls := calls d ++ [c] |}.

(** A transform reads the input and writes the output; it settles with the
    output present or not. *)
Definition transform (c : io) (o : oracle) (output : string) : M unit :=
  fun d =>
    let d' := {| files := if output_on_disk o then files d ∪ {[output]}
                          else files d ∖ {[output]};
                 calls := calls d ++ [c] |} in
    (if transform_resolves o then Resolved tt else Rejected, d').

Definition compressWithGzip (o : oracle) (inputPath outputPath : string) : M unit :=
  transform (CompressWithGzip inputPath outputPath) o outputPath.

Definition compressWithZip (o : oracle) (inputPath outputPath : string) : M unit :=
  transform (CompressWithZip inputPath outputPath) o outputPath.

Definition existsSync (path : string) : M bool :=
  fun d => (Resolved (bool_decide (path ∈ files d)), called (ExistsSync path) d).

(** [await promisify(fs.unlink)(path)] *)
Definition unlink (o : oracle) (path : string) : M unit :=
  fun d =>
    if unlink_resolves o && bool_decide (path ∈ files d)
    then (Resolved tt, {| files := files d ∖ {[path]}; calls := calls d ++ [Unlink path] |})
    else (Rejected, called (Unlink path) d).

(** [this.config.recordings_compression_format || 'none'] *)
Definition format_of (recordings_compression_format : option string) : string :=
  match recordings_compression_format with
  | Some f => if String.eqb f "" then "none" else f
  | None => "none"
  end.

(** The [try] block: [Some p] when it executes [return p]. *)
Definition try_block (format : string) (o : oracle) (inputPath outputPath : string) : M (option string) :=
  let* _ := (if String.eqb format "gzip" then compressWithGzip o inputPath outputPath
             else if String.eqb format "zip" then compressWithZip o inputPath outputPath
             else ret tt) in
  let* present := existsSync outputPath in
  if (present : bool)
  then let* _ := unlink o inputPath in ret (Some outputPath)
  else ret None.

Definition compressRecording (recordings_compression_format : option string)
    (o : oracle) (inputPath : string) : M string :=
  let format := format_of recordings_compression_format in
  if String.eqb format "none" then ret inputPath
  else
    let outputPath := (inputPath +:+ Utils.getFileExtensionForCompression format)%string in
    fun d =>
      match try_block format o inputPath outputPath d with
      | (Resolved (Some p), d') => (Resolved p, d')
      | (Resolved None, d') => (Resolved inputPath, d')
      | (Rejected, d') => (Resolved inputPath, d')     (* catch: 'Compression failed:' *)
      end.

(** The path of the compressed file. *)
Definition gz (inputPath : string) : string := (inputPath +:+ ".gz")%string.

(** *** The upload queue *)

Section Queue.
Context {Conn : Type}.

(** An entry of [this.uploadQueue].  [uid] stands for the identity of the
    object; [tries] counts the calls of [performUpload] made for it and is
    not a field of the object either. *)
Record upload := Upload {
  uid : nat;
  filePath : string;
  connection : Conn;
  sessionId : string;
  attempts : Z;
  maxAttempts : Z;
  tries : nat
}.

(** Where an instance of [processUploadQueue] is suspended. *)
Inductive pc :=
| AwaitUpload (u : upload)     (* await this.uploadRecording(upload) *)
| AwaitBackoff (ms : Z).       (* await new Promise(r => setTimeout(r, 5000 * upload.attempts)) *)

Inductive action :=
| UploadRecording (u : upload)   (* this.uploadRecording(upload) is called *)
| Uploaded (u : upload)          (* it resolved *)
| UploadFailed (u : upload)      (* 'Upload failed:' *)
| MaxReached (u : upload).       (* 'Max upload attempts reached for:' *)

Record state := State {
  uploadQueue : list upload;     (* this.uploadQueue *)
  processing : bool;             (* this.processing *)
  loops : list pc;               (* suspended instances of processUploadQueue *)
  fresh : nat;
  log : list action
}.

Definition init : state :=
  {| uploadQueue := []; processing := false; loops := []; fresh := 0%nat; log := [] |}.

Definition set_queue (q : list upload) (s : state) : state :=
  {| uploadQueue := q; processing := processing s; loops := loops s;
     fresh := fresh s; log := log s |}.
Definition set_processing (b : bool) (s : state) : state :=
  {| uploadQueue := uploadQueue s; processing := b; loops := loops s;
     fresh := fresh s; log := log s |}.
Definition set_loops (l : list pc) (s : state) : state :=
  {| uploadQueue := uploadQueue s; processing := processing s; loops := l;
     fresh := fresh s; log := log s |}.
Definition set_fresh (n : nat) (s : state) : state :=
  {| uploadQueue := uploadQueue s; processing := processing s; loops := loops s;
     fresh := n; log := log s |}.
Definition add_log (a : action) (s : state) : state :=
  {| uploadQueue := uploadQueue s; processing := processing s; loops := loops s;
     fresh := fresh s; log := log s ++ [a] |}.

(** [uploadRecording(upload)]: whether it resolves, and the calls of
    [performUpload] it made.  [s3Uploader] is [None] when the manager has no
    uploader.  Deleting the local file afterwards cannot make it reject. *)
Definition uploadRecording (s3Uploader : option S3Uploader.env) : bool * nat :=
  match s3Uploader with
  | None => (false, 0%nat)          (* 'S3 uploader not available' *)
  | Some e =>
      match S3Uploader.upload e with
      | (Some _, n) => (true, n)
      | (None, n) => (false, n)
      end
  end.

Definition tried (n : nat) (u : upload) : upload :=
  {| uid := uid u; filePath := filePath u; connection := connection u;
     sessionId := sessionId u; attempts := attempts u;
     maxAttempts := maxAttempts u; tries := (tries u + n)%nat |}.

(** [5000 * upload.attempts] *)
Definition retryDelay (attempts : Z) : Z := 5000 * attempts.

(** From the test of [while (this.uploadQueue.length > 0)] to the [await]. *)
Definition loop_head (s : state) : state * option pc :=
  match uploadQueue s with
  | [] => (set_processing false s, None)
  | u :: q => (add_log (UploadRecording u) (set_queue q s), Some (AwaitUpload u))
  end.

(** The [catch] block up to its [await], or to the next [await] of the loop
    when the upload is given up. *)
Definition on_rejected (u : upload) (s : state) : state * option pc :=
  let s1 := add_log (UploadFailed u) s in
  let a := attempts u + 1 in                      (* upload.attempts++ *)
  let u' := {| uid := uid u; filePath := filePath u; connection := connection u;
               sessionId := sessionId u; attempts := a;
               maxAttempts := maxAttempts u; tries := tries u |} in
  if a <? maxAttempts u
  then (set_queue (uploadQueue s1 ++ [u']) s1, Some (AwaitBackoff (retryDelay a)))
  else loop_head (add_log (MaxReached u') s1).

Definition on_resolved (u : upload) (s : state) : state * option pc :=
  loop_head (add_log (Uploaded u) s).

Definition spawn (r : state * option pc) : state :=
  match r with
  | (s, Some k) => set_loops (loops s ++ [k]) s
  | (s, None) => s
  end.

Definition resume (i : nat) (r : state * option pc) : state :=
  match r with
  | (s, Some k) => set_loops (<[i := k]> (loops s)) s
  | (s, None) => set_loops (delete i (loops s)) s
  end.

Definition processUploadQueue (s : state) : state :=
  if processing s || (length (uploadQueue s) =? 0)%nat
  then s
  else spawn (loop_head (set_processing true s)).

Definition queueForUpload (path : string) (c : Conn) (sid : string) (s : state) : state :=
  let u := {| uid := fresh s; filePath := path; connection := c; sessionId := sid;
              attempts := 0; maxAttempts := 3; tries := 0%nat |} in
  processUploadQueue (set_fresh (S (fresh s)) (set_queue (uploadQueue s ++ [u]) s)).

(** The test of [while (this.uploadQueue.length > 0 && this.processing)]. *)
Definition cleanup_waits (s : state) : bool :=
  (0 <? length (uploadQueue s))%nat && processing s.

Inductive event :=
| QueueForUpload (path : string) (c : Conn) (sid : string)
| ProcessUploadQueue
| TimerFired (i : nat)
| UploadSettled (i : nat) (s3Uploader : option S3Uploader.env).

Definition step (e : event) (s : state) : option state :=
  match e with
  | QueueForUpload path c sid => Some (queueForUpload path c sid s)
  | ProcessUploadQueue => Some (processUploadQueue s)
  | TimerFired i =>
      match loops s !! i with
      | Some (AwaitBackoff _) => Some (resume i (loop_head s))
      | _ => None
      end
  | UploadSettled i s3 =>
      match loops s !! i with
      | Some (AwaitUpload u) =>
          let '(ok, n) := uploadRecording s3 in
          Some (resume i ((if ok then on_resolved else on_rejected) (tried n u) s))
      | _ => None
      end
  end.

Fixpoint exec (es : list event) (s : state) : option state :=
  match es with
  | [] => Some s
  | e :: es' =>
      match step e s with
      | Some s' => exec es' s'
      | None => None
      end
  end.

Definition reachable (s : state) : Prop := exists es, exec es init = Some s.

Definition in_flight (k : pc) : list upload :=
  match k with
  | AwaitUpload u => [u]
  | AwaitBackoff _ => []
  end.

Definition is_call (a : action) : bool :=
  match a with
  | UploadRecording _ => true
  | _ => false
  end.

(** Number of calls of [uploadRecording] so far. *)
Definition uploads (s : state) : nat :=
  length (List.filter is_call (log s)).

(** The uploads being delivered, and the identities of all the uploads the
    manager holds. *)
Definition flights (s : state) : list upload := concat (map in_flight (loops s)).
Definition ids (s : state) : list nat := map uid (uploadQueue s ++ flights s).

(** An upload given up or delivered, as the log shows it. *)
Definition settled (a : action) : list upload :=
  match a with
  | Uploaded u | MaxReached u => [u]
  | _ => []
  end.

(** An upload the manager holds has failed fewer times than its ceiling,
    and at most four calls of [performUpload] were made for each failure. *)
Definition good (u : upload) : Prop :=
  0 <= attempts u < maxAttempts u /\ Z.of_nat (tries u) <= 4 * attempts u.

Definition capped (u : upload) : Prop :=
  Z.of_nat (tries u) <= 4 * maxAttempts u.

(** What holds of the manager between two segments. *)
Record wf (s : state) : Prop := Wf {
  wf_loops : (length (loops s) <= 1)%nat;
  wf_flag : processing s = true <-> loops s <> [];
  wf_idle : processing s = false -> uploadQueue s = [];
  wf_attempts : Forall good (uploadQueue s ++ flights s);
  wf_settled : Forall capped (concat (map settled (log s)));
  wf_nodup : NoDup (ids s);
  wf_fresh : Forall (fun n => (n < fresh s)%nat) (ids s)
}.

(** The states a manager holding one task goes through. *)
Definition task (n : Z) (path : string) (c : Conn) (sid : string) (a : Z) (tr : nat) : upload :=
  {| uid := 0; filePath := path; connection := c; sessionId := sid;
     attempts := a; maxAttempts := n; tries := tr |}.

Definition uploading (u : upload) (lg : list action) : state :=
  {| uploadQueue := []; processing := true; loops := [AwaitUpload u];
     fresh := 1; log := lg |}.

Definition backing_off (u : upload) (ms : Z) (lg : list action) : state :=
  {| uploadQueue := [u]; processing := true; loops := [AwaitBackoff ms];
     fresh := 1; log := lg |}.

Definition idle (lg : list action) : state :=
  {| uploadQueue := []; processing := false; loops := []; fresh := 1; log := lg |}.

Definition count (lg : list action) : nat := length (List.filter is_call lg).

(** The states a manager goes through while it holds one task, of ceiling
    [n], that has been delivered [count] times: the task is being delivered,
    or waits in the queue after [a] rejections, or is gone after [n]. *)
Definition alone (n : Z) (path : string) (c : Conn) (sid : string) (s : state) : Prop :=
  exists lg,
    (exists a tr, 0 <= a < n /\ s = uploading (task n path c sid a tr) lg /\
                  Z.of_nat (count lg) = a + 1) \/
    (exists a tr ms, 1 <= a < n /\ s = backing_off (task n path c sid a tr) ms lg /\
                     Z.of_nat (count lg) = a) \/
    (s = idle lg /\ Z.of_nat (count lg) = n).

(** The events of a schedule in which nothing is queued and no delivery
    resolves. *)
Definition unsuccessful (e : event) : bool :=
  match e with
  | QueueForUpload _ _ _ => false
  | UploadSettled _ o => negb (fst (uploadRecording o))
  | _ => true
  end.

(** A queue holding one new task with the given ceiling, as the tests of
    [processUploadQueue] build it. *)
Definition single (n : Z) (path : string) (c : Conn) (sid : string) : state :=
  {| uploadQueue := [{| uid := 0; filePath := path; connection := c; sessionId := sid;
                        attempts := 0; maxAttempts := n; tries := 0%nat |}];
     processing := false; loops := []; fresh := 1%nat; log := [] |}.

(** The schedule of a manager left alone: a pending upload settles against
    [s3], a pending timer fires. *)
Fixpoint run (s3 : option S3Uploader.env) (fuel : nat) (s : state) : state :=
  match fuel with
  | O => s
  | S f =>
      match loops s with
      | [] => s
      | AwaitUpload _ :: _ =>
          match step (UploadSettled 0 s3) s with
          | Some s' => run s3 f s'
          | None => s
          end
      | AwaitBackoff _ :: _ =>
          match step (TimerFired 0) s with
          | Some s' => run s3 f s'
          | None => s
          end
      end
  end.

End Queue.

Arguments upload : clear implicits.
Arguments pc : clear implicits.
Arguments action : clear implicits.
Arguments state : clear implicits.
Arguments event : clear implicits.

Section Accounts.
Context {Conn : Type}.

(** The identities of the uploads [uploadRecording] was called for, of those
    that were delivered and of those that were given up, in the order of
    the log. *)
Definition called_ids (lg : list (action Conn)) : list nat :=
  concat (map (fun a => match a with UploadRecording u => [uid u] | _ => [] end) lg).

Definition uploaded_ids (lg : list (action Conn)) : list nat :=
  concat (map (fun a => match a with Uploaded u => [uid u] | _ => [] end) lg).

Definition dropped_ids (lg : list (action Conn)) : list nat :=
  concat (map (fun a => match a with MaxReached u => [uid u] | _ => [] end) lg).

(** Number of calls of [uploadRecording] for the upload of identity [i]. *)
Definition called_of (i : nat) (lg : list (action Conn)) : nat :=
  count_occ Nat.eq_dec (called_ids lg) i.

(** The books of the manager: what the log says of every upload it was
    given, by where the upload is. *)
Record ledger (q fl : list (upload Conn)) (lg : list (action Conn)) (f : nat) : Prop := Ledger {
  led_queue : Forall (fun u => Z.of_nat (called_of (uid u) lg) = attempts u /\
                               maxAttempts u = 3 /\ attempts u < 3) q;
  led_flight : Forall (fun u => Z.of_nat (called_of (uid u) lg) = attempts u + 1 /\
                                maxAttempts u = 3 /\ 0 <= attempts u < 3) fl;
  led_uploaded : Forall (fun i => (1 <= called_of i lg <= 3)%nat) (uploaded_ids lg);
  led_dropped : Forall (fun i => called_of i lg = 3%nat) (dropped_ids lg);
  led_all : map uid (q ++ fl) ++ uploaded_ids lg ++ dropped_ids lg ≡ₚ seq 0 f;
  led_called : Forall (fun i => (i < f)%nat) (called_ids lg)
}.

Definition books (s : state Conn) : Prop :=
  ledger (uploadQueue s) (flights s) (log s) (fresh s).

(** The loop backs off with the failed upload in the queue. *)
Definition backs_off_on_queue (s : state Conn) : Prop :=
  forall ms, AwaitBackoff ms ∈ loops s -> uploadQueue s <> [].

(** Called so far and still queued, in order, are the uploads given to the
    manager, in order. *)
Definition fifo (s : state Conn) : Prop :=
  called_ids (log s) ++ map uid (uploadQueue s) = seq 0 (fresh s).

(** Number of calls of [queueForUpload] in a schedule. *)
Definition is_queue (e : event Conn) : bool :=
  match e with
  | QueueForUpload _ _ _ => true
  | _ => false
  end.

Definition queued (es : list (event Conn)) : nat :=
  length (List.filter is_queue es).

(** The schedules in which every upload resolves. *)
Definition no_rejection (e : event Conn) : bool :=
  match e with
  | UploadSettled _ o => fst (uploadRecording o)
  | _ => true
  end.

End Accounts.

(** *** Notions for the compression stage *)

(** The path of the archive. *)
Definition zipped (inputPath : string) : string := (inputPath +:+ ".zip")%string.

(** A format [compressRecording] knows. *)
Definition known_format (format : string) : bool :=
  String.eqb format "none" || String.eqb format "gzip" || String.eqb format "zip".

(** *** handleRecordingEnd *)

Section Handlers.
Context {Conn : Type}.

(** [this.config.recordings_storage === 's3'] *)
Definition is_s3 (recordings_storage : option string) : bool :=
  match recordings_storage with
  | Some v => String.eqb v "s3"
  | None => false
  end.

(** [handleRecordingEnd(recordingPath, connection, sessionId)]: the value it
    resolves with ([None] is [null]), the disk and the upload queue
    afterwards.  [s3Uploader] says whether the manager has an uploader; [s]
    is the queue at the time the compression has settled. *)
Definition handleRecordingEnd (recordings_compression_format recordings_storage : option string)
    (s3Uploader : bool) (o : oracle) (recordingPath : option string)
    (c : Conn) (sid : string) (d : disk) (s : state Conn)
    : option string * disk * state Conn :=
  match recordingPath with
  | None => (None, d, s)                            (* !recordingPath *)
  | Some p =>
      if String.eqb p "" then (None, d, s)
      else
        match existsSync p d with
        | (Resolved true, d1) =>
            match compressRecording recordings_compression_format o p d1 with
            | (Resolved compressedPath, d2) =>
                if is_s3 recordings_storage && s3Uploader
                then (Some compressedPath, d2, queueForUpload compressedPath c sid s)
                else (Some compressedPath, d2, s)
            | (Rejected, d2) => (None, d2, s)       (* catch: 'Failed to process recording:' *)
            end
        | (_, d1) => (None, d1, s)                  (* 'Recording file not found:' *)
        end
  end.

End Handlers.

(** *** generateRecordingFilename *)

Section Filename.
Variable proto : string -> option Utils.tvalue.

(** [v || fallback] *)
Definition or_else (v : option Utils.tvalue) (fallback : string) : Utils.tvalue :=
  match v with
  | Some x => if Utils.truthy_t x then x else Utils.TStr fallback
  | None => Utils.TStr fallback
  end.

(** [generateRecordingFilename(connection, sessionId)]: [connectionId] is
    [connection.connectionId] if there is one, [meta] gives the own
    properties of [connection.token?.meta] if there is one; the two
    configuration values are strings or missing. *)
Definition generateRecordingFilename (recordings_filename recordings_compression_format : option string)
    (iso : string) (sessionId : Utils.tvalue) (connectionId : option Utils.tvalue)
    (meta : option (string -> option Utils.tvalue)) : string :=
  let template :=
    match recordings_filename with
    | Some t => if String.eqb t "" then "session-{{sessionId}}-{{timestamp}}.guac"%string else t
    | None => "session-{{sessionId}}-{{timestamp}}.guac"%string
    end in
  let userId :=                                      (* connection.token?.meta?.userId *)
    match meta with
    | Some own => Utils.read proto own "userId"
    | None => None
    end in
  let data key :=
    match (match meta with Some own => own key | None => None end) with
    | Some v => Some v                               (* ...connection.token?.meta *)
    | None =>
        if String.eqb key "sessionId" then Some sessionId
        else if String.eqb key "connectionId" then Some (or_else connectionId "unknown")
        else if String.eqb key "userId" then Some (or_else userId "anonymous")
        else None
    end in
  let filename := Utils.generateFilename proto (Some template) iso data in
  let extension :=
    match recordings_compression_format with
    | Some f => Utils.getFileExtensionForCompression f
    | None => ""%string
    end in
  (filename +:+ extension)%string.

End Filename.

(** *** uploadRecording and the local file *)

(** The uploader as a call of [upload] finds it, the file being there or
    not. *)
Definition with_file (present : bool) (e : S3Uploader.env) : S3Uploader.env :=
  {| S3Uploader.isAvailable := S3Uploader.isAvailable e;
     S3Uploader.file_exists := present;
     S3Uploader.token_bucket := S3Uploader.token_bucket e;
     S3Uploader.default_bucket := S3Uploader.default_bucket e;
     S3Uploader.s3Key := S3Uploader.s3Key e;
     S3Uploader.performUpload := S3Uploader.performUpload e |}.

Definition reject {A} : M A := fun d => (Rejected, d).

(** [uploadRecording(upload)] with the files it looks at and deletes; it
    resolves with the key.  [upload] of the uploader throws before it looks
    for the file when the uploader is not available.  The [catch] around
    the unlink only warns. *)
Definition uploadRecording_on (recordings_delete_local_after_upload : bool)
    (s3Uploader : option S3Uploader.env) (o : oracle) (filePath : string) : M string :=
  match s3Uploader with
  | None => reject                                   (* 'S3 uploader not available' *)
  | Some e =>
      if negb (S3Uploader.isAvailable e) then reject (* 'S3 uploader not initialized' *)
      else
        let* present := existsSync filePath in
        match S3Uploader.upload (with_file present e) with
        | (Some s3Key, _) =>
            if recordings_delete_local_after_upload
            then fun d => (Resolved s3Key, snd (unlink o filePath d))
            else ret s3Key
        | (None, _) => reject
        end
  end.

End RecordingManager.

(** ** lib/webhook-manager.js *)

Module WebhookManager.

Section Queue.
Context {Payload : Type}.

(** An entry of [this.queue].  [wid] is not a field of the JavaScript
    object: it stands for the identity of the object, which the code
    mutates in place and moves around. *)
Record webhook := Webhook {
  wid : nat;
  payload : Payload;
  attempts : Z;
  maxAttempts : Z;
  nextRetry : Z
}.

(** Where an instance of [processQueue] is suspended. *)
Inductive pc :=
| AwaitSleep                  (* await new Promise(r => setTimeout(r, 1000)) *)
| AwaitSend (w : webhook).    (* await this.sendWebhook(webhook.payload) *)

(** What the manager does that can be seen from outside. *)
Inductive action :=
| SendWebhook (w : webhook)   (* this.sendWebhook(webhook.payload) is called *)
| SentOk (w : webhook)        (* 'Webhook sent successfully:' *)
| SendFailed (w : webhook)    (* 'Webhook failed:' *)
| MaxReached (w : webhook).   (* 'Max webhook attempts reached for:' *)

Record state := State {
  queue : list webhook;       (* this.queue *)
  processing : bool;          (* this.processing *)
  loops : list pc;            (* suspended instances of processQueue *)
  fresh : nat;                (* next object identity *)
  log : list action
}.

Definition init : state :=
  {| queue := []; processing := false; loops := []; fresh := 0%nat; log := [] |}.

Definition set_queue (q : list webhook) (s : state) : state :=
  {| queue := q; processing := processing s; loops := loops s;
     fresh := fresh s; log := log s |}.
Definition set_processing (b : bool) (s : state) : state :=
  {| queue := queue s; processing := b; loops := loops s;
     fresh := fresh s; log := log s |}.
Definition set_loops (l : list pc) (s : state) : state :=
  {| queue := queue s; processing := processing s; loops := l;
     fresh := fresh s; log := log s |}.
Definition set_fresh (n : nat) (s : state) : state :=
  {| queue := queue s; processing := processing s; loops := loops s;
     fresh := n; log := log s |}.
Definition add_log (a : action) (s : state) : state :=
  {| queue := queue s; processing := processing s; loops := loops s;
     fresh := fresh s; log := log s ++ [a] |}.

(** [Math.min(1000 * Math.pow(2, attempts), 30000)].  For [attempts >= 0]
    the floating-point value is the integer one: the product is exact up to
    [attempts = 4] and above that the minimum is 30000. *)
Definition backoffDelay (attempts : Z) : Z :=
  Z.min (1000 * 2 ^ attempts) 30000.

(** The body of [while (this.queue.length > 0) { ... }] from the loop test
    to the next [await]; [now] is what [Date.now()] returns.  The result is
    the new state and where the loop is suspended ([None]: the loop is left
    and [this.processing = false] has run). *)
Definition loop_head (now : Z) (s : state) : state * option pc :=
  match queue s with
  | [] => (set_processing false s, None)
  | w :: q =>                                   (* this.queue.shift() *)
      if nextRetry w >? now
      then (set_queue (w :: q) s, Some AwaitSleep)     (* this.queue.unshift(webhook) *)
      else (add_log (SendWebhook w) (set_queue q s), Some (AwaitSend w))
  end.

(** [try] branch after [await this.sendWebhook(...)] has resolved. *)
Definition on_resolved (w : webhook) (s : state) : state :=
  add_log (SentOk w) s.

(** [catch] branch; [now] is the [Date.now()] of the catch block. *)
Definition on_rejected (now : Z) (w : webhook) (s : state) : state :=
  let s1 := add_log (SendFailed w) s in
  let a := attempts w + 1 in                    (* webhook.attempts++ *)
  if a <? maxAttempts w
  then
    let w' := {| wid := wid w; payload := payload w; attempts := a;
                 maxAttempts := maxAttempts w;
                 nextRetry := now + backoffDelay a |} in
    set_queue (queue s1 ++ [w']) s1             (* this.queue.push(webhook) *)
  else
    add_log (MaxReached {| wid := wid w; payload := payload w; attempts := a;
                           maxAttempts := maxAttempts w;
                           nextRetry := nextRetry w |}) s1.

(** A new instance of the loop is suspended, or not (it ran to its end). *)
Definition spawn (r : state * option pc) : state :=
  match r with
  | (s, Some k) => set_loops (loops s ++ [k]) s
  | (s, None) => s
  end.

(** Instance [i] is suspended again, or has ended. *)
Definition resume (i : nat) (r : state * option pc) : state :=
  match r with
  | (s, Some k) => set_loops (<[i := k]> (loops s)) s
  | (s, None) => set_loops (delete i (loops s)) s
  end.

Definition processQueue (now : Z) (s : state) : state :=
  if processing s || (length (queue s) =? 0)%nat
  then s
  else spawn (loop_head now (set_processing true s)).

(** [t0] is the [Date.now()] stored in [nextRetry], [t1] the one read by
    the drain loop if this call starts it. *)
Definition queueWebhook (p : Payload) (t0 t1 : Z) (s : state) : state :=
  let w := {| wid := fresh s; payload := p; attempts := 0;
              maxAttempts := 3; nextRetry := t0 |} in
  processQueue t1 (set_fresh (S (fresh s)) (set_queue (queue s ++ [w]) s)).

(** The test of [while (this.queue.length > 0 && this.processing)] in
    [cleanup]: [cleanup] resolves at the first poll where it is false. *)
Definition cleanup_waits (s : state) : bool :=
  (0 <? length (queue s))%nat && processing s.

Definition getQueueStatus (s : state) : nat * bool :=
  (length (queue s), processing s).

Inductive event :=
| QueueWebhook (p : Payload) (t0 t1 : Z)
| ProcessQueue (t : Z)
| TimerFired (i : nat) (t : Z)
| SendResolved (i : nat) (t : Z)
| SendRejected (i : nat) (t0 t1 : Z).

(** One synchronous segment.  [None]: the event cannot happen in [s]. *)
Definition step (e : event) (s : state) : option state :=
  match e with
  | QueueWebhook p t0 t1 => Some (queueWebhook p t0 t1 s)
  | ProcessQueue t => Some (processQueue t s)
  | TimerFired i t =>
      match loops s !! i with
      | Some AwaitSleep => Some (resume i (loop_head t s))
      | _ => None
      end
  | SendResolved i t =>
      match loops s !! i with
      | Some (AwaitSend w) => Some (resume i (loop_head t (on_resolved w s)))
      | _ => None
      end
  | SendRejected i t0 t1 =>
      match loops s !! i with
      | Some (AwaitSend w) => Some (resume i (loop_head t1 (on_rejected t0 w s)))
      | _ => None
      end
  end.

Fixpoint exec (es : list event) (s : state) : option state :=
  match es with
  | [] => Some s
  | e :: es' =>
      match step e s with
      | Some s' => exec es' s'
      | None => None
      end
  end.

Definition reachable (s : state) : Prop := exists es, exec es init = Some s.

(** The webhook an instance is delivering, if any. *)
Definition in_flight (k : pc) : list webhook :=
  match k with
  | AwaitSleep => []
  | AwaitSend w => [w]
  end.

Definition is_send (a : action) : bool :=
  match a with
  | SendWebhook _ => true
  | _ => false
  end.

(** Number of calls of [sendWebhook] so far. *)
Definition sends (s : state) : nat :=
  length (List.filter is_send (log s)).

(** The webhooks being delivered, and the identities of all the webhooks the
    manager holds. *)
Definition flights (s : state) : list webhook := concat (map in_flight (loops s)).
Definition ids (s : state) : list nat := map wid (queue s ++ flights s).

(** What holds of the manager between two segments. *)
Record wf (s : state) : Prop := Wf {
  wf_loops : (length (loops s) <= 1)%nat;
  wf_flag : processing s = true <-> loops s <> [];
  wf_idle : processing s = false -> queue s = [];
  wf_attempts : Forall (fun w => attempts w < maxAttempts w) (queue s);
  wf_nodup : NoDup (ids s);
  wf_fresh : Forall (fun n => (n < fresh s)%nat) (ids s)
}.

(** The states a manager holding one task goes through. *)
Definition task (n : Z) (p : Payload) (a t : Z) : webhook :=
  {| wid := 0; payload := p; attempts := a; maxAttempts := n; nextRetry := t |}.

Definition sending (n : Z) (p : Payload) (a t : Z) (lg : list (action)) : state :=
  {| queue := []; processing := true; loops := [AwaitSend (task n p a t)];
     fresh := 1; log := lg |}.

Definition waiting (n : Z) (p : Payload) (a t : Z) (lg : list (action)) : state :=
  {| queue := [task n p a t]; processing := true; loops := [AwaitSleep];
     fresh := 1; log := lg |}.

Definition idle (lg : list (action)) : state :=
  {| queue := []; processing := false; loops := []; fresh := 1; log := lg |}.

Definition count (lg : list (action)) : nat := length (List.filter is_send lg).

(** The states a manager goes through while it holds one task, of ceiling
    [n], that has been sent [count] times: the task is being delivered, or
    waits in the queue after [a] rejections, or is gone after [n]. *)
Definition alone (n : Z) (p : Payload) (s : state) : Prop :=
  exists lg,
    (exists a t, 0 <= a < n /\ s = sending n p a t lg /\ Z.of_nat (count lg) = a + 1) \/
    (exists a t, 1 <= a < n /\ s = waiting n p a t lg /\ Z.of_nat (count lg) = a) \/
    (s = idle lg /\ Z.of_nat (count lg) = n).

(** The events of a schedule in which nothing is queued and no delivery
    resolves. *)
Definition unsuccessful (e : event) : bool :=
  match e with
  | QueueWebhook _ _ _ | SendResolved _ _ => false
  | _ => true
  end.

(** A queue holding one new task with the given ceiling. *)
Definition single (n : Z) (p : Payload) (t : Z) : state :=
  {| queue := [{| wid := 0; payload := p; attempts := 0; maxAttempts := n;
                  nextRetry := t |}];
     processing := false; loops := []; fresh := 1%nat; log := [] |}.

(** The schedule of a manager left alone while every delivery is rejected:
    a pending delivery is rejected [rtt] ms after it was started, a pending
    timer fires after its 1000 ms.  [clock] is the time of the last segment. *)
Fixpoint run_rejecting (rtt : Z) (fuel : nat) (clock : Z) (s : state) : state :=
  match fuel with
  | O => s
  | S f =>
      match loops s with
      | [] => s
      | AwaitSend _ :: _ =>
          match step (SendRejected 0 (clock + rtt) (clock + rtt)) s with
          | Some s' => run_rejecting rtt f (clock + rtt) s'
          | None => s
          end
      | AwaitSleep :: _ =>
          match step (TimerFired 0 (clock + 1000)) s with
          | Some s' => run_rejecting rtt f (clock + 1000) s'
          | None => s
          end
      end
  end.

End Queue.

Arguments webhook : clear implicits.
Arguments pc : clear implicits.
Arguments action : clear implicits.
Arguments state : clear implicits.
Arguments event : clear implicits.

(** *** The senders, on the heap *)

(** [sendSessionStarted(sessionId, connection)]: [meta] is
    [connection.token?.meta], [timestamp] is [new Date().toISOString()].
    The payload queued is the address of a new object.  [None]: the call
    rejects (or is out of fuel). *)
Definition sendSessionStarted (fuel : nat) (enabled : bool) (timestamp : string)
    (sessionId meta : Utils.val) (t0 t1 : Z) (h : Utils.heap) (s : state Utils.val)
    : option (Utils.heap * state Utils.val) :=
  if negb enabled then Some (h, s)                  (* if (!this.isEnabled()) return *)
  else
    let '(arg, h0) :=                               (* connection.token?.meta || {} *)
      if Utils.truthy meta then (meta, h) else Utils.alloc (Utils.OObj []) h in
    match Utils.sanitizeWebhookPayload_at fuel h0 arg with
    | None => None
    | Some (token_meta, h1) =>
        let '(p, h2) :=
          Utils.alloc (Utils.OObj [("event", Utils.VStr "session_started");
                                   ("timestamp", Utils.VStr timestamp);
                                   ("session_id", sessionId);
                                   ("token_meta", token_meta)]%string) h1 in
        Some (h2, queueWebhook p t0 t1 s)
    end.

Section Accounts.
Context {Payload : Type}.

(** The identities of the webhooks [sendWebhook] was called for, of those
    that were delivered and of those that were given up, in the order of
    the log. *)
Definition sent_ids (lg : list (action Payload)) : list nat :=
  concat (map (fun a => match a with SendWebhook w => [wid w] | _ => [] end) lg).

Definition delivered_ids (lg : list (action Payload)) : list nat :=
  concat (map (fun a => match a with SentOk w => [wid w] | _ => [] end) lg).

Definition dropped_ids (lg : list (action Payload)) : list nat :=
  concat (map (fun a => match a with MaxReached w => [wid w] | _ => [] end) lg).

(** Number of calls of [sendWebhook] for the webhook of identity [i]. *)
Definition sent_of (i : nat) (lg : list (action Payload)) : nat :=
  count_occ Nat.eq_dec (sent_ids lg) i.

(** The books of the manager: what the log says of every webhook it was
    given, by where the webhook is. *)
Record ledger (q fl : list (webhook Payload)) (lg : list (action Payload)) (f : nat) : Prop := Ledger {
  led_queue : Forall (fun w => Z.of_nat (sent_of (wid w) lg) = attempts w /\
                               maxAttempts w = 3 /\ attempts w < 3) q;
  led_flight : Forall (fun w => Z.of_nat (sent_of (wid w) lg) = attempts w + 1 /\
                                maxAttempts w = 3 /\ 0 <= attempts w < 3) fl;
  led_delivered : Forall (fun i => (1 <= sent_of i lg <= 3)%nat) (delivered_ids lg);
  led_dropped : Forall (fun i => sent_of i lg = 3%nat) (dropped_ids lg);
  led_all : map wid (q ++ fl) ++ delivered_ids lg ++ dropped_ids lg ≡ₚ seq 0 f;
  led_sent : Forall (fun i => (i < f)%nat) (sent_ids lg)
}.

Definition books (s : state Payload) : Prop :=
  ledger (queue s) (flights s) (log s) (fresh s).

(** The loop sleeps only in front of a webhook that is not due. *)
Definition sleeps_on_head (s : state Payload) : Prop :=
  AwaitSleep ∈ loops s -> queue s <> [].

(** Sent so far and still queued, in order, are the webhooks given to the
    manager, in order. *)
Definition fifo (s : state Payload) : Prop :=
  sent_ids (log s) ++ map wid (queue s) = seq 0 (fresh s).

(** Number of calls of [queueWebhook] in a schedule. *)
Definition is_queue (e : event Payload) : bool :=
  match e with
  | QueueWebhook _ _ _ => true
  | _ => false
  end.

Definition queued (es : list (event Payload)) : nat :=
  length (List.filter is_queue es).

(** The schedules in which no delivery is rejected. *)
Definition no_rejection (e : event Payload) : bool :=
  match e with
  | SendRejected _ _ _ => false
  | _ => true
  end.

End Accounts.

(** [sendSessionEnded(sessionId, connection)], as [sendSessionStarted]. *)
Definition sendSessionEnded (fuel : nat) (enabled : bool) (timestamp : string)
    (sessionId meta : Utils.val) (t0 t1 : Z) (h : Utils.heap) (s : state Utils.val)
    : option (Utils.heap * state Utils.val) :=
  if negb enabled then Some (h, s)                  (* if (!this.isEnabled()) return *)
  else
    let '(arg, h0) :=                               (* connection.token?.meta || {} *)
      if Utils.truthy meta then (meta, h) else Utils.alloc (Utils.OObj []) h in
    match Utils.sanitizeWebhookPayload_at fuel h0 arg with
    | None => None
    | Some (token_meta, h1) =>
        let '(p, h2) :=
          Utils.alloc (Utils.OObj [("event", Utils.VStr "session_ended");
                                   ("timestamp", Utils.VStr timestamp);
                                   ("session_id", sessionId);
                                   ("token_meta", token_meta)]%string) h1 in
        Some (h2, queueWebhook p t0 t1 s)
    end.

(** [sendRecordingSaved(sessionId, connection, bucket, key)] *)
Definition sendRecordingSaved (fuel : nat) (enabled : bool) (timestamp : string)
    (sessionId meta bucket key : Utils.val) (t0 t1 : Z) (h : Utils.heap)
    (s : state Utils.val) : option (Utils.heap * state Utils.val) :=
  if negb enabled then Some (h, s)                  (* if (!this.isEnabled()) return *)
  else
    let '(arg, h0) :=                               (* connection.token?.meta || {} *)
      if Utils.truthy meta then (meta, h) else Utils.alloc (Utils.OObj []) h in
    match Utils.sanitizeWebhookPayload_at fuel h0 arg with
    | None => None
    | Some (token_meta, h1) =>
        let '(recording, h2) :=
          Utils.alloc (Utils.OObj [("bucket", bucket); ("key", key)]%string) h1 in
        let '(p, h3) :=
          Utils.alloc (Utils.OObj [("event", Utils.VStr "recording_saved");
                                   ("timestamp", Utils.VStr timestamp);
                                   ("session_id", sessionId);
                                   ("token_meta", token_meta);
                                   ("recording", recording)]%string) h2 in
        Some (h3, queueWebhook p t0 t1 s)
    end.

(** *** Notions for the senders *)

(** The tree of [connection.token?.meta || {}], given the tree of the
    metadata when it is truthy. *)
Definition meta_or_empty (meta : Utils.val) (j : Utils.json) : Utils.json :=
  if Utils.truthy meta then j else Utils.JObj [].

End WebhookManager.

(** ** Built-in functions of JavaScript that the code calls

    A string is a sequence of characters with codes below 256.  The white
    space among them is that of ASCII and the no-break space; the letters
    are taken to be those of ASCII, A-Z and a-z. *)

Module JS.
Import Utils.

(** White space, as [trim] and [parseInt] skip it. *)
Definition is_space (c : ascii) : bool :=
  let n := N_of_ascii c in
  ((9 <=? n)%N && (n <=? 13)%N) || (n =? 32)%N || (n =? 160)%N.

Fixpoint skip_spaces (s : string) : string :=
  match s with
  | EmptyString => EmptyString
  | String c r => if is_space c then skip_spaces r else s
  end.

Definition digit_value (c : ascii) : Z := Z.of_N (N_of_ascii c) - 48.

(** The value of the digits at the start of [s], after the digits [acc];
    [seen] tells whether a digit was read. *)
Fixpoint read_digits (seen : bool) (acc : Z) (s : string) : option Z :=
  match s with
  | EmptyString => if seen then Some acc else None
  | String c r =>
      if is_digit c then read_digits true (10 * acc + digit_value c) r
      else if seen then Some acc else None
  end.

(** The integer that [parseInt(s, 10)] reads: white space is skipped, then
    a sign is read, then the digits that follow; [None] when there is no
    digit.  What [parseInt] returns is [toNumber] of it. *)
Definition parseInt10 (s : string) : option Z :=
  match skip_spaces s with
  | String "-" r => option_map Z.opp (read_digits false 0 r)
  | String "+" r => read_digits false 0 r
  | r => read_digits false 0 r
  end.

(** The numbers that are met here: NaN, the infinities and the integers
    that are doubles; 0 and -0 are one number. *)
Inductive number :=
| NaN
| PosInfinity
| NegInfinity
| Finite (z : Z).

(** The double nearest to the integer [n >= 0], the tie going to the even
    mantissa: an integer below 2^53 is a double; beyond, the 53 leading
    bits are kept and rounded, and what reaches 2^1024 is Infinity. *)
Definition round_double (n : Z) : number :=
  if n <? 2 ^ 53 then Finite n
  else
    let e := Z.log2 n - 52 in
    let q := n / 2 ^ e in
    let r := n - q * 2 ^ e in
    let half := 2 ^ (e - 1) in
    let q' := if (half <? r) || ((r =? half) && Z.odd q) then q + 1 else q in
    let v := q' * 2 ^ e in
    if 2 ^ 1024 <=? v then PosInfinity else Finite v.

(** The number [parseInt] returns for the integer it has read, NaN when it
    has read none: the nearest double. *)
Definition toNumber (x : option Z) : number :=
  match x with
  | None => NaN
  | Some z =>
      if z <? 0
      then match round_double (- z) with
           | Finite v => Finite (- v)
           | _ => NegInfinity
           end
      else round_double z
  end.

(** [now > x] for a time [now], an integer that is a double. *)
Definition after (now : Z) (x : number) : bool :=
  match x with
  | NaN => false
  | PosInfinity => false
  | NegInfinity => true
  | Finite v => v <? now
  end.

(** [s.trim()]: the white space at the end is dropped, and that at the
    start. *)
Fixpoint trimEnd (s : string) : string :=
  match s with
  | EmptyString => EmptyString
  | String c r =>
      let r' := trimEnd r in
      if is_space c && String.eqb r' "" then EmptyString else String c r'
  end.

Definition trim (s : string) : string := trimEnd (skip_spaces s).

(** [s.split(c)] for a separator of one character. *)
Fixpoint split (c : ascii) (s : string) : list string :=
  match s with
  | EmptyString => [EmptyString]
  | String x r =>
      if Ascii.eqb x c then EmptyString :: split c r
      else match split c r with
           | h :: t => String x h :: t
           | [] => [String x EmptyString]
           end
  end.

(** A string in which [c] does not occur. *)
Fixpoint lacks (c : ascii) (s : string) : bool :=
  match s with
  | EmptyString => true
  | String x r => negb (Ascii.eqb x c) && lacks c r
  end.

(** [s.toUpperCase()] *)
Definition upper_ascii (c : ascii) : ascii :=
  let n := N_of_ascii c in
  if (97 <=? n)%N && (n <=? 122)%N then ascii_of_N (n - 32) else c.

Fixpoint toUpperCase (s : string) : string :=
  match s with
  | EmptyString => EmptyString
  | String c r => String (upper_ascii c) (toUpperCase r)
  end.

(** [s.substring(n)] *)
Fixpoint substring_from (n : nat) (s : string) : string :=
  match n, s with
  | O, _ => s
  | S m, String _ r => substring_from m r
  | S _, EmptyString => EmptyString
  end.

(** [s.replace(pattern, '')] for a pattern that is a string: the first
    occurrence is taken out. *)
Fixpoint remove_first (pattern s : string) : string :=
  if String.prefix pattern s then substring_from (String.length pattern) s
  else match s with
       | EmptyString => EmptyString
       | String c r => String c (remove_first pattern r)
       end.

(** [path.basename(p)] of POSIX: what follows the last '/', the '/' at the
    end not counted. *)
Definition basename (p : string) : string :=
  default EmptyString (last (List.filter (fun s => negb (String.eqb s "")) (split "/" p))).

End JS.

(** ** lib/config-loader.js *)

Module ConfigLoader.
Import Utils.

(** *** convertType *)

(** The values of a configuration.  [CNum n] is the number [parseInt]
    returns and [CFloat text] is [parseFloat(text)]; [CList] is an array of
    strings.  An object at the top level of the configuration, as
    [defaults] is, holds sections, which are objects, and values that are
    neither objects nor arrays.  An array directly under such an object is
    not part of the model: there [mergeEnvironmentVariables] would assign
    to the properties of the array. *)
Inductive scalar :=
| SNull
| SBool (b : bool)
| SNum (n : JS.number)
| SFloat (text : string)
| SStr (s : string).

#[local] Unset Elimination Schemes.
Inductive cvalue :=
| CNull
| CBool (b : bool)
| CNum (n : JS.number)
| CFloat (text : string)
| CStr (s : string)
| CList (items : list string)
| CObj (fields : gmap string entry)
with entry :=
| EScalar (v : scalar)
| ESection (fields : gmap string cvalue).
#[local] Set Elimination Schemes.

(** [/^\d+$/.test(s)] *)
Definition is_integer (s : string) : bool :=
  negb (String.eqb s "") && all_digits s.

Fixpoint skip_digits (s : string) : string :=
  match s with
  | EmptyString => EmptyString
  | String c r => if is_digit c then skip_digits r else s
  end.

(** [/^\d+\.\d+$/.test(s)] *)
Definition is_float (s : string) : bool :=
  match s with
  | String c _ =>
      is_digit c &&
      match skip_digits s with
      | String "." r => negb (String.eqb r "") && all_digits r
      | _ => false
      end
  | EmptyString => false
  end.

Definition convertType (value : cvalue) : cvalue :=
  match value with
  | CStr s =>
      let trimmed := JS.trim s in
      if String.eqb trimmed "true" then CBool true
      else if String.eqb trimmed "false" then CBool false
      else if is_integer trimmed then CNum (JS.toNumber (JS.parseInt10 trimmed))
      else if is_float trimmed then CFloat trimmed
      else if includes trimmed ","
      then CList (List.filter (fun s => negb (String.eqb s ""))
                    (List.map JS.trim (JS.split "," trimmed)))
      else CStr trimmed
  | _ => value                                       (* typeof value !== 'string' *)
  end.

(** *** mergeEnvironmentVariables *)

Definition validConfigKeys : list string :=
  ["websocket_port"; "websocket_host"; "guacd_host"; "guacd_port";
   "log_level"; "max_inactivity_time"; "cypher"; "secret_key";
   "unencrypted_params"; "token_expiration_check"; "drive_path_template";
   "recordings_path"; "recordings_filename"; "recordings_compression_format";
   "recordings_storage"; "recordings_delete_local_after_upload";
   "s3_region"; "s3_access_key_id"; "s3_secret_access_key"; "s3_default_bucket";
   "webhook_enable"; "webhook_url"]%string.

(** [s.replace(/_/g, '-')] *)
Fixpoint hyphens (s : string) : string :=
  match s with
  | EmptyString => EmptyString
  | String c r => String (if Ascii.eqb c "_" then "-"%char else c) (hyphens r)
  end.

(** One round of the loop of [mergeEnvVarsForSection], for the variable
    [envVar] with the value [envValue]. *)
Definition mergeEnvVar (prefix : string) (section : gmap string cvalue)
    (envVar envValue : string) : gmap string cvalue :=
  if negb (String.prefix prefix envVar) then section
  else
    let fullKey := JS.substring_from (String.length prefix) envVar in
    let configKey := toLowerCase fullKey in
    if String.eqb prefix "" && negb (existsb (String.eqb configKey) validConfigKeys)
    then section
    else if String.eqb prefix ""
    then <[configKey := convertType (CStr envValue)]> section
    else <[hyphens configKey := convertType (CStr envValue)]> section.

(** The key that the variable [envVar] sets in the section, if it sets
    one. *)
Definition target (prefix envVar : string) : option string :=
  if String.prefix prefix envVar
  then
    let configKey := toLowerCase (JS.substring_from (String.length prefix) envVar) in
    if String.eqb prefix ""
    then if existsb (String.eqb configKey) validConfigKeys then Some configKey else None
    else Some (hyphens configKey)
  else None.

(** [mergeEnvVarsForSection(prefix, section)]: [env] lists the variables of
    [process.env] with their values, in the order of [Object.keys]. *)
Definition mergeEnvVarsForSection (env : list (string * string)) (prefix : string)
    (section : gmap string cvalue) : gmap string cvalue :=
  fold_left (fun section '(envVar, envValue) => mergeEnvVar prefix section envVar envValue)
    env section.

(** [mergeEnvironmentVariables()] on [this.config].  Of the properties of
    [defaults] the sections pass the test [typeof settings === 'object' &&
    settings !== null]; the other values, none of them an object or an
    array, do not. *)
Definition mergeEnvironmentVariables (env : list (string * string))
    (config : gmap string cvalue) : gmap string cvalue :=
  let config := mergeEnvVarsForSection env "" config in
  match config !! "defaults"%string with
  | Some (CObj defaults) =>
      <["defaults"%string :=
         CObj (map_imap
                 (fun protocol settings =>
                    Some match settings with
                         | ESection fields =>
                             ESection (mergeEnvVarsForSection env
                                         ("DEFAULTS_" +:+ JS.toUpperCase protocol +:+ "_")
                                         fields)
                         | EScalar _ => settings
                         end)
                 defaults)]> config
  | _ => config
  end.

(** *** validateConfig *)

Section Validate.
(** Whether [parseFloat(text)] is another number than 0. *)
Variable nonzero : string -> bool.

Definition truthy_c (v : cvalue) : bool :=
  match v with
  | CNull => false
  | CBool b => b
  | CNum (JS.Finite n) => negb (n =? 0)
  | CNum JS.NaN => false
  | CNum _ => true
  | CFloat text => nonzero text
  | CStr s => negb (String.eqb s "")
  | CList _ => true
  | CObj _ => true
  end.

Definition required : list string := ["websocket_port"; "guacd_host"; "guacd_port"]%string.

(** [required.filter(key => !this.config[key])] *)
Definition missing (config : gmap string cvalue) : list string :=
  List.filter (fun key => negb (match config !! key with
                                | Some v => truthy_c v
                                | None => false
                                end)) required.

(** [validateConfig()]: the message of the error it throws, if it throws.
    None of the three keys is a property that an object inherits. *)
Definition validateConfig (config : gmap string cvalue) : option string :=
  match missing config with
  | [] => None
  | keys => Some ("Missing required configuration: " +:+ String.concat ", " keys)%string
  end.

End Validate.

(** *** interpolateTemplate *)

Section Interpolate.
Variable proto : string -> option Utils.tvalue.
(** [path.sep], one character. *)
Variable sep : ascii.

(** [value.replace(/[/\\]/g, path.sep)] *)
Fixpoint separators (s : string) : string :=
  match s with
  | EmptyString => EmptyString
  | String c r =>
      String (if Ascii.eqb c "/" || Ascii.eqb c "\" then sep else c) (separators r)
  end.

(** [interpolateTemplate(template, data)] for a template that is a string;
    [data] gives the own properties of [data], an object.  [key in data]
    holds for what the object has or inherits, whatever the value. *)
Definition interpolateTemplate (template : string) (data : string -> option Utils.tvalue) : string :=
  if String.eqb template "" then template
  else
    Utils.replace_placeholders
      (fun key =>
         match Utils.read proto data key with
         | Some (Utils.TStr value) => Some (separators value)
         | Some value => Some (Utils.show value)
         | None => None
         end)
      template.

End Interpolate.

End ConfigLoader.

(** ** lib/index.js: the class GuacamoleLiteServer *)

Module GuacamoleLiteServer.
Import Utils.

Record config := Config {
  token_expiration_check : option Utils.tvalue;
  drive_path_template : option string;
  defaults : option (gmap string (gmap string Utils.tvalue))
}.

(** What a call does: it throws an error with a message, or returns, or
    the engine throws a TypeError. *)
Inductive outcome (A : Type) :=
| Threw (message : string)
| Returned (a : A)
| ThrewTypeError.
Arguments Threw {A} message.
Arguments Returned {A} a.
Arguments ThrewTypeError {A}.

(** *** handleSessionClose *)

(** The key that [handleSessionClose] gives to [sendRecordingSaved]:
    [processedPath.replace(this.config.recordings_path, '').replace(/^\//, '')],
    for a [recordings_path] that is a string. *)
Definition savedKey (recordings_path processedPath : string) : string :=
  match JS.remove_first recordings_path processedPath with
  | String "/" r => r
  | s => s
  end.

(** What [handleSessionClose] does once [handleRecordingEnd] has resolved
    with [processedPath] ([None] is [null]): the bucket and the key it
    gives to [sendRecordingSaved], if it calls it; [getBucket] may throw. *)
Definition savedRecording (recordings_storage : option string) (recordings_path : string)
    (e : S3Uploader.env) (processedPath : option string) : outcome (option (string * string)) :=
  match processedPath with
  | Some p =>
      if negb (String.eqb p "") &&
         match recordings_storage with Some v => String.eqb v "s3" | None => false end
      then
        match S3Uploader.getBucket e with
        | Some bucket => Returned (Some (bucket, savedKey recordings_path p))
        | None => Threw "No S3 bucket specified in token or configuration"
        end
      else Returned None
  | None => Returned None
  end.

(** *** processConnectionSettings *)

Section Settings.
Variable proto : string -> option Utils.tvalue.
Variable sep : ascii.

(** [now > parseInt(expiration, 10)]; a comparison with NaN is false. *)
Definition expired (now : Z) (expiration : Utils.tvalue) : bool :=
  JS.after now (JS.toNumber (JS.parseInt10 (Utils.show expiration))).

(** Is [token.meta] an object?  A string is none; of another value
    [meta_object] tells.  An object is taken to inherit from
    [Object.prototype] alone, as [data] in [interpolateTemplate]. *)
Definition is_object (meta : option Utils.tvalue) (meta_object : bool) : bool :=
  match meta with
  | Some (Utils.TOther _ _) => meta_object
  | _ => false
  end.

(** [processConnectionSettings(token)] at the time [now]; [token] and
    [meta] are as for [createConnectionSettings], and [meta_object] tells
    whether [token.meta], if it is no string, is an object.  The error is
    logged and thrown again.  In [interpolateTemplate] the callback begins
    with [key in data], which is a TypeError when [data] is no object: that
    is when [token.meta] is truthy and a primitive, and the callback is
    called at all. *)
Definition processConnectionSettings (cfg : config) (now : Z)
    (token : gmap string Utils.tvalue) (meta : string -> option Utils.tvalue)
    (meta_object : bool) : outcome (gmap string Utils.tvalue) :=
  let expiration := Utils.prop proto token "expiration" in
  if Utils.truthy_opt (token_expiration_check cfg) && Utils.truthy_opt expiration &&
     match expiration with Some e => expired now e | None => false end
  then Threw "Token has expired"
  else
    let settings :=
      Utils.createConnectionSettings proto token meta (defaults cfg) (drive_path_template cfg) in
    if Utils.configured (drive_path_template cfg) && Utils.is_rdp (Utils.prop proto settings "protocol")
    then
      let template := default ""%string (drive_path_template cfg) in
      let has_meta := Utils.truthy_opt (Utils.prop proto token "meta") in
      if has_meta && negb (is_object (Utils.prop proto token "meta") meta_object) &&
         Utils.has_placeholder template
      then ThrewTypeError                            (* key in data *)
      else
        let data :=                                  (* token.meta || {} *)
          if has_meta then meta else fun _ => None in
        Returned (<["drive-path"%string :=
                    Utils.TStr (ConfigLoader.interpolateTemplate proto sep template data)]>
                    settings)
    else Returned settings.

End Settings.

End GuacamoleLiteServer.

(** ** Examples *)

Module W := WebhookManager.
Module R := RecordingManager.

(** A notification rejected three times, and an upload rejected three times. *)
Definition thrice_w : list (W.event unit) :=
  [W.QueueWebhook tt 0 0; W.SendRejected 0 10 10; W.TimerFired 0 2010;
   W.SendRejected 0 2020 2020; W.TimerFired 0 6020].

Definition thrice_r : list (R.event unit) :=
  [R.QueueForUpload "a.guac" tt "s1"; R.UploadSettled 0 None; R.TimerFired 0;
   R.UploadSettled 0 None; R.TimerFired 0].

(** The payload of the example: {user: 'a', meta: {api_key: 'x', id: 1}}. *)
Definition example_payload : Utils.json :=
  Utils.JObj [("user", Utils.JStr "a");
              ("meta", Utils.JObj [("api_key", Utils.JStr "x"); ("id", Utils.JNum 1)])]%string.

(** A storage service that rejects every upload. *)
Definition rejecting : S3Uploader.env :=
  {| S3Uploader.isAvailable := true; S3Uploader.file_exists := true;
     S3Uploader.token_bucket := None; S3Uploader.default_bucket := Some "recordings"%string;
     S3Uploader.s3Key := "recordings/a.guac"%string;
     S3Uploader.performUpload := fun _ => false |}.

(** An upload that the storage service rejects until it is given up. *)
Definition given_up : list (R.event unit) :=
  [R.QueueForUpload "a.guac" tt "s1"; R.UploadSettled 0 (Some rejecting); R.TimerFired 0;
   R.UploadSettled 0 (Some rejecting); R.TimerFired 0; R.UploadSettled 0 (Some rejecting)].

(** The token metadata {userId: 'u1', api_key: 'x', tags: ['a']} at address 1. *)
Definition meta_heap : Utils.heap :=
  [Utils.OArr [Utils.VStr "a"];
   Utils.OObj [("userId", Utils.VStr "u1"); ("api_key", Utils.VStr "x");
               ("tags", Utils.VRef 0)]]%string.

(** The deny-list as the specification words it: password, secret, token,
    api key, private key, passphrase.  The example of the specification
    redacts [api_key], so an entry of two words is read with its words joined
    by a space, by nothing, by '_' or by '-'. *)
Definition spec_sensitiveFields : list string :=
  ["password"; "secret"; "token"; "passphrase";
   "api key"; "apikey"; "api_key"; "api-key";
   "private key"; "privatekey"; "private_key"; "private-key"]%string.

Definition spec_is_sensitive (key : string) : bool :=
  existsb (fun field => Utils.includes (Utils.toLowerCase key) field) spec_sensitiveFields.

(** The tree [JSON.stringify] reads there. *)
Definition meta_tree : Utils.json :=
  Utils.JObj [("userId", Utils.JStr "u1"); ("api_key", Utils.JStr "x");
              ("tags", Utils.JArr [Utils.JStr "a"])]%string.

(** Two notifications: the first is rejected once and sent again after the
    second, which is delivered at once. *)
Definition two_webhooks : list (W.event unit) :=
  [W.QueueWebhook tt 0 0; W.QueueWebhook tt 5 5; W.SendRejected 0 10 10;
   W.SendResolved 0 20; W.TimerFired 0 1020; W.TimerFired 0 2020; W.SendResolved 0 2030].

(** Two notifications delivered at once. *)
Definition two_delivered : list (W.event unit) :=
  [W.QueueWebhook tt 0 0; W.QueueWebhook tt 5 5; W.SendResolved 0 20; W.SendResolved 0 30].

(** A storage service that takes every upload. *)
Definition accepting : S3Uploader.env :=
  {| S3Uploader.isAvailable := true; S3Uploader.file_exists := true;
     S3Uploader.token_bucket := None; S3Uploader.default_bucket := Some "recordings"%string;
     S3Uploader.s3Key := "recordings/a.guac"%string;
     S3Uploader.performUpload := fun _ => true |}.

(** Two uploads: the first is rejected once and delivered after the second. *)
Definition two_uploads : list (R.event unit) :=
  [R.QueueForUpload "a.guac" tt "s1"; R.QueueForUpload "b.guac" tt "s2";
   R.UploadSettled 0 None; R.TimerFired 0; R.UploadSettled 0 (Some accepting);
   R.UploadSettled 0 (Some accepting)].

Definition two_uploaded : list (R.event unit) :=
  [R.QueueForUpload "a.guac" tt "s1"; R.QueueForUpload "b.guac" tt "s2";
   R.UploadSettled 0 (Some accepting); R.UploadSettled 0 (Some accepting)].

(** A disk holding one recording, and libraries that do as asked. *)
Definition one_recording : R.disk :=
  {| R.files := {["/rec/a.guac"%string]}; R.calls := [] |}.

Definition obliging : R.oracle :=
  {| R.transform_resolves := true; R.output_on_disk := true; R.unlink_resolves := true |}.

(** No property is inherited: an [Object.prototype] without properties. *)
Definition bare : string -> option Utils.tvalue := fun _ => None.

(** The metadata {userId: 'u1'}. *)
Definition meta_u1 : string -> option Utils.tvalue :=
  fun key => if String.eqb key "userId" then Some (Utils.TStr "u1") else None.

(** The sections [defaults.all] and [defaults.rdp] of a configuration. *)
Definition some_defaults : gmap string (gmap string Utils.tvalue) :=
  {[ "all"%string := {[ "width"%string := Utils.TOther true "1024";
                        "dpi"%string := Utils.TOther true "96" ]};
     "rdp"%string := {[ "security"%string := Utils.TStr "any";
                        "dpi"%string := Utils.TOther true "120" ]} ]}.

(** The token {protocol: 'rdp', width: 800, hostname: 'h', meta: {...}}. *)
Definition rdp_token : gmap string Utils.tvalue :=
  {[ "protocol"%string := Utils.TStr "rdp"; "width"%string := Utils.TOther true "800";
     "hostname"%string := Utils.TStr "h"; "meta"%string := Utils.TOther true "[object Object]" ]}.

(** The metadata {userId: ''}. *)
Definition meta_blank : string -> option Utils.tvalue :=
  fun key => if String.eqb key "userId" then Some (Utils.TStr "") else None.


Definition checking : GuacamoleLiteServer.config :=
  GuacamoleLiteServer.Config (Some (Utils.TOther true "true"))
    (Some "/data/drives/guacamole_pid_{{userId}}"%string) (Some some_defaults).

(** The environment of a container, and what was read from a file. *)
Definition some_env : list (string * string) :=
  [("GUACD_HOST", "guacd"); ("WEBSOCKET_PORT", " 8080 "); ("GUACD_PORT", "0");
   ("DEFAULTS_RDP_IGNORE_CERT", "true"); ("DEFAULTS_SSH_FONT_SIZE", "12");
   ("HOME", "/root")]%string.

Definition some_config : gmap string ConfigLoader.cvalue :=
  {[ "guacd_port"%string := ConfigLoader.CNum (JS.Finite 4822);
     "defaults"%string :=
       ConfigLoader.CObj
         {[ "rdp"%string :=
              ConfigLoader.ESection {[ "security"%string := ConfigLoader.CStr "any" ]};
            "enabled"%string := ConfigLoader.EScalar (ConfigLoader.SBool true) ]} ]}.

(** * Facts

    ** The notification queue *)

Module WebhookFacts.
Import WebhookManager.
Section Facts.
Context {Payload : Type}.
Implicit Types (s : state Payload) (w : webhook Payload) (k : pc Payload).
Implicit Types (lg : list (action Payload)) (p : Payload).

Lemma wh_wf_init : wf (@init Payload).
Proof.
  split; simpl; try done; try lia; constructor.
Qed.

Lemma wh_wf_lookup s i k : wf s -> loops s !! i = Some k -> i = 0%nat /\ loops s = [k].
Proof.
  intros [H _ _ _ _ _] Hi. destruct (loops s) as [|k0 [|k1 l]]; simpl in *; try lia.
  - done.
  - destruct i; simpl in *; [naive_solver|done].
Qed.

(** The loop goes on in the only instance there is. *)
Lemma wh_wf_loop_head_resume s t k0 :
  processing s = true -> loops s = [k0] ->
  Forall (fun w => attempts w < maxAttempts w) (queue s) ->
  NoDup (map wid (queue s)) -> Forall (fun n => (n < fresh s)%nat) (map wid (queue s)) ->
  wf (resume 0 (loop_head t s)).
Proof.
  intros Hp Hl Ha Hn Hf. unfold loop_head.
  destruct s as [q p l f lg]; simpl in *; subst.
  destruct q as [|w q]; simpl.
  - split; simpl; try done; try lia; constructor.
  - destruct (nextRetry w >? t); simpl.
    + split; unfold ids, flights; simpl; rewrite ?app_nil_r; try done.
    + split; unfold ids, flights; simpl; rewrite ?app_nil_r, ?map_app; simpl; try done.
      * by inversion Ha.
      * by rewrite <- Permutation_cons_append.
      * by rewrite <- Permutation_cons_append.
Qed.

Lemma wh_wf_loop_head_spawn s t :
  processing s = true -> loops s = [] -> queue s <> [] ->
  Forall (fun w => attempts w < maxAttempts w) (queue s) ->
  NoDup (map wid (queue s)) -> Forall (fun n => (n < fresh s)%nat) (map wid (queue s)) ->
  wf (spawn (loop_head t s)).
Proof.
  intros Hp Hl Hq Ha Hn Hf. unfold loop_head.
  destruct s as [q p l f lg]; simpl in *; subst.
  destruct q as [|w q]; simpl; [done|].
  destruct (nextRetry w >? t); simpl.
  + split; unfold ids, flights; simpl; rewrite ?app_nil_r; try done.
  + split; unfold ids, flights; simpl; rewrite ?app_nil_r, ?map_app; simpl; try done.
    * by inversion Ha.
    * by rewrite <- Permutation_cons_append.
    * by rewrite <- Permutation_cons_append.
Qed.

Lemma wh_wf_processQueue s t : wf s -> wf (processQueue t s).
Proof.
  intros H. unfold processQueue.
  destruct (processing s) eqn:Hp; simpl; [done|].
  rewrite (wf_idle _ H Hp). done.
Qed.

Lemma wh_wf_step s e s' : wf s -> step e s = Some s' -> wf s'.
Proof.
  intros H He. destruct e as [p t0 t1|t|i t|i t|i t0 t1]; simpl in He.
  - injection He as <-. unfold queueWebhook, processQueue. cbn [processing queue set_fresh set_queue].
    destruct (processing s) eqn:Hp; cbn [orb].
    + destruct H as [H1 H2 H3 H4 H5 H6]. split; simpl.
      * done.
      * done.
      * intros ?; congruence.
      * apply Forall_app; split; [done|]. constructor; [simpl; lia|constructor].
      * unfold ids, flights in *; simpl. rewrite <- app_assoc, map_app. simpl.
        rewrite <- Permutation_middle.
        constructor; [|by rewrite <- map_app]. rewrite <- map_app. intros Hin.
        rewrite Forall_forall in H6. apply H6 in Hin. lia.
      * unfold ids, flights in *; simpl. rewrite <- app_assoc, map_app. simpl.
        rewrite <- Permutation_middle.
        constructor; [lia|]. rewrite <- map_app. eapply Forall_impl; [done|]. simpl. lia.
    + pose proof (wf_idle _ H Hp) as Hq. rewrite Hq. rewrite length_app. simpl.
      assert (Hl : loops s = []).
      { destruct (loops s) eqn:E; [done|]. destruct H as [_ H2 _ _ _ _].
        rewrite E in H2. destruct H2 as [_ H2]. rewrite H2 in Hp; done. }
      apply wh_wf_loop_head_spawn; simpl; try done.
      * constructor; [simpl; lia|constructor].
      * apply NoDup_singleton.
      * constructor; [lia|constructor].
  - injection He as <-. by apply wh_wf_processQueue.
  - destruct (loops s !! i) as [[|w]|] eqn:Hi; try done. injection He as <-.
    destruct (wh_wf_lookup _ _ _ H Hi) as [-> Hl].
    destruct H as [H1 H2 H3 H4 H5 H6].
    unfold ids, flights in *. rewrite Hl in *. simpl in *. rewrite app_nil_r in *.
    eapply wh_wf_loop_head_resume; try done. apply H2. done.
  - destruct (loops s !! i) as [[|w]|] eqn:Hi; try done. injection He as <-.
    destruct (wh_wf_lookup _ _ _ H Hi) as [-> Hl].
    destruct H as [H1 H2 H3 H4 H5 H6].
    unfold ids, flights in *. rewrite Hl in *. simpl in *.
    rewrite map_app in *. simpl in *.
    eapply wh_wf_loop_head_resume; simpl; try done.
    + apply H2. done.
    + by apply NoDup_app in H5 as (?&?&?).
    + by apply Forall_app in H6 as [? ?].
  - destruct (loops s !! i) as [[|w]|] eqn:Hi; try done. injection He as <-.
    destruct (wh_wf_lookup _ _ _ H Hi) as [-> Hl].
    destruct H as [H1 H2 H3 H4 H5 H6].
    unfold ids, flights in *. rewrite Hl in *. simpl in *.
    rewrite map_app in *. simpl in *.
    assert (Hp : processing s = true) by (apply H2; done).
    unfold on_rejected. destruct (attempts w + 1 <? maxAttempts w) eqn:Hlt; simpl.
    + eapply wh_wf_loop_head_resume; simpl; try done.
      * apply Forall_app; split; [done|]. constructor; [simpl; lia|constructor].
      * by rewrite map_app.
      * by rewrite map_app.
    + eapply wh_wf_loop_head_resume; simpl; try done.
      * by apply NoDup_app in H5 as (?&?&?).
      * by apply Forall_app in H6 as [? ?].
Qed.

Lemma wh_wf_exec es : forall s s', wf s -> exec es s = Some s' -> wf s'.
Proof.
  induction es as [|e es IH]; simpl; intros s s' H He.
  - by injection He as <-.
  - destruct (step e s) as [s1|] eqn:E; [|done]. eauto using wh_wf_step.
Qed.

Lemma wh_wf_reachable s : reachable s -> wf s.
Proof. intros [es He]. eapply wh_wf_exec; [apply wh_wf_init|done]. Qed.

(** *** The drain loop is alone (C3) *)

Lemma wh_processQueue_busy s t : processing s = true -> processQueue t s = s.
Proof. intros H. unfold processQueue. by rewrite H. Qed.

Lemma wh_queueWebhook_busy s p t0 t1 :
  processing s = true ->
  loops (queueWebhook p t0 t1 s) = loops s /\ processing (queueWebhook p t0 t1 s) = true.
Proof.
  intros H. unfold queueWebhook. rewrite wh_processQueue_busy; simpl; done.
Qed.

Lemma wh_flag_raised s e s' :
  wf s -> step e s = Some s' -> processing s = false -> processing s' = true ->
  loops s = [] /\ length (loops s') = 1%nat.
Proof.
  intros H He Hp Hp'. pose proof (wh_wf_step _ _ _ H He) as H'.
  split.
  - destruct (loops s) eqn:E; [done|]. destruct (wf_flag _ H) as [_ Hf].
    rewrite Hf in Hp; [done|]. by rewrite E.
  - destruct (wf_flag _ H') as [Hf _]. specialize (Hf Hp').
    pose proof (wf_loops _ H'). destruct (loops s') as [|? [|]]; simpl in *; try done; lia.
Qed.

Lemma wh_flag_cleared s e s' :
  wf s -> step e s = Some s' -> processing s = true -> processing s' = false ->
  queue s' = [] /\ loops s' = [].
Proof.
  intros H He Hp Hp'. pose proof (wh_wf_step _ _ _ H He) as H'.
  split; [by apply (wf_idle _ H')|].
  destruct (loops s') eqn:E; [done|]. destruct (wf_flag _ H') as [_ Hf].
  rewrite Hf in Hp'; [done|]. by rewrite E.
Qed.

(** *** Attempts stay below the ceiling (C2) *)


Lemma wh_given_up s i w t0 t1 s' :
  wf s -> loops s !! i = Some (AwaitSend w) -> maxAttempts w <= attempts w + 1 ->
  step (SendRejected i t0 t1) s = Some s' ->
  wid w ∉ ids s'.
Proof.
  intros H Hi Hmax He. simpl in He. rewrite Hi in He. injection He as <-.
  destruct (wh_wf_lookup _ _ _ H Hi) as [-> Hl].
  pose proof (wf_nodup _ H) as Hn. unfold ids, flights in *.
  destruct s as [q p l f lg]; simpl in *; subst l. simpl in Hn.
  rewrite map_app in Hn. simpl in Hn.
  apply NoDup_app in Hn as (_ & Hn & _).
  assert (Hw : wid w ∉ map wid q).
  { intros Hin. apply (Hn _ Hin). left. }
  unfold on_rejected. destruct (attempts w + 1 <? maxAttempts w) eqn:E; [lia|].
  unfold loop_head; simpl. destruct q as [|w0 q]; simpl.
  - apply not_elem_of_nil.
  - destruct (nextRetry w0 >? t1); simpl.
    + by rewrite ?app_nil_r.
    + rewrite ?app_nil_r, map_app. simpl. by rewrite <- Permutation_cons_append.
Qed.

(** *** The catch block (C5) *)

Lemma wh_on_rejected_retry s w now :
  attempts w + 1 < maxAttempts w ->
  queue (on_rejected now w s) =
    queue s ++ [{| wid := wid w; payload := payload w; attempts := attempts w + 1;
                   maxAttempts := maxAttempts w;
                   nextRetry := now + Z.min (1000 * 2 ^ (attempts w + 1)) 30000 |}].
Proof. intros H. unfold on_rejected. destruct (_ <? _) eqn:E; [done|lia]. Qed.

(** *** The head of the queue (C6) *)

Lemma wh_loop_head_waits s w q now :
  queue s = w :: q -> nextRetry w > now -> loop_head now s = (s, Some AwaitSleep).
Proof.
  intros Hq Hw. unfold loop_head. rewrite Hq.
  destruct (nextRetry w >? now) eqn:E; [|lia].
  rewrite <- Hq. by destruct s.
Qed.

Lemma wh_loop_head_sends s w q now :
  queue s = w :: q -> nextRetry w <= now ->
  loop_head now s = (add_log (SendWebhook w) (set_queue q s), Some (AwaitSend w)).
Proof.
  intros Hq Hw. unfold loop_head. rewrite Hq.
  destruct (nextRetry w >? now) eqn:E; [lia|done].
Qed.

(** *** A task that is always rejected (C1) *)


Lemma wh_count_app lg (lg' : list (action Payload)) : count (lg ++ lg') = (count lg + count lg')%nat.
Proof. unfold count. by rewrite List.filter_app, length_app. Qed.

Lemma wh_backoff_pos a : 0 <= a -> 0 < backoffDelay a.
Proof.
  intros H. unfold backoffDelay. apply Z.min_glb_lt; [|lia].
  pose proof (Z.pow_pos_nonneg 2 a). lia.
Qed.

#[local] Opaque Z.gtb Z.ltb Z.add Z.mul backoffDelay.

(** While the task waits, the timer fires until its time has come. *)
Lemma wh_run_waiting rtt n p a lg (j : nat) : forall t clock,
  t <= clock + 1000 * (Z.of_nat j + 1) ->
  exists fuel clock', forall f,
    run_rejecting rtt (fuel + f) clock (waiting n p a t lg) =
    run_rejecting rtt f clock' (sending n p a t (lg ++ [SendWebhook (task n p a t)])).
Proof.
  induction j as [|j IH]; intros t clock Ht.
  - exists 1%nat, (clock + 1000). intros f. simpl. unfold loop_head, waiting. simpl.
    destruct (t >? clock + 1000) eqn:E; [lia|]. done.
  - destruct (t >? clock + 1000) eqn:E.
    + destruct (IH t (clock + 1000)) as (fuel & clock' & Hrun); [lia|].
      exists (S fuel), clock'. intros f. simpl. unfold loop_head, waiting. simpl.
      rewrite E. simpl. apply Hrun.
    + exists 1%nat, (clock + 1000). intros f. simpl. unfold loop_head, waiting. simpl.
      rewrite E. done.
Qed.

(** A delivery that is rejected [k + 1] more times ends the task. *)
Lemma wh_run_sending rtt n p (k : nat) : forall a t clock lg,
  0 <= a -> n - a = Z.of_nat k + 1 ->
  exists fuel lg',
    run_rejecting rtt fuel clock (sending n p a t lg) = idle lg' /\
    count lg' = (count lg + k)%nat.
Proof.
  induction k as [|k IH]; intros a t clock lg Ha Hn.
  - exists 1%nat. eexists. split.
    + simpl. unfold on_rejected, sending. simpl.
      destruct (a + 1 <? n) eqn:E; [lia|]. simpl. reflexivity.
    + simpl. rewrite !wh_count_app. unfold count. simpl. lia.
  - set (t' := clock + rtt + backoffDelay (a + 1)).
    pose proof (wh_backoff_pos (a + 1)) as Hpos.
    destruct (wh_run_waiting rtt n p (a + 1) (lg ++ [SendFailed (task n p a t)])
                (Z.to_nat (backoffDelay (a + 1))) t' (clock + rtt))
      as (fuel1 & clock1 & Hwait); [unfold t'; lia|].
    destruct (IH (a + 1) t' clock1
                ((lg ++ [SendFailed (task n p a t)]) ++ [SendWebhook (task n p (a + 1) t')]))
      as (fuel2 & lg' & Hrun & Hcount); [lia|lia|].
    exists (S (fuel1 + fuel2)), lg'. split.
    + simpl. unfold on_rejected, sending. simpl.
      destruct (a + 1 <? n) eqn:E; [|lia]. unfold loop_head. simpl.
      fold t'. destruct (t' >? clock + rtt) eqn:E'; [|unfold t' in E'; lia].
      simpl. rewrite <- Hrun. apply Hwait.
    + rewrite Hcount, !wh_count_app. unfold count. simpl. lia.
Qed.

Lemma wh_single_start n (p : Payload) t :
  processQueue t (single n p t) = sending n p 0 t [SendWebhook (task n p 0 t)].
Proof.
  unfold processQueue, single, loop_head. simpl.
  destruct (t >? t) eqn:E; [lia|]. done.
Qed.

Lemma wh_always_rejected rtt n (p : Payload) t :
  1 <= n ->
  exists fuel,
    let s := run_rejecting rtt fuel t (processQueue t (single n p t)) in
    queue s = [] /\ processing s = false /\ loops s = [] /\ Z.of_nat (sends s) = n.
Proof.
  intros Hn.
  destruct (wh_run_sending rtt n p (Z.to_nat (n - 1)) 0 t t [SendWebhook (task n p 0 t)])
    as (fuel & lg' & Hrun & Hcount); [lia|lia|].
  exists fuel. rewrite wh_single_start, Hrun. simpl. repeat split; try done.
  unfold sends. simpl. fold (count lg'). rewrite Hcount. unfold count. simpl. lia.
Qed.

#[local] Transparent Z.gtb Z.ltb Z.add Z.mul backoffDelay.

(** *** A task that is always rejected, under any schedule (C1) *)

Lemma wh_always_rejected_any n p es : forall s,
  forallb unsuccessful es = true ->
  alone n p s ->
  forall s', exec es s = Some s' -> alone n p s'.
Proof.
  induction es as [|e es IH]; intros s Hes Hs s' Hrun; simpl in *.
  - by injection Hrun as <-.
  - apply andb_prop in Hes as [He Hes].
    destruct (step e s) as [s1|] eqn:Hstep; [|done].
    apply (IH s1 Hes); [|done]. clear IH Hrun Hes es s'.
    destruct Hs as (lg & [(a & t & Ha & -> & Hc)|[(a & t & Ha & -> & Hc)|(-> & Hc)]]).
    + (* a delivery is awaited *)
      destruct e as [?|?|i t'|?|i t1 t2]; try done; simpl in Hstep.
      * injection Hstep as <-. exists lg. left. by exists a, t.
      * destruct i; simpl in Hstep; [done|by destruct i].
      * destruct i as [|i]; simpl in Hstep; [|by destruct i].
        injection Hstep as <-. unfold on_rejected, sending, task. simpl.
        destruct (a + 1 <? n) eqn:E.
        -- unfold loop_head. simpl.
           destruct (t1 + backoffDelay (a + 1) >? t2).
           ++ eexists. right. left. exists (a + 1), (t1 + backoffDelay (a + 1)).
              split; [lia|]. split; [reflexivity|].
              simpl. rewrite ?wh_count_app. unfold count in *. simpl. lia.
           ++ eexists. left. exists (a + 1), (t1 + backoffDelay (a + 1)).
              split; [lia|]. split; [reflexivity|].
              simpl. rewrite ?wh_count_app. unfold count in *. simpl. lia.
        -- eexists. right. right. split; [reflexivity|].
           simpl. rewrite ?wh_count_app. unfold count in *. simpl. lia.
    + (* the task waits *)
      destruct e as [?|?|i t'|?|i t1 t2]; try done; simpl in Hstep.
      * injection Hstep as <-. exists lg. right. left. by exists a, t.
      * destruct i as [|i]; simpl in Hstep; [|by destruct i].
        injection Hstep as <-. unfold loop_head, waiting, task. simpl.
        destruct (t >? t').
        -- exists lg. right. left. by exists a, t.
        -- eexists. left. exists a, t. split; [lia|]. split; [reflexivity|].
           simpl. rewrite ?wh_count_app. unfold count in *. simpl. lia.
      * destruct i; simpl in Hstep; [done|by destruct i].
    + (* the task is gone *)
      destruct e as [?|?|i t'|?|i t1 t2]; try done; simpl in Hstep.
      injection Hstep as <-. exists lg. right. right. done.
Qed.

Lemma wh_alone_start n p t : 1 <= n -> alone n p (processQueue t (single n p t)).
Proof.
  intros Hn. rewrite wh_single_start. eexists. left. exists 0, t.
  split; [lia|]. split; [reflexivity|]. reflexivity.
Qed.

Lemma wh_alone_sends n p s :
  alone n p s ->
  Z.of_nat (sends s) <= n /\
  (loops s = [] ->
     Z.of_nat (sends s) = n /\ queue s = [] /\ processing s = false).
Proof.
  intros (lg & [(a & t & Ha & -> & Hc)|[(a & t & Ha & -> & Hc)|(-> & Hc)]]);
    unfold sends; simpl; fold (count lg); (split; [lia|]); try done.
Qed.

End Facts.
End WebhookFacts.
(** ** The retry wrapper and the storage client *)

Module RetryFacts.
Import Utils.
Section Facts.
Context {World Val Err : Type} (fn : World -> (Val + Err) * World).

Lemma retry_calls_le baseDelay r : forall a w,
  (1 <= calls (retry_from fn baseDelay r a w) <= S r)%nat.
Proof.
  induction r as [|r IH]; intros a w; simpl.
  - destruct (fn w) as [[v|e] w']; simpl; lia.
  - destruct (fn w) as [[v|e] w']; simpl; [lia|].
    specialize (IH (S a) w'). lia.
Qed.

Lemma retry_resolves_at_once baseDelay r a w v w' :
  fn w = (inl v, w') ->
  retry_from fn baseDelay r a w =
    {| outcome := inl v; world := w'; calls := 1; delays := [] |}.
Proof. intros H. destruct r; simpl; by rewrite H. Qed.

Lemma retry_always_rejected baseDelay r : forall a w,
  (forall w0, exists e w1, fn w0 = (inr e, w1)) ->
  calls (retry_from fn baseDelay r a w) = S r /\
  (exists e, outcome (retry_from fn baseDelay r a w) = inr e) /\
  delays (retry_from fn baseDelay r a w) =
    map (fun i => baseDelay * 2 ^ Z.of_nat i) (seq a r).
Proof.
  induction r as [|r IH]; intros a w H; simpl.
  - destruct (H w) as (e & w1 & ->). simpl. eauto.
  - destruct (H w) as (e & w1 & ->). simpl.
    destruct (IH (S a) w1 H) as (-> & He & ->). eauto.
Qed.

End Facts.
End RetryFacts.

Module S3Facts.
Import S3Uploader.

Lemma upload_calls_le e : (snd (upload e) <= 4)%nat.
Proof.
  unfold upload.
  destruct (isAvailable e); simpl; [|lia].
  destruct (file_exists e); simpl; [|lia].
  destruct (getBucket e); simpl; [|lia].
  pose proof (RetryFacts.retry_calls_le (perform e) 2000 3 0%nat 0%nat) as H.
  unfold Utils.createRetryWrapper.
  set (r := Utils.retry_from _ _ _ _ _) in *.
  destruct (Utils.outcome r); simpl; lia.
Qed.

Lemma upload_always_rejected e b :
  isAvailable e = true -> file_exists e = true -> getBucket e = Some b ->
  (forall n, performUpload e n = false) ->
  upload e = (None, 4%nat).
Proof.
  intros Ha Hf Hb Hp. unfold upload. rewrite Ha, Hf, Hb. simpl.
  destruct (RetryFacts.retry_always_rejected (perform e) 2000 3 0%nat 0%nat) as (Hc & [[] Ho] & _).
  { intros n. exists tt, (S n). unfold perform. by rewrite Hp. }
  unfold Utils.createRetryWrapper. by rewrite Ho, Hc.
Qed.

Lemma upload_resolves_at_once e b :
  isAvailable e = true -> file_exists e = true -> getBucket e = Some b ->
  performUpload e 0 = true ->
  upload e = (Some (s3Key e), 1%nat).
Proof.
  intros Ha Hf Hb Hp. unfold upload. rewrite Ha, Hf, Hb. simpl.
  unfold Utils.createRetryWrapper.
  rewrite (RetryFacts.retry_resolves_at_once (perform e) 2000 3 0%nat 0%nat tt 1%nat); [done|].
  unfold perform. by rewrite Hp.
Qed.

End S3Facts.

(** ** The upload queue *)

Module UploadFacts.
Import RecordingManager.
Section Facts.
Context {Conn : Type}.
Implicit Types (s : state Conn) (u : upload Conn) (k : pc Conn).
Implicit Types (lg : list (action Conn)) (o : option S3Uploader.env).

Lemma up_wf_init : wf (@init Conn).
Proof. split; simpl; try done; try lia; constructor. Qed.

Lemma up_wf_lookup s i k : wf s -> loops s !! i = Some k -> i = 0%nat /\ loops s = [k].
Proof.
  intros H Hi. pose proof (wf_loops _ H).
  destruct (loops s) as [|k0 [|k1 l]]; simpl in *; try lia.
  - done.
  - destruct i; simpl in *; [naive_solver|done].
Qed.

Lemma up_uploadRecording_le (o : option S3Uploader.env) :
  (snd (uploadRecording o) <= 4)%nat.
Proof.
  unfold uploadRecording. destruct o as [e|]; simpl; [|lia].
  pose proof (S3Facts.upload_calls_le e). destruct (S3Uploader.upload e) as [[?|] n]; simpl in *; lia.
Qed.

(** The loop goes on in the only instance there is. *)
Lemma up_wf_loop_head_resume s k0 :
  processing s = true -> loops s = [k0] ->
  Forall good (uploadQueue s) ->
  Forall capped (concat (map settled (log s))) ->
  NoDup (map uid (uploadQueue s)) ->
  Forall (fun n => (n < fresh s)%nat) (map uid (uploadQueue s)) ->
  wf (resume 0 (loop_head s)).
Proof.
  intros Hp Hl Ha Hs Hn Hf. unfold loop_head.
  destruct s as [q p l f lg]; simpl in *; subst.
  destruct q as [|u q]; simpl.
  - split; simpl; try done; try lia; constructor.
  - split; unfold ids, flights; simpl; rewrite ?app_nil_r, ?map_app; simpl; try done.
    + by rewrite <- Permutation_cons_append.
    + by rewrite concat_app, app_nil_r.
    + by rewrite <- Permutation_cons_append.
    + by rewrite <- Permutation_cons_append.
Qed.

Lemma up_wf_loop_head_spawn s :
  processing s = true -> loops s = [] -> uploadQueue s <> [] ->
  Forall good (uploadQueue s) ->
  Forall capped (concat (map settled (log s))) ->
  NoDup (map uid (uploadQueue s)) ->
  Forall (fun n => (n < fresh s)%nat) (map uid (uploadQueue s)) ->
  wf (spawn (loop_head s)).
Proof.
  intros Hp Hl Hq Ha Hs Hn Hf. unfold loop_head.
  destruct s as [q p l f lg]; simpl in *; subst.
  destruct q as [|u q]; simpl; [done|].
  split; unfold ids, flights; simpl; rewrite ?app_nil_r, ?map_app; simpl; try done.
  + by rewrite <- Permutation_cons_append.
  + by rewrite concat_app, app_nil_r.
  + by rewrite <- Permutation_cons_append.
  + by rewrite <- Permutation_cons_append.
Qed.

Lemma up_wf_processUploadQueue s : wf s -> wf (processUploadQueue s).
Proof.
  intros H. unfold processUploadQueue.
  destruct (processing s) eqn:Hp; simpl; [done|].
  rewrite (wf_idle _ H Hp). done.
Qed.

Lemma up_wf_step s e s' : wf s -> step e s = Some s' -> wf s'.
Proof.
  intros H He. destruct e as [path c sid| |i|i o]; simpl in He.
  - injection He as <-. unfold queueForUpload, processUploadQueue.
    cbn [processing uploadQueue set_fresh set_queue].
    destruct (processing s) eqn:Hp; cbn [orb].
    + destruct H as [H1 H2 H3 H4 H4' H5 H6]. split; simpl.
      * done.
      * done.
      * intros ?; congruence.
      * unfold flights in *; simpl. rewrite <- app_assoc. simpl.
        rewrite <- Permutation_middle. constructor; [|done].
        unfold good; simpl; lia.
      * done.
      * unfold ids, flights in *; simpl. rewrite <- app_assoc, map_app. simpl.
        rewrite <- Permutation_middle.
        constructor; [|by rewrite <- map_app]. rewrite <- map_app. intros Hin.
        rewrite Forall_forall in H6. apply H6 in Hin. lia.
      * unfold ids, flights in *; simpl. rewrite <- app_assoc, map_app. simpl.
        rewrite <- Permutation_middle.
        constructor; [lia|]. rewrite <- map_app. eapply Forall_impl; [done|]. simpl. lia.
    + pose proof (wf_idle _ H Hp) as Hq. rewrite Hq. rewrite length_app.
      cbn -[spawn loop_head].
      assert (Hl : loops s = []).
      { destruct (loops s) eqn:E; [done|]. destruct (wf_flag _ H) as [_ H2].
        rewrite H2 in Hp; [done|]. by rewrite E. }
      apply up_wf_loop_head_spawn; simpl; try done.
      * constructor; [unfold good; simpl; lia|constructor].
      * apply (wf_settled _ H).
      * apply NoDup_singleton.
      * constructor; [lia|constructor].
  - injection He as <-. by apply up_wf_processUploadQueue.
  - destruct (loops s !! i) as [[u|ms]|] eqn:Hi; try done. injection He as <-.
    destruct (up_wf_lookup _ _ _ H Hi) as [-> Hl].
    destruct H as [H1 H2 H3 H4 H4' H5 H6].
    unfold ids, flights in *. rewrite Hl in *. simpl in *. rewrite app_nil_r in *.
    eapply up_wf_loop_head_resume; try done. apply H2. done.
  - destruct (loops s !! i) as [[u|ms]|] eqn:Hi; try done.
    destruct (up_wf_lookup _ _ _ H Hi) as [-> Hl].
    pose proof (up_uploadRecording_le o) as Hle.
    destruct (uploadRecording o) as [ok n]. simpl in Hle. injection He as <-.
    destruct H as [H1 H2 H3 H4 H4' H5 H6].
    unfold ids, flights in *. rewrite Hl in *. simpl in *.
    rewrite map_app in *. simpl in *.
    assert (Hp : processing s = true) by (apply H2; done).
    apply Forall_app in H4 as [H4 Hu]. apply Forall_cons in Hu as [[Hu1 Hu2] _].
    apply NoDup_app in H5 as (H5 & H5' & _). apply Forall_app in H6 as [H6 H6'].
    destruct ok.
    + unfold on_resolved. eapply up_wf_loop_head_resume; simpl; try done.
      rewrite map_app, concat_app. simpl. apply Forall_app; split; [done|].
      constructor; [|constructor]. unfold capped. simpl. lia.
    + unfold on_rejected. cbn [attempts maxAttempts tried].
      destruct (attempts u + 1 <? maxAttempts u) eqn:Hlt.
      * split; unfold ids, flights; simpl; rewrite ?Hl; simpl;
          rewrite ?app_nil_r, ?map_app; simpl.
        -- lia.
        -- done.
        -- intros ?; congruence.
        -- apply Forall_app; split; [done|]. constructor; [|constructor].
           unfold good; simpl. lia.
        -- rewrite ?map_app, ?concat_app; simpl. by rewrite ?app_nil_r.
        -- apply NoDup_app. split; [done|]. split; [done|]. apply NoDup_singleton.
        -- apply Forall_app; split; done.
      * eapply up_wf_loop_head_resume; simpl; try done.
        rewrite !map_app, !concat_app. simpl. apply Forall_app; split.
        { apply Forall_app; split; [done|constructor]. }
        constructor; [|constructor]. unfold capped. simpl. lia.
Qed.

Lemma up_wf_exec es : forall s s', wf s -> exec es s = Some s' -> wf s'.
Proof.
  induction es as [|e es IH]; simpl; intros s s' H He.
  - by injection He as <-.
  - destruct (step e s) as [s1|] eqn:E; [|done]. eauto using up_wf_step.
Qed.

Lemma up_wf_reachable s : reachable s -> wf s.
Proof. intros [es He]. eapply up_wf_exec; [apply up_wf_init|done]. Qed.

(** *** The drain loop is alone (C3) *)

Lemma up_processUploadQueue_busy s : processing s = true -> processUploadQueue s = s.
Proof. intros H. unfold processUploadQueue. by rewrite H. Qed.

Lemma up_queueForUpload_busy s path (c : Conn) sid :
  processing s = true ->
  loops (queueForUpload path c sid s) = loops s /\
  processing (queueForUpload path c sid s) = true.
Proof.
  intros H. unfold queueForUpload. rewrite up_processUploadQueue_busy; simpl; done.
Qed.

Lemma up_flag_raised s e s' :
  wf s -> step e s = Some s' -> processing s = false -> processing s' = true ->
  loops s = [] /\ length (loops s') = 1%nat.
Proof.
  intros H He Hp Hp'. pose proof (up_wf_step _ _ _ H He) as H'.
  split.
  - destruct (loops s) eqn:E; [done|]. destruct (wf_flag _ H) as [_ Hf].
    rewrite Hf in Hp; [done|]. by rewrite E.
  - destruct (wf_flag _ H') as [Hf _]. specialize (Hf Hp').
    pose proof (wf_loops _ H'). destruct (loops s') as [|? [|]]; simpl in *; try done; lia.
Qed.

Lemma up_flag_cleared s e s' :
  wf s -> step e s = Some s' -> processing s = true -> processing s' = false ->
  uploadQueue s' = [] /\ loops s' = [].
Proof.
  intros H He Hp Hp'. pose proof (up_wf_step _ _ _ H He) as H'.
  split; [by apply (wf_idle _ H')|].
  destruct (loops s') eqn:E; [done|]. destruct (wf_flag _ H') as [_ Hf].
  rewrite Hf in Hp'; [done|]. by rewrite E.
Qed.

(** *** Attempts stay below the ceiling (C2) *)

Lemma up_given_up s i u o s' :
  wf s -> loops s !! i = Some (AwaitUpload u) -> fst (uploadRecording o) = false ->
  maxAttempts u <= attempts u + 1 ->
  step (UploadSettled i o) s = Some s' ->
  uid u ∉ ids s'.
Proof.
  intros H Hi Ho Hmax He. simpl in He. rewrite Hi in He.
  destruct (uploadRecording o) as [ok n]. simpl in Ho. subst ok. injection He as <-.
  destruct (up_wf_lookup _ _ _ H Hi) as [-> Hl].
  pose proof (wf_nodup _ H) as Hn. unfold ids, flights in *.
  destruct s as [q p l f lg]; simpl in *; subst l. simpl in Hn.
  rewrite map_app in Hn. simpl in Hn.
  apply NoDup_app in Hn as (_ & Hn & _).
  assert (Hw : uid u ∉ map uid q).
  { intros Hin. apply (Hn _ Hin). left. }
  unfold on_rejected. cbn [attempts maxAttempts tried].
  destruct (attempts u + 1 <? maxAttempts u) eqn:E; [lia|].
  unfold loop_head; simpl. destruct q as [|u0 q]; simpl.
  - apply not_elem_of_nil.
  - rewrite ?app_nil_r, map_app. simpl. by rewrite <- Permutation_cons_append.
Qed.

(** *** The catch block (C5) *)

Lemma up_on_rejected_retry s u :
  attempts u + 1 < maxAttempts u ->
  on_rejected u s =
    (set_queue (uploadQueue s ++
                [{| uid := uid u; filePath := filePath u; connection := connection u;
                    sessionId := sessionId u; attempts := attempts u + 1;
                    maxAttempts := maxAttempts u; tries := tries u |}])
               (add_log (UploadFailed u) s),
     Some (AwaitBackoff (5000 * (attempts u + 1)))).
Proof. intros H. unfold on_rejected. destruct (_ <? _) eqn:E; [done|lia]. Qed.

(** *** A task that is always rejected (C1) *)

Lemma up_count_app lg (lg' : list (action Conn)) : count (lg ++ lg') = (count lg + count lg')%nat.
Proof. unfold count. by rewrite List.filter_app, length_app. Qed.

#[local] Opaque Z.ltb Z.add Z.mul.

Lemma up_run_uploading o m n path (c : Conn) sid (j : nat) : forall a tr lg,
  uploadRecording o = (false, m) ->
  n - a = Z.of_nat j + 1 ->
  exists fuel lg',
    run o fuel (uploading (task n path c sid a tr) lg) = idle lg' /\
    count lg' = (count lg + j)%nat.
Proof.
  induction j as [|j IH]; intros a tr lg Ho Hn.
  - exists 1%nat. eexists. split.
    + simpl. rewrite Ho. unfold on_rejected. simpl.
      destruct (a + 1 <? n) eqn:E; [lia|]. simpl. reflexivity.
    + simpl. rewrite !up_count_app. unfold count. simpl. lia.
  - destruct (IH (a + 1) (tr + m)%nat
                ((lg ++ [UploadFailed (task n path c sid a (tr + m))]) ++
                 [UploadRecording (task n path c sid (a + 1) (tr + m))]) Ho)
      as (fuel & lg' & Hrun & Hcount); [lia|].
    exists (S (S fuel)), lg'. split.
    + simpl. rewrite Ho. unfold on_rejected. simpl.
      destruct (a + 1 <? n) eqn:E; [|lia]. simpl. apply Hrun.
    + rewrite Hcount, !up_count_app. unfold count. simpl. lia.
Qed.

Lemma up_single_start n path (c : Conn) sid :
  processUploadQueue (single n path c sid) =
  uploading (task n path c sid 0 0) [UploadRecording (task n path c sid 0 0)].
Proof. reflexivity. Qed.

Lemma up_always_rejected o n path (c : Conn) sid :
  fst (uploadRecording o) = false -> 1 <= n ->
  exists fuel,
    let s := run o fuel (processUploadQueue (single n path c sid)) in
    uploadQueue s = [] /\ processing s = false /\ loops s = [] /\
    Z.of_nat (uploads s) = n.
Proof.
  intros Ho Hn. destruct (uploadRecording o) as [ok m] eqn:E. simpl in Ho. subst ok.
  destruct (up_run_uploading o m n path c sid (Z.to_nat (n - 1)) 0 0%nat
              [UploadRecording (task n path c sid 0 0)] E)
    as (fuel & lg' & Hrun & Hcount); [lia|].
  exists fuel. rewrite up_single_start, Hrun. simpl. repeat split; try done.
  unfold uploads. simpl. fold (count lg'). rewrite Hcount. unfold count. simpl. lia.
Qed.

#[local] Transparent Z.ltb Z.add Z.mul.

(** *** A task that is always rejected, under any schedule (C1) *)

Lemma up_always_rejected_any n path (c : Conn) sid es : forall s,
  forallb unsuccessful es = true ->
  alone n path c sid s ->
  forall s', exec es s = Some s' -> alone n path c sid s'.
Proof.
  induction es as [|e es IH]; intros s Hes Hs s' Hrun; simpl in *.
  - by injection Hrun as <-.
  - apply andb_prop in Hes as [He Hes].
    destruct (step e s) as [s1|] eqn:Hstep; [|done].
    apply (IH s1 Hes); [|done]. clear IH Hrun Hes es s'.
    destruct Hs as (lg & [(a & tr & Ha & -> & Hc)|[(a & tr & ms & Ha & -> & Hc)|(-> & Hc)]]).
    + (* a delivery is awaited *)
      destruct e as [? ? ?| |i|i o]; try done; simpl in Hstep.
      * injection Hstep as <-. exists lg. left. by exists a, tr.
      * destruct i; simpl in Hstep; [done|by destruct i].
      * destruct i as [|i]; simpl in Hstep; [|by destruct i].
        simpl in He. destruct (uploadRecording o) as [ok m]. simpl in He.
        destruct ok; [done|]. injection Hstep as <-.
        unfold on_rejected, uploading, task. simpl.
        destruct (a + 1 <? n) eqn:E.
        -- eexists. right. left. exists (a + 1), (tr + m)%nat, (retryDelay (a + 1)).
           split; [lia|]. split; [reflexivity|].
           simpl. rewrite ?up_count_app. unfold count in *. simpl. lia.
        -- eexists. right. right. split; [reflexivity|].
           simpl. rewrite ?up_count_app. unfold count in *. simpl. lia.
    + (* the task waits *)
      destruct e as [? ? ?| |i|i o]; try done; simpl in Hstep.
      * injection Hstep as <-. exists lg. right. left. by exists a, tr, ms.
      * destruct i as [|i]; simpl in Hstep; [|by destruct i].
        injection Hstep as <-. eexists. left. exists a, tr.
        split; [lia|]. split; [reflexivity|].
        simpl. rewrite ?up_count_app. unfold count in *. simpl. lia.
      * destruct i; simpl in Hstep; [done|by destruct i].
    + (* the task is gone *)
      destruct e as [? ? ?| |i|i o]; try done; simpl in Hstep.
      injection Hstep as <-. exists lg. right. right. done.
Qed.

Lemma up_alone_start n path (c : Conn) sid :
  1 <= n -> alone n path c sid (processUploadQueue (single n path c sid)).
Proof.
  intros Hn. rewrite up_single_start. eexists. left. exists 0, 0%nat.
  split; [lia|]. split; [reflexivity|]. reflexivity.
Qed.

Lemma up_alone_uploads n path (c : Conn) sid s :
  alone n path c sid s ->
  Z.of_nat (uploads s) <= n /\
  (loops s = [] ->
     Z.of_nat (uploads s) = n /\ uploadQueue s = [] /\ processing s = false).
Proof.
  intros (lg & [(a & tr & Ha & -> & Hc)|[(a & tr & ms & Ha & -> & Hc)|(-> & Hc)]]);
    unfold uploads; simpl; fold (count lg); (split; [lia|]); try done.
Qed.

End Facts.
End UploadFacts.

(** ** The compression stage *)

Module CompressFacts.
Import RecordingManager.

Lemma append_nonempty_ne (a b : string) : b <> ""%string -> (a +:+ b)%string <> a.
Proof.
  intros Hb. induction a as [|c a IH]; simpl.
  - done.
  - intros H. injection H as H'. by apply IH.
Qed.

Lemma format_none_cases cfg :
  (format_of cfg = "none"%string) <->
  (cfg = None \/ cfg = Some ""%string \/ cfg = Some "none"%string).
Proof.
  unfold format_of. destruct cfg as [f|]; [|naive_solver].
  destruct (String.eqb_spec f ""); subst; [naive_solver|].
  split; [intros ->; naive_solver|]. intros [?|[?|?]]; congruence.
Qed.

(** With no compression nothing is called and nothing changes. *)
Lemma compress_none cfg o inputPath d :
  format_of cfg = "none"%string ->
  compressRecording cfg o inputPath d = (Resolved inputPath, d).
Proof. intros H. unfold compressRecording. by rewrite H. Qed.

Lemma compress_gzip_unfold o inputPath d :
  compressRecording (Some "gzip"%string) o inputPath d =
  match try_block "gzip" o inputPath (gz inputPath) d with
  | (Resolved (Some p), d') => (Resolved p, d')
  | (Resolved None, d') => (Resolved inputPath, d')
  | (Rejected, d') => (Resolved inputPath, d')
  end.
Proof. reflexivity. Qed.

(** All goes well: the compressed file is returned and the input is gone. *)
Lemma compress_gzip_ok o inputPath d :
  transform_resolves o = true -> output_on_disk o = true -> unlink_resolves o = true ->
  inputPath ∈ files d ->
  compressRecording (Some "gzip"%string) o inputPath d =
    (Resolved (gz inputPath),
     {| files := (files d ∪ {[gz inputPath]}) ∖ {[inputPath]};
        calls := calls d ++ [CompressWithGzip inputPath (gz inputPath);
                             ExistsSync (gz inputPath); Unlink inputPath] |}).
Proof.
  intros Ht Ho Hu Hin. rewrite compress_gzip_unfold.
  unfold try_block, bind, compressWithGzip, transform, existsSync, unlink, called, ret. simpl.
  rewrite Ht, Ho, Hu. simpl.
  rewrite bool_decide_eq_true_2 by set_solver. simpl.
  rewrite bool_decide_eq_true_2 by set_solver. simpl.
  by rewrite <- !app_assoc.
Qed.

(** Whatever happens, a path is returned; it is the input unless the input
    was deleted, which is after the transform has resolved and the output is
    there. *)
Lemma compress_gzip_cases o inputPath d :
  inputPath ∈ files d ->
  exists p d', compressRecording (Some "gzip"%string) o inputPath d = (Resolved p, d') /\
    p ∈ files d' /\
    ((p = inputPath /\ inputPath ∈ files d' /\
      (transform_resolves o = false \/ output_on_disk o = false \/ unlink_resolves o = false))
     \/
     (p = gz inputPath /\ (inputPath ∉ files d') /\
      transform_resolves o = true /\ output_on_disk o = true /\ unlink_resolves o = true /\
      calls d' = calls d ++ [CompressWithGzip inputPath (gz inputPath);
                              ExistsSync (gz inputPath); Unlink inputPath])).
Proof.
  intros Hin.
  assert (Hne : gz inputPath <> inputPath) by (by apply append_nonempty_ne).
  rewrite compress_gzip_unfold.
  unfold try_block, bind, compressWithGzip, transform, existsSync, unlink, called, ret. simpl.
  destruct (transform_resolves o) eqn:Ht; simpl.
  - destruct (output_on_disk o) eqn:Ho; simpl.
    + rewrite bool_decide_eq_true_2 by set_solver. simpl.
      rewrite bool_decide_eq_true_2 by set_solver.
      destruct (unlink_resolves o) eqn:Hu; simpl.
      * eexists _, _. split; [done|]. simpl. split; [set_solver|].
        right. rewrite <- !app_assoc. simpl. repeat split; try done.
        rewrite elem_of_difference, elem_of_singleton. tauto.
      * eexists _, _. split; [done|]. simpl. split; [set_solver|].
        left. repeat split; try done; [set_solver|auto].
    + rewrite bool_decide_eq_false_2
        by (rewrite elem_of_difference, elem_of_singleton; tauto).
      simpl.
      eexists _, _. split; [done|]. simpl. split; [set_solver|].
      left. repeat split; try done; [set_solver|auto].
  - eexists _, _. split; [done|]. simpl.
    destruct (output_on_disk o) eqn:Ho; (split; [set_solver|]);
      left; repeat split; try done; try set_solver; auto.
Qed.

(** A format that is none of 'none', 'gzip' and 'zip': no transform runs,
    the extension is empty, so the output path is the input path; the input
    is found and unlinked, and its own path is returned. *)
Lemma compress_other f o inputPath d :
  f <> ""%string -> f <> "none"%string -> f <> "gzip"%string -> f <> "zip"%string ->
  inputPath ∈ files d -> unlink_resolves o = true ->
  compressRecording (Some f) o inputPath d =
    (Resolved inputPath,
     {| files := files d ∖ {[inputPath]};
        calls := calls d ++ [ExistsSync inputPath; Unlink inputPath] |}).
Proof.
  intros Hne Hn Hg Hz Hin Hu.
  assert (He : (inputPath +:+ "")%string = inputPath).
  { clear. induction inputPath as [|c a IH]; [done|].
    change (String c (a +:+ "") = String c a). by rewrite IH. }
  unfold compressRecording, format_of.
  rewrite (proj2 (String.eqb_neq f "") Hne), (proj2 (String.eqb_neq f "none") Hn).
  unfold Utils.getFileExtensionForCompression.
  rewrite (proj2 (String.eqb_neq f "gzip") Hg), (proj2 (String.eqb_neq f "zip") Hz), He.
  unfold try_block.
  rewrite (proj2 (String.eqb_neq f "gzip") Hg), (proj2 (String.eqb_neq f "zip") Hz).
  unfold bind, existsSync, unlink, called, ret. simpl.
  rewrite bool_decide_eq_true_2 by done. simpl.
  rewrite bool_decide_eq_true_2 by done. rewrite Hu. simpl.
  by rewrite <- !app_assoc.
Qed.

End CompressFacts.

(** ** Redaction on trees *)

Module RedactFacts.
Import Utils.

Lemma json_ind (P : json -> Prop) :
  P JNull -> (forall b, P (JBool b)) -> (forall n, P (JNum n)) -> (forall s, P (JStr s)) ->
  (forall elems, Forall P elems -> P (JArr elems)) ->
  (forall fields, Forall (fun kv => P (snd kv)) fields -> P (JObj fields)) ->
  forall j, P j.
Proof.
  intros HN HB HZ HS HA HO. fix IH 1. intros [| b | n | s | elems | fields].
  - exact HN.
  - apply HB.
  - apply HZ.
  - apply HS.
  - apply HA. induction elems as [|e r IHr]; constructor; [apply IH|exact IHr].
  - apply HO. induction fields as [|[k e] r IHr]; constructor; [apply IH|exact IHr].
Qed.

(** *** Array indices are never redacted *)

Lemma string_of_uint_digits u : all_digits (NilEmpty.string_of_uint u) = true.
Proof. induction u; simpl; done. Qed.

Lemma lower_digit c : is_digit c = true -> lower_ascii c = c.
Proof.
  unfold is_digit, lower_ascii. intros [_ H]%andb_prop.
  apply N.leb_le in H.
  destruct (65 <=? N_of_ascii c)%N eqn:E; [|done].
  apply N.leb_le in E. lia.
Qed.

Lemma toLowerCase_digits s : all_digits s = true -> toLowerCase s = s.
Proof.
  induction s as [|c r IH]; simpl; [done|].
  intros [Hc Hr]%andb_prop. by rewrite lower_digit, IH.
Qed.

Lemma includes_digits s c pat :
  all_digits s = true -> is_digit c = false -> includes s (String c pat) = false.
Proof.
  induction s as [|c0 r IH]; simpl; [done|].
  intros [Hc Hr]%andb_prop Hd. rewrite IH by done.
  destruct (ascii_dec c c0) as [->|]; [congruence|done].
Qed.

Lemma index_key_not_sensitive i : is_sensitive (index_key i) = false.
Proof.
  unfold is_sensitive, index_key.
  pose proof (string_of_uint_digits (Nat.to_uint i)) as H.
  rewrite toLowerCase_digits by done.
  unfold sensitiveFields. simpl.
  rewrite !includes_digits by done. done.
Qed.

(** *** The function, member by member *)

Lemma remove_obj fields :
  removeSensitiveFields (JObj fields) = JObj (map redact_field fields).
Proof.
  simpl. f_equal. induction fields as [|[k v] r IH]; [done|].
  rewrite IH. done.
Qed.

Lemma remove_arr elems :
  removeSensitiveFields (JArr elems) = JArr (map removeSensitiveFields elems).
Proof.
  simpl. f_equal. generalize 0%nat.
  induction elems as [|v r IH]; intros i; [done|].
  rewrite IH, index_key_not_sensitive. done.
Qed.

Lemma sanitize_remove j : sanitizeWebhookPayload j = removeSensitiveFields j.
Proof. by destruct j. Qed.

(** *** Idempotence *)

Lemma remove_idempotent j :
  removeSensitiveFields (removeSensitiveFields j) = removeSensitiveFields j.
Proof.
  induction j as [| | | |elems IH|fields IH] using json_ind; try done.
  - rewrite !remove_arr. f_equal. rewrite map_map.
    induction IH as [|e r He Hr IHr]; simpl; [done|]. by rewrite He, IHr.
  - rewrite !remove_obj. f_equal. rewrite map_map.
    induction IH as [|[k e] r He Hr IHr]; simpl; [done|].
    rewrite IHr. f_equal. unfold redact_field. simpl.
    destruct (is_sensitive k); simpl; [done|]. simpl in He. by rewrite He.
Qed.

Lemma sanitize_idempotent j :
  sanitizeWebhookPayload (sanitizeWebhookPayload j) = sanitizeWebhookPayload j.
Proof. rewrite !sanitize_remove. apply remove_idempotent. Qed.

(** *** Reading the result by paths *)

Lemma assoc_redact name fields :
  assoc name (map redact_field fields) =
  option_map (fun v => if is_sensitive name then JStr marker else removeSensitiveFields v)
             (assoc name fields).
Proof.
  induction fields as [|[k v] r IH]; simpl; [done|].
  destruct (String.eqb_spec k name) as [->|]; simpl; [done|]. apply IH.
Qed.

Lemma get_remove k j :
  get k (removeSensitiveFields j) =
  option_map (fun v => if is_sensitive (key_name k) then JStr marker
                       else removeSensitiveFields v) (get k j).
Proof.
  destruct j as [| | | |elems|fields]; try (by destruct k).
  - rewrite remove_arr. destruct k as [name|i]; simpl; [done|].
    rewrite index_key_not_sensitive, list_lookup_fmap. by destruct (elems !! i).
  - rewrite remove_obj. destruct k as [name|i]; simpl; [|done]. apply assoc_redact.
Qed.

(** Along keys that do not match, the value is the original one, redacted
    in turn. *)
Lemma get_path_plain p : forall j,
  plain p ->
  get_path p (removeSensitiveFields j) = option_map removeSensitiveFields (get_path p j).
Proof.
  induction p as [|k p IH]; intros j Hp; simpl; [done|].
  apply Forall_cons in Hp as [Hk Hp].
  rewrite get_remove, Hk. destruct (get k j) as [v|]; simpl; [|done]. by apply IH.
Qed.

(** A key that matches holds the marker. *)
Lemma get_path_sensitive p name j v :
  plain p -> is_sensitive name = true ->
  get_path (p ++ [Prop_ name]) j = Some v ->
  get_path (p ++ [Prop_ name]) (removeSensitiveFields j) = Some (JStr marker).
Proof.
  revert j. induction p as [|k p IH]; intros j Hp Hn Hv; cbn [get_path app] in *.
  - rewrite get_remove. cbn [key_name]. rewrite Hn.
    by destruct (get (Prop_ name) j).
  - apply Forall_cons in Hp as [Hk Hp].
    rewrite get_remove, Hk. destruct (get k j) as [v0|]; cbn [option_map]; [|done].
    by apply IH.
Qed.

(** Whatever the result holds under a key that matches is the marker. *)
Lemma get_path_marker p name : forall j v,
  is_sensitive name = true ->
  get_path (p ++ [Prop_ name]) (removeSensitiveFields j) = Some v ->
  v = JStr marker.
Proof.
  induction p as [|k p IH]; intros j v Hn Hv; cbn [get_path app] in *.
  - rewrite get_remove in Hv. cbn [key_name] in Hv. rewrite Hn in Hv.
    destruct (get (Prop_ name) j); simpl in Hv; congruence.
  - rewrite get_remove in Hv. destruct (get k j) as [v0|]; cbn [option_map] in Hv; [|done].
    destruct (is_sensitive (key_name k)).
    + destruct p as [|[]]; simpl in Hv; done.
    + by eapply IH.
Qed.

End RedactFacts.

(** ** Redaction on the heap *)

Module HeapFacts.
Import Utils.

Lemma val_ok_mono n m m' v : val_ok n m v -> (m <= m')%nat -> val_ok n m' v.
Proof. destruct v; simpl; try done. lia. Qed.

Lemma region_empty h : region (length h) h.
Proof.
  intros l o Hl Ho. apply lookup_lt_Some in Ho. lia.
Qed.

Lemma region_alloc n h o :
  region n h -> Forall (val_ok n (length h)) (obj_vals o) -> region n (h ++ [o]).
Proof.
  intros Hr Ho l o' Hl Hlook.
  destruct (decide (l < length h)%nat) as [Hlt|Hge].
  - rewrite lookup_app_l in Hlook by done. by apply Hr.
  - rewrite lookup_app_r in Hlook by lia.
    destruct (l - length h)%nat as [|i] eqn:E; simpl in Hlook; [|by destruct i].
    injection Hlook as <-. eapply Forall_impl; [done|].
    intros v Hv. eapply val_ok_mono; [done|lia].
Qed.

(** *** [JSON.parse] only allocates *)

Lemma parse_items_ok elems :
  Forall parse_ok elems ->
  forall n h, (n <= length h)%nat -> region n h ->
    exists ext, snd (parse_items parse elems h) = h ++ ext /\
      Forall (val_ok n (length (h ++ ext))) (fst (parse_items parse elems h)) /\
      region n (h ++ ext).
Proof.
  induction 1 as [|e r He Hr IH]; intros n h Hn Hreg; simpl.
  - exists []. rewrite app_nil_r. by repeat split.
  - destruct (He n h Hn Hreg) as (ext1 & E1 & Hv1 & Hr1).
    destruct (parse e h) as [x h1]. simpl in *. simplify_eq.
    destruct (IH n (h ++ ext1)) as (ext2 & E2 & Hv2 & Hr2); [rewrite length_app; lia|done|].
    destruct (parse_items parse r (h ++ ext1)) as [xs h2]. simpl in *. simplify_eq.
    exists (ext1 ++ ext2). rewrite app_assoc. split; [done|]. split; [|done].
    constructor; [|done]. eapply val_ok_mono; [done|]. rewrite !length_app. lia.
Qed.

Lemma parse_props_ok fields :
  Forall (fun kv => parse_ok (snd kv)) fields ->
  forall n h, (n <= length h)%nat -> region n h ->
    exists ext, snd (parse_props parse fields h) = h ++ ext /\
      Forall (val_ok n (length (h ++ ext))) (map snd (fst (parse_props parse fields h))) /\
      region n (h ++ ext).
Proof.
  induction 1 as [|[k e] r He Hr IH]; intros n h Hn Hreg; simpl.
  - exists []. rewrite app_nil_r. by repeat split.
  - simpl in He. destruct (He n h Hn Hreg) as (ext1 & E1 & Hv1 & Hr1).
    destruct (parse e h) as [x h1]. simpl in *. simplify_eq.
    destruct (IH n (h ++ ext1)) as (ext2 & E2 & Hv2 & Hr2); [rewrite length_app; lia|done|].
    destruct (parse_props parse r (h ++ ext1)) as [ps h2]. simpl in *. simplify_eq.
    exists (ext1 ++ ext2). rewrite app_assoc. split; [done|]. split; [|done].
    constructor; [|done]. eapply val_ok_mono; [done|]. rewrite !length_app. lia.
Qed.

Lemma parse_spec j : parse_ok j.
Proof.
  induction j as [|b|z|s|elems IH|fields IH] using RedactFacts.json_ind;
    try (intros n h Hn Hreg; exists []; rewrite app_nil_r; by repeat split).
  - intros n h Hn Hreg. simpl.
    destruct (parse_items_ok elems IH n h Hn Hreg) as (ext & E & Hv & Hr).
    destruct (parse_items parse elems h) as [xs h1]. simpl in *. simplify_eq.
    exists (ext ++ [OArr xs]). rewrite app_assoc. split; [done|]. split.
    + rewrite !length_app in *. simpl. lia.
    + by apply region_alloc.
  - intros n h Hn Hreg. simpl.
    destruct (parse_props_ok fields IH n h Hn Hreg) as (ext & E & Hv & Hr).
    destruct (parse_props parse fields h) as [ps h1]. simpl in *. simplify_eq.
    exists (ext ++ [OObj ps]). rewrite app_assoc. split; [done|]. split.
    + rewrite !length_app in *. simpl. lia.
    + by apply region_alloc.
Qed.

(** *** The inner function writes above [n] only *)

Lemma same_below_refl n h : same_below n h h.
Proof. by split. Qed.

Lemma same_below_trans n h1 h2 h3 :
  same_below n h1 h2 -> same_below n h2 h3 -> same_below n h1 h3.
Proof.
  intros [L1 H1] [L2 H2]. split; [congruence|].
  intros i Hi. by rewrite H2, H1.
Qed.

Lemma same_below_alter n f l h : (n <= l)%nat -> same_below n h (alter f l h).
Proof.
  intros Hl. split; [apply length_alter|].
  intros i Hi. apply list_lookup_alter_ne. lia.
Qed.

Lemma get_prop_vals k o v : get_prop k o = Some v -> v ∈ obj_vals o.
Proof.
  destruct k as [name|i], o as [props|items]; simpl; try done.
  - induction props as [|[k0 v0] r IH]; simpl; [done|].
    destruct (String.eqb k0 name).
    + intros [= ->]. left.
    + intros H. right. by apply IH.
  - apply list_elem_of_lookup_2.
Qed.

Lemma set_prop_vals n l k s o :
  Forall (val_ok n l) (obj_vals o) ->
  Forall (val_ok n l) (obj_vals (set_prop k (VStr s) o)).
Proof.
  destruct k as [name|i], o as [props|items]; simpl; try done.
  - induction props as [|[k0 v0] r IH]; simpl; [done|].
    intros [H0 Hr]%Forall_cons.
    destruct (String.eqb k0 name); simpl; constructor; auto. done.
  - intros H. by apply Forall_insert.
Qed.

Lemma region_alter n h l k s :
  region n h -> region n (alter (set_prop k (VStr s)) l h).
Proof.
  intros Hr l0 o Hl0 Hlook.
  destruct (decide (l = l0)) as [->|Hne].
  - rewrite list_lookup_alter_eq in Hlook.
    destruct (h !! l0) as [o0|] eqn:E; simpl in Hlook; [|done].
    injection Hlook as <-. apply set_prop_vals. by eapply Hr.
  - rewrite list_lookup_alter_ne in Hlook by done. by eapply Hr.
Qed.

Lemma remove_loop_frames n rec l :
  frames n rec -> (n <= l)%nat ->
  forall ks h h', region n h -> remove_loop rec l ks h = Some h' ->
    region n h' /\ same_below n h h'.
Proof.
  intros Hrec Hl. induction ks as [|k ks IH]; intros h h' Hreg Hrun; simpl in Hrun.
  - injection Hrun as <-. split; [done|apply same_below_refl].
  - destruct (is_sensitive (key_name k)).
    + apply IH in Hrun as [Hr Hs]; [|by apply region_alter].
      split; [done|]. eapply same_below_trans; [|done]. by apply same_below_alter.
    + destruct (h !! l) as [o|] eqn:Ho; [|done].
      destruct (get_prop k o) as [[| | | | |l']|] eqn:Hk; try (by apply IH).
      destruct (rec h (VRef l')) as [h1|] eqn:Hr1; [|done].
      apply Hrec in Hr1 as [Hreg1 Hs1]; [|done|].
      * apply IH in Hrun as [Hr Hs]; [|done].
        split; [done|]. by eapply same_below_trans.
      * apply get_prop_vals in Hk.
        pose proof (Hreg l o Hl Ho) as Hvals. rewrite Forall_forall in Hvals.
        specialize (Hvals _ Hk). apply lookup_lt_Some in Ho. simpl in *. lia.
Qed.

Lemma remove_frames fuel n : frames n (removeSensitiveFields_at fuel).
Proof.
  induction fuel as [|f IH]; intros h v h' Hreg Hv Hrun.
  - destruct v; simpl in Hrun; try done; injection Hrun as <-;
      (split; [done|apply same_below_refl]).
  - destruct v as [| | | | |l]; simpl in Hrun;
      try (injection Hrun as <-; split; [done|apply same_below_refl]).
    destruct (h !! l) as [o|] eqn:Ho; [|done].
    eapply remove_loop_frames; [apply IH| |done|done]. simpl in Hv. lia.
Qed.

(** *** With enough fuel the inner function returns *)

Lemma remove_loop_total n f rec l :
  frames n rec -> total n f rec -> (n <= l)%nat -> (l <= f)%nat ->
  forall ks h, region n h -> (l < length h)%nat -> is_Some (remove_loop rec l ks h).
Proof.
  intros Hfr Htot Hl Hf. induction ks as [|k ks IH]; intros h Hreg Hlen; simpl.
  - done.
  - destruct (is_sensitive (key_name k)).
    + apply IH; [by apply region_alter|]. by rewrite length_alter.
    + destruct (lookup_lt_is_Some_2 h l Hlen) as [o Ho]. rewrite Ho.
      destruct (get_prop k o) as [[| | | | |l']|] eqn:Hk; try (by apply IH).
      assert (Hok : (n <= l' < l)%nat).
      { apply get_prop_vals in Hk.
        pose proof (Hreg l o Hl Ho) as Hvals. rewrite Forall_forall in Hvals.
        apply (Hvals _ Hk). }
      destruct (Htot h (VRef l')) as [h1 Hr1]; [done|simpl; lia|].
      rewrite Hr1.
      apply Hfr in Hr1 as [Hreg1 [Hlen1 _]]; [|done|simpl; lia].
      apply IH; [done|lia].
Qed.

Lemma remove_total fuel n : total n fuel (removeSensitiveFields_at fuel).
Proof.
  induction fuel as [|f IH]; intros h v Hreg Hv.
  - destruct v; unfold val_ok in Hv; simpl; try done. lia.
  - destruct v as [| | | | |l]; unfold val_ok in Hv; simpl; try done.
    destruct (lookup_lt_is_Some_2 h l) as [o Ho]; [lia|]. rewrite Ho.
    eapply remove_loop_total; [apply remove_frames|apply IH| | |done|]; lia.
Qed.

(** *** [JSON.stringify] with more fuel *)

Lemma stringify_props_mono (rec rec' : val -> option json) :
  (forall x j, rec x = Some j -> rec' x = Some j) ->
  forall ps js, stringify_props rec ps = Some js -> stringify_props rec' ps = Some js.
Proof.
  intros H. induction ps as [|[k x] r IH]; intros js Hjs; simpl in *; [done|].
  destruct x; try (by apply IH);
    (destruct (rec _) as [j|] eqn:E; [|done];
     destruct (stringify_props rec r) as [js0|]; [|done];
     rewrite (H _ _ E), (IH js0 eq_refl); done).
Qed.

Lemma stringify_items_mono (rec rec' : val -> option json) :
  (forall x j, rec x = Some j -> rec' x = Some j) ->
  forall xs js, stringify_items rec xs = Some js -> stringify_items rec' xs = Some js.
Proof.
  intros H. induction xs as [|x r IH]; intros js Hjs; simpl in *; [done|].
  destruct (rec x) as [j|] eqn:E; [|done].
  destruct (stringify_items rec r) as [js0|]; [|done].
  by rewrite (H _ _ E), (IH js0 eq_refl).
Qed.

Lemma stringify_mono f : forall f' h v j,
  (f <= f')%nat -> stringify f h v = Some j -> stringify f' h v = Some j.
Proof.
  induction f as [|f IH]; intros f' h v j Hf Hj.
  - destruct v; simpl in *; try done; by destruct f'.
  - destruct f' as [|f']; [lia|].
    destruct v as [| | | | |l]; simpl in *; try done.
    destruct (h !! l) as [[props|items]|]; [| |done].
    + destruct (stringify_props (stringify f h) props) as [js|] eqn:E; [|done].
      erewrite stringify_props_mono; [done| |done].
      intros x j0. apply IH. lia.
    + destruct (stringify_items (stringify f h) items) as [js|] eqn:E; [|done].
      erewrite stringify_items_mono; [done| |done].
      intros x j0. apply IH. lia.
Qed.

(** *** The function as a whole *)

Lemma sanitize_at_primitive fuel h data :
  (forall l, data <> VRef l) -> sanitizeWebhookPayload_at fuel h data = Some (data, h).
Proof. intros H. destruct data; try done. by destruct (H l). Qed.

Lemma stringify_ref fuel h l j :
  stringify fuel h (VRef l) = Some j ->
  (exists elems, j = JArr elems) \/ (exists fields, j = JObj fields).
Proof.
  destruct fuel as [|f]; simpl; [done|].
  destruct (h !! l) as [[props|items]|]; [| |done].
  - destruct (stringify_props _ _); simpl; [|done]. intros [= <-]. eauto.
  - destruct (stringify_items _ _); simpl; [|done]. intros [= <-]. eauto.
Qed.

Lemma sanitize_at_frame fuel h data r h' :
  sanitizeWebhookPayload_at fuel h data = Some (r, h') ->
  (length h <= length h')%nat /\
  (forall l o, h !! l = Some o -> h' !! l = Some o) /\
  (forall l, data = VRef l -> exists l', r = VRef l' /\ (length h <= l')%nat).
Proof.
  intros Hrun. destruct data as [| | | | |l0]; simpl in Hrun;
    try (injection Hrun as <- <-; by repeat split).
  destruct (stringify fuel h (VRef l0)) as [j|] eqn:Es; [|done].
  apply stringify_ref in Es.
  destruct (parse_spec j (length h) h) as (ext & E & Hv & Hreg); [done|apply region_empty|].
  destruct (parse j h) as [v h1] eqn:Ep. simpl in *. subst h1.
  destruct (removeSensitiveFields_at fuel (h ++ ext) v) as [h2|] eqn:Er; [|done].
  injection Hrun as <- <-.
  apply remove_frames with (n := length h) in Er as [_ [Hlen Hsame]]; [|done|done].
  split; [rewrite Hlen, length_app; lia|]. split.
  - intros l o Hl. rewrite Hsame by (by eapply lookup_lt_Some).
    by apply lookup_app_l_Some.
  - intros l _. destruct Es as [[elems ->]|[fields ->]]; simpl in Ep.
    + destruct (parse_items parse elems h) as [xs h1]. injection Ep as <- E.
      exists (length h1). split; [done|]. simpl in Hv. lia.
    + destruct (parse_props parse fields h) as [ps h1]. injection Ep as <- E.
      exists (length h1). split; [done|]. simpl in Hv. lia.
Qed.

Lemma sanitize_at_total f0 h data j :
  stringify f0 h data = Some j ->
  exists fuel0, forall fuel, (fuel0 <= fuel)%nat ->
    exists r h', sanitizeWebhookPayload_at fuel h data = Some (r, h').
Proof.
  intros Hj. destruct data as [| | | | |l0];
    try (exists 0%nat; intros fuel _; eexists _, _; reflexivity).
  exists (Nat.max f0 (length (snd (parse j h)))). intros fuel Hfuel. simpl.
  rewrite (stringify_mono f0 fuel h (VRef l0) j) by (done || lia).
  destruct (parse_spec j (length h) h) as (ext & E & Hv & Hreg); [done|apply region_empty|].
  destruct (parse j h) as [v h1]. simpl in *. subst h1.
  destruct (remove_total fuel (length h) (h ++ ext) v) as [h2 Hr]; [done| |].
  - eapply val_ok_mono in Hv; [|reflexivity].
    destruct v; simpl in *; try done. lia.
  - rewrite Hr. eauto.
Qed.

(** What the old objects denote is what they denoted. *)
Lemma stringify_frame f : forall h h' v j,
  (forall l o, h !! l = Some o -> h' !! l = Some o) ->
  stringify f h v = Some j -> stringify f h' v = Some j.
Proof.
  induction f as [|f IH]; intros h h' v j Hh Hj.
  - by destruct v.
  - destruct v as [| | | | |l]; simpl in *; try done.
    destruct (h !! l) as [o|] eqn:Ho; [|done]. rewrite (Hh _ _ Ho).
    destruct o as [props|items].
    + destruct (stringify_props (stringify f h) props) as [js|] eqn:E; [|done].
      erewrite stringify_props_mono; [done| |done].
      intros x j0. by apply IH.
    + destruct (stringify_items (stringify f h) items) as [js|] eqn:E; [|done].
      erewrite stringify_items_mono; [done| |done].
      intros x j0. by apply IH.
Qed.

(** *** The sender *)

Lemma sendSessionStarted_frame fuel enabled timestamp sessionId meta t0 t1 h s h' s' :
  WebhookManager.sendSessionStarted fuel enabled timestamp sessionId meta t0 t1 h s
    = Some (h', s') ->
  forall l o, h !! l = Some o -> h' !! l = Some o.
Proof.
  unfold WebhookManager.sendSessionStarted. intros Hrun l o Hl.
  destruct enabled; simpl in Hrun; [|by injection Hrun as <- <-].
  destruct (truthy meta).
  - destruct (sanitizeWebhookPayload_at fuel h meta) as [[tm h1]|] eqn:E; [|done].
    injection Hrun as <- <-. apply sanitize_at_frame in E as (_ & Hf & _).
    apply lookup_app_l_Some. by apply Hf.
  - unfold alloc in Hrun.
    destruct (sanitizeWebhookPayload_at fuel (h ++ [OObj []]) (VRef (length h)))
      as [[tm h1]|] eqn:E; [|done].
    injection Hrun as <- <-. apply sanitize_at_frame in E as (_ & Hf & _).
    apply lookup_app_l_Some. apply Hf. by apply lookup_app_l_Some.
Qed.

End HeapFacts.

(** ** The function on the heap and the function on trees *)

Module RefineFacts.
Import Utils.
Import HeapFacts.

Lemma entry_between_refl e : entry_between e e.
Proof. split; auto. Qed.

Lemma entry_between_trans e0 e1 e2 :
  entry_between e0 e1 -> entry_between e1 e2 -> entry_between e0 e2.
Proof.
  intros [K1 V1] [K2 V2]. split; [congruence|].
  destruct V2 as [V2|[S2 V2]].
  - rewrite V2. exact V1.
  - right. split; [congruence|done].
Qed.

Lemma obj_between_refl o : obj_between o o.
Proof.
  destruct o as [props|items]; simpl; [|done].
  induction props; constructor; auto using entry_between_refl.
Qed.

Lemma obj_between_trans o0 o1 o2 :
  obj_between o0 o1 -> obj_between o1 o2 -> obj_between o0 o2.
Proof.
  destruct o0 as [p0|x0], o1 as [p1|x1], o2 as [p2|x2]; simpl; try done.
  - intros H1. revert p2. induction H1 as [|e0 e1 p0 p1 He H1 IH]; intros p2 H2.
    + by inversion H2.
    + inversion H2 as [|? e2 ? p2' He2 H2']; subst. constructor; [|by apply IH].
      by eapply entry_between_trans.
  - congruence.
Qed.

Lemma between_refl h : between h h.
Proof.
  split; [done|]. intros l o0 o H0 H. rewrite H0 in H. injection H as <-.
  apply obj_between_refl.
Qed.

Lemma between_trans h0 h1 h2 : between h0 h1 -> between h1 h2 -> between h0 h2.
Proof.
  intros [L1 H1] [L2 H2]. split; [congruence|].
  intros l o0 o2 Ho0 Ho2.
  destruct (lookup_lt_is_Some_2 h1 l) as [o1 Ho1].
  { rewrite L1. by eapply lookup_lt_Some. }
  eapply obj_between_trans; eauto.
Qed.

Lemma set_assoc_between name props :
  is_sensitive name = true ->
  Forall2 entry_between props (set_assoc name (VStr marker) props).
Proof.
  intros Hn. induction props as [|[k v] r IH]; simpl; [constructor|].
  destruct (String.eqb_spec k name) as [->|Hne].
  - constructor.
    + split; [done|]. right. done.
    + clear IH. induction r; constructor; auto using entry_between_refl.
  - constructor; [apply entry_between_refl|done].
Qed.

Lemma set_prop_between k o :
  is_sensitive (key_name k) = true -> obj_between o (set_prop k (VStr marker) o).
Proof.
  intros Hk. destruct k as [name|i], o as [props|items]; simpl;
    try apply (obj_between_refl (OObj props)); try done.
  - by apply set_assoc_between.
  - simpl in Hk. by rewrite RedactFacts.index_key_not_sensitive in Hk.
Qed.

Lemma write_between k l h :
  is_sensitive (key_name k) = true ->
  between h (alter (set_prop k (VStr marker)) l h).
Proof.
  intros Hk. split; [apply length_alter|].
  intros l0 o0 o H0 H.
  destruct (decide (l = l0)) as [->|Hne].
  - rewrite list_lookup_alter_eq, H0 in H. injection H as <-.
    by apply set_prop_between.
  - rewrite list_lookup_alter_ne, H0 in H by done. injection H as <-.
    apply obj_between_refl.
Qed.

Lemma remove_loop_between rec l :
  (forall h v h', rec h v = Some h' -> between h h') ->
  forall ks h h', remove_loop rec l ks h = Some h' -> between h h'.
Proof.
  intros Hrec. induction ks as [|k ks IH]; intros h h' Hrun; simpl in Hrun.
  - injection Hrun as <-. apply between_refl.
  - destruct (is_sensitive (key_name k)) eqn:Hk.
    + eapply between_trans; [by apply write_between|by apply IH].
    + destruct (h !! l) as [o|]; [|done].
      destruct (get_prop k o) as [[| | | | |l']|]; try (by apply IH).
      destruct (rec h (VRef l')) as [h1|] eqn:Hr; [|done].
      eapply between_trans; [by eapply Hrec|by apply IH].
Qed.

Lemma remove_between fuel : forall h v h',
  removeSensitiveFields_at fuel h v = Some h' -> between h h'.
Proof.
  induction fuel as [|f IH]; intros h v h' Hrun.
  - destruct v; simpl in Hrun; try done; injection Hrun as <-; apply between_refl.
  - destruct v as [| | | | |l]; simpl in Hrun;
      try (injection Hrun as <-; apply between_refl).
    destruct (h !! l) as [o|]; [|done].
    by eapply remove_loop_between.
Qed.

(** *** Objects the inner function is done with *)

Lemma entry_redacted_impl (P Q : val -> Prop) e :
  (forall v, P v -> Q v) -> entry_redacted P e -> entry_redacted Q e.
Proof. unfold entry_redacted. destruct (is_sensitive (fst e)); auto. Qed.

Lemma set_assoc_redacted P name props :
  is_sensitive name = true -> Forall (entry_redacted P) props ->
  set_assoc name (VStr marker) props = props.
Proof.
  intros Hn. induction 1 as [|[k v] r He Hr IH]; simpl; [done|].
  destruct (String.eqb_spec k name) as [->|Hne].
  - unfold entry_redacted in He. simpl in He. rewrite Hn in He. by rewrite He.
  - by rewrite IH.
Qed.

(** A write of the marker leaves such objects as they are. *)
Lemma redacted_write k l f : forall h v,
  is_sensitive (key_name k) = true ->
  redacted f h v -> redacted f (alter (set_prop k (VStr marker)) l h) v.
Proof.
  induction f as [|f IH]; intros h v Hk Hv; [by destruct v|].
  destruct v as [| | | | |l0]; simpl in *; try done.
  destruct (h !! l0) as [o|] eqn:Ho; [|done].
  assert (Hsame : alter (set_prop k (VStr marker)) l h !! l0 = Some o).
  { destruct (decide (l = l0)) as [->|Hne].
    - rewrite list_lookup_alter_eq, Ho. simpl. f_equal.
      destruct k as [name|i], o as [props|items]; simpl; try done.
      + f_equal. by eapply set_assoc_redacted.
      + simpl in Hk. by rewrite RedactFacts.index_key_not_sensitive in Hk.
    - by rewrite list_lookup_alter_ne. }
  rewrite Hsame. destruct o as [props|items].
  - eapply Forall_impl; [done|]. intros e. apply entry_redacted_impl. auto.
  - eapply Forall_impl; [done|]. auto.
Qed.

Lemma redacted_remove_loop rec l :
  (forall h u h', rec h u = Some h' -> forall f v, redacted f h v -> redacted f h' v) ->
  forall ks h h', remove_loop rec l ks h = Some h' ->
    forall f v, redacted f h v -> redacted f h' v.
Proof.
  intros Hrec. induction ks as [|k ks IH]; intros h h' Hrun f v Hv; simpl in Hrun.
  - by injection Hrun as <-.
  - destruct (is_sensitive (key_name k)) eqn:Hk.
    + eapply IH; [done|]. by apply redacted_write.
    + destruct (h !! l) as [o|]; [|done].
      destruct (get_prop k o) as [[| | | | |l']|]; try (by eapply IH).
      destruct (rec h (VRef l')) as [h1|] eqn:Hr; [|done].
      eapply IH; [done|]. by eapply Hrec.
Qed.

Lemma redacted_remove fuel : forall h u h',
  removeSensitiveFields_at fuel h u = Some h' ->
  forall f v, redacted f h v -> redacted f h' v.
Proof.
  induction fuel as [|f0 IH]; intros h u h' Hrun f v Hv.
  - destruct u; simpl in Hrun; try done; by injection Hrun as <-.
  - destruct u as [| | | | |l]; simpl in Hrun; try (by injection Hrun as <-).
    destruct (h !! l) as [o|]; [|done].
    by eapply redacted_remove_loop.
Qed.

(** *** The inner function leaves such an object behind *)

Lemma between_keys p0 p : Forall2 entry_between p0 p -> map fst p = map fst p0.
Proof. induction 1 as [|e0 e p0 p [K _] _ IH]; simpl; congruence. Qed.

Lemma between_distinct h h' : between h h' -> heap_distinct h -> heap_distinct h'.
Proof.
  intros [L H] Hd. apply Forall_lookup. intros l o' Ho'.
  destruct (lookup_lt_is_Some_2 h l) as [o Ho].
  { rewrite <- L. by eapply lookup_lt_Some. }
  pose proof (Forall_lookup_1 _ _ _ _ Hd Ho) as Hdo.
  specialize (H l o o' Ho Ho').
  destruct o as [p|x], o' as [p'|x']; simpl in *; try done.
  by rewrite (between_keys _ _ H).
Qed.

Lemma assoc_between p0 p name x :
  Forall2 entry_between p0 p -> assoc name p = Some x ->
  exists x0, assoc name p0 = Some x0 /\
    (x = x0 \/ (is_sensitive name = true /\ x = VStr marker)).
Proof.
  induction 1 as [|[k0 v0] [k v] p0 p [K V] _ IH]; simpl in *; [done|]. subst k.
  destruct (String.eqb_spec k0 name) as [->|Hne]; [|done].
  intros [= <-]. exists v0. split; [done|]. destruct V as [->|[? ->]]; auto.
Qed.

Lemma get_prop_between k o0 o x :
  obj_between o0 o -> get_prop k o = Some x ->
  exists x0, get_prop k o0 = Some x0 /\
    (x = x0 \/ (is_sensitive (key_name k) = true /\ x = VStr marker)).
Proof.
  destruct k as [name|i], o0 as [p0|x0], o as [p|x1]; simpl; try done.
  - apply assoc_between.
  - intros -> H. eauto.
Qed.

Lemma assoc_set_assoc name (v x : val) props :
  assoc name (set_assoc name v props) = Some x -> x = v.
Proof.
  induction props as [|[k0 v0] r IH]; simpl; [done|].
  destruct (String.eqb_spec k0 name) as [->|Hne]; simpl.
  - rewrite String.eqb_refl. congruence.
  - destruct (String.eqb_spec k0 name); [done|]. exact IH.
Qed.

Lemma get_set_prop k (v x : val) o :
  is_sensitive (key_name k) = true ->
  get_prop k (set_prop k v o) = Some x -> x = v.
Proof.
  intros Hk. destruct k as [name|i], o as [props|items]; simpl; try done.
  - apply assoc_set_assoc.
  - simpl in Hk. by rewrite RedactFacts.index_key_not_sensitive in Hk.
Qed.

Lemma between_lookup h h' l o' :
  between h h' -> h' !! l = Some o' -> exists o, h !! l = Some o /\ obj_between o o'.
Proof.
  intros [L H] Ho'. destruct (lookup_lt_is_Some_2 h l) as [o Ho].
  { rewrite <- L. by eapply lookup_lt_Some. }
  exists o. split; [done|]. by eapply H.
Qed.

Lemma redacted_not_ref f h v : (forall l, v <> VRef l) -> redacted f h v.
Proof. intros H. destruct f, v as [| | | | |l0]; try done; by destruct (H l0). Qed.

Lemma remove_loop_settles f rec l :
  (forall h u h', heap_distinct h -> rec h u = Some h' -> redacted f h' u) ->
  (forall h u h', rec h u = Some h' -> between h h') ->
  (forall h u h', rec h u = Some h' -> forall f v, redacted f h v -> redacted f h' v) ->
  forall ks h h', heap_distinct h -> remove_loop rec l ks h = Some h' ->
    forall k, k ∈ ks -> forall o' x, h' !! l = Some o' -> get_prop k o' = Some x ->
      entry_redacted (redacted f h') (key_name k, x).
Proof.
  intros Hs Hb Ht. induction ks as [|k0 ks IH]; intros h h' Hd Hrun k Hin o' x Ho' Hx.
  - by apply elem_of_nil in Hin.
  - simpl in Hrun. apply elem_of_cons in Hin as [->|Hin].
    + unfold entry_redacted. simpl.
      destruct (is_sensitive (key_name k0)) eqn:Hk.
      * pose proof (remove_loop_between rec l Hb _ _ _ Hrun) as Hbt.
        destruct (between_lookup _ _ _ _ Hbt Ho') as (o1 & Ho1 & Hoo).
        destruct (get_prop_between _ _ _ _ Hoo Hx) as (x1 & Hx1 & [->|[_ ->]]); [|done].
        rewrite list_lookup_alter_eq in Ho1.
        destruct (h !! l) as [o|]; simpl in Ho1; [|done]. injection Ho1 as <-.
        by eapply get_set_prop.
      * destruct (h !! l) as [o|] eqn:Ho; [|done].
        assert (Hrest : forall h1, between h h1 ->
                  (forall f v, redacted f h1 v -> redacted f h' v) ->
                  between h1 h' ->
                  forall y, get_prop k0 o = Some y -> redacted f h1 y -> redacted f h' x).
        { intros h1 Hb1 Hst Hb2 y Hy Hsy.
          pose proof (between_trans _ _ _ Hb1 Hb2) as Hbt.
          destruct (between_lookup _ _ _ _ Hbt Ho') as (o0 & Ho0 & Hoo).
          rewrite Ho in Ho0. injection Ho0 as <-.
          destruct (get_prop_between _ _ _ _ Hoo Hx) as (x0 & Hx0 & [->|[Hc _]]);
            [|congruence].
          rewrite Hy in Hx0. injection Hx0 as <-. by apply Hst. }
        destruct (get_prop k0 o) as [y|] eqn:Hy.
        -- destruct y as [| | | | |l'];
             try (apply (Hrest h (between_refl h)
                           (redacted_remove_loop rec l Ht _ _ _ Hrun)
                           (remove_loop_between rec l Hb _ _ _ Hrun) _ eq_refl);
                  by apply redacted_not_ref).
           destruct (rec h (VRef l')) as [h1|] eqn:Hr; [|done].
           apply (Hrest h1 (Hb _ _ _ Hr)
                    (redacted_remove_loop rec l Ht _ _ _ Hrun)
                    (remove_loop_between rec l Hb _ _ _ Hrun) _ eq_refl).
           by eapply Hs.
        -- pose proof (remove_loop_between rec l Hb _ _ _ Hrun) as Hbt.
           destruct (between_lookup _ _ _ _ Hbt Ho') as (o0 & Ho0 & Hoo).
           rewrite Ho in Ho0. injection Ho0 as <-.
           destruct (get_prop_between _ _ _ _ Hoo Hx) as (x0 & Hx0 & _). congruence.
    + destruct (is_sensitive (key_name k0)) eqn:Hk.
      * eapply IH; [|done..]. eapply between_distinct; [|done]. by apply write_between.
      * destruct (h !! l) as [o|]; [|done].
        destruct (get_prop k0 o) as [[| | | | |l']|]; try (by eapply IH).
        destruct (rec h (VRef l')) as [h1|] eqn:Hr; [|done].
        eapply IH; [|done..]. eapply between_distinct; [|done]. by eapply Hb.
Qed.

Lemma assoc_distinct (props : list (string * val)) k x :
  NoDup (map fst props) -> (k, x) ∈ props -> assoc k props = Some x.
Proof.
  induction props as [|[k0 v0] r IH]; simpl; intros Hd Hin.
  - by apply elem_of_nil in Hin.
  - apply NoDup_cons in Hd as [Hk0 Hd]. apply elem_of_cons in Hin as [[= -> ->]|Hin].
    + by rewrite String.eqb_refl.
    + destruct (String.eqb_spec k0 k) as [->|Hne]; [|by apply IH].
      destruct Hk0. apply list_elem_of_fmap. by exists (k, x).
Qed.

Lemma between_key_in p0 p k (x : val) :
  Forall2 entry_between p0 p -> (k, x) ∈ p -> exists x0, (k, x0) ∈ p0.
Proof.
  induction 1 as [|[k0 v0] [k1 v1] p0 p [K _] _ IH]; intros Hin.
  - by apply elem_of_nil in Hin.
  - simpl in K. subst k1. apply elem_of_cons in Hin as [[= -> ->]|Hin].
    + exists v0. left.
    + destruct (IH Hin) as [x0 H0]. exists x0. by right.
Qed.

Lemma remove_settles fuel : forall h v h',
  heap_distinct h -> removeSensitiveFields_at fuel h v = Some h' -> redacted fuel h' v.
Proof.
  induction fuel as [|f IH]; intros h v h' Hd Hrun; [by destruct v|].
  destruct v as [| | | | |l]; simpl in Hrun; try done.
  destruct (h !! l) as [o|] eqn:Ho; [|done].
  pose proof (remove_loop_between _ l (remove_between f) _ _ _ Hrun) as Hbt.
  pose proof (remove_loop_settles f _ l IH (remove_between f) (redacted_remove f)
                _ _ _ Hd Hrun) as Hloop.
  destruct (lookup_lt_is_Some_2 h' l) as [o' Ho'].
  { destruct Hbt as [-> _]. by eapply lookup_lt_Some. }
  pose proof (proj2 Hbt l o o' Ho Ho') as Hoo.
  pose proof (Forall_lookup_1 _ _ _ _ (between_distinct _ _ Hbt Hd) Ho') as Hdo.
  simpl. rewrite Ho'.
  destruct o as [props|items], o' as [props'|items']; simpl in Hoo; try done.
  - apply Forall_forall. intros [k x] Hin.
    apply (Hloop (Prop_ k)) with (o' := OObj props').
    + destruct (between_key_in _ _ _ _ Hoo Hin) as [x0 Hin0].
      simpl. apply list_elem_of_fmap. by exists (k, x0).
    + done.
    + simpl. by apply assoc_distinct.
  - subst items'. apply Forall_lookup. intros i x Hi.
    pose proof (Hloop (Index i) ltac:(simpl; apply list_elem_of_fmap; exists i;
                  split; [done|]; apply elem_of_seq; apply lookup_lt_Some in Hi; lia)
                  (OArr items) x Ho' Hi) as H.
    unfold entry_redacted in H. simpl in H.
    by rewrite RedactFacts.index_key_not_sensitive in H.
Qed.

(** *** What such an object denotes *)

Lemma read_redacted f0 : forall h0 h' v j F n m,
  between h0 h' -> region n h0 -> val_ok n m v -> redacted F h' v ->
  stringify f0 h0 v = Some j ->
  stringify f0 h' v = Some (removeSensitiveFields j).
Proof.
  induction f0 as [|f IH]; intros h0 h' v j F n m Hb Hreg Hv Hs Hj.
  - destruct v; simpl in *; try done; by injection Hj as <-.
  - destruct v as [| | | | |l]; simpl in Hj |- *; try (by injection Hj as <-).
    destruct (h0 !! l) as [o0|] eqn:Ho0; [|done].
    destruct (lookup_lt_is_Some_2 h' l) as [o' Ho'].
    { destruct Hb as [-> _]. by eapply lookup_lt_Some. }
    pose proof (proj2 Hb l o0 o' Ho0 Ho') as Hoo.
    simpl in Hv. pose proof (Hreg l o0 (proj1 Hv) Ho0) as Hvals.
    destruct F as [|F]; [done|]. simpl in Hs. rewrite Ho' in Hs |- *.
    destruct o0 as [p0|x0], o' as [p'|x']; simpl in Hoo; try done.
    + simpl in Hvals.
      destruct (stringify_props (stringify f h0) p0) as [js|] eqn:Ejs; [|done].
      injection Hj as <-. rewrite RedactFacts.remove_obj.
      enough (stringify_props (stringify f h') p' = Some (map redact_field js)) as ->
        by done.
      clear Ho0 Ho'. revert js Ejs Hvals Hs.
      induction Hoo as [|[k0 v0] [k1 v1] p0 p' [K V] _ IHp]; intros js Ejs Hvals Hs.
      * simpl in *. by injection Ejs as <-.
      * simpl in K, V. subst k1.
        apply Forall_cons in Hvals as [Hv0 Hvals]. apply Forall_cons in Hs as [Hs1 Hs].
        unfold entry_redacted in Hs1. simpl in Hs1.
        assert (Ecut : exists j0 js0,
                  stringify f h0 v0 = Some j0 /\
                  stringify_props (stringify f h0) p0 = Some js0 /\
                  js = (k0, j0) :: js0).
        { simpl in Ejs. destruct v0; try done;
            (destruct (stringify f h0 _) as [j0|]; [|done];
             destruct (stringify_props (stringify f h0) p0) as [js0|]; [|done];
             injection Ejs as <-; eauto). }
        destruct Ecut as (j0 & js0 & Ej0 & Ejs0 & ->).
        specialize (IHp js0 Ejs0 Hvals Hs).
        assert (Ehead : stringify f h' v1 =
                  Some (if is_sensitive k0 then JStr marker else removeSensitiveFields j0)
                /\ v1 <> VUndefined).
        { destruct (is_sensitive k0) eqn:Hk.
          - subst v1. by destruct f.
          - destruct V as [->|[Hc _]]; [|congruence].
            split; [by eapply IH|]. by destruct v0. }
        destruct Ehead as [Ehead Hne].
        simpl. destruct v1; try done; rewrite Ehead, IHp; done.
    + subst x'. simpl in Hvals.
      destruct (stringify_items (stringify f h0) x0) as [js|] eqn:Ejs; [|done].
      injection Hj as <-. rewrite RedactFacts.remove_arr.
      enough (stringify_items (stringify f h') x0 = Some (map removeSensitiveFields js))
        as -> by done.
      clear Ho0 Ho'. revert js Ejs.
      induction x0 as [|v0 r IHr]; intros js Ejs.
      * simpl in *. by injection Ejs as <-.
      * apply Forall_cons in Hvals as [Hv0 Hvals]. apply Forall_cons in Hs as [Hs1 Hs].
        simpl in Ejs. destruct (stringify f h0 v0) as [j0|] eqn:Ej0; [|done].
        destruct (stringify_items (stringify f h0) r) as [js0|] eqn:Ejs0; [|done].
        injection Ejs as <-. simpl.
        rewrite (IH _ _ _ _ _ _ _ Hb Hreg Hv0 Hs1 Ej0), (IHr Hs Hvals js0 eq_refl). done.
Qed.

(** *** The copy *)

Lemma foldr_and {A} (P : A -> Prop) l :
  foldr (fun x Q => P x /\ Q) True l <-> Forall P l.
Proof.
  induction l as [|x l IH]; simpl.
  - split; [constructor|done].
  - rewrite Forall_cons. tauto.
Qed.

Lemma json_distinct_arr elems :
  json_distinct (JArr elems) <-> Forall json_distinct elems.
Proof. simpl. apply foldr_and. Qed.

Lemma json_distinct_obj fields :
  json_distinct (JObj fields) <->
  NoDup (map fst fields) /\ Forall (fun kv => json_distinct (snd kv)) fields.
Proof. simpl. by rewrite (foldr_and (fun kv => json_distinct (snd kv))). Qed.

Lemma stringify_props_keys rec ps js :
  stringify_props rec ps = Some js -> map fst js `sublist_of` map fst ps.
Proof.
  revert js. induction ps as [|[k x] r IH]; intros js Hjs; simpl in *.
  - by injection Hjs as <-.
  - destruct x; try (apply sublist_cons; by apply IH);
      (destruct (rec _); [|done];
       destruct (stringify_props rec r) as [js0|]; [|done];
       injection Hjs as <-; simpl; apply sublist_skip; by apply IH).
Qed.

Lemma stringify_props_all rec (P : json -> Prop) ps js :
  (forall x j, rec x = Some j -> P j) ->
  stringify_props rec ps = Some js -> Forall (fun kv => P (snd kv)) js.
Proof.
  intros Hrec. revert js. induction ps as [|[k x] r IH]; intros js Hjs; simpl in *.
  - injection Hjs as <-. constructor.
  - destruct x; try (by apply IH);
      (destruct (rec _) as [j0|] eqn:E; [|done];
       destruct (stringify_props rec r) as [js0|]; [|done];
       injection Hjs as <-; constructor; [by eapply Hrec|by apply IH]).
Qed.

Lemma stringify_items_all rec (P : json -> Prop) xs js :
  (forall x j, rec x = Some j -> P j) ->
  stringify_items rec xs = Some js -> Forall P js.
Proof.
  intros Hrec. revert js. induction xs as [|x r IH]; intros js Hjs; simpl in *.
  - injection Hjs as <-. constructor.
  - destruct (rec x) as [j0|] eqn:E; [|done].
    destruct (stringify_items rec r) as [js0|]; [|done].
    injection Hjs as <-. constructor; [by eapply Hrec|by apply IH].
Qed.

Lemma stringify_distinct f : forall h v j,
  heap_distinct h -> stringify f h v = Some j -> json_distinct j.
Proof.
  induction f as [|f IH]; intros h v j Hd Hj.
  - destruct v; simpl in Hj; try done; by injection Hj as <-.
  - destruct v as [| | | | |l]; simpl in Hj; try (by injection Hj as <-).
    destruct (h !! l) as [[props|items]|] eqn:Ho; [| |done].
    + destruct (stringify_props (stringify f h) props) as [js|] eqn:E; [|done].
      injection Hj as <-. apply json_distinct_obj. split.
      * eapply sublist_NoDup; [|by eapply stringify_props_keys].
        eapply Forall_lookup_1 in Hd; [|done]. exact Hd.
      * eapply stringify_props_all; [|done]. intros x j. by apply IH.
    + destruct (stringify_items (stringify f h) items) as [js|] eqn:E; [|done].
      injection Hj as <-. apply json_distinct_arr.
      eapply stringify_items_all; [|done]. intros x j. by apply IH.
Qed.

Lemma parse_props_keys fields : forall h,
  map fst (fst (parse_props parse fields h)) = map fst fields.
Proof.
  induction fields as [|[k e] r IH]; intros h; simpl; [done|].
  destruct (parse e h) as [x h1]. specialize (IH h1).
  destruct (parse_props parse r h1) as [ps h2]. simpl in *. by rewrite IH.
Qed.

Lemma parse_distinct j : json_distinct j ->
  forall h, heap_distinct h -> heap_distinct (snd (parse j h)).
Proof.
  induction j as [|b|z|s|elems IH|fields IH] using RedactFacts.json_ind;
    try (by intros _ h Hd).
  - intros Hj%json_distinct_arr h Hd. simpl.
    enough (heap_distinct (snd (parse_items parse elems h))) as H.
    { destruct (parse_items parse elems h) as [xs h1]. simpl in *.
      apply Forall_app. split; [done|]. by repeat constructor. }
    revert h Hd. induction IH as [|e r He _ IHr]; intros h Hd; simpl; [done|].
    apply Forall_cons in Hj as [Hj1 Hj].
    specialize (He Hj1 h Hd). destruct (parse e h) as [x h1].
    specialize (IHr Hj h1 He). by destruct (parse_items parse r h1).
  - intros [Hk Hj]%json_distinct_obj h Hd. simpl.
    pose proof (parse_props_keys fields h) as Hkeys.
    enough (heap_distinct (snd (parse_props parse fields h))) as H.
    { destruct (parse_props parse fields h) as [ps h1]. simpl in *.
      apply Forall_app. split; [done|]. repeat constructor. simpl. by rewrite Hkeys. }
    clear Hk Hkeys. revert h Hd.
    induction IH as [|[k e] r He _ IHr]; intros h Hd; simpl; [done|].
    apply Forall_cons in Hj as [Hj1 Hj]. simpl in *.
    specialize (He Hj1 h Hd). destruct (parse e h) as [x h1].
    specialize (IHr Hj h1 He). by destruct (parse_props parse r h1).
Qed.

Lemma parse_grows j h l o :
  h !! l = Some o -> snd (parse j h) !! l = Some o.
Proof.
  intros Ho. destruct (parse_spec j (length h) h) as (ext & -> & _);
    [done|apply region_empty|]. by apply lookup_app_l_Some.
Qed.

Lemma parse_items_grows elems h l o :
  h !! l = Some o -> snd (parse_items parse elems h) !! l = Some o.
Proof.
  intros Ho.
  destruct (parse_items_ok elems) with (n := length h) (h := h) as (ext & -> & _);
    [|done|apply region_empty|by apply lookup_app_l_Some].
  apply Forall_forall. intros ? _. apply parse_spec.
Qed.

Lemma parse_props_grows fields h l o :
  h !! l = Some o -> snd (parse_props parse fields h) !! l = Some o.
Proof.
  intros Ho.
  destruct (parse_props_ok fields) with (n := length h) (h := h) as (ext & -> & _);
    [|done|apply region_empty|by apply lookup_app_l_Some].
  apply Forall_forall. intros ? _. apply parse_spec.
Qed.

Lemma parse_defined j h : fst (parse j h) <> VUndefined.
Proof.
  destruct (parse_spec j (length h) h) as (ext & _ & Hv & _);
    [done|apply region_empty|]. by destruct (fst (parse j h)).
Qed.

(** [JSON.stringify] of what [JSON.parse] built gives the tree back. *)
Lemma parse_stringify j : forall h,
  exists f, stringify f (snd (parse j h)) (fst (parse j h)) = Some j.
Proof.
  induction j as [|b|z|s|elems IH|fields IH] using RedactFacts.json_ind;
    try (intros h; by exists 0%nat).
  - intros h.
    assert (Hitems : exists f,
      stringify_items (stringify f (snd (parse_items parse elems h)))
        (fst (parse_items parse elems h)) = Some elems).
    { revert h. induction IH as [|e r He _ IHr]; intros h; simpl.
      - by exists 0%nat.
      - destruct (He h) as [f1 H1].
        pose proof (fun l o => parse_items_grows r (snd (parse e h)) l o) as Hg.
        destruct (parse e h) as [x h1]. simpl in *.
        destruct (IHr h1) as [f2 H2].
        destruct (parse_items parse r h1) as [xs h2]. simpl in *.
        exists (f1 `max` f2)%nat.
        assert (E1 : stringify (f1 `max` f2) h2 x = Some e).
        { apply (stringify_mono f1); [lia|]. by eapply stringify_frame. }
        assert (E2 : stringify_items (stringify (f1 `max` f2) h2) xs = Some r).
        { eapply stringify_items_mono; [|done].
          intros x0 j0. apply stringify_mono. lia. }
        by rewrite E1, E2. }
    destruct Hitems as [f Hf]. exists (S f). simpl.
    destruct (parse_items parse elems h) as [xs h1]. simpl in *.
    rewrite lookup_app_r by done. rewrite Nat.sub_diag. simpl.
    assert (E : stringify_items (stringify f (h1 ++ [OArr xs])) xs = Some elems).
    { eapply stringify_items_mono; [|done].
      intros x0 j0. apply stringify_frame. intros l o. apply lookup_app_l_Some. }
    by rewrite E.
  - intros h.
    assert (Hprops : exists f,
      stringify_props (stringify f (snd (parse_props parse fields h)))
        (fst (parse_props parse fields h)) = Some fields).
    { revert h. induction IH as [|[k e] r He _ IHr]; intros h; simpl.
      - by exists 0%nat.
      - simpl in He. destruct (He h) as [f1 H1].
        pose proof (fun l o => parse_props_grows r (snd (parse e h)) l o) as Hg.
        pose proof (parse_defined e h) as Hx.
        destruct (parse e h) as [x h1]. simpl in *.
        destruct (IHr h1) as [f2 H2].
        destruct (parse_props parse r h1) as [ps h2]. simpl in *.
        exists (f1 `max` f2)%nat.
        assert (E1 : stringify (f1 `max` f2) h2 x = Some e).
        { apply (stringify_mono f1); [lia|]. by eapply stringify_frame. }
        assert (E2 : stringify_props (stringify (f1 `max` f2) h2) ps = Some r).
        { eapply stringify_props_mono; [|done].
          intros x0 j0. apply stringify_mono. lia. }
        destruct x; try done; by rewrite E1, E2. }
    destruct Hprops as [f Hf]. exists (S f). simpl.
    destruct (parse_props parse fields h) as [ps h1]. simpl in *.
    rewrite lookup_app_r by done. rewrite Nat.sub_diag. simpl.
    assert (E : stringify_props (stringify f (h1 ++ [OObj ps])) ps = Some fields).
    { eapply stringify_props_mono; [|done].
      intros x0 j0. apply stringify_frame. intros l o. apply lookup_app_l_Some. }
    by rewrite E.
Qed.

(** *** The function on the heap computes the function on trees *)

Lemma sanitize_at_refines fuel f0 h data j r h' :
  heap_distinct h ->
  stringify f0 h data = Some j ->
  sanitizeWebhookPayload_at fuel h data = Some (r, h') ->
  heap_distinct h' /\
  exists f1, stringify f1 h' r = Some (sanitizeWebhookPayload j).
Proof.
  intros Hd Hj Hrun. rewrite RedactFacts.sanitize_remove.
  destruct data as [| | | | |l0].
  1-5: simpl in Hrun; injection Hrun as <- <-; split; [done|];
         exists 0%nat; destruct f0; simpl in *; by injection Hj as <-.
  unfold sanitizeWebhookPayload_at in Hrun.
  destruct (stringify fuel h (VRef l0)) as [j'|] eqn:Ej'; [|done].
  assert (j' = j) as ->.
  { apply (stringify_mono f0 (f0 `max` fuel)) in Hj; [|lia].
    apply (stringify_mono fuel (f0 `max` fuel)) in Ej'; [|lia]. congruence. }
  pose proof (stringify_distinct _ _ _ _ Hd Hj) as Hjd.
  pose proof (parse_distinct j Hjd h Hd) as Hd1.
  destruct (parse_stringify j h) as [f1 Hback].
  destruct (parse_spec j (length h) h) as (ext & E & Hv & Hreg);
    [done|apply region_empty|].
  destruct (parse j h) as [s h1]. simpl in *.
  destruct (removeSensitiveFields_at fuel h1 s) as [h2|] eqn:Erem; [|done].
  injection Hrun as <- <-.
  pose proof (remove_between _ _ _ _ Erem) as Hb.
  split; [by eapply between_distinct|].
  exists f1. eapply read_redacted; [done| | | |done].
  - rewrite E. exact Hreg.
  - rewrite E. exact Hv.
  - by eapply remove_settles.
Qed.

End RefineFacts.

(** * The claims *)


(** C1, as the code has it: in either queue, a task with [maxAttempts = n]
    (for [n >= 1]) whose delivery is rejected every time is delivered exactly
    [n] times (the first attempt and [n - 1] retries); it is then dropped,
    and the manager is left with an empty queue, no drain loop and the
    processing flag down.  This is what the manager does when left alone
    (the notification queue polling every 1000 ms while the task waits, the
    upload queue sleeping [5000 * attempts] ms), and under any other
    schedule in which no delivery resolves and nothing else is queued the
    task is never delivered more than [n] times, and exactly [n] times once
    the drain loop has ended. *)
Theorem C1_attempts_equal_ceiling :
  forall n : Z, 1 <= n ->
    (forall (P : Type) (p : P) (rtt t : Z),
        (exists fuel,
           let s := W.run_rejecting rtt fuel t (W.processQueue t (W.single n p t)) in
           W.queue s = [] /\ W.processing s = false /\ W.loops s = [] /\
           Z.of_nat (W.sends s) = n) /\
        (forall es s,
           forallb W.unsuccessful es = true ->
           W.exec es (W.processQueue t (W.single n p t)) = Some s ->
           Z.of_nat (W.sends s) <= n /\
           (W.loops s = [] ->
              Z.of_nat (W.sends s) = n /\ W.queue s = [] /\ W.processing s = false)))
    /\
    (forall (C : Type) (c : C) (path sid : string),
        (forall o, fst (R.uploadRecording o) = false ->
           exists fuel,
             let s := R.run o fuel (R.processUploadQueue (R.single n path c sid)) in
             R.uploadQueue s = [] /\ R.processing s = false /\ R.loops s = [] /\
             Z.of_nat (R.uploads s) = n) /\
        (forall es s,
           forallb R.unsuccessful es = true ->
           R.exec es (R.processUploadQueue (R.single n path c sid)) = Some s ->
           Z.of_nat (R.uploads s) <= n /\
           (R.loops s = [] ->
              Z.of_nat (R.uploads s) = n /\ R.uploadQueue s = [] /\
              R.processing s = false))).
Proof.
  intros n Hn. split.
  - intros P p rtt t. split; [by apply WebhookFacts.wh_always_rejected|].
    intros es s Hes Hrun. apply (WebhookFacts.wh_alone_sends n p).
    eapply WebhookFacts.wh_always_rejected_any; [done| |done].
    by apply WebhookFacts.wh_alone_start.
  - intros C c path sid. split.
    + intros o Ho. by apply UploadFacts.up_always_rejected.
    + intros es s Hes Hrun. apply (UploadFacts.up_alone_uploads n path c sid).
      eapply UploadFacts.up_always_rejected_any; [done| |done].
      by apply UploadFacts.up_alone_start.
Qed.

Lemma C1_witness :
  1 <= 2 /\
  (exists fuel,
     let s := W.run_rejecting 0 fuel 0 (W.processQueue 0 (W.single 2 tt 0)) in
     W.queue s = [] /\ W.processing s = false /\ W.loops s = [] /\
     Z.of_nat (W.sends s) = 2) /\
  fst (@R.uploadRecording None) = false /\
  (exists fuel,
     let s := R.run None fuel (R.processUploadQueue (R.single 2 "a.guac" tt "s1")) in
     R.uploadQueue s = [] /\ R.processing s = false /\ R.loops s = [] /\
     Z.of_nat (R.uploads s) = 2) /\
  (exists s,
     forallb (@W.unsuccessful unit) [W.SendRejected 0 10 10; W.TimerFired 0 5000;
                                     W.SendRejected 0 5010 5010] = true /\
     W.exec [W.SendRejected 0 10 10; W.TimerFired 0 5000; W.SendRejected 0 5010 5010]
       (W.processQueue 0 (W.single 2 tt 0)) = Some s /\
     W.loops s = [] /\ Z.of_nat (W.sends s) = 2).
Proof.
  assert (H : 1 <= 2) by lia.
  destruct (C1_attempts_equal_ceiling 2 H) as [Hw Hu].
  split; [exact H|]. split; [apply (proj1 (Hw unit tt 0 0))|].
  split; [reflexivity|].
  split; [apply (proj1 (Hu unit tt "a.guac"%string "s1"%string) None eq_refl)|].
  destruct (W.exec [W.SendRejected 0 10 10; W.TimerFired 0 5000; W.SendRejected 0 5010 5010]
              (W.processQueue 0 (W.single 2 tt 0))) as [s|] eqn:Es; [|discriminate Es].
  assert (Hl : W.loops s = []) by (vm_compute in Es; injection Es as <-; reflexivity).
  exists s. split; [reflexivity|]. split; [reflexivity|]. split; [exact Hl|].
  apply (proj2 (proj2 (Hw unit tt 0 0)
                  [W.SendRejected 0 10 10; W.TimerFired 0 5000; W.SendRejected 0 5010 5010]
                  s eq_refl Es) Hl).
Defined.

(** C1 as stated fails: with [maxAttempts = 2] a notification that is always
    rejected is sent twice, not three times, and so is an upload. *)
Lemma C1_counterexample :
  let s := W.run_rejecting 0 10 0 (W.processQueue 0 (W.single 2 tt 0)) in
  let s' := R.run None 10 (R.processUploadQueue (R.single 2 "a.guac" tt "s1")) in
  (W.queue s = [] /\ W.processing s = false /\ W.loops s = [] /\
   W.sends s = 2%nat /\ W.sends s <> 3%nat) /\
  (R.uploadQueue s' = [] /\ R.processing s' = false /\ R.loops s' = [] /\
   R.uploads s' = 2%nat /\ R.uploads s' <> 3%nat).
Proof. vm_compute. repeat split; congruence. Qed.

(** C2: in every state either manager can reach, each queued task has
    [attempts < maxAttempts] (so never more than the ceiling, and never the
    ceiling itself); and when a delivery is rejected for a task whose counter
    thereby reaches [maxAttempts], the task is afterwards neither in the
    queue nor being delivered. *)
Theorem C2_attempts_below_ceiling :
  (forall (P : Type) (s : W.state P),
      W.reachable s ->
      Forall (fun w => W.attempts w < W.maxAttempts w /\
                       W.attempts w <= W.maxAttempts w) (W.queue s) /\
      (forall i w t0 t1 s',
          W.loops s !! i = Some (W.AwaitSend w) ->
          W.maxAttempts w <= W.attempts w + 1 ->
          W.step (W.SendRejected i t0 t1) s = Some s' ->
          (W.wid w ∉ map W.wid (W.queue s')) /\ (W.wid w ∉ map W.wid (W.flights s'))))
  /\
  (forall (C : Type) (s : R.state C),
      R.reachable s ->
      Forall (fun u => R.attempts u < R.maxAttempts u /\
                       R.attempts u <= R.maxAttempts u) (R.uploadQueue s) /\
      (forall i u o s',
          R.loops s !! i = Some (R.AwaitUpload u) ->
          fst (R.uploadRecording o) = false ->
          R.maxAttempts u <= R.attempts u + 1 ->
          R.step (R.UploadSettled i o) s = Some s' ->
          (R.uid u ∉ map R.uid (R.uploadQueue s')) /\ (R.uid u ∉ map R.uid (R.flights s')))).
Proof.
  split.
  - intros P s Hs. apply WebhookFacts.wh_wf_reachable in Hs. split.
    + eapply Forall_impl; [apply (W.wf_attempts _ Hs)|]. simpl. intros w. lia.
    + intros i w t0 t1 s' Hi Hmax Hstep.
      pose proof (WebhookFacts.wh_given_up _ _ _ _ _ _ Hs Hi Hmax Hstep) as H.
      unfold W.ids in H. rewrite map_app, elem_of_app in H. tauto.
  - intros C s Hs. apply UploadFacts.up_wf_reachable in Hs. split.
    + pose proof (R.wf_attempts _ Hs) as H. apply Forall_app in H as [H _].
      eapply Forall_impl; [exact H|]. unfold R.good. simpl. intros u. lia.
    + intros i u o s' Hi Ho Hmax Hstep.
      pose proof (UploadFacts.up_given_up _ _ _ _ _ Hs Hi Ho Hmax Hstep) as H.
      unfold R.ids in H. rewrite map_app, elem_of_app in H. tauto.
Qed.

Lemma C2_witness :
  exists (s s' : W.state unit) (w : W.webhook unit)
         (r r' : R.state unit) (u : R.upload unit),
    (W.reachable s /\ W.loops s !! 0%nat = Some (W.AwaitSend w) /\
     W.maxAttempts w <= W.attempts w + 1 /\
     W.step (W.SendRejected 0 6030 6030) s = Some s' /\
     Forall (fun w => W.attempts w < W.maxAttempts w /\
                      W.attempts w <= W.maxAttempts w) (W.queue s) /\
     (W.wid w ∉ map W.wid (W.queue s')) /\ (W.wid w ∉ map W.wid (W.flights s'))) /\
    (R.reachable r /\ R.loops r !! 0%nat = Some (R.AwaitUpload u) /\
     fst (@R.uploadRecording None) = false /\
     R.maxAttempts u <= R.attempts u + 1 /\
     R.step (R.UploadSettled 0 None) r = Some r' /\
     Forall (fun u => R.attempts u < R.maxAttempts u /\
                      R.attempts u <= R.maxAttempts u) (R.uploadQueue r) /\
     (R.uid u ∉ map R.uid (R.uploadQueue r')) /\ (R.uid u ∉ map R.uid (R.flights r'))).
Proof.
  destruct C2_attempts_below_ceiling as [Hw Hr].
  destruct (W.exec thrice_w W.init) as [s|] eqn:Es; [|discriminate Es].
  destruct (W.step (W.SendRejected 0 6030 6030) s) as [s'|] eqn:Es';
    [|vm_compute in Es; injection Es as <-; discriminate Es'].
  destruct (R.exec thrice_r R.init) as [r|] eqn:Er; [|discriminate Er].
  destruct (R.step (R.UploadSettled 0 None) r) as [r'|] eqn:Er';
    [|vm_compute in Er; injection Er as <-; discriminate Er'].
  assert (Hs : W.reachable s) by (by exists thrice_w).
  assert (Hrr : R.reachable r) by (by exists thrice_r).
  destruct (Hw unit s Hs) as [Hq Hdrop]. destruct (Hr unit r Hrr) as [Hq' Hdrop'].
  set (w := {| W.wid := 0; W.payload := tt; W.attempts := 2; W.maxAttempts := 3;
               W.nextRetry := 6020 |}).
  set (u := {| R.uid := 0; R.filePath := "a.guac"; R.connection := tt;
               R.sessionId := "s1"; R.attempts := 2; R.maxAttempts := 3;
               R.tries := 0 |}).
  assert (Hi : W.loops s !! 0%nat = Some (W.AwaitSend w))
    by (vm_compute in Es; injection Es as <-; reflexivity).
  assert (Hi' : R.loops r !! 0%nat = Some (R.AwaitUpload u))
    by (vm_compute in Er; injection Er as <-; reflexivity).
  assert (Hmax : W.maxAttempts w <= W.attempts w + 1) by (simpl; lia).
  assert (Hmax' : R.maxAttempts u <= R.attempts u + 1) by (simpl; lia).
  exists s, s', w, r, r', u. split.
  - split; [exact Hs|]. split; [exact Hi|]. split; [exact Hmax|]. split; [exact Es'|].
    split; [exact Hq|]. exact (Hdrop 0%nat w 6030 6030 s' Hi Hmax Es').
  - split; [exact Hrr|]. split; [exact Hi'|]. split; [reflexivity|]. split; [exact Hmax'|].
    split; [exact Er'|]. split; [exact Hq'|].
    exact (Hdrop' 0%nat u None r' Hi' eq_refl Hmax' Er').
Defined.

(** C3: in every state either manager can reach there is at most one
    instance of the drain loop, and the processing flag is up exactly when
    there is one.  While the flag is up a call of the drain procedure changes
    nothing, and an enqueue starts no loop.  A segment that raises the flag
    starts the only loop; a segment that lowers it ends that loop on an empty
    queue. *)
Theorem C3_single_drain_loop :
  (forall (P : Type) (s : W.state P),
      W.reachable s ->
      (length (W.loops s) <= 1)%nat /\
      (W.processing s = true <-> W.loops s <> []) /\
      (W.processing s = true ->
         (forall t, W.processQueue t s = s) /\
         (forall p t0 t1, W.loops (W.queueWebhook p t0 t1 s) = W.loops s /\
                          W.processing (W.queueWebhook p t0 t1 s) = true)) /\
      (forall e s', W.step e s = Some s' ->
         (W.processing s = false -> W.processing s' = true ->
            W.loops s = [] /\ length (W.loops s') = 1%nat) /\
         (W.processing s = true -> W.processing s' = false ->
            W.queue s' = [] /\ W.loops s' = [])))
  /\
  (forall (C : Type) (s : R.state C),
      R.reachable s ->
      (length (R.loops s) <= 1)%nat /\
      (R.processing s = true <-> R.loops s <> []) /\
      (R.processing s = true ->
         R.processUploadQueue s = s /\
         (forall path c sid, R.loops (R.queueForUpload path c sid s) = R.loops s /\
                             R.processing (R.queueForUpload path c sid s) = true)) /\
      (forall e s', R.step e s = Some s' ->
         (R.processing s = false -> R.processing s' = true ->
            R.loops s = [] /\ length (R.loops s') = 1%nat) /\
         (R.processing s = true -> R.processing s' = false ->
            R.uploadQueue s' = [] /\ R.loops s' = []))).
Proof.
  split.
  - intros P s Hs. apply WebhookFacts.wh_wf_reachable in Hs.
    split; [apply (W.wf_loops _ Hs)|]. split; [apply (W.wf_flag _ Hs)|]. split.
    + intros Hp. split.
      * intros t. by apply WebhookFacts.wh_processQueue_busy.
      * intros p t0 t1. by apply WebhookFacts.wh_queueWebhook_busy.
    + intros e s' He. split.
      * by apply (WebhookFacts.wh_flag_raised s e s').
      * by apply (WebhookFacts.wh_flag_cleared s e s').
  - intros C s Hs. apply UploadFacts.up_wf_reachable in Hs.
    split; [apply (R.wf_loops _ Hs)|]. split; [apply (R.wf_flag _ Hs)|]. split.
    + intros Hp. split.
      * by apply UploadFacts.up_processUploadQueue_busy.
      * intros path c sid. by apply UploadFacts.up_queueForUpload_busy.
    + intros e s' He. split.
      * by apply (UploadFacts.up_flag_raised s e s').
      * by apply (UploadFacts.up_flag_cleared s e s').
Qed.

Lemma C3_witness :
  exists (s : W.state unit) (r : R.state unit),
    (W.reachable s /\ W.processing s = true /\
     W.step (W.QueueWebhook tt 5 5) s = Some (W.queueWebhook tt 5 5 s) /\
     (length (W.loops s) <= 1)%nat /\
     W.processQueue 5 s = s /\
     W.loops (W.queueWebhook tt 5 5 s) = W.loops s) /\
    (R.reachable r /\ R.processing r = true /\
     (length (R.loops r) <= 1)%nat /\
     R.processUploadQueue r = r /\
     R.loops (R.queueForUpload "b.guac" tt "s2" r) = R.loops r).
Proof.
  destruct C3_single_drain_loop as [Hw Hr].
  destruct (W.exec [W.QueueWebhook tt 0 0] W.init) as [s|] eqn:Es; [|discriminate Es].
  destruct (R.exec [R.QueueForUpload "a.guac" tt "s1"] R.init) as [r|] eqn:Er;
    [|discriminate Er].
  assert (Hs : W.reachable s) by (by exists [W.QueueWebhook tt 0 0]).
  assert (Hrr : R.reachable r) by (by exists [R.QueueForUpload "a.guac" tt "s1"]%string).
  assert (Hp : W.processing s = true)
    by (vm_compute in Es; injection Es as <-; reflexivity).
  assert (Hp' : R.processing r = true)
    by (vm_compute in Er; injection Er as <-; reflexivity).
  destruct (Hw unit s Hs) as (H1 & _ & H3 & _).
  destruct (Hr unit r Hrr) as (H1' & _ & H3' & _).
  destruct (H3 Hp) as [Hcall Henq]. destruct (H3' Hp') as [Hcall' Henq'].
  exists s, r. split.
  - split; [exact Hs|]. split; [exact Hp|]. split; [reflexivity|]. split; [exact H1|].
    split; [apply Hcall|]. apply (Henq tt 5 5).
  - split; [exact Hrr|]. split; [exact Hp'|]. split; [exact H1'|].
    split; [exact Hcall'|]. apply (Henq' "b.guac" tt "s2")%string.
Defined.

(** C4 fails on the code: [cleanup] resolves as soon as the queue is empty,
    also while the last task is being delivered.  After one enqueue the
    task is in flight, the queue is empty and the flag is up; [cleanup] does
    not wait; the delivery is then rejected and the task is queued again. *)
Theorem C4_cleanup_resolves_during_delivery :
  (exists (s s' : W.state unit) (w : W.webhook unit),
      W.exec [W.QueueWebhook tt 0 0] W.init = Some s /\
      W.loops s = [W.AwaitSend w] /\
      W.getQueueStatus s = (0%nat, true) /\
      W.cleanup_waits s = false /\
      W.step (W.SendRejected 0 10 10) s = Some s' /\
      W.getQueueStatus s' = (1%nat, true))
  /\
  (exists (r r' : R.state unit) (u : R.upload unit),
      R.exec [R.QueueForUpload "a.guac" tt "s1"] R.init = Some r /\
      R.loops r = [R.AwaitUpload u] /\
      (length (R.uploadQueue r), R.processing r) = (0%nat, true) /\
      R.cleanup_waits r = false /\
      R.step (R.UploadSettled 0 None) r = Some r' /\
      (length (R.uploadQueue r'), R.processing r') = (1%nat, true)).
Proof.
  split.
  - eexists _, _, _. vm_compute. repeat split.
  - eexists _, _, _. vm_compute. repeat split.
Qed.

(** C5, as the code has it: when the delivery of a notification is rejected
    and its counter, once incremented, is still below [maxAttempts], the task
    is appended to the queue with [nextRetry] set to the time of the failure
    plus [min(1000 * 2^attempts, 30000)] ms.  An upload has no such field:
    it is appended with its counter incremented and the drain loop then
    sleeps [5000 * attempts] ms. *)
Theorem C5_backoff_after_rejection :
  (forall (P : Type) (s : W.state P) (w : W.webhook P) (now : Z),
      W.attempts w + 1 < W.maxAttempts w ->
      W.queue (W.on_rejected now w s) =
        W.queue s ++
        [{| W.wid := W.wid w; W.payload := W.payload w;
            W.attempts := W.attempts w + 1; W.maxAttempts := W.maxAttempts w;
            W.nextRetry := now + Z.min (1000 * 2 ^ (W.attempts w + 1)) 30000 |}])
  /\
  (forall (C : Type) (s : R.state C) (u : R.upload C),
      R.attempts u + 1 < R.maxAttempts u ->
      R.on_rejected u s =
        (R.set_queue
           (R.uploadQueue s ++
            [{| R.uid := R.uid u; R.filePath := R.filePath u;
                R.connection := R.connection u; R.sessionId := R.sessionId u;
                R.attempts := R.attempts u + 1; R.maxAttempts := R.maxAttempts u;
                R.tries := R.tries u |}])
           (R.add_log (R.UploadFailed u) s),
         Some (R.AwaitBackoff (5000 * (R.attempts u + 1))))).
Proof.
  split.
  - intros P s w now H. by apply WebhookFacts.wh_on_rejected_retry.
  - intros C s u H. by apply UploadFacts.up_on_rejected_retry.
Qed.

Lemma C5_witness :
  let w := {| W.wid := 0; W.payload := tt; W.attempts := 1; W.maxAttempts := 3;
              W.nextRetry := 2010 |} in
  let u := {| R.uid := 0; R.filePath := "a.guac"; R.connection := tt;
              R.sessionId := "s1"; R.attempts := 1; R.maxAttempts := 3;
              R.tries := 4 |} in
  (W.attempts w + 1 < W.maxAttempts w /\
   W.queue (W.on_rejected 2020 w (W.sending 3 tt 1 2010 [])) =
     [{| W.wid := 0; W.payload := tt; W.attempts := 2; W.maxAttempts := 3;
         W.nextRetry := 6020 |}]) /\
  (R.attempts u + 1 < R.maxAttempts u /\
   R.on_rejected u (R.uploading u []) =
     ({| R.uploadQueue :=
           [{| R.uid := 0; R.filePath := "a.guac"; R.connection := tt;
               R.sessionId := "s1"; R.attempts := 2; R.maxAttempts := 3;
               R.tries := 4 |}];
         R.processing := true; R.loops := [R.AwaitUpload u]; R.fresh := 1;
         R.log := [R.UploadFailed u] |},
      Some (R.AwaitBackoff 10000))).
Proof.
  destruct C5_backoff_after_rejection as [Hw Hr].
  split.
  - split; [simpl; lia|]. rewrite (Hw unit) by (simpl; lia). vm_compute. reflexivity.
  - split; [simpl; lia|]. rewrite (Hr unit) by (simpl; lia). vm_compute. reflexivity.
Defined.

(** C5 as stated fails for the upload queue: the delay after a rejected
    upload is [5000 * attempts], which is no [min(base * 2^attempts, cap)]
    whatever [base] and [cap] are, and the task is back in the queue, with no
    time stored in it, while the loop sleeps.  (For the ceiling 3 that
    [queueForUpload] sets, only the delays 5000 and 10000 occur.) *)
Lemma C5_counterexample :
  R.exec [R.QueueForUpload "a.guac" tt "s1"; R.UploadSettled 0 None] R.init =
    Some (R.backing_off (R.task 3 "a.guac" tt "s1" 1 0) 5000
            [R.UploadRecording (R.task 3 "a.guac" tt "s1" 0 0);
             R.UploadFailed (R.task 3 "a.guac" tt "s1" 0 0)]) /\
  R.step (R.UploadSettled 0 None) (R.uploading (R.task 5 "a.guac" tt "s1" 2 0) []) =
    Some (R.backing_off (R.task 5 "a.guac" tt "s1" 3 0) 15000
            [R.UploadFailed (R.task 5 "a.guac" tt "s1" 2 0)]) /\
  R.retryDelay 1 = 5000 /\ R.retryDelay 2 = 10000 /\
  R.retryDelay 3 = 15000 /\ R.retryDelay 4 = 20000 /\
  ~ (exists base cap : Z,
       forall a, 1 <= a <= 4 -> R.retryDelay a = Z.min (base * 2 ^ a) cap).
Proof.
  repeat (split; [reflexivity|]).
  intros (base & cap & H).
  pose proof (H 1 ltac:(lia)) as H1. pose proof (H 2 ltac:(lia)) as H2.
  pose proof (H 3 ltac:(lia)) as H3. pose proof (H 4 ltac:(lia)) as H4.
  unfold R.retryDelay in *.
  change (2 ^ 1) with 2 in H1. change (2 ^ 2) with 4 in H2.
  change (2 ^ 3) with 8 in H3. change (2 ^ 4) with 16 in H4.
  lia.
Qed.

(** C6, as the code has it: when the task at the head of the notification
    queue is not yet due, the drain loop takes it off and puts it back at the
    head, so the queue is as it was, nothing is sent, and the loop sleeps
    1000 ms; the tasks behind it wait, due or not.  When the head is due it
    is the one sent: tasks are attempted in queue order. *)
Theorem C6_head_not_due_blocks_the_queue :
  forall (P : Type) (s : W.state P) (w : W.webhook P) (q : list (W.webhook P)) (now : Z),
    W.queue s = w :: q ->
    (W.nextRetry w > now -> W.loop_head now s = (s, Some W.AwaitSleep)) /\
    (W.nextRetry w <= now ->
       W.loop_head now s =
         (W.add_log (W.SendWebhook w) (W.set_queue q s), Some (W.AwaitSend w))).
Proof.
  intros P s w q now Hq. split; intros Hw.
  - by eapply WebhookFacts.wh_loop_head_waits.
  - by apply WebhookFacts.wh_loop_head_sends.
Qed.

Lemma C6_witness :
  let a := {| W.wid := 0; W.payload := "a"%string; W.attempts := 1;
              W.maxAttempts := 3; W.nextRetry := 2010 |} in
  let c := {| W.wid := 1; W.payload := "c"%string; W.attempts := 0;
              W.maxAttempts := 3; W.nextRetry := 500 |} in
  let s := {| W.queue := [a; c]; W.processing := true; W.loops := [W.AwaitSleep];
              W.fresh := 2; W.log := [] |} in
  W.queue s = a :: [c] /\ W.nextRetry a > 1010 /\
  W.loop_head 1010 s = (s, Some W.AwaitSleep).
Proof.
  intros a c s. split; [reflexivity|]. split; [simpl; lia|].
  apply (proj1 (C6_head_not_due_blocks_the_queue string s a [c] 1010 eq_refl)).
  simpl; lia.
Defined.

(** C6 as stated fails: a task that is not yet due goes back to the head,
    not to the tail.  Webhook [a] is rejected at 10 and due again at 2010;
    [c] is queued at 500.  When the timer fires at 1010 the queue is still
    [a; c], and [c], though due, has not been sent. *)
Lemma C6_counterexample :
  exists (s : W.state string) (a c : W.webhook string),
    W.exec [W.QueueWebhook "a" 0 0; W.SendRejected 0 10 10;
            W.QueueWebhook "c" 500 500; W.TimerFired 0 1010]%string W.init = Some s /\
    W.queue s = [a; c] /\ W.queue s <> [c; a] /\
    W.payload a = "a"%string /\ W.nextRetry a = 2010 /\
    W.payload c = "c"%string /\ W.nextRetry c = 500 /\
    W.loops s = [W.AwaitSleep] /\
    W.log s = [W.SendWebhook {| W.wid := 0; W.payload := "a"%string; W.attempts := 0;
                                W.maxAttempts := 3; W.nextRetry := 0 |};
               W.SendFailed {| W.wid := 0; W.payload := "a"%string; W.attempts := 0;
                               W.maxAttempts := 3; W.nextRetry := 0 |}].
Proof.
  eexists _, _, _. vm_compute. repeat split. congruence.
Qed.

(** C7 fails on the code.  What holds: with the format 'none' (or none
    configured) [compressRecording] returns the input path, calls nothing
    and changes nothing; with 'gzip', for an input that exists, it returns a
    path that exists and never rejects, the input being unlinked only after
    the transform has resolved and the output was found, and kept when
    something failed.  What fails: with a format that the stage cannot
    compress, any text other than 'none', 'gzip' and 'zip', no transform
    runs and the output path is the input path, so the input itself is
    found and unlinked; the stage returns the path of the file it has just
    deleted.  The caller has no artifact any more, and the recording is
    lost. *)
Theorem C7_compression_stage :
  forall (o : R.oracle) (inputPath : string) (d : R.disk),
    (forall cfg, R.format_of cfg = "none"%string ->
       R.compressRecording cfg o inputPath d = (R.Resolved inputPath, d)) /\
    (inputPath ∈ R.files d ->
       exists p d',
         R.compressRecording (Some "gzip"%string) o inputPath d = (R.Resolved p, d') /\
         p ∈ R.files d' /\
         ((p = inputPath /\ inputPath ∈ R.files d' /\
           (R.transform_resolves o = false \/ R.output_on_disk o = false \/
            R.unlink_resolves o = false))
          \/
          (p = (inputPath +:+ ".gz")%string /\ (inputPath ∉ R.files d') /\
           R.transform_resolves o = true /\ R.output_on_disk o = true /\
           R.unlink_resolves o = true /\
           R.calls d' = R.calls d ++
             [R.CompressWithGzip inputPath (inputPath +:+ ".gz")%string;
              R.ExistsSync (inputPath +:+ ".gz")%string; R.Unlink inputPath]))) /\
    (forall f,
       f <> ""%string -> f <> "none"%string -> f <> "gzip"%string -> f <> "zip"%string ->
       inputPath ∈ R.files d -> R.unlink_resolves o = true ->
       exists d',
         R.compressRecording (Some f) o inputPath d = (R.Resolved inputPath, d') /\
         (inputPath ∉ R.files d') /\
         R.files d' = R.files d ∖ {[inputPath]} /\
         R.calls d' = R.calls d ++ [R.ExistsSync inputPath; R.Unlink inputPath]).
Proof.
  intros o inputPath d. split; [|split].
  - intros cfg H. by apply CompressFacts.compress_none.
  - intros Hin. by apply CompressFacts.compress_gzip_cases.
  - intros f Hne Hn Hg Hz Hin Hu.
    rewrite (CompressFacts.compress_other f o inputPath d) by done.
    eexists. split; [reflexivity|]. simpl. split; [|done].
    rewrite elem_of_difference, elem_of_singleton. tauto.
Qed.

Lemma C7_witness :
  let d := {| R.files := {["/rec/a.guac"%string]}; R.calls := [] |} in
  let ok := {| R.transform_resolves := true; R.output_on_disk := true;
               R.unlink_resolves := true |} in
  let ko := {| R.transform_resolves := false; R.output_on_disk := true;
               R.unlink_resolves := true |} in
  (R.format_of (Some "none"%string) = "none"%string /\
   R.compressRecording (Some "none"%string) ok "/rec/a.guac" d =
     (R.Resolved "/rec/a.guac"%string, d)) /\
  ("/rec/a.guac"%string ∈ R.files d /\
   fst (R.compressRecording (Some "gzip"%string) ok "/rec/a.guac" d) =
     R.Resolved "/rec/a.guac.gz"%string /\
   fst (R.compressRecording (Some "gzip"%string) ko "/rec/a.guac" d) =
     R.Resolved "/rec/a.guac"%string) /\
  (exists d',
     R.compressRecording (Some "bzip2"%string) ok "/rec/a.guac" d =
       (R.Resolved "/rec/a.guac"%string, d') /\
     ("/rec/a.guac"%string ∉ R.files d') /\
     R.calls d' = [R.ExistsSync "/rec/a.guac"; R.Unlink "/rec/a.guac"]).
Proof.
  intros d ok ko.
  assert (Hin : "/rec/a.guac"%string ∈ R.files d) by (simpl; apply elem_of_singleton_2; reflexivity).
  split; [|split].
  - split; [reflexivity|].
    apply (proj1 (C7_compression_stage ok "/rec/a.guac" d) (Some "none"%string) eq_refl).
  - split; [exact Hin|]. split.
    + destruct (proj1 (proj2 (C7_compression_stage ok "/rec/a.guac" d)) Hin)
        as (p & d' & -> & _ & [(_ & _ & [H|[H|H]])|(-> & _)]);
        [discriminate H|discriminate H|discriminate H|reflexivity].
    + destruct (proj1 (proj2 (C7_compression_stage ko "/rec/a.guac" d)) Hin)
        as (p & d' & -> & _ & [(-> & _)|(_ & _ & H & _)]);
        [reflexivity|discriminate H].
  - destruct (proj2 (proj2 (C7_compression_stage ok "/rec/a.guac" d)) "bzip2"%string)
      as (d' & E & Hgone & _ & Hcalls); try discriminate; [exact Hin|reflexivity|].
    exists d'. split; [exact E|]. split; [exact Hgone|exact Hcalls].
Defined.

(** C8, with the list of the code in place of the one of the claim: on
    every JSON value [sanitizeWebhookPayload] is idempotent; whatever
    its result holds, at any depth, under a key whose lower-cased name
    contains one of the substrings of the list in the code (password,
    private-key, secret, token, passphrase, secret_key, access_key, api_key)
    is '[REDACTED]'; such a key of the input, reached through keys that do
    not match, is in the result with that marker; and a value reached
    through keys that do not match is the original one, redacted in turn
    (so unchanged when it is no object).  The example of the claim
    evaluates as stated.  The function on trees is the one the code computes
    on objects: when [data] is what [JSON.stringify] reads at a value of a
    heap, the value that [sanitizeWebhookPayload] returns for it reads as
    the redacted tree in the heap it leaves. *)
Theorem C8_redaction_idempotent_and_deep :
  forall data : Utils.json,
    Utils.sanitizeWebhookPayload (Utils.sanitizeWebhookPayload data) =
      Utils.sanitizeWebhookPayload data /\
    (forall p name v,
        Utils.is_sensitive name = true ->
        Utils.get_path (p ++ [Utils.Prop_ name]) (Utils.sanitizeWebhookPayload data) = Some v ->
        v = Utils.JStr "[REDACTED]") /\
    (forall p name v,
        Forall (fun k => Utils.is_sensitive (Utils.key_name k) = false) p ->
        Utils.is_sensitive name = true ->
        Utils.get_path (p ++ [Utils.Prop_ name]) data = Some v ->
        Utils.get_path (p ++ [Utils.Prop_ name]) (Utils.sanitizeWebhookPayload data) =
          Some (Utils.JStr "[REDACTED]")) /\
    (forall p,
        Forall (fun k => Utils.is_sensitive (Utils.key_name k) = false) p ->
        Utils.get_path p (Utils.sanitizeWebhookPayload data) =
          option_map Utils.sanitizeWebhookPayload (Utils.get_path p data)) /\
    Utils.sanitizeWebhookPayload example_payload =
      Utils.JObj [("user", Utils.JStr "a");
                  ("meta", Utils.JObj [("api_key", Utils.JStr "[REDACTED]");
                                       ("id", Utils.JNum 1)])]%string /\
    (forall (fuel f0 : nat) (h : Utils.heap) (v r : Utils.val) (h' : Utils.heap),
        Utils.heap_distinct h ->
        Utils.stringify f0 h v = Some data ->
        Utils.sanitizeWebhookPayload_at fuel h v = Some (r, h') ->
        exists f1, Utils.stringify f1 h' r = Some (Utils.sanitizeWebhookPayload data)).
Proof.
  intros data. split; [apply RedactFacts.sanitize_idempotent|].
  split; [|split; [|split; [|split]]];
    [rewrite RedactFacts.sanitize_remove ..|].
  - intros p name v Hn Hv. by eapply RedactFacts.get_path_marker.
  - intros p name v Hp Hn Hv. by eapply RedactFacts.get_path_sensitive.
  - intros p Hp. rewrite RedactFacts.get_path_plain by done.
    destruct (Utils.get_path p data); simpl; [|done].
    by rewrite RedactFacts.sanitize_remove.
  - reflexivity.
  - intros fuel f0 h v r h' Hd Hj Hrun.
    exact (proj2 (RefineFacts.sanitize_at_refines fuel f0 h v data r h' Hd Hj Hrun)).
Qed.

Lemma C8_witness :
  Utils.is_sensitive "api_key" = true /\
  Forall (fun k => Utils.is_sensitive (Utils.key_name k) = false) [Utils.Prop_ "meta"] /\
  Utils.get_path [Utils.Prop_ "meta"; Utils.Prop_ "api_key"] example_payload =
    Some (Utils.JStr "x") /\
  Utils.get_path [Utils.Prop_ "meta"; Utils.Prop_ "api_key"]
    (Utils.sanitizeWebhookPayload example_payload) = Some (Utils.JStr "[REDACTED]") /\
  Utils.get_path [Utils.Prop_ "meta"; Utils.Prop_ "id"]
    (Utils.sanitizeWebhookPayload example_payload) = Some (Utils.JNum 1) /\
  Utils.heap_distinct meta_heap /\
  Utils.stringify 2 meta_heap (Utils.VRef 1) = Some meta_tree /\
  exists r h' f1,
    Utils.sanitizeWebhookPayload_at 5 meta_heap (Utils.VRef 1) = Some (r, h') /\
    Utils.stringify f1 h' r =
      Some (Utils.JObj [("userId", Utils.JStr "u1"); ("api_key", Utils.JStr "[REDACTED]");
                        ("tags", Utils.JArr [Utils.JStr "a"])]%string).
Proof.
  destruct (C8_redaction_idempotent_and_deep meta_tree) as (_ & _ & _ & _ & _ & H6).
  destruct (C8_redaction_idempotent_and_deep example_payload) as (_ & _ & H3 & H4 & _).
  assert (Hs : Utils.is_sensitive "api_key" = true) by reflexivity.
  assert (Hp : Forall (fun k => Utils.is_sensitive (Utils.key_name k) = false)
                      [Utils.Prop_ "meta"]) by (constructor; [reflexivity|constructor]).
  split; [exact Hs|]. split; [exact Hp|]. split; [reflexivity|]. split.
  - exact (H3 [Utils.Prop_ "meta"] "api_key"%string (Utils.JStr "x") Hp Hs eq_refl).
  - split.
    { rewrite (H4 [Utils.Prop_ "meta"; Utils.Prop_ "id"]); [reflexivity|].
      constructor; [reflexivity|]. constructor; [reflexivity|constructor]. }
    assert (Hd : Utils.heap_distinct meta_heap).
    { constructor; [exact I|]. constructor; [|constructor].
      apply (bool_decide_unpack _). vm_compute. exact I. }
    split; [exact Hd|]. split; [reflexivity|].
    destruct (Utils.sanitizeWebhookPayload_at 5 meta_heap (Utils.VRef 1))
      as [[r h']|] eqn:E; [|discriminate E].
    destruct (H6 5%nat 2%nat meta_heap (Utils.VRef 1) r h' Hd eq_refl E) as [f1 H].
    exists r, h', f1. split; [reflexivity|exact H].
Defined.

(** C8 as stated fails on the list: the names the claim gives are not the
    substrings the code looks for.  [access_key] matches none of the names
    of the claim, and its value is replaced; [private_key] and [apiKey]
    match them, read as the claim's own example reads [api_key], and their
    values are kept, the code having only [private-key] with a hyphen and
    [api_key] with an underscore. *)
Lemma C8_counterexample :
  spec_is_sensitive "access_key" = false /\
  Utils.sanitizeWebhookPayload (Utils.JObj [("access_key", Utils.JStr "x")]%string) =
    Utils.JObj [("access_key", Utils.JStr "[REDACTED]")]%string /\
  spec_is_sensitive "private_key" = true /\
  spec_is_sensitive "apiKey" = true /\
  Utils.sanitizeWebhookPayload
    (Utils.JObj [("private_key", Utils.JStr "x"); ("apiKey", Utils.JStr "y")]%string) =
    Utils.JObj [("private_key", Utils.JStr "x"); ("apiKey", Utils.JStr "y")]%string.
Proof.
  repeat split.
Qed.

(** C9, as the code has it: [S3Uploader.upload] wraps [performUpload] in
    [createRetryWrapper(..., 3, 2000)], so one delivery attempt of the queue
    calls [performUpload] at most 4 times: once when the first call
    resolves, 4 times when every call is rejected, and not at all when the
    uploader is not initialised, the file is missing or no bucket is set.
    In every state the manager can reach, a queued upload has had at most
    [4 * attempts] such calls, and one that was delivered or given up at
    most [4 * maxAttempts]. *)
Theorem C9_upload_tries_bounded :
  (forall e, (snd (S3Uploader.upload e) <= 4)%nat) /\
  (forall e b,
      S3Uploader.isAvailable e = true -> S3Uploader.file_exists e = true ->
      S3Uploader.getBucket e = Some b ->
      (S3Uploader.performUpload e 0 = true ->
         S3Uploader.upload e = (Some (S3Uploader.s3Key e), 1%nat)) /\
      ((forall n, S3Uploader.performUpload e n = false) ->
         S3Uploader.upload e = (None, 4%nat))) /\
  (forall e,
      S3Uploader.isAvailable e = false \/ S3Uploader.file_exists e = false \/
      S3Uploader.getBucket e = None ->
      S3Uploader.upload e = (None, 0%nat)) /\
  (forall (C : Type) (s : R.state C),
      R.reachable s ->
      Forall (fun u => Z.of_nat (R.tries u) <= 4 * R.attempts u) (R.uploadQueue s) /\
      Forall (fun u => Z.of_nat (R.tries u) <= 4 * R.maxAttempts u)
             (concat (map R.settled (R.log s)))).
Proof.
  split; [apply S3Facts.upload_calls_le|]. split; [|split].
  - intros e b Ha Hf Hb. split; intros Hp.
    + by eapply S3Facts.upload_resolves_at_once.
    + by eapply S3Facts.upload_always_rejected.
  - intros e H. unfold S3Uploader.upload.
    destruct (S3Uploader.isAvailable e); simpl; [|done].
    destruct (S3Uploader.file_exists e); simpl; [|done].
    destruct (S3Uploader.getBucket e); [|done].
    destruct H as [H|[H|H]]; discriminate H.
  - intros C s Hs. apply UploadFacts.up_wf_reachable in Hs. split.
    + pose proof (R.wf_attempts _ Hs) as H. apply Forall_app in H as [H _].
      eapply Forall_impl; [exact H|]. by intros u [_ Hu].
    + apply (R.wf_settled _ Hs).
Qed.

Lemma C9_witness :
  exists s : R.state unit,
    R.exec given_up R.init = Some s /\ R.reachable s /\
    (S3Uploader.isAvailable rejecting = true /\ S3Uploader.file_exists rejecting = true /\
     S3Uploader.getBucket rejecting = Some "recordings"%string /\
     (forall n, S3Uploader.performUpload rejecting n = false) /\
     S3Uploader.upload rejecting = (None, 4%nat)) /\
    Forall (fun u => Z.of_nat (R.tries u) <= 4 * R.maxAttempts u)
           (concat (map R.settled (R.log s))).
Proof.
  destruct C9_upload_tries_bounded as (_ & Hu & _ & Hq).
  destruct (R.exec given_up R.init) as [s|] eqn:Es; [|discriminate Es].
  assert (Hs : R.reachable s) by (by exists given_up).
  exists s. split; [reflexivity|]. split; [exact Hs|]. split.
  - split; [reflexivity|]. split; [reflexivity|]. split; [reflexivity|].
    split; [reflexivity|].
    apply (proj2 (Hu rejecting "recordings"%string eq_refl eq_refl eq_refl)).
    reflexivity.
  - apply (proj2 (Hq unit s Hs)).
Defined.

(** C9 as stated fails: one delivery attempt of the queue against a service
    that rejects every upload calls [performUpload] 4 times, not once; and
    when the upload is given up, after 3 attempts of the queue, it has been
    called 12 times although [maxAttempts] is 3. *)
Lemma C9_counterexample :
  S3Uploader.upload rejecting = (None, 4%nat) /\
  exists (s : R.state unit) (u : R.upload unit),
    R.exec given_up R.init = Some s /\
    last (R.log s) = Some (R.MaxReached u) /\
    R.uploads s = 3%nat /\ R.maxAttempts u = 3 /\ R.tries u = 12%nat /\
    ~ (Z.of_nat (R.tries u) <= R.maxAttempts u).
Proof.
  split; [reflexivity|]. eexists _, _. vm_compute. repeat split. congruence.
Qed.

(** C10: a call of [sanitizeWebhookPayload] that returns leaves every object
    that existed before the call as it was, so its argument denotes the same
    JSON value after the call as before; for an object or an array it returns
    the address of a new object, and for any other value (null, undefined, a
    boolean, a number, a string) it returns that value and touches nothing.
    It does return, given enough fuel, whenever [JSON.stringify] does not
    throw on the argument.  The same holds of [sendSessionStarted], which
    queues a payload built from the redacted copy: the objects of the
    connection, the token metadata among them, are as they were. *)
Theorem C10_sanitize_leaves_its_argument :
  (forall (fuel : nat) (h : Utils.heap) (data r : Utils.val) (h' : Utils.heap),
      Utils.sanitizeWebhookPayload_at fuel h data = Some (r, h') ->
      (forall l o, h !! l = Some o -> h' !! l = Some o) /\
      (forall f j, Utils.stringify f h data = Some j -> Utils.stringify f h' data = Some j) /\
      (forall l, data = Utils.VRef l ->
         exists l', r = Utils.VRef l' /\ (length h <= l')%nat)) /\
  (forall (fuel : nat) (h : Utils.heap) (data : Utils.val),
      (forall l, data <> Utils.VRef l) ->
      Utils.sanitizeWebhookPayload_at fuel h data = Some (data, h)) /\
  (forall (f0 : nat) (h : Utils.heap) (data : Utils.val) (j : Utils.json),
      Utils.stringify f0 h data = Some j ->
      exists fuel0, forall fuel, (fuel0 <= fuel)%nat ->
        exists r h', Utils.sanitizeWebhookPayload_at fuel h data = Some (r, h')) /\
  (forall fuel enabled timestamp sessionId meta t0 t1 h s h' s',
      W.sendSessionStarted fuel enabled timestamp sessionId meta t0 t1 h s = Some (h', s') ->
      (forall l o, h !! l = Some o -> h' !! l = Some o) /\
      (forall f j, Utils.stringify f h meta = Some j -> Utils.stringify f h' meta = Some j)).
Proof.
  split; [|split; [|split]].
  - intros fuel h data r h' Hrun.
    destruct (HeapFacts.sanitize_at_frame _ _ _ _ _ Hrun) as (_ & Hf & Hr).
    split; [exact Hf|]. split; [|exact Hr].
    intros f j. by apply HeapFacts.stringify_frame.
  - intros fuel h data H. by apply HeapFacts.sanitize_at_primitive.
  - intros f0 h data j Hj. by eapply HeapFacts.sanitize_at_total.
  - intros fuel enabled timestamp sessionId meta t0 t1 h s h' s' Hrun.
    pose proof (HeapFacts.sendSessionStarted_frame _ _ _ _ _ _ _ _ _ _ _ Hrun) as Hf.
    split; [exact Hf|]. intros f j. by apply HeapFacts.stringify_frame.
Qed.

Lemma C10_witness :
  exists (r : Utils.val) (h' : Utils.heap) (h'' : Utils.heap) (s' : W.state Utils.val),
    Utils.sanitizeWebhookPayload_at 5 meta_heap (Utils.VRef 1) = Some (r, h') /\
    r = Utils.VRef 3 /\
    h' !! 3%nat = Some (Utils.OObj [("userId", Utils.VStr "u1");
                                   ("api_key", Utils.VStr "[REDACTED]");
                                   ("tags", Utils.VRef 2)]%string) /\
    h' !! 1%nat = meta_heap !! 1%nat /\
    (forall l, Utils.VNum 7 <> Utils.VRef l) /\
    Utils.sanitizeWebhookPayload_at 0 meta_heap (Utils.VNum 7) =
      Some (Utils.VNum 7, meta_heap) /\
    W.sendSessionStarted 5 true "2024-01-01T00:00:00.000Z" (Utils.VStr "s1") (Utils.VRef 1)
      0 0 meta_heap W.init = Some (h'', s') /\
    h'' !! 1%nat = meta_heap !! 1%nat.
Proof.
  destruct C10_sanitize_leaves_its_argument as (Hframe & Hprim & _ & Hsend).
  destruct (Utils.sanitizeWebhookPayload_at 5 meta_heap (Utils.VRef 1))
    as [[r h']|] eqn:E; [|discriminate E].
  destruct (W.sendSessionStarted 5 true "2024-01-01T00:00:00.000Z" (Utils.VStr "s1")
              (Utils.VRef 1) 0 0 meta_heap W.init) as [[h'' s']|] eqn:E'; [|discriminate E'].
  assert (Hnum : forall l, Utils.VNum 7 <> Utils.VRef l) by (intros l; discriminate).
  exists r, h', h'', s'. split; [reflexivity|].
  split; [vm_compute in E; injection E as <- _; reflexivity|].
  split; [vm_compute in E; injection E as _ <-; reflexivity|].
  split; [apply (proj1 (Hframe 5%nat meta_heap (Utils.VRef 1) r h' E)); reflexivity|].
  split; [exact Hnum|].
  split; [apply (Hprim 0%nat meta_heap (Utils.VNum 7) Hnum)|].
  split; [reflexivity|].
  apply (proj1 (Hsend _ _ _ _ _ _ _ _ _ _ _ E')). reflexivity.
Defined.

(** * Further properties of the code *)

Module WebhookLedger.
Import WebhookManager WebhookFacts.
Section Facts.
Context {Payload : Type}.
Implicit Types (s : state Payload) (w : webhook Payload) (k : pc Payload).
Implicit Types (lg : list (action Payload)) (p : Payload) (q fl : list (webhook Payload)).

Lemma sent_ids_app lg lg' : sent_ids (lg ++ lg') = sent_ids lg ++ sent_ids lg'.
Proof. unfold sent_ids. by rewrite map_app, concat_app. Qed.

Lemma delivered_ids_app lg lg' :
  delivered_ids (lg ++ lg') = delivered_ids lg ++ delivered_ids lg'.
Proof. unfold delivered_ids. by rewrite map_app, concat_app. Qed.

Lemma dropped_ids_app lg lg' :
  dropped_ids (lg ++ lg') = dropped_ids lg ++ dropped_ids lg'.
Proof. unfold dropped_ids. by rewrite map_app, concat_app. Qed.

Lemma sent_of_app i lg lg' : sent_of i (lg ++ lg') = (sent_of i lg + sent_of i lg')%nat.
Proof. unfold sent_of. by rewrite sent_ids_app, count_occ_app. Qed.

Lemma sent_of_fresh i lg f :
  Forall (fun j => (j < f)%nat) (sent_ids lg) -> (f <= i)%nat -> sent_of i lg = 0%nat.
Proof.
  intros H Hi. unfold sent_of. apply count_occ_not_In. intros Hin.
  rewrite Forall_forall in H. apply list_elem_of_In, H in Hin. lia.
Qed.

Lemma ledger_init : ledger (Payload := Payload) [] [] [] 0.
Proof. split; simpl; try constructor. Qed.

Lemma sent_of_send i w : sent_of i [SendWebhook w] = if decide (wid w = i) then 1%nat else 0%nat.
Proof.
  unfold sent_of. simpl. destruct (Nat.eq_dec (wid w) i), (decide (wid w = i)); done.
Qed.

Lemma ledger_nodup q fl lg f :
  ledger q fl lg f -> NoDup (map wid (q ++ fl) ++ delivered_ids lg ++ dropped_ids lg).
Proof. intros H. rewrite (led_all _ _ _ _ H). apply NoDup_seq. Qed.

Lemma ledger_lt q fl lg f i :
  ledger q fl lg f -> i ∈ map wid (q ++ fl) ++ delivered_ids lg ++ dropped_ids lg ->
  (i < f)%nat.
Proof.
  intros H Hi. rewrite (led_all _ _ _ _ H) in Hi. apply elem_of_seq in Hi. lia.
Qed.

(** A webhook is queued. *)
Lemma ledger_queue q fl lg f p t :
  ledger q fl lg f ->
  ledger (q ++ [{| wid := f; payload := p; attempts := 0; maxAttempts := 3;
                   nextRetry := t |}]) fl lg (S f).
Proof.
  intros H. destruct H as [Hq Hf Hd Hx Hall Hs]. split; try done.
  - apply Forall_app. split; [done|]. constructor; [|constructor]. simpl.
    rewrite (sent_of_fresh f lg f); [lia|done|lia].
  - rewrite seq_S. simpl. rewrite <- Hall. rewrite !map_app. simpl.
    solve_Permutation.
  - eapply Forall_impl; [done|]. simpl. lia.
Qed.

(** The webhook at the head is sent. *)
Lemma ledger_send w q lg f :
  ledger (w :: q) [] lg f -> ledger q [w] (lg ++ [SendWebhook w]) f.
Proof.
  intros H. pose proof (ledger_nodup _ _ _ _ H) as Hn.
  pose proof (ledger_lt _ _ _ _ (wid w) H) as Hlt.
  destruct H as [Hq Hf Hd Hx Hall Hs].
  rewrite app_nil_r in Hn. simpl in Hn. apply NoDup_cons in Hn as [Hw Hn].
  rewrite !elem_of_app in Hw.
  apply Forall_cons in Hq as [(Hc & Hm & Ha) Hq].
  assert (Hother : forall i, i <> wid w -> sent_of i (lg ++ [SendWebhook w]) = sent_of i lg).
  { intros i Hi. rewrite sent_of_app, sent_of_send. destruct (decide _); [done|lia]. }
  split.
  - rewrite Forall_forall in Hq |- *. intros w' Hw'. rewrite Hother; [by apply Hq|].
    intros E. apply Hw. left. rewrite <- E. by apply list_elem_of_fmap_2.
  - constructor; [|constructor]. rewrite sent_of_app, sent_of_send.
    destruct (decide _); [|done]. lia.
  - rewrite delivered_ids_app. simpl. rewrite app_nil_r.
    rewrite Forall_forall in Hd |- *. intros i Hi. rewrite Hother; [by apply Hd|].
    intros ->. tauto.
  - rewrite dropped_ids_app. simpl. rewrite app_nil_r.
    rewrite Forall_forall in Hx |- *. intros i Hi. rewrite Hother; [by apply Hx|].
    intros ->. tauto.
  - rewrite delivered_ids_app, dropped_ids_app. simpl. rewrite !app_nil_r.
    rewrite <- Hall, app_nil_r, map_app. simpl. solve_Permutation.
  - rewrite sent_ids_app. apply Forall_app. split; [done|].
    constructor; [|constructor]. apply Hlt. simpl. left.
Qed.

(** The delivery resolved. *)
Lemma ledger_ok w q lg f :
  ledger q [w] lg f -> ledger q [] (lg ++ [SentOk w]) f.
Proof.
  intros H. destruct H as [Hq Hf Hd Hx Hall Hs].
  apply Forall_cons in Hf as [(Hc & Hm & Ha) _].
  assert (Hsame : forall i, sent_of i (lg ++ [SentOk w]) = sent_of i lg).
  { intros i. rewrite sent_of_app. unfold sent_of at 2. simpl. lia. }
  split.
  - eapply Forall_impl; [done|]. simpl. intros w'. by rewrite Hsame.
  - constructor.
  - rewrite delivered_ids_app. simpl. apply Forall_app. split.
    + eapply Forall_impl; [done|]. simpl. intros i. by rewrite Hsame.
    + constructor; [|constructor]. rewrite Hsame. lia.
  - rewrite dropped_ids_app. simpl. rewrite app_nil_r.
    eapply Forall_impl; [done|]. simpl. intros i. by rewrite Hsame.
  - rewrite delivered_ids_app, dropped_ids_app. simpl. rewrite !app_nil_r.
    rewrite <- Hall, !map_app. simpl. solve_Permutation.
  - rewrite sent_ids_app. simpl. by rewrite app_nil_r.
Qed.

(** The delivery was rejected. *)
Lemma ledger_rejected now w q lg f :
  ledger q [w] lg f ->
  let s := on_rejected now w {| queue := q; processing := true; loops := [AwaitSend w];
                                fresh := f; log := lg |} in
  ledger (queue s) [] (log s) (fresh s).
Proof.
  intros H. destruct H as [Hq Hf Hd Hx Hall Hs].
  apply Forall_cons in Hf as [(Hc & Hm & Ha) _].
  unfold on_rejected. rewrite Hm.
  assert (Hsame : forall i l (a : action Payload), sent_ids [a] = [] ->
            sent_of i (l ++ [a]) = sent_of i l).
  { intros i l a E. rewrite sent_of_app. unfold sent_of at 2. rewrite E. simpl. lia. }
  destruct (attempts w + 1 <? 3) eqn:E; simpl.
  - split.
    + apply Forall_app. split.
      * eapply Forall_impl; [done|]. simpl. intros w'. by rewrite Hsame.
      * constructor; [|constructor]. rewrite Hsame by done. simpl.
        apply Z.ltb_lt in E. lia.
    + constructor.
    + rewrite delivered_ids_app. simpl. rewrite app_nil_r.
      eapply Forall_impl; [done|]. simpl. intros i. by rewrite Hsame.
    + rewrite dropped_ids_app. simpl. rewrite app_nil_r.
      eapply Forall_impl; [done|]. simpl. intros i. by rewrite Hsame.
    + rewrite delivered_ids_app, dropped_ids_app. simpl. rewrite !app_nil_r.
      rewrite <- Hall, !map_app. done.
    + rewrite sent_ids_app. simpl. by rewrite app_nil_r.
  - assert (Hsame2 : forall i m, sent_of i ((lg ++ [SendFailed w]) ++ [MaxReached m]) = sent_of i lg).
    { intros i m. rewrite !Hsame; done. }
    split.
    + eapply Forall_impl; [done|]. simpl. intros w'. by rewrite Hsame2.
    + constructor.
    + rewrite !delivered_ids_app. simpl. rewrite !app_nil_r.
      eapply Forall_impl; [done|]. simpl. intros i. by rewrite Hsame2.
    + rewrite !dropped_ids_app. simpl. rewrite !app_nil_r. apply Forall_app. split.
      * eapply Forall_impl; [done|]. simpl. intros i. by rewrite Hsame2.
      * constructor; [|constructor]. rewrite Hsame2. simpl. apply Z.ltb_ge in E. lia.
    + rewrite !delivered_ids_app, !dropped_ids_app. simpl. rewrite !app_nil_r.
      rewrite <- Hall, !map_app. simpl. solve_Permutation.
    + rewrite !sent_ids_app. simpl. by rewrite !app_nil_r.
Qed.

Lemma loop_head_fields t s :
  loops (loop_head t s).1 = loops s /\ fresh (loop_head t s).1 = fresh s /\
  processing (loop_head t s).1 = match (loop_head t s).2 with Some _ => processing s | None => false end.
Proof.
  unfold loop_head. destruct (queue s) as [|w q]; [done|].
  by destruct (nextRetry w >? t).
Qed.

Lemma ledger_loop_head t s :
  ledger (queue s) [] (log s) (fresh s) ->
  ledger (queue (loop_head t s).1) (from_option in_flight [] (loop_head t s).2)
         (log (loop_head t s).1) (fresh (loop_head t s).1).
Proof.
  intros H. unfold loop_head. destruct s as [q p l f lg]; simpl in *.
  destruct q as [|w q]; simpl; [done|].
  destruct (nextRetry w >? t); simpl; [done|]. by apply ledger_send.
Qed.

Lemma resume_fields i (r : state Payload * option (pc Payload)) :
  queue (resume i r) = queue r.1 /\ log (resume i r) = log r.1 /\
  fresh (resume i r) = fresh r.1 /\ processing (resume i r) = processing r.1.
Proof. by destruct r as [s [k|]]. Qed.

Lemma spawn_fields (r : state Payload * option (pc Payload)) :
  queue (spawn r) = queue r.1 /\ log (spawn r) = log r.1 /\
  fresh (spawn r) = fresh r.1 /\ processing (spawn r) = processing r.1.
Proof. by destruct r as [s [k|]]. Qed.

Lemma resume_flights (r : state Payload * option (pc Payload)) k0 :
  loops r.1 = [k0] -> flights (resume 0 r) = from_option in_flight [] r.2.
Proof.
  destruct r as [s [k|]]; unfold flights; simpl; intros ->; simpl; [|done].
  by rewrite app_nil_r.
Qed.

Lemma spawn_flights (r : state Payload * option (pc Payload)) :
  loops r.1 = [] -> flights (spawn r) = from_option in_flight [] r.2.
Proof.
  destruct r as [s [k|]]; unfold flights; simpl; intros ->; simpl; [|done].
  by rewrite app_nil_r.
Qed.

(** The loop goes on from a state in which nothing is in flight. *)
Lemma books_resume t s k0 :
  loops s = [k0] -> ledger (queue s) [] (log s) (fresh s) ->
  books (resume 0 (loop_head t s)).
Proof.
  intros Hl H. unfold books.
  destruct (resume_fields 0 (loop_head t s)) as (-> & -> & -> & _).
  rewrite (resume_flights _ k0); [by apply ledger_loop_head|].
  by rewrite (proj1 (loop_head_fields t s)).
Qed.

Lemma books_spawn t s :
  loops s = [] -> ledger (queue s) [] (log s) (fresh s) ->
  books (spawn (loop_head t s)).
Proof.
  intros Hl H. unfold books.
  destruct (spawn_fields (loop_head t s)) as (-> & -> & -> & _).
  rewrite spawn_flights; [by apply ledger_loop_head|].
  by rewrite (proj1 (loop_head_fields t s)).
Qed.

Lemma books_step s e s' : wf s -> books s -> step e s = Some s' -> books s'.
Proof.
  intros Hwf H He. unfold books in H.
  destruct e as [p t0 t1|t|i t|i t|i t0 t1]; simpl in He.
  - injection He as <-. unfold queueWebhook, processQueue.
    cbn [processing queue set_fresh set_queue].
    destruct (processing s) eqn:Hp; cbn [orb].
    + unfold books; simpl. by apply ledger_queue.
    + rewrite length_app. simpl. replace (_ =? 0)%nat with false
        by (symmetry; apply Nat.eqb_neq; lia).
      assert (Hl : loops s = []).
      { destruct (loops s) eqn:E; [done|]. destruct (wf_flag _ Hwf) as [_ H2].
        rewrite H2 in Hp; [done|]. by rewrite E. }
      apply books_spawn; simpl; [done|].
      unfold flights in H. rewrite Hl in H. simpl in H. by apply ledger_queue.
  - injection He as <-. unfold processQueue.
    destruct (processing s) eqn:Hp; simpl; [done|].
    rewrite (wf_idle _ Hwf Hp). done.
  - destruct (loops s !! i) as [[|w]|] eqn:Hi; try done. injection He as <-.
    destruct (wh_wf_lookup _ _ _ Hwf Hi) as [-> Hl].
    apply (books_resume _ _ AwaitSleep); [done|].
    unfold flights in H. rewrite Hl in H. done.
  - destruct (loops s !! i) as [[|w]|] eqn:Hi; try done. injection He as <-.
    destruct (wh_wf_lookup _ _ _ Hwf Hi) as [-> Hl].
    apply (books_resume _ _ (AwaitSend w)); [done|].
    unfold flights in H. rewrite Hl in H. simpl in *. by apply ledger_ok.
  - destruct (loops s !! i) as [[|w]|] eqn:Hi; try done. injection He as <-.
    destruct (wh_wf_lookup _ _ _ Hwf Hi) as [-> Hl].
    assert (Hl' : loops (on_rejected t0 w s) = [AwaitSend w]).
    { unfold on_rejected. by destruct (_ <? _). }
    apply (books_resume _ _ (AwaitSend w)); [done|].
    unfold flights in H. rewrite Hl in H. simpl in H.
    pose proof (ledger_rejected t0 w _ _ _ H) as Hr. simpl in Hr.
    unfold on_rejected in *. destruct (_ <? _); simpl in *; done.
Qed.

Lemma books_reachable s : reachable s -> books s.
Proof.
  intros [es He].
  assert (Hgen : forall es s0 s1, wf s0 -> books s0 -> exec es s0 = Some s1 -> books s1).
  { clear. induction es as [|e es IH]; simpl; intros s0 s1 Hw Hb Hrun.
    - by injection Hrun as <-.
    - destruct (step e s0) as [s2|] eqn:E; [|done].
      eapply (IH s2); [by eapply wh_wf_step|by eapply books_step|done]. }
  eapply Hgen; [apply wh_wf_init| |done]. apply ledger_init.
Qed.

(** *** The loop sleeps in front of a webhook *)

Lemma sleeps_loop_head_resume t s k0 :
  loops s = [k0] -> sleeps_on_head (resume 0 (loop_head t s)).
Proof.
  intros Hl. unfold sleeps_on_head, loop_head.
  destruct s as [q p l f lg]; simpl in *; subst l.
  destruct q as [|w q]; simpl; [by intros ?%elem_of_nil|].
  destruct (nextRetry w >? t); simpl; [done|].
  intros [?|?%elem_of_nil]%elem_of_cons; done.
Qed.

Lemma sleeps_loop_head_spawn t s :
  loops s = [] -> sleeps_on_head (spawn (loop_head t s)).
Proof.
  intros Hl. unfold sleeps_on_head, loop_head.
  destruct s as [q p l f lg]; simpl in *; subst l.
  destruct q as [|w q]; simpl; [by intros ?%elem_of_nil|].
  destruct (nextRetry w >? t); simpl; [done|].
  intros [?|?%elem_of_nil]%elem_of_cons; done.
Qed.

Lemma sleeps_step s e s' : wf s -> sleeps_on_head s -> step e s = Some s' -> sleeps_on_head s'.
Proof.
  intros Hwf H He.
  destruct e as [p t0 t1|t|i t|i t|i t0 t1]; simpl in He.
  - injection He as <-. unfold queueWebhook, processQueue.
    cbn [processing queue set_fresh set_queue].
    destruct (processing s) eqn:Hp; cbn [orb].
    + intros _. simpl. by destruct (queue s).
    + rewrite length_app. simpl. replace (_ =? 0)%nat with false
        by (symmetry; apply Nat.eqb_neq; lia).
      apply sleeps_loop_head_spawn. simpl.
      destruct (loops s) eqn:E; [done|]. destruct (wf_flag _ Hwf) as [_ H2].
      rewrite H2 in Hp; [done|]. by rewrite E.
  - injection He as <-. unfold processQueue.
    destruct (processing s) eqn:Hp; simpl; [done|].
    rewrite (wf_idle _ Hwf Hp). done.
  - destruct (loops s !! i) as [[|w]|] eqn:Hi; try done. injection He as <-.
    destruct (wh_wf_lookup _ _ _ Hwf Hi) as [-> Hl].
    by apply (sleeps_loop_head_resume _ _ AwaitSleep).
  - destruct (loops s !! i) as [[|w]|] eqn:Hi; try done. injection He as <-.
    destruct (wh_wf_lookup _ _ _ Hwf Hi) as [-> Hl].
    by apply (sleeps_loop_head_resume _ _ (AwaitSend w)).
  - destruct (loops s !! i) as [[|w]|] eqn:Hi; try done. injection He as <-.
    destruct (wh_wf_lookup _ _ _ Hwf Hi) as [-> Hl].
    apply (sleeps_loop_head_resume _ _ (AwaitSend w)).
    unfold on_rejected. by destruct (_ <? _).
Qed.

Lemma sleeps_reachable s : reachable s -> sleeps_on_head s.
Proof.
  intros [es He].
  assert (Hgen : forall es s0 s1, wf s0 -> sleeps_on_head s0 -> exec es s0 = Some s1 ->
                                  sleeps_on_head s1).
  { clear. induction es as [|e es IH]; simpl; intros s0 s1 Hw Hb Hrun.
    - by injection Hrun as <-.
    - destruct (step e s0) as [s2|] eqn:E; [|done].
      eapply (IH s2); [by eapply wh_wf_step|by eapply sleeps_step|done]. }
  eapply Hgen; [apply wh_wf_init| |done]. by intros ?%elem_of_nil.
Qed.

(** The manager holds nothing exactly when it reports an empty queue and no
    loop. *)
Lemma status_idle s :
  wf s -> sleeps_on_head s -> (getQueueStatus s = (0%nat, false) <-> ids s = []).
Proof.
  intros Hwf Hs. unfold getQueueStatus, ids, flights. split.
  - intros [= Hq Hp]. destruct (queue s); [|done]. simpl.
    destruct (loops s) eqn:E; [done|]. destruct (wf_flag _ Hwf) as [_ H2].
    rewrite H2 in Hp; [done|]. by rewrite E.
  - intros H. apply fmap_nil_inv, app_eq_nil in H as [Hq Hf]. rewrite Hq. simpl.
    f_equal. destruct (processing s) eqn:Hp; [|done].
    apply (wf_flag _ Hwf) in Hp. pose proof (wf_loops _ Hwf) as Hlen.
    destruct (loops s) as [|[|w] [|k l]] eqn:E; simpl in *; try done; try lia.
    exfalso. apply Hs; [rewrite E; left|done].
Qed.

(** *** First in, first out *)

Lemma fifo_loop_head t s : fifo s -> fifo (loop_head t s).1.
Proof.
  unfold fifo, loop_head. destruct s as [q p l f lg]; simpl.
  destruct q as [|w q]; simpl; [done|].
  destruct (nextRetry w >? t); simpl; [done|].
  intros H. by rewrite sent_ids_app, <- app_assoc.
Qed.

Lemma fifo_resume i (r : state Payload * option (pc Payload)) :
  fifo r.1 -> fifo (resume i r).
Proof. unfold fifo. by destruct (resume_fields i r) as (-> & -> & -> & _). Qed.

Lemma fifo_spawn (r : state Payload * option (pc Payload)) :
  fifo r.1 -> fifo (spawn r).
Proof. unfold fifo. by destruct (spawn_fields r) as (-> & -> & -> & _). Qed.

Lemma fifo_step s e s' : no_rejection e = true -> fifo s -> step e s = Some s' -> fifo s'.
Proof.
  intros Hno H He.
  destruct e as [p t0 t1|t|i t|i t|i t0 t1]; simpl in He; [| | | |done].
  - injection He as <-. unfold queueWebhook, processQueue.
    set (s1 := set_fresh _ _).
    assert (H1 : fifo s1).
    { unfold fifo, s1. cbn -[seq]. rewrite map_app, app_assoc, H, seq_S. done. }
    destruct (_ || _); [done|]. apply fifo_spawn, fifo_loop_head. done.
  - injection He as <-. unfold processQueue.
    destruct (_ || _); [done|]. apply fifo_spawn, fifo_loop_head. done.
  - destruct (loops s !! i) as [[|w]|]; try done. injection He as <-.
    by apply fifo_resume, fifo_loop_head.
  - destruct (loops s !! i) as [[|w]|]; try done. injection He as <-.
    apply fifo_resume, fifo_loop_head. unfold fifo, on_resolved. simpl.
    rewrite sent_ids_app. simpl. by rewrite app_nil_r.
Qed.

Lemma fifo_exec es : forall s s',
  forallb no_rejection es = true -> fifo s -> exec es s = Some s' -> fifo s'.
Proof.
  induction es as [|e es IH]; simpl; intros s s' Hno H Hrun.
  - by injection Hrun as <-.
  - apply andb_prop in Hno as [He Hes].
    destruct (step e s) as [s1|] eqn:E; [|done].
    eapply (IH s1); [done|by eapply fifo_step|done].
Qed.

(** *** Identities are given in order *)

Lemma fresh_step s e s' :
  step e s = Some s' -> fresh s' = (fresh s + if is_queue e then 1 else 0)%nat.
Proof.
  intros He.
  assert (Hpq : forall t s0, fresh (processQueue t s0) = fresh s0).
  { intros t s0. unfold processQueue. destruct (_ || _); [done|].
    destruct (spawn_fields (loop_head t (set_processing true s0))) as (_ & _ & -> & _).
    by rewrite (proj1 (proj2 (loop_head_fields _ _))). }
  destruct e as [p t0 t1|t|i t|i t|i t0 t1]; simpl in He.
  - injection He as <-. unfold queueWebhook. rewrite Hpq. simpl. lia.
  - injection He as <-. rewrite Hpq. simpl. lia.
  - destruct (loops s !! i) as [[|w]|]; try done. injection He as <-.
    destruct (resume_fields i (loop_head t s)) as (_ & _ & -> & _).
    rewrite (proj1 (proj2 (loop_head_fields _ _))). simpl. lia.
  - destruct (loops s !! i) as [[|w]|]; try done. injection He as <-.
    destruct (resume_fields i (loop_head t (on_resolved w s))) as (_ & _ & -> & _).
    rewrite (proj1 (proj2 (loop_head_fields _ _))). simpl. lia.
  - destruct (loops s !! i) as [[|w]|]; try done. injection He as <-.
    destruct (resume_fields i (loop_head t1 (on_rejected t0 w s))) as (_ & _ & -> & _).
    rewrite (proj1 (proj2 (loop_head_fields _ _))). unfold on_rejected.
    destruct (_ <? _); simpl; lia.
Qed.

Lemma fresh_exec es : forall s s',
  exec es s = Some s' -> fresh s' = (fresh s + queued es)%nat.
Proof.
  induction es as [|e es IH]; simpl; intros s s' Hrun.
  - injection Hrun as <-. unfold queued. simpl. lia.
  - destruct (step e s) as [s1|] eqn:E; [|done].
    rewrite (IH _ _ Hrun), (fresh_step _ _ _ E). unfold queued. simpl.
    destruct (is_queue e); simpl; lia.
Qed.

End Facts.
End WebhookLedger.

Module UploadLedger.
Import RecordingManager UploadFacts.
Section Facts.
Context {Conn : Type}.
Implicit Types (s : state Conn) (u : upload Conn) (k : pc Conn).
Implicit Types (lg : list (action Conn)) (q fl : list (upload Conn)).

Lemma called_ids_app lg lg' : called_ids (lg ++ lg') = called_ids lg ++ called_ids lg'.
Proof. unfold called_ids. by rewrite map_app, concat_app. Qed.

Lemma uploaded_ids_app lg lg' :
  uploaded_ids (lg ++ lg') = uploaded_ids lg ++ uploaded_ids lg'.
Proof. unfold uploaded_ids. by rewrite map_app, concat_app. Qed.

Lemma up_dropped_ids_app lg lg' :
  dropped_ids (lg ++ lg') = dropped_ids lg ++ dropped_ids lg'.
Proof. unfold dropped_ids. by rewrite map_app, concat_app. Qed.

Lemma called_of_app i lg lg' :
  called_of i (lg ++ lg') = (called_of i lg + called_of i lg')%nat.
Proof. unfold called_of. by rewrite called_ids_app, count_occ_app. Qed.

Lemma called_of_fresh i lg f :
  Forall (fun j => (j < f)%nat) (called_ids lg) -> (f <= i)%nat -> called_of i lg = 0%nat.
Proof.
  intros H Hi. unfold called_of. apply count_occ_not_In. intros Hin.
  rewrite Forall_forall in H. apply list_elem_of_In, H in Hin. lia.
Qed.

Lemma called_of_same i l (a : action Conn) :
  called_ids [a] = [] -> called_of i (l ++ [a]) = called_of i l.
Proof. intros E. rewrite called_of_app. unfold called_of at 2. rewrite E. simpl. lia. Qed.

Lemma called_of_call i u :
  called_of i [UploadRecording u] = if decide (uid u = i) then 1%nat else 0%nat.
Proof.
  unfold called_of. simpl. destruct (Nat.eq_dec (uid u) i), (decide (uid u = i)); done.
Qed.

Lemma up_ledger_init : ledger (Conn := Conn) [] [] [] 0.
Proof. split; simpl; try constructor. Qed.

Lemma up_ledger_nodup q fl lg f :
  ledger q fl lg f -> NoDup (map uid (q ++ fl) ++ uploaded_ids lg ++ dropped_ids lg).
Proof. intros H. rewrite (led_all _ _ _ _ H). apply NoDup_seq. Qed.

Lemma up_ledger_lt q fl lg f i :
  ledger q fl lg f -> i ∈ map uid (q ++ fl) ++ uploaded_ids lg ++ dropped_ids lg ->
  (i < f)%nat.
Proof.
  intros H Hi. rewrite (led_all _ _ _ _ H) in Hi. apply elem_of_seq in Hi. lia.
Qed.

(** An upload is queued. *)
Lemma up_ledger_queue q fl lg f path (c : Conn) sid :
  ledger q fl lg f ->
  ledger (q ++ [{| uid := f; filePath := path; connection := c; sessionId := sid;
                   attempts := 0; maxAttempts := 3; tries := 0%nat |}]) fl lg (S f).
Proof.
  intros H. destruct H as [Hq Hf Hd Hx Hall Hs]. split; try done.
  - apply Forall_app. split; [done|]. constructor; [|constructor]. simpl.
    rewrite (called_of_fresh f lg f); [lia|done|lia].
  - rewrite seq_S. simpl. rewrite <- Hall. rewrite !map_app. simpl.
    solve_Permutation.
  - eapply Forall_impl; [done|]. simpl. lia.
Qed.

(** [uploadRecording] is called for the upload at the head. *)
Lemma up_ledger_call u q lg f :
  ledger (u :: q) [] lg f -> ledger q [u] (lg ++ [UploadRecording u]) f.
Proof.
  intros H. pose proof (up_ledger_nodup _ _ _ _ H) as Hn.
  pose proof (up_ledger_lt _ _ _ _ (uid u) H) as Hlt.
  destruct H as [Hq Hf Hd Hx Hall Hs].
  rewrite app_nil_r in Hn. simpl in Hn. apply NoDup_cons in Hn as [Hw Hn].
  rewrite !elem_of_app in Hw.
  apply Forall_cons in Hq as [(Hc & Hm & Ha) Hq].
  assert (Hother : forall i, i <> uid u ->
            called_of i (lg ++ [UploadRecording u]) = called_of i lg).
  { intros i Hi. rewrite called_of_app, called_of_call. destruct (decide _); [done|lia]. }
  split.
  - rewrite Forall_forall in Hq |- *. intros w' Hw'. rewrite Hother; [by apply Hq|].
    intros E. apply Hw. left. rewrite <- E. by apply list_elem_of_fmap_2.
  - constructor; [|constructor]. rewrite called_of_app, called_of_call.
    destruct (decide _); [|done]. lia.
  - rewrite uploaded_ids_app. simpl. rewrite app_nil_r.
    rewrite Forall_forall in Hd |- *. intros i Hi. rewrite Hother; [by apply Hd|].
    intros ->. tauto.
  - rewrite up_dropped_ids_app. simpl. rewrite app_nil_r.
    rewrite Forall_forall in Hx |- *. intros i Hi. rewrite Hother; [by apply Hx|].
    intros ->. tauto.
  - rewrite uploaded_ids_app, up_dropped_ids_app. simpl. rewrite !app_nil_r.
    rewrite <- Hall, app_nil_r, map_app. simpl. solve_Permutation.
  - rewrite called_ids_app. apply Forall_app. split; [done|].
    constructor; [|constructor]. apply Hlt. simpl. left.
Qed.

(** The upload resolved. *)
Lemma up_ledger_ok n u q lg f :
  ledger q [u] lg f -> ledger q [] (lg ++ [Uploaded (tried n u)]) f.
Proof.
  intros H. destruct H as [Hq Hf Hd Hx Hall Hs].
  apply Forall_cons in Hf as [(Hc & Hm & Ha) _].
  split.
  - eapply Forall_impl; [done|]. simpl. intros w'. by rewrite called_of_same.
  - constructor.
  - rewrite uploaded_ids_app. simpl. apply Forall_app. split.
    + eapply Forall_impl; [done|]. simpl. intros i. by rewrite called_of_same.
    + constructor; [|constructor]. rewrite called_of_same by done. simpl. lia.
  - rewrite up_dropped_ids_app. simpl. rewrite app_nil_r.
    eapply Forall_impl; [done|]. simpl. intros i. by rewrite called_of_same.
  - rewrite uploaded_ids_app, up_dropped_ids_app. simpl. rewrite !app_nil_r.
    rewrite <- Hall, !map_app. simpl. solve_Permutation.
  - rewrite called_ids_app. simpl. by rewrite app_nil_r.
Qed.

(** The upload was rejected and is queued again. *)
Lemma up_ledger_retry n u q lg f :
  ledger q [u] lg f -> attempts u + 1 < 3 ->
  ledger (q ++ [{| uid := uid u; filePath := filePath u; connection := connection u;
                   sessionId := sessionId u; attempts := attempts u + 1;
                   maxAttempts := maxAttempts u; tries := (tries u + n)%nat |}]) []
         (lg ++ [UploadFailed (tried n u)]) f.
Proof.
  intros H E. destruct H as [Hq Hf Hd Hx Hall Hs].
  apply Forall_cons in Hf as [(Hc & Hm & Ha) _].
  split.
  - apply Forall_app. split.
    + eapply Forall_impl; [done|]. simpl. intros w'. by rewrite called_of_same.
    + constructor; [|constructor]. rewrite called_of_same by done. simpl. lia.
  - constructor.
  - rewrite uploaded_ids_app. simpl. rewrite app_nil_r.
    eapply Forall_impl; [done|]. simpl. intros i. by rewrite called_of_same.
  - rewrite up_dropped_ids_app. simpl. rewrite app_nil_r.
    eapply Forall_impl; [done|]. simpl. intros i. by rewrite called_of_same.
  - rewrite uploaded_ids_app, up_dropped_ids_app. simpl. rewrite !app_nil_r.
    rewrite <- Hall, !map_app. done.
  - rewrite called_ids_app. simpl. by rewrite app_nil_r.
Qed.

(** The upload was rejected and is given up. *)
Lemma up_ledger_drop n u q lg f :
  ledger q [u] lg f -> 3 <= attempts u + 1 ->
  ledger q []
    ((lg ++ [UploadFailed (tried n u)]) ++
     [MaxReached {| uid := uid u; filePath := filePath u; connection := connection u;
                    sessionId := sessionId u; attempts := attempts u + 1;
                    maxAttempts := maxAttempts u; tries := (tries u + n)%nat |}]) f.
Proof.
  intros H E. destruct H as [Hq Hf Hd Hx Hall Hs].
  apply Forall_cons in Hf as [(Hc & Hm & Ha) _].
  assert (Hsame2 : forall i m,
    called_of i ((lg ++ [UploadFailed (tried n u)]) ++ [MaxReached m]) = called_of i lg).
  { intros i m. rewrite !called_of_same; done. }
  split.
  - eapply Forall_impl; [done|]. simpl. intros w'. by rewrite Hsame2.
  - constructor.
  - rewrite !uploaded_ids_app. simpl. rewrite !app_nil_r.
    eapply Forall_impl; [done|]. simpl. intros i. by rewrite Hsame2.
  - rewrite !up_dropped_ids_app. simpl. rewrite !app_nil_r. apply Forall_app. split.
    + eapply Forall_impl; [done|]. simpl. intros i. by rewrite Hsame2.
    + constructor; [|constructor]. rewrite Hsame2. simpl. lia.
  - rewrite !uploaded_ids_app, !up_dropped_ids_app. simpl. rewrite !app_nil_r.
    rewrite <- Hall, !map_app. simpl. solve_Permutation.
  - rewrite !called_ids_app. simpl. by rewrite !app_nil_r.
Qed.

Lemma up_loop_head_fields s :
  loops (loop_head s).1 = loops s /\ fresh (loop_head s).1 = fresh s.
Proof. unfold loop_head. by destruct (uploadQueue s) as [|u q]. Qed.

Lemma up_ledger_loop_head s :
  ledger (uploadQueue s) [] (log s) (fresh s) ->
  ledger (uploadQueue (loop_head s).1) (from_option in_flight [] (loop_head s).2)
         (log (loop_head s).1) (fresh (loop_head s).1).
Proof.
  intros H. unfold loop_head. destruct s as [q p l f lg]; simpl in *.
  destruct q as [|u q]; simpl; [done|]. by apply up_ledger_call.
Qed.

Lemma up_resume_fields i (r : state Conn * option (pc Conn)) :
  uploadQueue (resume i r) = uploadQueue r.1 /\ log (resume i r) = log r.1 /\
  fresh (resume i r) = fresh r.1 /\ processing (resume i r) = processing r.1.
Proof. by destruct r as [s [k|]]. Qed.

Lemma up_spawn_fields (r : state Conn * option (pc Conn)) :
  uploadQueue (spawn r) = uploadQueue r.1 /\ log (spawn r) = log r.1 /\
  fresh (spawn r) = fresh r.1 /\ processing (spawn r) = processing r.1.
Proof. by destruct r as [s [k|]]. Qed.

Lemma up_resume_flights (r : state Conn * option (pc Conn)) k0 :
  loops r.1 = [k0] -> flights (resume 0 r) = from_option in_flight [] r.2.
Proof.
  destruct r as [s [k|]]; unfold flights; simpl; intros ->; simpl; [|done].
  by rewrite app_nil_r.
Qed.

Lemma up_spawn_flights (r : state Conn * option (pc Conn)) :
  loops r.1 = [] -> flights (spawn r) = from_option in_flight [] r.2.
Proof.
  destruct r as [s [k|]]; unfold flights; simpl; intros ->; simpl; [|done].
  by rewrite app_nil_r.
Qed.

Lemma up_books_resume (r : state Conn * option (pc Conn)) k0 :
  loops r.1 = [k0] ->
  ledger (uploadQueue r.1) (from_option in_flight [] r.2) (log r.1) (fresh r.1) ->
  books (resume 0 r).
Proof.
  intros Hl H. unfold books.
  destruct (up_resume_fields 0 r) as (-> & -> & -> & _).
  by rewrite (up_resume_flights _ k0).
Qed.

Lemma up_books_spawn (r : state Conn * option (pc Conn)) :
  loops r.1 = [] ->
  ledger (uploadQueue r.1) (from_option in_flight [] r.2) (log r.1) (fresh r.1) ->
  books (spawn r).
Proof.
  intros Hl H. unfold books.
  destruct (up_spawn_fields r) as (-> & -> & -> & _).
  by rewrite up_spawn_flights.
Qed.

Lemma up_books_step s e s' : wf s -> books s -> step e s = Some s' -> books s'.
Proof.
  intros Hwf H He. unfold books in H.
  destruct e as [path c sid| |i|i o]; simpl in He.
  - injection He as <-. unfold queueForUpload, processUploadQueue.
    cbn [processing uploadQueue set_fresh set_queue].
    destruct (processing s) eqn:Hp; cbn [orb].
    + unfold books; simpl. by apply up_ledger_queue.
    + rewrite length_app. simpl. replace (_ =? 0)%nat with false
        by (symmetry; apply Nat.eqb_neq; lia).
      assert (Hl : loops s = []).
      { destruct (loops s) eqn:E; [done|]. destruct (wf_flag _ Hwf) as [_ H2].
        rewrite H2 in Hp; [done|]. by rewrite E. }
      apply up_books_spawn; [by rewrite (proj1 (up_loop_head_fields _))|].
      apply up_ledger_loop_head. simpl.
      unfold flights in H. rewrite Hl in H. simpl in H. by apply up_ledger_queue.
  - injection He as <-. unfold processUploadQueue.
    destruct (processing s) eqn:Hp; simpl; [done|].
    rewrite (wf_idle _ Hwf Hp). done.
  - destruct (loops s !! i) as [[u|ms]|] eqn:Hi; try done. injection He as <-.
    destruct (up_wf_lookup _ _ _ Hwf Hi) as [-> Hl].
    apply (up_books_resume _ (AwaitBackoff ms));
      [by rewrite (proj1 (up_loop_head_fields _))|].
    apply up_ledger_loop_head. unfold flights in H. rewrite Hl in H. done.
  - destruct (loops s !! i) as [[u|ms]|] eqn:Hi; try done.
    destruct (uploadRecording o) as [ok n]. injection He as <-.
    destruct (up_wf_lookup _ _ _ Hwf Hi) as [-> Hl].
    unfold flights in H. rewrite Hl in H. simpl in H.
    pose proof (led_flight _ _ _ _ H) as Hfl.
    apply Forall_cons in Hfl as [(Hc & Hm & Ha) _].
    destruct ok.
    + unfold on_resolved.
      apply (up_books_resume _ (AwaitUpload u));
        [by rewrite (proj1 (up_loop_head_fields _))|].
      apply up_ledger_loop_head. simpl. by apply up_ledger_ok.
    + unfold on_rejected. cbn [attempts maxAttempts tried].
      destruct (attempts u + 1 <? maxAttempts u) eqn:E.
      * apply (up_books_resume _ (AwaitUpload u)); [done|]. simpl.
        apply up_ledger_retry; [done|]. apply Z.ltb_lt in E. lia.
      * apply (up_books_resume _ (AwaitUpload u));
          [by rewrite (proj1 (up_loop_head_fields _))|].
        apply up_ledger_loop_head. simpl.
        apply up_ledger_drop; [done|]. apply Z.ltb_ge in E. lia.
Qed.

Lemma up_books_reachable s : reachable s -> books s.
Proof.
  intros [es He].
  assert (Hgen : forall es s0 s1, wf s0 -> books s0 -> exec es s0 = Some s1 -> books s1).
  { clear. induction es as [|e es IH]; simpl; intros s0 s1 Hw Hb Hrun.
    - by injection Hrun as <-.
    - destruct (step e s0) as [s2|] eqn:E; [|done].
      eapply (IH s2); [by eapply up_wf_step|by eapply up_books_step|done]. }
  eapply Hgen; [apply up_wf_init| |done]. apply up_ledger_init.
Qed.

(** *** The loop backs off in front of the failed upload *)

Lemma backs_loop_head_resume s k0 :
  loops s = [k0] -> backs_off_on_queue (resume 0 (loop_head s)).
Proof.
  intros Hl ms. unfold loop_head.
  destruct s as [q p l f lg]; simpl in *; subst l.
  destruct q as [|u q]; simpl; [by intros ?%elem_of_nil|].
  intros [?|?%elem_of_nil]%elem_of_cons; done.
Qed.

Lemma backs_loop_head_spawn s :
  loops s = [] -> backs_off_on_queue (spawn (loop_head s)).
Proof.
  intros Hl ms. unfold loop_head.
  destruct s as [q p l f lg]; simpl in *; subst l.
  destruct q as [|u q]; simpl; [by intros ?%elem_of_nil|].
  intros [?|?%elem_of_nil]%elem_of_cons; done.
Qed.

Lemma backs_step s e s' :
  wf s -> backs_off_on_queue s -> step e s = Some s' -> backs_off_on_queue s'.
Proof.
  intros Hwf H He.
  destruct e as [path c sid| |i|i o]; simpl in He.
  - injection He as <-. unfold queueForUpload, processUploadQueue.
    cbn [processing uploadQueue set_fresh set_queue].
    destruct (processing s) eqn:Hp; cbn [orb].
    + intros ms _. simpl. by destruct (uploadQueue s).
    + rewrite length_app. simpl. replace (_ =? 0)%nat with false
        by (symmetry; apply Nat.eqb_neq; lia).
      apply backs_loop_head_spawn. simpl.
      destruct (loops s) eqn:E; [done|]. destruct (wf_flag _ Hwf) as [_ H2].
      rewrite H2 in Hp; [done|]. by rewrite E.
  - injection He as <-. unfold processUploadQueue.
    destruct (processing s) eqn:Hp; simpl; [done|].
    rewrite (wf_idle _ Hwf Hp). done.
  - destruct (loops s !! i) as [[u|ms]|] eqn:Hi; try done. injection He as <-.
    destruct (up_wf_lookup _ _ _ Hwf Hi) as [-> Hl].
    by apply (backs_loop_head_resume _ (AwaitBackoff ms)).
  - destruct (loops s !! i) as [[u|ms]|] eqn:Hi; try done.
    destruct (uploadRecording o) as [ok n]. injection He as <-.
    destruct (up_wf_lookup _ _ _ Hwf Hi) as [-> Hl].
    destruct ok.
    + by apply (backs_loop_head_resume _ (AwaitUpload u)).
    + unfold on_rejected. destruct (_ <? _).
      * intros ms _. simpl. by destruct (uploadQueue s).
      * by apply (backs_loop_head_resume _ (AwaitUpload u)).
Qed.

Lemma backs_reachable s : reachable s -> backs_off_on_queue s.
Proof.
  intros [es He].
  assert (Hgen : forall es s0 s1, wf s0 -> backs_off_on_queue s0 -> exec es s0 = Some s1 ->
                                  backs_off_on_queue s1).
  { clear. induction es as [|e es IH]; simpl; intros s0 s1 Hw Hb Hrun.
    - by injection Hrun as <-.
    - destruct (step e s0) as [s2|] eqn:E; [|done].
      eapply (IH s2); [by eapply up_wf_step|by eapply backs_step|done]. }
  eapply Hgen; [apply up_wf_init| |done]. by intros ms ?%elem_of_nil.
Qed.

(** The manager holds nothing exactly when the queue is empty and no loop
    runs. *)
Lemma up_status_idle s :
  wf s -> backs_off_on_queue s ->
  (uploadQueue s = [] /\ processing s = false <-> ids s = []).
Proof.
  intros Hwf Hs. unfold ids, flights. split.
  - intros [Hq Hp]. rewrite Hq. simpl.
    destruct (loops s) eqn:E; [done|]. destruct (wf_flag _ Hwf) as [_ H2].
    rewrite H2 in Hp; [done|]. by rewrite E.
  - intros H. apply fmap_nil_inv, app_eq_nil in H as [Hq Hf]. split; [done|].
    destruct (processing s) eqn:Hp; [|done].
    apply (wf_flag _ Hwf) in Hp. pose proof (wf_loops _ Hwf) as Hlen.
    destruct (loops s) as [|[u|ms] [|k l]] eqn:E; simpl in *; try done; try lia.
    exfalso. apply (Hs ms); [rewrite E; left|done].
Qed.

(** *** First in, first out *)

Lemma up_fifo_loop_head s : fifo s -> fifo (loop_head s).1.
Proof.
  unfold fifo, loop_head. destruct s as [q p l f lg]; simpl.
  destruct q as [|u q]; simpl; [done|].
  intros H. by rewrite called_ids_app, <- app_assoc.
Qed.

Lemma up_fifo_resume i (r : state Conn * option (pc Conn)) :
  fifo r.1 -> fifo (resume i r).
Proof. unfold fifo. by destruct (up_resume_fields i r) as (-> & -> & -> & _). Qed.

Lemma up_fifo_spawn (r : state Conn * option (pc Conn)) :
  fifo r.1 -> fifo (spawn r).
Proof. unfold fifo. by destruct (up_spawn_fields r) as (-> & -> & -> & _). Qed.

Lemma up_fifo_step s e s' : no_rejection e = true -> fifo s -> step e s = Some s' -> fifo s'.
Proof.
  intros Hno H He.
  destruct e as [path c sid| |i|i o]; simpl in He.
  - injection He as <-. unfold queueForUpload, processUploadQueue.
    set (s1 := set_fresh _ _).
    assert (H1 : fifo s1).
    { unfold fifo, s1. cbn -[seq]. rewrite map_app, app_assoc, H, seq_S. done. }
    destruct (_ || _); [done|]. apply up_fifo_spawn, up_fifo_loop_head. done.
  - injection He as <-. unfold processUploadQueue.
    destruct (_ || _); [done|]. apply up_fifo_spawn, up_fifo_loop_head. done.
  - destruct (loops s !! i) as [[u|ms]|]; try done. injection He as <-.
    by apply up_fifo_resume, up_fifo_loop_head.
  - destruct (loops s !! i) as [[u|ms]|]; try done. simpl in Hno.
    destruct (uploadRecording o) as [ok n]. simpl in Hno. subst ok. injection He as <-.
    apply up_fifo_resume. unfold on_resolved. apply up_fifo_loop_head.
    unfold fifo. simpl. rewrite called_ids_app. simpl. by rewrite app_nil_r.
Qed.

Lemma up_fifo_exec es : forall s s',
  forallb no_rejection es = true -> fifo s -> exec es s = Some s' -> fifo s'.
Proof.
  induction es as [|e es IH]; simpl; intros s s' Hno H Hrun.
  - by injection Hrun as <-.
  - apply andb_prop in Hno as [He Hes].
    destruct (step e s) as [s1|] eqn:E; [|done].
    eapply (IH s1); [done|by eapply up_fifo_step|done].
Qed.

(** *** Identities are given in order *)

Lemma up_fresh_step s e s' :
  step e s = Some s' -> fresh s' = (fresh s + if is_queue e then 1 else 0)%nat.
Proof.
  intros He.
  assert (Hpq : forall s0, fresh (processUploadQueue s0) = fresh s0).
  { intros s0. unfold processUploadQueue. destruct (_ || _); [done|].
    destruct (up_spawn_fields (loop_head (set_processing true s0))) as (_ & _ & -> & _).
    by rewrite (proj2 (up_loop_head_fields _)). }
  destruct e as [path c sid| |i|i o]; simpl in He.
  - injection He as <-. unfold queueForUpload. rewrite Hpq. simpl. lia.
  - injection He as <-. rewrite Hpq. simpl. lia.
  - destruct (loops s !! i) as [[u|ms]|]; try done. injection He as <-.
    destruct (up_resume_fields i (loop_head s)) as (_ & _ & -> & _).
    rewrite (proj2 (up_loop_head_fields _)). simpl. lia.
  - destruct (loops s !! i) as [[u|ms]|]; try done.
    destruct (uploadRecording o) as [ok n]. injection He as <-.
    destruct ok.
    + destruct (up_resume_fields i (on_resolved (tried n u) s)) as (_ & _ & -> & _).
      unfold on_resolved. rewrite (proj2 (up_loop_head_fields _)). simpl. lia.
    + destruct (up_resume_fields i (on_rejected (tried n u) s)) as (_ & _ & -> & _).
      unfold on_rejected. destruct (_ <? _); [simpl; lia|].
      rewrite (proj2 (up_loop_head_fields _)). simpl. lia.
Qed.

Lemma up_fresh_exec es : forall s s',
  exec es s = Some s' -> fresh s' = (fresh s + queued es)%nat.
Proof.
  induction es as [|e es IH]; simpl; intros s s' Hrun.
  - injection Hrun as <-. unfold queued. simpl. lia.
  - destruct (step e s) as [s1|] eqn:E; [|done].
    rewrite (IH _ _ Hrun), (up_fresh_step _ _ _ E). unfold queued. simpl.
    destruct (is_queue e); simpl; lia.
Qed.

End Facts.
End UploadLedger.

(** X1: whatever the schedule and however many notifications are queued,
    [sendWebhook] is called at most three times for each of them; the
    [attempts] counter of a queued notification is the number of calls made
    for it so far, and a notification is given up only after three calls. *)
Theorem X1_webhook_sends_bounded :
  forall (P : Type) (s : W.state P),
    W.reachable s ->
    (forall i, (W.sent_of i (W.log s) <= 3)%nat) /\
    Forall (fun w => Z.of_nat (W.sent_of (W.wid w) (W.log s)) = W.attempts w) (W.queue s) /\
    Forall (fun i => W.sent_of i (W.log s) = 3%nat) (W.dropped_ids (W.log s)).
Proof.
  intros P s Hs. pose proof (WebhookLedger.books_reachable s Hs) as H.
  destruct H as [Hq Hf Hd Hx Hall Hsent]. split; [|split].
  - intros i. destruct (decide (i < W.fresh s)%nat) as [Hi|Hi].
    + assert (Hin : i ∈ seq 0 (W.fresh s)) by (apply elem_of_seq; lia).
      rewrite <- Hall in Hin. rewrite !elem_of_app, map_app, elem_of_app in Hin.
      destruct Hin as [[Hin|Hin]|[Hin|Hin]].
      * apply list_elem_of_fmap in Hin as (w & -> & Hw).
        rewrite Forall_forall in Hq. specialize (Hq w Hw). lia.
      * apply list_elem_of_fmap in Hin as (w & -> & Hw).
        rewrite Forall_forall in Hf. specialize (Hf w Hw). lia.
      * rewrite Forall_forall in Hd. specialize (Hd i Hin). lia.
      * rewrite Forall_forall in Hx. specialize (Hx i Hin). lia.
    + rewrite (WebhookLedger.sent_of_fresh i (W.log s) (W.fresh s)); [lia|done|lia].
  - eapply Forall_impl; [exact Hq|]. by intros w (? & _).
  - exact Hx.
Qed.

Lemma X1_witness :
  exists s : W.state unit,
    W.exec two_webhooks W.init = Some s /\
    W.reachable s /\
    W.sent_of 0 (W.log s) = 2%nat /\ W.sent_of 1 (W.log s) = 1%nat /\
    (forall i, (W.sent_of i (W.log s) <= 3)%nat).
Proof.
  destruct (W.exec two_webhooks W.init) as [s|] eqn:E; [|discriminate E].
  assert (Hs : W.reachable s) by (by exists two_webhooks).
  exists s. split; [reflexivity|]. split; [exact Hs|].
  split; [vm_compute in E; injection E as <-; reflexivity|].
  split; [vm_compute in E; injection E as <-; reflexivity|].
  exact (proj1 (X1_webhook_sends_bounded unit s Hs)).
Defined.

(** X2: every notification given to [queueWebhook] is at any time exactly
    one of: waiting in the queue, being sent, delivered, given up.  None is
    lost, none is there twice, and one that was delivered or given up is
    never queued or sent again. *)
Theorem X2_webhook_accounted :
  forall (P : Type) (es : list (W.event P)) (s : W.state P),
    W.exec es W.init = Some s ->
    W.ids s ++ W.delivered_ids (W.log s) ++ W.dropped_ids (W.log s)
      ≡ₚ seq 0 (W.queued es) /\
    NoDup (W.ids s ++ W.delivered_ids (W.log s) ++ W.dropped_ids (W.log s)) /\
    (forall i, i ∈ W.delivered_ids (W.log s) ++ W.dropped_ids (W.log s) -> i ∉ W.ids s).
Proof.
  intros P es s Hrun.
  assert (Hs : W.reachable s) by (by exists es).
  pose proof (WebhookLedger.books_reachable s Hs) as H.
  pose proof (WebhookLedger.ledger_nodup _ _ _ _ H) as Hn.
  pose proof (W.led_all _ _ _ _ H) as Hall.
  rewrite (WebhookLedger.fresh_exec es _ _ Hrun) in Hall. simpl in Hall.
  split; [exact Hall|]. split; [exact Hn|].
  intros i Hi Hin. apply NoDup_app in Hn as (_ & Hn & _). by apply (Hn i).
Qed.

Lemma X2_witness :
  exists s : W.state unit,
    W.exec two_webhooks W.init = Some s /\
    W.ids s = [] /\ W.delivered_ids (W.log s) = [1; 0]%nat /\
    W.dropped_ids (W.log s) = [] /\ W.queued two_webhooks = 2%nat /\
    W.ids s ++ W.delivered_ids (W.log s) ++ W.dropped_ids (W.log s) ≡ₚ seq 0 2.
Proof.
  destruct (W.exec two_webhooks W.init) as [s|] eqn:E; [|discriminate E].
  exists s. split; [reflexivity|].
  split; [vm_compute in E; injection E as <-; reflexivity|].
  split; [vm_compute in E; injection E as <-; reflexivity|].
  split; [vm_compute in E; injection E as <-; reflexivity|].
  split; [reflexivity|].
  exact (proj1 (X2_webhook_accounted unit two_webhooks s E)).
Defined.

(** X3: as long as no delivery is rejected, notifications are sent in the
    order in which they were queued, each once: the identities
    [sendWebhook] was called for, followed by those still in the queue, are
    0, 1, 2, ... in this order. *)
Theorem X3_webhook_fifo :
  forall (P : Type) (es : list (W.event P)) (s : W.state P),
    forallb W.no_rejection es = true ->
    W.exec es W.init = Some s ->
    W.sent_ids (W.log s) ++ map W.wid (W.queue s) = seq 0 (W.queued es).
Proof.
  intros P es s Hno Hrun.
  pose proof (WebhookLedger.fifo_exec es _ _ Hno (eq_refl : W.fifo W.init) Hrun) as H.
  unfold W.fifo in H. by rewrite (WebhookLedger.fresh_exec es _ _ Hrun) in H.
Qed.

Lemma X3_witness :
  exists s : W.state unit,
    forallb W.no_rejection two_delivered = true /\
    W.exec two_delivered W.init = Some s /\
    W.sent_ids (W.log s) ++ map W.wid (W.queue s) = [0; 1]%nat.
Proof.
  destruct (W.exec two_delivered W.init) as [s|] eqn:E; [|discriminate E].
  exists s. split; [reflexivity|]. split; [reflexivity|].
  exact (X3_webhook_fifo unit two_delivered s eq_refl E).
Defined.

(** X4: a notification is never left in the queue without a drain loop:
    while [processing] is false the queue is empty.  So [cleanup] waits
    exactly while the queue is not empty, and [getQueueStatus] reports
    {pending: 0, processing: false} exactly when the manager holds no
    notification, queued or being sent. *)
Theorem X4_webhook_status :
  forall (P : Type) (s : W.state P),
    W.reachable s ->
    (W.processing s = false -> W.queue s = []) /\
    (W.cleanup_waits s = true <-> W.queue s <> []) /\
    (W.getQueueStatus s = (0%nat, false) <-> W.ids s = []).
Proof.
  intros P s Hs. pose proof (WebhookFacts.wh_wf_reachable s Hs) as Hwf.
  split; [apply (W.wf_idle _ Hwf)|]. split.
  - unfold W.cleanup_waits. split.
    + intros H. by destruct (W.queue s).
    + intros H. destruct (W.processing s) eqn:Hp.
      * by destruct (W.queue s).
      * by apply (W.wf_idle _ Hwf) in Hp.
  - apply WebhookLedger.status_idle; [done|]. by apply WebhookLedger.sleeps_reachable.
Qed.

Lemma X4_witness :
  exists s : W.state unit,
    W.exec [W.QueueWebhook tt 0 0] W.init = Some s /\
    W.reachable s /\
    W.getQueueStatus s = (0%nat, true) /\ W.cleanup_waits s = false /\
    W.ids s = [0%nat] /\
    (W.cleanup_waits s = true <-> W.queue s <> []).
Proof.
  destruct (W.exec [W.QueueWebhook tt 0 0] W.init) as [s|] eqn:E; [|discriminate E].
  assert (Hs : W.reachable s) by (by exists [W.QueueWebhook tt 0 0]).
  exists s. split; [reflexivity|]. split; [exact Hs|].
  split; [vm_compute in E; injection E as <-; reflexivity|].
  split; [vm_compute in E; injection E as <-; reflexivity|].
  split; [vm_compute in E; injection E as <-; reflexivity|].
  exact (proj1 (proj2 (X4_webhook_status unit s Hs))).
Defined.

(** X5: whatever the schedule and however many uploads are queued,
    [uploadRecording] is called at most three times for each of them; the
    [attempts] counter of a queued upload is the number of calls made for it
    so far, and an upload is given up only after three calls. *)
Theorem X5_upload_calls_bounded :
  forall (C : Type) (s : R.state C),
    R.reachable s ->
    (forall i, (R.called_of i (R.log s) <= 3)%nat) /\
    Forall (fun u => Z.of_nat (R.called_of (R.uid u) (R.log s)) = R.attempts u)
           (R.uploadQueue s) /\
    Forall (fun i => R.called_of i (R.log s) = 3%nat) (R.dropped_ids (R.log s)).
Proof.
  intros C s Hs. pose proof (UploadLedger.up_books_reachable s Hs) as H.
  destruct H as [Hq Hf Hd Hx Hall Hsent]. split; [|split].
  - intros i. destruct (decide (i < R.fresh s)%nat) as [Hi|Hi].
    + assert (Hin : i ∈ seq 0 (R.fresh s)) by (apply elem_of_seq; lia).
      rewrite <- Hall in Hin. rewrite !elem_of_app, map_app, elem_of_app in Hin.
      destruct Hin as [[Hin|Hin]|[Hin|Hin]].
      * apply list_elem_of_fmap in Hin as (w & -> & Hw).
        rewrite Forall_forall in Hq. specialize (Hq w Hw). lia.
      * apply list_elem_of_fmap in Hin as (w & -> & Hw).
        rewrite Forall_forall in Hf. specialize (Hf w Hw). lia.
      * rewrite Forall_forall in Hd. specialize (Hd i Hin). lia.
      * rewrite Forall_forall in Hx. specialize (Hx i Hin). lia.
    + rewrite (UploadLedger.called_of_fresh i (R.log s) (R.fresh s)); [lia|done|lia].
  - eapply Forall_impl; [exact Hq|]. by intros w (? & _).
  - exact Hx.
Qed.

Lemma X5_witness :
  exists s : R.state unit,
    R.exec two_uploads R.init = Some s /\
    R.reachable s /\
    R.called_of 0 (R.log s) = 2%nat /\ R.called_of 1 (R.log s) = 1%nat /\
    (forall i, (R.called_of i (R.log s) <= 3)%nat).
Proof.
  destruct (R.exec two_uploads R.init) as [s|] eqn:E; [|discriminate E].
  assert (Hs : R.reachable s) by (by exists two_uploads).
  exists s. split; [reflexivity|]. split; [exact Hs|].
  split; [vm_compute in E; injection E as <-; reflexivity|].
  split; [vm_compute in E; injection E as <-; reflexivity|].
  exact (proj1 (X5_upload_calls_bounded unit s Hs)).
Defined.

(** X6: every upload given to [queueForUpload] is at any time exactly one
    of: waiting in the queue, being uploaded, uploaded, given up.  None is
    lost, none is there twice, and one that was uploaded or given up is
    never queued or uploaded again. *)
Theorem X6_upload_accounted :
  forall (C : Type) (es : list (R.event C)) (s : R.state C),
    R.exec es R.init = Some s ->
    R.ids s ++ R.uploaded_ids (R.log s) ++ R.dropped_ids (R.log s)
      ≡ₚ seq 0 (R.queued es) /\
    NoDup (R.ids s ++ R.uploaded_ids (R.log s) ++ R.dropped_ids (R.log s)) /\
    (forall i, i ∈ R.uploaded_ids (R.log s) ++ R.dropped_ids (R.log s) -> i ∉ R.ids s).
Proof.
  intros C es s Hrun.
  assert (Hs : R.reachable s) by (by exists es).
  pose proof (UploadLedger.up_books_reachable s Hs) as H.
  pose proof (UploadLedger.up_ledger_nodup _ _ _ _ H) as Hn.
  pose proof (R.led_all _ _ _ _ H) as Hall.
  rewrite (UploadLedger.up_fresh_exec es _ _ Hrun) in Hall. simpl in Hall.
  split; [exact Hall|]. split; [exact Hn|].
  intros i Hi Hin. apply NoDup_app in Hn as (_ & Hn & _). by apply (Hn i).
Qed.

Lemma X6_witness :
  exists s : R.state unit,
    R.exec two_uploads R.init = Some s /\
    R.ids s = [] /\ R.uploaded_ids (R.log s) = [1; 0]%nat /\
    R.dropped_ids (R.log s) = [] /\ R.queued two_uploads = 2%nat /\
    R.ids s ++ R.uploaded_ids (R.log s) ++ R.dropped_ids (R.log s) ≡ₚ seq 0 2.
Proof.
  destruct (R.exec two_uploads R.init) as [s|] eqn:E; [|discriminate E].
  exists s. split; [reflexivity|].
  split; [vm_compute in E; injection E as <-; reflexivity|].
  split; [vm_compute in E; injection E as <-; reflexivity|].
  split; [vm_compute in E; injection E as <-; reflexivity|].
  split; [reflexivity|].
  exact (proj1 (X6_upload_accounted unit two_uploads s E)).
Defined.

(** X7: as long as every upload resolves, recordings are uploaded in the
    order in which they were queued, each once. *)
Theorem X7_upload_fifo :
  forall (C : Type) (es : list (R.event C)) (s : R.state C),
    forallb R.no_rejection es = true ->
    R.exec es R.init = Some s ->
    R.called_ids (R.log s) ++ map R.uid (R.uploadQueue s) = seq 0 (R.queued es).
Proof.
  intros C es s Hno Hrun.
  pose proof (UploadLedger.up_fifo_exec es _ _ Hno (eq_refl : R.fifo R.init) Hrun) as H.
  unfold R.fifo in H. by rewrite (UploadLedger.up_fresh_exec es _ _ Hrun) in H.
Qed.

Lemma X7_witness :
  exists s : R.state unit,
    forallb R.no_rejection two_uploaded = true /\
    R.exec two_uploaded R.init = Some s /\
    R.called_ids (R.log s) ++ map R.uid (R.uploadQueue s) = [0; 1]%nat.
Proof.
  destruct (R.exec two_uploaded R.init) as [s|] eqn:E; [|discriminate E].
  exists s. split; [reflexivity|]. split; [reflexivity|].
  exact (X7_upload_fifo unit two_uploaded s eq_refl E).
Defined.

(** X8: an upload is never left in the queue without a drain loop: while
    [processing] is false the queue is empty.  So [cleanup] waits exactly
    while the queue is not empty, and the manager holds no upload, queued or
    being uploaded, exactly when the queue is empty and [processing] is
    false. *)
Theorem X8_upload_status :
  forall (C : Type) (s : R.state C),
    R.reachable s ->
    (R.processing s = false -> R.uploadQueue s = []) /\
    (R.cleanup_waits s = true <-> R.uploadQueue s <> []) /\
    (R.uploadQueue s = [] /\ R.processing s = false <-> R.ids s = []).
Proof.
  intros C s Hs. pose proof (UploadFacts.up_wf_reachable s Hs) as Hwf.
  split; [apply (R.wf_idle _ Hwf)|]. split.
  - unfold R.cleanup_waits. split.
    + intros H. by destruct (R.uploadQueue s).
    + intros H. destruct (R.processing s) eqn:Hp.
      * by destruct (R.uploadQueue s).
      * by apply (R.wf_idle _ Hwf) in Hp.
  - apply UploadLedger.up_status_idle; [done|]. by apply UploadLedger.backs_reachable.
Qed.

Lemma X8_witness :
  exists s : R.state unit,
    R.exec [R.QueueForUpload "a.guac" tt "s1"] R.init = Some s /\
    R.reachable s /\
    R.uploadQueue s = [] /\ R.processing s = true /\ R.cleanup_waits s = false /\
    R.ids s = [0%nat] /\
    (R.cleanup_waits s = true <-> R.uploadQueue s <> []).
Proof.
  destruct (R.exec [R.QueueForUpload "a.guac" tt "s1"] R.init) as [s|] eqn:E;
    [|discriminate E].
  assert (Hs : R.reachable s) by (by exists [R.QueueForUpload "a.guac"%string tt "s1"%string]).
  exists s. split; [reflexivity|]. split; [exact Hs|].
  split; [vm_compute in E; injection E as <-; reflexivity|].
  split; [vm_compute in E; injection E as <-; reflexivity|].
  split; [vm_compute in E; injection E as <-; reflexivity|].
  split; [vm_compute in E; injection E as <-; reflexivity|].
  exact (proj1 (proj2 (X8_upload_status unit s Hs))).
Defined.

(** ** The retry wrapper *)

Module RetrySchedule.
Import Utils.
Section Facts.
Context {World Val Err : Type} (fn : World -> (Val + Err) * World).

Lemma retry_delays baseDelay r : forall a w,
  delays (retry_from fn baseDelay r a w) =
    map (fun i => baseDelay * 2 ^ Z.of_nat i)
        (seq a (calls (retry_from fn baseDelay r a w) - 1)).
Proof.
  induction r as [|r IH]; intros a w; simpl.
  - by destruct (fn w) as [[v|e] w'].
  - destruct (fn w) as [[v|e] w']; simpl; [done|].
    rewrite IH. pose proof (RetryFacts.retry_calls_le fn baseDelay r (S a) w') as Hc.
    destruct (calls _) as [|c]; [lia|]. simpl. by rewrite Nat.sub_0_r.
Qed.

Lemma retry_rejected baseDelay r : forall a w e,
  outcome (retry_from fn baseDelay r a w) = inr e ->
  calls (retry_from fn baseDelay r a w) = S r.
Proof.
  induction r as [|r IH]; intros a w e; simpl.
  - by destruct (fn w) as [[v|e'] w'].
  - destruct (fn w) as [[v|e'] w']; simpl; [done|]. intros H. f_equal. by eapply IH.
Qed.

Lemma geometric_sum baseDelay n : forall a,
  total_delay (map (fun i => baseDelay * 2 ^ Z.of_nat i) (seq a n)) =
    baseDelay * 2 ^ Z.of_nat a * (2 ^ Z.of_nat n - 1).
Proof.
  induction n as [|n IH]; intros a.
  - simpl. lia.
  - cbn [seq map total_delay foldr]. fold (total_delay
      (map (fun i => baseDelay * 2 ^ Z.of_nat i) (seq (S a) n))).
    rewrite IH. rewrite !Nat2Z.inj_succ, !Z.pow_succ_r by lia. lia.
Qed.

End Facts.
End RetrySchedule.

(** X9: [createRetryWrapper(fn, maxRetries, baseDelay)] calls [fn] at least
    once and at most [maxRetries + 1] times; between two calls it sleeps
    [baseDelay * 2^attempt] ms, attempt = 0, 1, ..., so after [k + 1] calls
    it has slept [baseDelay * (2^k - 1)] ms in all; and it rejects only
    after [maxRetries + 1] calls. *)
Theorem X9_retry_wrapper_schedule :
  forall (World Val Err : Type) (fn : World -> (Val + Err) * World)
         (maxRetries : nat) (baseDelay : Z) (w : World),
    let r := Utils.createRetryWrapper fn maxRetries baseDelay w in
    (1 <= Utils.calls r <= S maxRetries)%nat /\
    Utils.delays r =
      map (fun i => baseDelay * 2 ^ Z.of_nat i) (seq 0 (Utils.calls r - 1)) /\
    Utils.total_delay (Utils.delays r) = baseDelay * (2 ^ Z.of_nat (Utils.calls r - 1) - 1) /\
    (forall e, Utils.outcome r = inr e -> Utils.calls r = S maxRetries).
Proof.
  intros World Val Err fn maxRetries baseDelay w r. unfold r, Utils.createRetryWrapper.
  split; [apply RetryFacts.retry_calls_le|]. split; [apply RetrySchedule.retry_delays|].
  split.
  - rewrite RetrySchedule.retry_delays, RetrySchedule.geometric_sum. simpl. lia.
  - intros e. apply RetrySchedule.retry_rejected.
Qed.

(** ** The compression stage, for the other formats *)

Module CompressMore.
Import RecordingManager.

Lemma append_empty (a : string) : (a +:+ "")%string = a.
Proof.
  induction a as [|c a IH]; [done|].
  change (String c (a +:+ "") = String c a). by rewrite IH.
Qed.

Lemma compress_zip_cases o inputPath d :
  inputPath ∈ files d ->
  exists p d', compressRecording (Some "zip"%string) o inputPath d = (Resolved p, d') /\
    p ∈ files d' /\
    ((p = inputPath /\ inputPath ∈ files d' /\
      (transform_resolves o = false \/ output_on_disk o = false \/ unlink_resolves o = false))
     \/
     (p = zipped inputPath /\ (inputPath ∉ files d') /\
      transform_resolves o = true /\ output_on_disk o = true /\ unlink_resolves o = true /\
      calls d' = calls d ++ [CompressWithZip inputPath (zipped inputPath);
                              ExistsSync (zipped inputPath); Unlink inputPath])).
Proof.
  intros Hin.
  assert (Hne : zipped inputPath <> inputPath) by (by apply CompressFacts.append_nonempty_ne).
  change (compressRecording (Some "zip"%string) o inputPath d) with
    (match try_block "zip" o inputPath (zipped inputPath) d with
     | (Resolved (Some p), d') => (Resolved p, d')
     | (Resolved None, d') => (Resolved inputPath, d')
     | (Rejected, d') => (Resolved inputPath, d')
     end).
  unfold try_block, bind, compressWithZip, transform, existsSync, unlink, called, ret. simpl.
  destruct (transform_resolves o) eqn:Ht; simpl.
  - destruct (output_on_disk o) eqn:Ho; simpl.
    + rewrite bool_decide_eq_true_2 by set_solver. simpl.
      rewrite bool_decide_eq_true_2 by set_solver.
      destruct (unlink_resolves o) eqn:Hu; simpl.
      * eexists _, _. split; [done|]. simpl. split; [set_solver|].
        right. rewrite <- !app_assoc. simpl. repeat split; try done.
        rewrite elem_of_difference, elem_of_singleton. tauto.
      * eexists _, _. split; [done|]. simpl. split; [set_solver|].
        left. repeat split; try done; [set_solver|auto].
    + rewrite bool_decide_eq_false_2
        by (rewrite elem_of_difference, elem_of_singleton; tauto).
      simpl.
      eexists _, _. split; [done|]. simpl. split; [set_solver|].
      left. repeat split; try done; [set_solver|auto].
  - eexists _, _. split; [done|]. simpl.
    destruct (output_on_disk o) eqn:Ho; (split; [set_solver|]);
      left; repeat split; try done; try set_solver; auto.
Qed.

(** A format that is not known: no transform runs, the output path is the
    input path, and the input is unlinked as if it had been compressed. *)
Lemma compress_unknown_unfold f o inputPath d :
  f <> ""%string -> known_format f = false ->
  compressRecording (Some f) o inputPath d =
    match (let* present := existsSync inputPath in
           if (present : bool)
           then let* _ := unlink o inputPath in ret (Some inputPath)
           else ret None) d with
    | (Resolved (Some p), d') => (Resolved p, d')
    | (Resolved None, d') => (Resolved inputPath, d')
    | (Rejected, d') => (Resolved inputPath, d')
    end.
Proof.
  intros Hne Hk. unfold known_format in Hk.
  apply orb_false_elim in Hk as [Hk Hz]. apply orb_false_elim in Hk as [Hn Hg].
  unfold compressRecording, format_of.
  rewrite (proj2 (String.eqb_neq f "") Hne), Hn.
  unfold Utils.getFileExtensionForCompression. rewrite Hg, Hz, append_empty.
  unfold try_block. rewrite Hg, Hz. reflexivity.
Qed.

Lemma compress_unknown f o inputPath d :
  f <> ""%string -> known_format f = false -> inputPath ∈ files d ->
  compressRecording (Some f) o inputPath d =
    (Resolved inputPath,
     if unlink_resolves o
     then {| files := files d ∖ {[inputPath]};
             calls := calls d ++ [ExistsSync inputPath; Unlink inputPath] |}
     else {| files := files d;
             calls := calls d ++ [ExistsSync inputPath; Unlink inputPath] |}).
Proof.
  intros Hne Hk Hin. rewrite compress_unknown_unfold by done.
  unfold bind, existsSync, unlink, called, ret. simpl.
  rewrite bool_decide_eq_true_2 by done. simpl.
  rewrite bool_decide_eq_true_2 by done.
  destruct (unlink_resolves o); simpl; by rewrite <- !app_assoc.
Qed.

(** Whatever the format and whatever fails, a path is returned, and no file
    but the input and the output is touched. *)
Lemma compress_total cfg o inputPath d :
  exists p d', compressRecording cfg o inputPath d = (Resolved p, d') /\
    (p = inputPath \/
     p = (inputPath +:+ Utils.getFileExtensionForCompression (format_of cfg))%string) /\
    (forall q, q <> inputPath ->
       q <> (inputPath +:+ Utils.getFileExtensionForCompression (format_of cfg))%string ->
       (q ∈ files d' <-> q ∈ files d)).
Proof.
  unfold compressRecording. destruct (String.eqb (format_of cfg) "none") eqn:En.
  - eexists _, _. split; [done|]. split; [by left|]. done.
  - set (out := (inputPath +:+ _)%string).
    unfold try_block, bind, compressWithGzip, compressWithZip, transform, existsSync,
      unlink, called, ret.
    destruct (String.eqb (format_of cfg) "gzip"), (String.eqb (format_of cfg) "zip");
      simpl;
      repeat match goal with
      | |- context [if ?b then _ else _] => destruct b eqn:?; simpl
      end;
      eexists _, _; (split; [done|]); simpl; (split; [auto|]);
      intros q Hq1 Hq2;
      rewrite ?elem_of_difference, ?elem_of_union, ?elem_of_difference,
        ?elem_of_singleton; tauto.
Qed.

(** For a format it knows, [compressRecording] returns a path that exists. *)
Lemma compress_known_exists cfg o inputPath d :
  known_format (format_of cfg) = true -> inputPath ∈ files d ->
  exists p d', compressRecording cfg o inputPath d = (Resolved p, d') /\ p ∈ files d'.
Proof.
  intros Hk Hin. unfold known_format in Hk.
  destruct (String.eqb_spec (format_of cfg) "none") as [En|En].
  { exists inputPath, d. by rewrite CompressFacts.compress_none. }
  assert (Hcfg : cfg = Some (format_of cfg)).
  { unfold format_of in *. destruct cfg as [f|]; [|done].
    destruct (String.eqb f ""); [done|done]. }
  destruct (String.eqb_spec (format_of cfg) "gzip") as [Eg|Eg].
  { rewrite Hcfg, Eg.
    destruct (CompressFacts.compress_gzip_cases o inputPath d Hin) as (p & d' & E & Hp & _).
    eauto. }
  destruct (String.eqb_spec (format_of cfg) "zip") as [Ez|Ez]; [|done].
  rewrite Hcfg, Ez.
  destruct (compress_zip_cases o inputPath d Hin) as (p & d' & E & Hp & _). eauto.
Qed.

Lemma queueForUpload_holds {Conn} path (c : Conn) sid (s : state Conn) :
  exists u, u ∈ uploadQueue (queueForUpload path c sid s) ++
                flights (queueForUpload path c sid s) /\
    uid u = fresh s /\ filePath u = path /\ connection u = c /\ sessionId u = sid /\
    attempts u = 0 /\ maxAttempts u = 3.
Proof.
  eexists {| uid := fresh s; filePath := path; connection := c; sessionId := sid;
             attempts := 0; maxAttempts := 3; tries := 0%nat |}.
  split; [|done]. unfold queueForUpload, processUploadQueue.
  cbn [processing uploadQueue set_fresh set_queue].
  destruct (processing s || _) eqn:E; simpl.
  - rewrite !elem_of_app, elem_of_cons. auto.
  - unfold loop_head. simpl. destruct (uploadQueue s) as [|u0 q]; unfold flights; simpl;
      rewrite ?map_app, ?concat_app; simpl;
      repeat (rewrite elem_of_app || rewrite elem_of_cons); auto 10.
Qed.

End CompressMore.

(** X10: with the format 'zip', for an input that exists and a promise of
    [compressWithZip] that settles, [compressRecording] never rejects and
    returns a path that exists.  The path is the input with ".zip" appended,
    the input having been unlinked, exactly when the promise resolved, the
    output path was found and the unlink succeeded; when the promise
    rejected, the output path was not found or the unlink failed, the path
    is the input path and the input is still there.  Nothing is said of
    what the output holds: the promise resolves when the output stream
    closes and no error of the output is handled, so the input can be
    unlinked without a complete archive. *)
Theorem X10_compress_zip :
  forall (o : R.oracle) (inputPath : string) (d : R.disk),
    inputPath ∈ R.files d ->
    exists p d',
      R.compressRecording (Some "zip"%string) o inputPath d = (R.Resolved p, d') /\
      p ∈ R.files d' /\
      ((p = inputPath /\ inputPath ∈ R.files d' /\
        (R.transform_resolves o = false \/ R.output_on_disk o = false \/
         R.unlink_resolves o = false))
       \/
       (p = (inputPath +:+ ".zip")%string /\ (inputPath ∉ R.files d') /\
        R.transform_resolves o = true /\ R.output_on_disk o = true /\
        R.unlink_resolves o = true /\
        R.calls d' = R.calls d ++
          [R.CompressWithZip inputPath (inputPath +:+ ".zip")%string;
           R.ExistsSync (inputPath +:+ ".zip")%string; R.Unlink inputPath])).
Proof. intros o inputPath d Hin. by apply CompressMore.compress_zip_cases. Qed.

Lemma X10_witness :
  "/rec/a.guac"%string ∈ R.files one_recording /\
  exists d',
    R.compressRecording (Some "zip"%string) obliging "/rec/a.guac" one_recording =
      (R.Resolved "/rec/a.guac.zip"%string, d') /\
    "/rec/a.guac.zip"%string ∈ R.files d'.
Proof.
  assert (Hin : "/rec/a.guac"%string ∈ R.files one_recording)
    by (simpl; apply elem_of_singleton_2; reflexivity).
  split; [exact Hin|].
  destruct (X10_compress_zip obliging "/rec/a.guac"%string one_recording Hin)
    as (p & d' & E & Hp & H).
  exists d'. destruct H as [(-> & _ & [H|[H|H]])|(-> & _)]; try discriminate H.
  split; [exact E|exact Hp].
Defined.

(** X11: with a format that is neither 'none', 'gzip' nor 'zip' (and not
    empty), no transform runs and the output path is the input path: when
    the input exists [compressRecording] unlinks it and returns its path.
    So if the unlink succeeds the recording is gone and the path returned
    names no file. *)
Theorem X11_compress_unknown_format :
  forall (f : string) (o : R.oracle) (inputPath : string) (d : R.disk),
    f <> ""%string -> R.known_format f = false -> inputPath ∈ R.files d ->
    R.compressRecording (Some f) o inputPath d =
      (R.Resolved inputPath,
       if R.unlink_resolves o
       then {| R.files := R.files d ∖ {[inputPath]};
               R.calls := R.calls d ++ [R.ExistsSync inputPath; R.Unlink inputPath] |}
       else {| R.files := R.files d;
               R.calls := R.calls d ++ [R.ExistsSync inputPath; R.Unlink inputPath] |}) /\
    (R.unlink_resolves o = true ->
       inputPath ∉ R.files (snd (R.compressRecording (Some f) o inputPath d))).
Proof.
  intros f o inputPath d Hne Hk Hin.
  rewrite CompressMore.compress_unknown by done. split; [done|].
  intros ->. simpl. rewrite elem_of_difference, elem_of_singleton. tauto.
Qed.

Lemma X11_witness :
  "bzip2"%string <> ""%string /\ R.known_format "bzip2" = false /\
  "/rec/a.guac"%string ∈ R.files one_recording /\
  R.compressRecording (Some "bzip2"%string) obliging "/rec/a.guac" one_recording =
    (R.Resolved "/rec/a.guac"%string,
     {| R.files := R.files one_recording ∖ {["/rec/a.guac"%string]};
        R.calls := [R.ExistsSync "/rec/a.guac"; R.Unlink "/rec/a.guac"] |}).
Proof.
  assert (Hne : "bzip2"%string <> ""%string) by discriminate.
  assert (Hin : "/rec/a.guac"%string ∈ R.files one_recording)
    by (simpl; apply elem_of_singleton_2; reflexivity).
  split; [exact Hne|]. split; [reflexivity|]. split; [exact Hin|].
  exact (proj1 (X11_compress_unknown_format "bzip2"%string obliging "/rec/a.guac"%string
                  one_recording Hne eq_refl Hin)).
Defined.

(** X12: whatever the format, and whichever of the transform, the check of
    the output and the unlink fails, [compressRecording] resolves; the path
    is the input path or the input path with the extension of the format;
    and no file but these two is created or deleted. *)
Theorem X12_compress_never_rejects :
  forall (cfg : option string) (o : R.oracle) (inputPath : string) (d : R.disk),
    exists p d',
      R.compressRecording cfg o inputPath d = (R.Resolved p, d') /\
      (p = inputPath \/
       p = (inputPath +:+ Utils.getFileExtensionForCompression (R.format_of cfg))%string) /\
      (forall q, q <> inputPath ->
         q <> (inputPath +:+ Utils.getFileExtensionForCompression (R.format_of cfg))%string ->
         (q ∈ R.files d' <-> q ∈ R.files d)).
Proof. intros cfg o inputPath d. apply CompressMore.compress_total. Qed.

(** X13: [handleRecordingEnd] returns null, queues nothing and runs no
    compression when the path is missing, empty or names no file.
    Otherwise it never returns null: it returns the path
    [compressRecording] gave, which for the formats 'none', 'gzip' and 'zip'
    names a file that exists; with s3 storage and an uploader, an upload of
    exactly that path, with no attempt made yet, is then in the queue or
    being uploaded, and with another storage the queue is not touched. *)
Theorem X13_handleRecordingEnd :
  forall (C : Type) (format storage : option string) (s3Uploader : bool) (o : R.oracle)
         (c : C) (sid : string) (d : R.disk) (s : R.state C),
    (forall recordingPath,
        (recordingPath = None \/ recordingPath = Some ""%string \/
         exists p, recordingPath = Some p /\ (p ∉ R.files d)) ->
        exists d',
          R.handleRecordingEnd format storage s3Uploader o recordingPath c sid d s =
            (None, d', s) /\
          R.files d' = R.files d /\
          Forall (fun call => exists p, call = R.ExistsSync p)
                 (drop (length (R.calls d)) (R.calls d'))) /\
    (forall p,
        p <> ""%string -> p ∈ R.files d ->
        exists compressedPath d' s',
          R.handleRecordingEnd format storage s3Uploader o (Some p) c sid d s =
            (Some compressedPath, d', s') /\
          (R.known_format (R.format_of format) = true -> compressedPath ∈ R.files d') /\
          (R.is_s3 storage && s3Uploader = true ->
             exists u, u ∈ R.uploadQueue s' ++ R.flights s' /\
               R.uid u = R.fresh s /\ R.filePath u = compressedPath /\
               R.attempts u = 0 /\ R.maxAttempts u = 3) /\
          (R.is_s3 storage && s3Uploader = false -> s' = s)).
Proof.
  intros C format storage s3Uploader o c sid d s. split.
  - intros recordingPath [->|[->|(p & -> & Hp)]].
    + exists d. simpl. rewrite drop_all. by repeat split.
    + exists d. simpl. rewrite drop_all. by repeat split.
    + unfold R.handleRecordingEnd. destruct (String.eqb p "").
      * exists d. rewrite drop_all. by repeat split.
      * unfold R.existsSync. rewrite bool_decide_eq_false_2 by done.
        eexists. split; [done|]. simpl. split; [done|].
        rewrite drop_app_length. constructor; [eauto|constructor].
  - intros p Hne Hin. unfold R.handleRecordingEnd.
    rewrite (proj2 (String.eqb_neq p "") Hne).
    unfold R.existsSync. rewrite bool_decide_eq_true_2 by done.
    set (d1 := R.called (R.ExistsSync p) d).
    destruct (CompressMore.compress_total format o p d1) as (cp & d2 & E & _ & _).
    rewrite E.
    exists cp, d2. destruct (R.is_s3 storage && s3Uploader) eqn:Es3.
    + eexists. split; [done|]. split; [|split; [|done]].
      * intros Hk.
        destruct (CompressMore.compress_known_exists format o p d1 Hk Hin)
          as (p' & d' & E' & Hp'). congruence.
      * intros _.
        destruct (CompressMore.queueForUpload_holds cp c sid s)
          as (u & Hu & H1 & H2 & _ & _ & H3 & H4). eauto 10.
    + eexists. split; [done|]. split; [|split; [done|done]].
      intros Hk.
      destruct (CompressMore.compress_known_exists format o p d1 Hk Hin)
        as (p' & d' & E' & Hp'). congruence.
Qed.

Lemma X13_witness :
  "/rec/a.guac"%string <> ""%string /\ "/rec/a.guac"%string ∈ R.files one_recording /\
  exists d' s',
    R.handleRecordingEnd (Some "gzip"%string) (Some "s3"%string) true obliging
      (Some "/rec/a.guac"%string) tt "s1" one_recording R.init =
      (Some "/rec/a.guac.gz"%string, d', s') /\
    "/rec/a.guac.gz"%string ∈ R.files d' /\
    exists u, u ∈ R.uploadQueue s' ++ R.flights s' /\
      R.filePath u = "/rec/a.guac.gz"%string.
Proof.
  assert (Hne : "/rec/a.guac"%string <> ""%string) by discriminate.
  assert (Hin : "/rec/a.guac"%string ∈ R.files one_recording)
    by (simpl; apply elem_of_singleton_2; reflexivity).
  split; [exact Hne|]. split; [exact Hin|].
  destruct (proj2 (X13_handleRecordingEnd unit (Some "gzip"%string) (Some "s3"%string) true
                     obliging tt "s1"%string one_recording R.init)
              "/rec/a.guac"%string Hne Hin)
    as (cp & d' & s' & E & Hex & Hq & _).
  assert (Hcp : cp = "/rec/a.guac.gz"%string).
  { vm_compute in E. injection E as <- _ _. reflexivity. }
  subst cp. exists d', s'. split; [exact E|]. split; [exact (Hex eq_refl)|].
  destruct (Hq eq_refl) as (u & Hu & _ & Hf & _). exists u. split; [exact Hu|exact Hf].
Defined.

(** ** The payloads of the notifications *)

Module SenderFacts.
Import Utils HeapFacts RefineFacts WebhookManager.

Lemma queueWebhook_holds {P} (p : P) t0 t1 (s : state P) :
  exists w, w ∈ queue (queueWebhook p t0 t1 s) ++ flights (queueWebhook p t0 t1 s) /\
    wid w = fresh s /\ payload w = p /\ attempts w = 0 /\ maxAttempts w = 3.
Proof.
  eexists {| wid := fresh s; payload := p; attempts := 0; maxAttempts := 3;
             nextRetry := t0 |}.
  split; [|done]. unfold queueWebhook, processQueue.
  cbn [processing queue set_fresh set_queue].
  destruct (processing s || _) eqn:E; simpl.
  - rewrite !elem_of_app, elem_of_cons. auto.
  - unfold loop_head. simpl. destruct (queue s) as [|w0 q]; simpl.
    + destruct (t0 >? t1); unfold flights; simpl;
        rewrite ?map_app, ?concat_app; simpl;
        repeat (rewrite elem_of_app || rewrite elem_of_cons); auto 10.
    + destruct (nextRetry w0 >? t1); unfold flights; simpl;
        rewrite ?map_app, ?concat_app; simpl;
        repeat (rewrite elem_of_app || rewrite elem_of_cons); auto 10.
Qed.

(** A new object reads as the tree of its properties. *)
Lemma stringify_alloc f h props js :
  stringify_props (stringify f h) props = Some js ->
  stringify (S f) (h ++ [OObj props]) (VRef (length h)) = Some (JObj js).
Proof.
  intros H. simpl. rewrite lookup_app_r by done. rewrite Nat.sub_diag. simpl.
  erewrite stringify_props_mono; [done| |exact H].
  intros x j. apply stringify_frame. intros l o. apply lookup_app_l_Some.
Qed.

(** The redacted copy of [connection.token?.meta || {}]. *)
Lemma sanitize_meta fuel f0 h meta j tm h1 :
  heap_distinct h -> stringify f0 h meta = Some j ->
  sanitizeWebhookPayload_at fuel
    (if truthy meta then (meta, h) else alloc (OObj []) h).2
    (if truthy meta then (meta, h) else alloc (OObj []) h).1 = Some (tm, h1) ->
  heap_distinct h1 /\ tm <> VUndefined /\
  exists f1, stringify f1 h1 tm = Some (sanitizeWebhookPayload (meta_or_empty meta j)).
Proof.
  intros Hd Hj Hrun. unfold meta_or_empty.
  destruct (truthy meta) eqn:Ht; unfold alloc in Hrun; cbn [fst snd] in Hrun.
  - destruct (sanitize_at_refines fuel f0 h meta j tm h1 Hd Hj Hrun) as [Hd1 Hread].
    split; [done|]. split; [|done].
    pose proof (sanitize_at_frame _ _ _ _ _ Hrun) as (_ & _ & Hr).
    destruct meta; simpl in Ht, Hrun; try done; try (by injection Hrun as <- _).
    destruct (Hr l eq_refl) as (l' & -> & _). done.
  - assert (Hd0 : heap_distinct (h ++ [OObj []])).
    { apply Forall_app. split; [done|]. constructor; [|constructor]. simpl. constructor. }
    assert (Hj0 : stringify 1 (h ++ [OObj []]) (VRef (length h)) = Some (JObj [])).
    { by apply (stringify_alloc 0 h [] []). }
    destruct (sanitize_at_refines fuel 1 _ _ _ tm h1 Hd0 Hj0 Hrun) as [Hd1 Hread].
    split; [done|]. split; [|done].
    pose proof (sanitize_at_frame _ _ _ _ _ Hrun) as (_ & _ & Hr).
    destruct (Hr (length h) eq_refl) as (l' & -> & _). done.
Qed.

Lemma stringify_more f h v j f' :
  stringify f h v = Some j -> stringify (f `max` f') h v = Some j.
Proof. apply stringify_mono. lia. Qed.

(** With enough fuel the redaction of the metadata returns. *)
Lemma sanitize_meta_total f0 h meta j :
  stringify f0 h meta = Some j ->
  exists fuel0, forall fuel, (fuel0 <= fuel)%nat ->
    exists tm h1,
      sanitizeWebhookPayload_at fuel
        (if truthy meta then (meta, h) else alloc (OObj []) h).2
        (if truthy meta then (meta, h) else alloc (OObj []) h).1 = Some (tm, h1).
Proof.
  intros Hj. destruct (truthy meta); unfold alloc; cbn [fst snd].
  - by eapply sanitize_at_total.
  - eapply (sanitize_at_total 1). by apply (stringify_alloc 0 h [] []).
Qed.

(** The payload of a session event, in the heap the sender leaves. *)
Lemma session_payload_reads fuel f0 h meta j tm h1 event timestamp sid :
  heap_distinct h -> stringify f0 h meta = Some j ->
  sanitizeWebhookPayload_at fuel
    (if truthy meta then (meta, h) else alloc (OObj []) h).2
    (if truthy meta then (meta, h) else alloc (OObj []) h).1 = Some (tm, h1) ->
  exists f1,
    stringify f1
      (h1 ++ [OObj [("event", VStr event); ("timestamp", VStr timestamp);
                    ("session_id", VStr sid); ("token_meta", tm)]%string])
      (VRef (length h1)) =
    Some (JObj [("event", JStr event); ("timestamp", JStr timestamp);
                ("session_id", JStr sid);
                ("token_meta", sanitizeWebhookPayload (meta_or_empty meta j))]%string).
Proof.
  intros Hd Hj Hrun.
  destruct (sanitize_meta _ _ _ _ _ _ _ Hd Hj Hrun) as (_ & Htm & f1 & Hread).
  exists (S f1). apply stringify_alloc. simpl.
  destruct f1; (destruct tm; [done|..]); simpl in *;
    first [congruence | by rewrite Hread].
Qed.

Lemma recording_payload_reads fuel f0 h meta j tm h1 timestamp sid bucket key :
  heap_distinct h -> stringify f0 h meta = Some j ->
  sanitizeWebhookPayload_at fuel
    (if truthy meta then (meta, h) else alloc (OObj []) h).2
    (if truthy meta then (meta, h) else alloc (OObj []) h).1 = Some (tm, h1) ->
  exists f1,
    stringify f1
      ((h1 ++ [OObj [("bucket", VStr bucket); ("key", VStr key)]%string]) ++
       [OObj [("event", VStr "recording_saved"); ("timestamp", VStr timestamp);
              ("session_id", VStr sid); ("token_meta", tm);
              ("recording", VRef (length h1))]%string])
      (VRef (length (h1 ++ [OObj [("bucket", VStr bucket); ("key", VStr key)]%string]))) =
    Some (JObj [("event", JStr "recording_saved"); ("timestamp", JStr timestamp);
                ("session_id", JStr sid);
                ("token_meta", sanitizeWebhookPayload (meta_or_empty meta j));
                ("recording", JObj [("bucket", JStr bucket); ("key", JStr key)])]%string).
Proof.
  intros Hd Hj Hrun.
  destruct (sanitize_meta _ _ _ _ _ _ _ Hd Hj Hrun) as (_ & Htm & f1 & Hread).
  set (rec := OObj [("bucket", VStr bucket); ("key", VStr key)]%string).
  assert (Hrec : stringify (S f1) (h1 ++ [rec]) (VRef (length h1)) =
                 Some (JObj [("bucket", JStr bucket); ("key", JStr key)]%string)).
  { apply stringify_alloc. by destruct f1. }
  assert (Htm' : stringify (S f1) (h1 ++ [rec]) tm =
                 Some (sanitizeWebhookPayload (meta_or_empty meta j))).
  { apply (stringify_mono f1); [lia|].
    eapply stringify_frame; [|exact Hread]. intros l o. apply lookup_app_l_Some. }
  exists (S (S f1)). apply stringify_alloc.
  cbn [stringify_props]. change (stringify (S f1) (h1 ++ [rec]) (VStr ?x)) with (Some (JStr x)).
  rewrite Hrec.
  destruct tm; [done|..]; first [by rewrite Htm' | simpl in Htm' |- *; congruence].
Qed.

Lemma sendSessionStarted_unfold fuel timestamp sessionId meta t0 t1 h s :
  sendSessionStarted fuel true timestamp sessionId meta t0 t1 h s =
  match sanitizeWebhookPayload_at fuel
          (if truthy meta then (meta, h) else alloc (OObj []) h).2
          (if truthy meta then (meta, h) else alloc (OObj []) h).1 with
  | None => None
  | Some (tm, h1) =>
      Some (h1 ++ [OObj [("event", VStr "session_started"); ("timestamp", VStr timestamp);
                         ("session_id", sessionId); ("token_meta", tm)]%string],
            queueWebhook (VRef (length h1)) t0 t1 s)
  end.
Proof.
  unfold sendSessionStarted. simpl. destruct (if truthy meta then _ else _) as [arg h0].
  simpl. by destruct (sanitizeWebhookPayload_at fuel h0 arg) as [[tm h1]|].
Qed.

Lemma sendSessionEnded_unfold fuel timestamp sessionId meta t0 t1 h s :
  sendSessionEnded fuel true timestamp sessionId meta t0 t1 h s =
  match sanitizeWebhookPayload_at fuel
          (if truthy meta then (meta, h) else alloc (OObj []) h).2
          (if truthy meta then (meta, h) else alloc (OObj []) h).1 with
  | None => None
  | Some (tm, h1) =>
      Some (h1 ++ [OObj [("event", VStr "session_ended"); ("timestamp", VStr timestamp);
                         ("session_id", sessionId); ("token_meta", tm)]%string],
            queueWebhook (VRef (length h1)) t0 t1 s)
  end.
Proof.
  unfold sendSessionEnded. simpl. destruct (if truthy meta then _ else _) as [arg h0].
  simpl. by destruct (sanitizeWebhookPayload_at fuel h0 arg) as [[tm h1]|].
Qed.

Lemma sendRecordingSaved_unfold fuel timestamp sessionId meta bucket key t0 t1 h s :
  sendRecordingSaved fuel true timestamp sessionId meta bucket key t0 t1 h s =
  match sanitizeWebhookPayload_at fuel
          (if truthy meta then (meta, h) else alloc (OObj []) h).2
          (if truthy meta then (meta, h) else alloc (OObj []) h).1 with
  | None => None
  | Some (tm, h1) =>
      Some ((h1 ++ [OObj [("bucket", bucket); ("key", key)]%string]) ++
            [OObj [("event", VStr "recording_saved"); ("timestamp", VStr timestamp);
                   ("session_id", sessionId); ("token_meta", tm);
                   ("recording", VRef (length h1))]%string],
            queueWebhook
              (VRef (length (h1 ++ [OObj [("bucket", bucket); ("key", key)]%string])))
              t0 t1 s)
  end.
Proof.
  unfold sendRecordingSaved. simpl. destruct (if truthy meta then _ else _) as [arg h0].
  simpl. by destruct (sanitizeWebhookPayload_at fuel h0 arg) as [[tm h1]|].
Qed.

End SenderFacts.

(** X14: when notifications are enabled, the payload that
    [sendSessionStarted] and [sendSessionEnded] queue reads as
    {event, timestamp, session_id, token_meta}, where [token_meta] is the
    redacted tree of [connection.token?.meta] ({} when there is none): what
    is queued holds '[REDACTED]' wherever the metadata holds a value under a
    key of the list.  With enough fuel both senders return; when
    notifications are disabled they queue nothing. *)
Theorem X14_session_payloads :
  forall (f0 : nat) (timestamp sid : string) (meta : Utils.val) (j : Utils.json)
         (t0 t1 : Z) (h : Utils.heap) (s : W.state Utils.val),
    Utils.heap_distinct h ->
    Utils.stringify f0 h meta = Some j ->
    (exists fuel0, forall fuel, (fuel0 <= fuel)%nat ->
       exists h1 s1 h2 s2,
         W.sendSessionStarted fuel true timestamp (Utils.VStr sid) meta t0 t1 h s
           = Some (h1, s1) /\
         W.sendSessionEnded fuel true timestamp (Utils.VStr sid) meta t0 t1 h s
           = Some (h2, s2)) /\
    (forall fuel h' s',
       W.sendSessionStarted fuel true timestamp (Utils.VStr sid) meta t0 t1 h s
         = Some (h', s') ->
       exists w f1,
         w ∈ W.queue s' ++ W.flights s' /\ W.wid w = W.fresh s /\
         Utils.stringify f1 h' (W.payload w) =
           Some (Utils.JObj
                   [("event", Utils.JStr "session_started");
                    ("timestamp", Utils.JStr timestamp);
                    ("session_id", Utils.JStr sid);
                    ("token_meta",
                     Utils.sanitizeWebhookPayload (W.meta_or_empty meta j))]%string)) /\
    (forall fuel h' s',
       W.sendSessionEnded fuel true timestamp (Utils.VStr sid) meta t0 t1 h s
         = Some (h', s') ->
       exists w f1,
         w ∈ W.queue s' ++ W.flights s' /\ W.wid w = W.fresh s /\
         Utils.stringify f1 h' (W.payload w) =
           Some (Utils.JObj
                   [("event", Utils.JStr "session_ended");
                    ("timestamp", Utils.JStr timestamp);
                    ("session_id", Utils.JStr sid);
                    ("token_meta",
                     Utils.sanitizeWebhookPayload (W.meta_or_empty meta j))]%string)) /\
    (forall fuel,
       W.sendSessionStarted fuel false timestamp (Utils.VStr sid) meta t0 t1 h s
         = Some (h, s) /\
       W.sendSessionEnded fuel false timestamp (Utils.VStr sid) meta t0 t1 h s
         = Some (h, s)).
Proof.
  intros f0 timestamp sid meta j t0 t1 h s Hd Hj. split; [|split; [|split]].
  - destruct (SenderFacts.sanitize_meta_total f0 h meta j Hj) as [fuel0 Hret].
    exists fuel0. intros fuel Hfuel. destruct (Hret fuel Hfuel) as (tm & h1 & E).
    rewrite SenderFacts.sendSessionStarted_unfold, SenderFacts.sendSessionEnded_unfold, E.
    eauto 10.
  - intros fuel h' s' Hrun. rewrite SenderFacts.sendSessionStarted_unfold in Hrun.
    destruct (Utils.sanitizeWebhookPayload_at _ _ _) as [[tm h1]|] eqn:E; [|done].
    injection Hrun as <- <-.
    destruct (SenderFacts.queueWebhook_holds (Utils.VRef (length h1)) t0 t1 s)
      as (w & Hw & Hid & Hp & _).
    destruct (SenderFacts.session_payload_reads fuel f0 h meta j tm h1
                "session_started" timestamp sid Hd Hj E) as [f1 Hread].
    exists w, f1. rewrite Hp. done.
  - intros fuel h' s' Hrun. rewrite SenderFacts.sendSessionEnded_unfold in Hrun.
    destruct (Utils.sanitizeWebhookPayload_at _ _ _) as [[tm h1]|] eqn:E; [|done].
    injection Hrun as <- <-.
    destruct (SenderFacts.queueWebhook_holds (Utils.VRef (length h1)) t0 t1 s)
      as (w & Hw & Hid & Hp & _).
    destruct (SenderFacts.session_payload_reads fuel f0 h meta j tm h1
                "session_ended" timestamp sid Hd Hj E) as [f1 Hread].
    exists w, f1. rewrite Hp. done.
  - intros fuel. done.
Qed.

Lemma X14_witness :
  Utils.heap_distinct meta_heap /\
  Utils.stringify 2 meta_heap (Utils.VRef 1) = Some meta_tree /\
  exists h' s' w f1,
    W.sendSessionEnded 5 true "2024-01-01T00:00:00.000Z" (Utils.VStr "s1") (Utils.VRef 1)
      0 0 meta_heap W.init = Some (h', s') /\
    w ∈ W.queue s' ++ W.flights s' /\
    Utils.stringify f1 h' (W.payload w) =
      Some (Utils.JObj
              [("event", Utils.JStr "session_ended");
               ("timestamp", Utils.JStr "2024-01-01T00:00:00.000Z");
               ("session_id", Utils.JStr "s1");
               ("token_meta",
                Utils.JObj [("userId", Utils.JStr "u1");
                            ("api_key", Utils.JStr "[REDACTED]");
                            ("tags", Utils.JArr [Utils.JStr "a"])])]%string).
Proof.
  assert (Hd : Utils.heap_distinct meta_heap).
  { constructor; [exact I|]. constructor; [|constructor].
    apply (bool_decide_unpack _). vm_compute. exact I. }
  split; [exact Hd|]. split; [reflexivity|].
  destruct (W.sendSessionEnded 5 true "2024-01-01T00:00:00.000Z" (Utils.VStr "s1")
              (Utils.VRef 1) 0 0 meta_heap W.init) as [[h' s']|] eqn:E; [|discriminate E].
  destruct (X14_session_payloads 2 "2024-01-01T00:00:00.000Z" "s1" (Utils.VRef 1) meta_tree
              0 0 meta_heap W.init Hd eq_refl) as (_ & _ & Hended & _).
  destruct (Hended 5%nat h' s' E) as (w & f1 & Hw & _ & Hread).
  exists h', s', w, f1. split; [reflexivity|]. split; [exact Hw|exact Hread].
Defined.

(** X15: when notifications are enabled, the payload that
    [sendRecordingSaved] queues reads as {event: 'recording_saved',
    timestamp, session_id, token_meta, recording: {bucket, key}}, where
    [token_meta] is the redacted tree of [connection.token?.meta] ({} when
    there is none) and [recording] is as given, not redacted.  With enough
    fuel the sender returns; when notifications are disabled it queues
    nothing. *)
Theorem X15_recording_saved_payload :
  forall (f0 : nat) (timestamp sid bucket key : string) (meta : Utils.val) (j : Utils.json)
         (t0 t1 : Z) (h : Utils.heap) (s : W.state Utils.val),
    Utils.heap_distinct h ->
    Utils.stringify f0 h meta = Some j ->
    (exists fuel0, forall fuel, (fuel0 <= fuel)%nat ->
       exists h1 s1,
         W.sendRecordingSaved fuel true timestamp (Utils.VStr sid) meta
           (Utils.VStr bucket) (Utils.VStr key) t0 t1 h s = Some (h1, s1)) /\
    (forall fuel h' s',
       W.sendRecordingSaved fuel true timestamp (Utils.VStr sid) meta
         (Utils.VStr bucket) (Utils.VStr key) t0 t1 h s = Some (h', s') ->
       exists w f1,
         w ∈ W.queue s' ++ W.flights s' /\ W.wid w = W.fresh s /\
         Utils.stringify f1 h' (W.payload w) =
           Some (Utils.JObj
                   [("event", Utils.JStr "recording_saved");
                    ("timestamp", Utils.JStr timestamp);
                    ("session_id", Utils.JStr sid);
                    ("token_meta",
                     Utils.sanitizeWebhookPayload (W.meta_or_empty meta j));
                    ("recording",
                     Utils.JObj [("bucket", Utils.JStr bucket);
                                 ("key", Utils.JStr key)])]%string)) /\
    (forall fuel,
       W.sendRecordingSaved fuel false timestamp (Utils.VStr sid) meta
         (Utils.VStr bucket) (Utils.VStr key) t0 t1 h s = Some (h, s)).
Proof.
  intros f0 timestamp sid bucket key meta j t0 t1 h s Hd Hj. split; [|split].
  - destruct (SenderFacts.sanitize_meta_total f0 h meta j Hj) as [fuel0 Hret].
    exists fuel0. intros fuel Hfuel. destruct (Hret fuel Hfuel) as (tm & h1 & E).
    rewrite SenderFacts.sendRecordingSaved_unfold, E. eauto.
  - intros fuel h' s' Hrun. rewrite SenderFacts.sendRecordingSaved_unfold in Hrun.
    destruct (Utils.sanitizeWebhookPayload_at _ _ _) as [[tm h1]|] eqn:E; [|done].
    injection Hrun as <- <-.
    destruct (SenderFacts.queueWebhook_holds
                (Utils.VRef (length (h1 ++ [Utils.OObj [("bucket", Utils.VStr bucket);
                                                        ("key", Utils.VStr key)]%string])))
                t0 t1 s) as (w & Hw & Hid & Hp & _).
    destruct (SenderFacts.recording_payload_reads fuel f0 h meta j tm h1
                timestamp sid bucket key Hd Hj E) as [f1 Hread].
    exists w, f1. rewrite Hp. done.
  - intros fuel. done.
Qed.

Lemma X15_witness :
  Utils.heap_distinct meta_heap /\
  Utils.stringify 2 meta_heap (Utils.VRef 1) = Some meta_tree /\
  exists h' s' w f1,
    W.sendRecordingSaved 5 true "2024-01-01T00:00:00.000Z" (Utils.VStr "s1") (Utils.VRef 1)
      (Utils.VStr "recordings") (Utils.VStr "u1/a.guac.gz") 0 0 meta_heap W.init
      = Some (h', s') /\
    w ∈ W.queue s' ++ W.flights s' /\
    Utils.stringify f1 h' (W.payload w) =
      Some (Utils.JObj
              [("event", Utils.JStr "recording_saved");
               ("timestamp", Utils.JStr "2024-01-01T00:00:00.000Z");
               ("session_id", Utils.JStr "s1");
               ("token_meta",
                Utils.JObj [("userId", Utils.JStr "u1");
                            ("api_key", Utils.JStr "[REDACTED]");
                            ("tags", Utils.JArr [Utils.JStr "a"])]);
               ("recording",
                Utils.JObj [("bucket", Utils.JStr "recordings");
                            ("key", Utils.JStr "u1/a.guac.gz")])]%string).
Proof.
  assert (Hd : Utils.heap_distinct meta_heap).
  { constructor; [exact I|]. constructor; [|constructor].
    apply (bool_decide_unpack _). vm_compute. exact I. }
  split; [exact Hd|]. split; [reflexivity|].
  destruct (W.sendRecordingSaved 5 true "2024-01-01T00:00:00.000Z" (Utils.VStr "s1")
              (Utils.VRef 1) (Utils.VStr "recordings") (Utils.VStr "u1/a.guac.gz")
              0 0 meta_heap W.init) as [[h' s']|] eqn:E; [|discriminate E].
  destruct (X15_recording_saved_payload 2 "2024-01-01T00:00:00.000Z" "s1" "recordings"
              "u1/a.guac.gz" (Utils.VRef 1) meta_tree 0 0 meta_heap W.init Hd eq_refl)
    as (_ & Hsaved & _).
  destruct (Hsaved 5%nat h' s' E) as (w & f1 & Hw & _ & Hread).
  exists h', s', w, f1. split; [reflexivity|]. split; [exact Hw|exact Hread].
Defined.

(** ** Templates *)

Module TemplateFacts.
Import Utils.

Lemma sapp_cons c (a b : string) : (String c a +:+ b)%string = String c (a +:+ b).
Proof. reflexivity. Qed.

Lemma sapp_nil_r (a : string) : (a +:+ "")%string = a.
Proof. induction a as [|x a IH]; [done|]. rewrite sapp_cons. by rewrite IH. Qed.

Lemma sapp_assoc (a b c : string) : ((a +:+ b) +:+ c)%string = (a +:+ (b +:+ c))%string.
Proof.
  induction a as [|x a IH]; [done|]. rewrite !sapp_cons. by rewrite IH.
Qed.

Lemma slength_app (a b : string) :
  String.length (a +:+ b) = (String.length a + String.length b)%nat.
Proof.
  induction a as [|x a IH]; [done|]. rewrite sapp_cons. simpl. by rewrite IH.
Qed.

Lemma span_word_app s : ((span_word s).1 +:+ (span_word s).2)%string = s.
Proof.
  induction s as [|c r IH]; [done|]. simpl. destruct (is_word c); [|done].
  destruct (span_word r) as [w rest]. simpl in *. rewrite sapp_cons. by rewrite IH.
Qed.

(** The run stops at the end or in front of a character that is no word
    character. *)
Lemma span_word_stops s c r : (span_word s).2 = String c r -> is_word c = false.
Proof.
  induction s as [|x s IH]; [done|]. simpl. destruct (is_word x) eqn:E.
  - destruct (span_word s) as [w rest]. simpl in *. exact IH.
  - simpl. by intros [= -> _].
Qed.

Lemma span_word_run s : all_word (span_word s).1 = true.
Proof.
  induction s as [|x s IH]; [done|]. simpl. destruct (is_word x) eqn:E; [|done].
  destruct (span_word s) as [w rest]. simpl in *. by rewrite E.
Qed.

(** A run of word characters in front of something else. *)
Lemma span_word_key w t :
  all_word w = true -> (forall c r, t = String c r -> is_word c = false) ->
  span_word (w +:+ t) = (w, t).
Proof.
  intros Hw Ht. induction w as [|x w IH].
  - change (span_word t = (EmptyString, t)). destruct t as [|c r]; [done|].
    simpl. by rewrite (Ht c r eq_refl).
  - simpl in Hw. apply andb_prop in Hw as [Hx Hw]. rewrite sapp_cons. simpl.
    rewrite Hx, (IH Hw). done.
Qed.

(** What follows a run that stopped in the string is still what follows. *)
Lemma span_word_more s t :
  (span_word s).2 <> EmptyString ->
  span_word (s +:+ t) = ((span_word s).1, ((span_word s).2 +:+ t)%string).
Proof.
  induction s as [|x s IH]; [done|]. rewrite sapp_cons. simpl.
  destruct (is_word x) eqn:E; [|done].
  destruct (span_word s) as [w rest]. simpl in *. intros H. by rewrite (IH H).
Qed.

Lemma span_word_whole s :
  (span_word s).2 = EmptyString -> (span_word s).1 = s /\ all_word s = true.
Proof.
  intros H. pose proof (span_word_app s) as Ha. pose proof (span_word_run s) as Hr.
  rewrite H, sapp_nil_r in Ha. by rewrite Ha in Hr.
Qed.

(** What the regular expression matches. *)
Lemma match_placeholder_spec s key rest :
  match_placeholder s = Some (key, rest) ->
  s = (placeholder key +:+ rest)%string /\ key <> EmptyString /\ all_word key = true.
Proof.
  unfold match_placeholder. destruct s as [|c1 [|c2 r]]; try done.
  destruct (Ascii.eqb_spec c1 "{"); [|done]. destruct (Ascii.eqb_spec c2 "{"); [|done].
  simpl. pose proof (span_word_app r) as Ha. pose proof (span_word_run r) as Hr.
  destruct (span_word r) as [[|c w] [|d1 [|d2 rest']]]; try done. simpl in *.
  destruct (Ascii.eqb_spec d1 "}"); [|done]. destruct (Ascii.eqb_spec d2 "}"); [|done].
  simpl. intros [= <- <-]. subst. split; [|done].
  unfold placeholder. rewrite !sapp_assoc. reflexivity.
Qed.

Lemma match_placeholder_length s key rest :
  match_placeholder s = Some (key, rest) -> (String.length rest < String.length s)%nat.
Proof.
  intros H. apply match_placeholder_spec in H as (-> & _ & _).
  unfold placeholder. rewrite !slength_app. simpl. lia.
Qed.

(** A placeholder is matched. *)
Lemma match_placeholder_here key b :
  key <> EmptyString -> all_word key = true ->
  match_placeholder (placeholder key +:+ b) = Some (key, b).
Proof.
  intros Hne Hw. unfold placeholder. rewrite !sapp_assoc.
  change ("{{" +:+ (key +:+ ("}}" +:+ b)))%string
    with (String "{" (String "{" (key +:+ String "}" (String "}" b)))).
  unfold match_placeholder. simpl.
  rewrite span_word_key; [|done|by intros c r [= <- _]].
  destruct key as [|c w]; [done|]. simpl. done.
Qed.

(** *** The replacement *)

Lemma replace_from_fuel cb n : forall m s,
  (String.length s <= n)%nat -> (String.length s <= m)%nat ->
  replace_from n cb s = replace_from m cb s.
Proof.
  induction n as [|n IH]; intros m s Hn Hm.
  - destruct s; [|simpl in Hn; lia]. by destruct m.
  - destruct m as [|m].
    + destruct s; [done|simpl in Hm; lia].
    + simpl. destruct (match_placeholder s) as [[key rest]|] eqn:E.
      * apply match_placeholder_length in E. rewrite (IH m rest); [done|lia|lia].
      * destruct s as [|c r]; [done|]. simpl in *. rewrite (IH m r); [done|lia|lia].
Qed.

(** One step of the replacement. *)
Lemma replace_unfold cb s :
  replace_placeholders cb s =
  match match_placeholder s with
  | Some (key, rest) =>
      (default (placeholder key) (cb key) +:+ replace_placeholders cb rest)%string
  | None =>
      match s with
      | EmptyString => EmptyString
      | String c r => String c (replace_placeholders cb r)
      end
  end.
Proof.
  unfold replace_placeholders. destruct s as [|c r]; [done|].
  cbn [String.length replace_from].
  destruct (match_placeholder (String c r)) as [[key rest]|] eqn:E; [|done].
  apply match_placeholder_length in E. simpl in E.
  rewrite (replace_from_fuel cb (String.length r) (String.length rest) rest); [done|lia|lia].
Qed.

(** A callback that returns the match for every key changes nothing. *)
Lemma replace_none cb s :
  (forall key, all_word key = true -> cb key = None) -> replace_placeholders cb s = s.
Proof.
  intros Hcb. unfold replace_placeholders. generalize (String.length s) as n.
  intros n. revert s. induction n as [|n IH]; intros s; [done|]. simpl.
  destruct (match_placeholder s) as [[key rest]|] eqn:E.
  - apply match_placeholder_spec in E as (-> & _ & Hw). by rewrite (Hcb key Hw), IH.
  - destruct s as [|c r]; [done|]. by rewrite IH.
Qed.

(** The result depends on the callback at keys only. *)
Lemma replace_ext cb cb' s :
  (forall key, key <> EmptyString -> all_word key = true -> cb key = cb' key) ->
  replace_placeholders cb s = replace_placeholders cb' s.
Proof.
  intros Hcb. unfold replace_placeholders. generalize (String.length s) as n.
  intros n. revert s. induction n as [|n IH]; intros s; [done|]. simpl.
  destruct (match_placeholder s) as [[key rest]|] eqn:E.
  - apply match_placeholder_spec in E as (-> & Hne & Hw). by rewrite (Hcb key Hne Hw), IH.
  - destruct s as [|c r]; [done|]. by rewrite IH.
Qed.

(** No match where no two braces open. *)
Lemma match_placeholder_prefix s key rest :
  match_placeholder s = Some (key, rest) -> String.prefix "{{" s = true.
Proof.
  intros H. apply match_placeholder_spec in H as (-> & _ & _).
  unfold placeholder. rewrite !sapp_assoc. by destruct (key +:+ _)%string.
Qed.

Lemma includes_unfold s pat :
  includes s pat =
  String.prefix pat s || match s with EmptyString => false | String _ r => includes r pat end.
Proof. by destruct s. Qed.

Lemma includes_after c s : c <> "{"%char -> includes (String c s) "{{" = includes s "{{".
Proof.
  intros Hc. rewrite includes_unfold.
  replace (String.prefix "{{" (String c s)) with false; [done|].
  cbn [String.prefix]. by destruct (ascii_dec "{" c) as [<-|].
Qed.

Lemma replace_plain cb s : includes s "{{" = false -> replace_placeholders cb s = s.
Proof.
  unfold replace_placeholders. generalize (String.length s) as n.
  intros n. revert s. induction n as [|n IH]; intros s Hs; [done|]. simpl.
  rewrite includes_unfold in Hs. apply orb_false_elim in Hs as [Hp Hs].
  destruct (match_placeholder s) as [[key rest]|] eqn:E.
  - apply match_placeholder_prefix in E. congruence.
  - destruct s as [|c r]; [done|]. by rewrite IH.
Qed.

(** A match in a string is a match in a longer one. *)
Lemma match_placeholder_more a t key rest :
  match_placeholder a = Some (key, rest) ->
  match_placeholder (a +:+ t) = Some (key, (rest +:+ t)%string).
Proof.
  unfold match_placeholder. destruct a as [|c1 [|c2 r]]; try done.
  rewrite !sapp_cons.
  destruct (Ascii.eqb c1 "{" && Ascii.eqb c2 "{"); [|done].
  pose proof (span_word_more r t) as Hm.
  destruct (span_word r) as [[|c w] [|d1 [|d2 rest']]]; try done.
  rewrite Hm by done. simpl.
  destruct (Ascii.eqb d1 "}" && Ascii.eqb d2 "}"); [|done]. by intros [= <- <-].
Qed.

(** In front of a placeholder, no match begins that was not there. *)
Lemma match_placeholder_none a key b :
  a <> EmptyString -> match_placeholder a = None ->
  match_placeholder (a +:+ (placeholder key +:+ b)) = None.
Proof.
  intros Hne Ha.
  assert (Ht : exists t, (placeholder key +:+ b)%string = String "{" (String "{" t)).
  { unfold placeholder. rewrite !sapp_assoc. eexists. reflexivity. }
  destruct Ht as [t ->].
  unfold match_placeholder in *. destruct a as [|c1 [|c2 r]]; [done| |].
  - rewrite !sapp_cons. change (""%string +:+ ?x)%string with x.
    destruct (Ascii.eqb c1 "{"); [|done]. simpl. done.
  - rewrite !sapp_cons.
    destruct (Ascii.eqb c1 "{" && Ascii.eqb c2 "{"); [|done].
    destruct (span_word r) as [w rest] eqn:Er.
    destruct rest as [|d1 rest'].
    + destruct (span_word_whole r) as [Hw Hall]; [by rewrite Er|].
      rewrite Er in Hw. simpl in Hw. subst w.
      rewrite span_word_key; [|done|by intros c r0 [= <- _]].
      destruct r; [done|]. simpl. done.
    + pose proof (span_word_more r (String "{" (String "{" t))) as Hm.
      rewrite Er in Hm. simpl in Hm. rewrite Hm by done. rewrite sapp_cons.
      destruct w as [|c w]; [done|].
      destruct rest' as [|d2 rest''].
      * change (""%string +:+ ?x)%string with x.
        destruct (Ascii.eqb d1 "}"); simpl; done.
      * rewrite sapp_cons. by destruct (Ascii.eqb d1 "}" && Ascii.eqb d2 "}").
Qed.

(** Text, a placeholder, text: the placeholder is replaced by what the
    callback returns, as it is, and the texts are replaced on their own. *)
Lemma replace_app cb key b :
  key <> EmptyString -> all_word key = true ->
  forall a,
    replace_placeholders cb (a +:+ (placeholder key +:+ b)) =
    (replace_placeholders cb a +:+
     (default (placeholder key) (cb key) +:+ replace_placeholders cb b))%string.
Proof.
  intros Hne Hw a.
  remember (String.length a) as n eqn:Hn. revert a Hn.
  induction n as [n IH] using lt_wf_ind. intros a Hn.
  destruct a as [|c r].
  - change (""%string +:+ ?x)%string with x.
    rewrite (replace_unfold cb (placeholder key +:+ b)), match_placeholder_here by done.
    reflexivity.
  - rewrite (replace_unfold cb (String c r +:+ _)), (replace_unfold cb (String c r)).
    destruct (match_placeholder (String c r)) as [[k rest]|] eqn:E.
    + rewrite (match_placeholder_more _ _ _ _ E).
      pose proof (match_placeholder_length _ _ _ E) as Hlen.
      rewrite (IH (String.length rest)); [|lia|done]. by rewrite !sapp_assoc.
    + rewrite match_placeholder_none by done. rewrite !sapp_cons.
      rewrite (IH (String.length r)); [done|simpl in Hn; lia|done].
Qed.

(** *** The templates of the code *)

Section Callbacks.
Variable proto : string -> option tvalue.

(** The callback of a template whose placeholders are filled by [fill]. *)
Lemma replace_fill (value : string -> option tvalue) a key b :
  key <> EmptyString -> all_word key = true ->
  includes a "{{" = false -> includes b "{{" = false ->
  replace_placeholders
    (fun k => match value k with
              | Some v => if truthy_t v then Some (show v) else None
              | None => None
              end)
    (a +:+ (placeholder key +:+ b)) =
  (a +:+ (fill (value key) key +:+ b))%string.
Proof.
  intros Hne Hw Ha Hb. rewrite replace_app by done.
  rewrite !replace_plain by done. unfold fill.
  destruct (value key) as [v|]; [|done]. by destruct (truthy_t v).
Qed.

Lemma sapp_not_empty (a b : string) : b <> EmptyString -> (a +:+ b)%string <> EmptyString.
Proof. intros Hb. destruct a; [done|]. by rewrite sapp_cons. Qed.

Lemma placeholder_not_empty key : placeholder key <> EmptyString.
Proof. done. Qed.

End Callbacks.

End TemplateFacts.

(** ** The key of a recording in the bucket *)

Module KeyFacts.
Import Utils.

(** The key made from the default template. *)
Lemma generateS3Key_default proto filename meta cfg :
  includes filename "{{" = false ->
  cfg = None \/ cfg = Some ""%string ->
  S3Uploader.generateS3Key proto cfg filename meta =
    match Utils.read proto meta "userId" with
    | Some v =>
        if Utils.truthy_t v
        then ("recordings/" +:+ Utils.show v +:+ "/" +:+ filename)%string
        else ("recordings/" +:+ filename)%string
    | None => ("recordings/" +:+ filename)%string
    end.
Proof.
  intros Hf Hcfg. unfold S3Uploader.generateS3Key.
  set (cb := fun key : string => if String.eqb key "filename" then _ else _).
  assert (Ht : match cfg with
               | Some t => if String.eqb t "" then
                   (if match Utils.read proto meta "userId" with
                        | Some v => Utils.truthy_t v | None => false end
                    then ("recordings/{{userId}}/" +:+ filename)%string
                    else ("recordings/" +:+ filename)%string) else t
               | None =>
                   (if match Utils.read proto meta "userId" with
                        | Some v => Utils.truthy_t v | None => false end
                    then ("recordings/{{userId}}/" +:+ filename)%string
                    else ("recordings/" +:+ filename)%string)
               end =
               (if match Utils.read proto meta "userId" with
                   | Some v => Utils.truthy_t v | None => false end
                then ("recordings/{{userId}}/" +:+ filename)%string
                else ("recordings/" +:+ filename)%string))
    by (by destruct Hcfg as [->| ->]).
  rewrite Ht. clear Ht.
  assert (Hplain : forall p, p = "recordings/"%string \/ p = "/"%string ->
            Utils.replace_placeholders cb (p +:+ filename) = (p +:+ filename)%string).
  { intros p Hp. apply TemplateFacts.replace_plain.
    destruct Hp as [->| ->]; rewrite !TemplateFacts.sapp_cons;
      change ("" +:+ filename)%string with filename;
      rewrite !TemplateFacts.includes_after by done; exact Hf. }
  destruct (Utils.read proto meta "userId") as [v|] eqn:Ev;
    [destruct (Utils.truthy_t v) eqn:Et|]; try (by apply Hplain; left).
  change ("recordings/{{userId}}/" +:+ filename)%string
    with ("recordings/" +:+ (Utils.placeholder "userId" +:+ ("/" +:+ filename)))%string.
  rewrite TemplateFacts.replace_app by done.
  rewrite (TemplateFacts.replace_plain _ "recordings/") by done.
  rewrite (Hplain "/"%string) by (by right).
  unfold cb. simpl. by rewrite Ev, Et.
Qed.

End KeyFacts.

(** X16: [generateFilename] returns 'recording.guac' for a missing or empty
    template and a template without '{{' as it is.  In a template made of
    text, one placeholder and text, the placeholder is replaced by the value
    of its key, converted to a string and put in as it is, when [data] (or,
    for [timestamp], the time with ':' and '.' turned into '-', or
    [Object.prototype]) has a truthy value for it; otherwise the placeholder
    stays.  A [timestamp] of [data] takes the place of the time. *)
Theorem X16_generateFilename :
  forall (proto : string -> option Utils.tvalue) (iso : string)
         (data : string -> option Utils.tvalue),
    Utils.generateFilename proto None iso data = "recording.guac"%string /\
    Utils.generateFilename proto (Some ""%string) iso data = "recording.guac"%string /\
    (forall t, t <> ""%string -> Utils.includes t "{{" = false ->
       Utils.generateFilename proto (Some t) iso data = t) /\
    (forall a key b,
       key <> ""%string -> Utils.all_word key = true ->
       Utils.includes a "{{" = false -> Utils.includes b "{{" = false ->
       Utils.generateFilename proto (Some (a +:+ (Utils.placeholder key +:+ b))%string) iso data =
         (a +:+ (Utils.fill
                   (match data key with
                    | Some v => Some v
                    | None =>
                        if String.eqb key "timestamp" then Some (Utils.TStr (Utils.dashes iso))
                        else proto key
                    end) key +:+ b))%string).
Proof.
  intros proto iso data. split; [done|]. split; [done|]. split.
  - intros t Hne Hplain. unfold Utils.generateFilename.
    rewrite (proj2 (String.eqb_neq t "") Hne). by apply TemplateFacts.replace_plain.
  - intros a key b Hne Hw Ha Hb. unfold Utils.generateFilename.
    assert (Ht : (a +:+ (Utils.placeholder key +:+ b))%string <> ""%string).
    { apply TemplateFacts.sapp_not_empty, not_eq_sym.
      unfold Utils.placeholder. rewrite !TemplateFacts.sapp_assoc. done. }
    rewrite (proj2 (String.eqb_neq _ "") Ht).
    rewrite (TemplateFacts.replace_fill
               (Utils.read proto (Utils.templateData (Utils.dashes iso) data))) by done.
    unfold Utils.read, Utils.templateData. destruct (data key) as [v|]; [done|].
    by destruct (String.eqb key "timestamp").
Qed.

Lemma X16_witness :
  "userId"%string <> ""%string /\ Utils.all_word "userId" = true /\
  Utils.includes "rec/" "{{" = false /\ Utils.includes ".guac" "{{" = false /\
  Utils.generateFilename bare (Some "rec/{{userId}}.guac"%string) "2024-01-01T00:00:00.000Z"
    meta_u1 = "rec/u1.guac"%string /\
  Utils.generateFilename bare (Some "rec/{{userId}}.guac"%string) "2024-01-01T00:00:00.000Z"
    bare = "rec/{{userId}}.guac"%string.
Proof.
  assert (Hne : "userId"%string <> ""%string) by discriminate.
  split; [exact Hne|]. split; [reflexivity|]. split; [reflexivity|].
  split; [reflexivity|].
  destruct (X16_generateFilename bare "2024-01-01T00:00:00.000Z" meta_u1) as (_ & _ & _ & H1).
  destruct (X16_generateFilename bare "2024-01-01T00:00:00.000Z" bare) as (_ & _ & _ & H2).
  split.
  - exact (H1 "rec/"%string "userId"%string ".guac"%string Hne eq_refl eq_refl eq_refl).
  - exact (H2 "rec/"%string "userId"%string ".guac"%string Hne eq_refl eq_refl eq_refl).
Defined.

(** X17: with no [recordings_filename] configured, the name of a recording
    is 'session-<sessionId>-<timestamp>.guac' followed by the extension of
    the compression format, where a property [sessionId] or [timestamp] of
    the token metadata takes the place of the session id or of the time,
    and a value that is falsy leaves its placeholder in the name.  So with
    the format 'gzip' the name under which the recording is written already
    ends in '.guac.gz'. *)
Theorem X17_generateRecordingFilename :
  forall (proto : string -> option Utils.tvalue) (recordings_filename format : option string)
         (iso : string) (sessionId : Utils.tvalue) (connectionId : option Utils.tvalue)
         (meta : option (string -> option Utils.tvalue)),
    recordings_filename = None \/ recordings_filename = Some ""%string ->
    let own key := match meta with Some m => m key | None => None end in
    R.generateRecordingFilename proto recordings_filename format iso sessionId
      connectionId meta =
      ("session-" +:+
       Utils.fill (Some (default sessionId (own "sessionId"))) "sessionId" +:+ "-" +:+
       Utils.fill (Some (default (Utils.TStr (Utils.dashes iso)) (own "timestamp"))) "timestamp" +:+
       ".guac" +:+
       match format with
       | Some f => Utils.getFileExtensionForCompression f
       | None => ""
       end)%string.
Proof.
  intros proto recordings_filename format iso sessionId connectionId meta Hcfg own.
  unfold R.generateRecordingFilename.
  assert (Ht : match recordings_filename with
               | Some t => if String.eqb t "" then "session-{{sessionId}}-{{timestamp}}.guac"
                           else t
               | None => "session-{{sessionId}}-{{timestamp}}.guac"
               end = "session-{{sessionId}}-{{timestamp}}.guac"%string)
    by (by destruct Hcfg as [->| ->]).
  rewrite Ht. clear Ht. fold own.
  unfold Utils.generateFilename.
  change (String.eqb "session-{{sessionId}}-{{timestamp}}.guac" "") with false.
  cbv iota.
  change "session-{{sessionId}}-{{timestamp}}.guac"%string
    with ("session-" +:+ (Utils.placeholder "sessionId" +:+
            ("-" +:+ (Utils.placeholder "timestamp" +:+ ".guac"))))%string.
  rewrite TemplateFacts.replace_app by done.
  rewrite (TemplateFacts.replace_plain _ "session-") by done.
  rewrite TemplateFacts.replace_app by done.
  rewrite (TemplateFacts.replace_plain _ ".guac") by done.
  change (Utils.replace_placeholders ?cb "-") with "-"%string.
  rewrite !TemplateFacts.sapp_assoc. unfold Utils.read, Utils.templateData, Utils.fill.
  subst own. simpl.
  destruct meta as [m|]; [destruct (m "sessionId"%string) as [v1|],
                                   (m "timestamp"%string) as [v2|]|]; simpl;
    repeat match goal with |- context [Utils.truthy_t ?v] => destruct (Utils.truthy_t v) end;
    try destruct (negb (String.eqb (Utils.dashes iso) ""));
    reflexivity.
Qed.

Lemma X17_witness :
  R.generateRecordingFilename bare None (Some "gzip"%string) "2024-01-01T00:00:00.000Z"
    (Utils.TStr "s-456") None (Some meta_u1) =
    "session-s-456-2024-01-01T00-00-00-000Z.guac.gz"%string.
Proof.
  exact (X17_generateRecordingFilename bare None (Some "gzip"%string)
           "2024-01-01T00:00:00.000Z" (Utils.TStr "s-456") None (Some meta_u1)
           (or_introl eq_refl)).
Defined.

(** X18: with no [s3_key_template] configured and a file name without
    '{{', the key of a recording is 'recordings/<userId>/<filename>' when
    the token metadata has a truthy [userId], and 'recordings/<filename>'
    when it has not; in a configured template made of text that surrounds
    '{{filename}}' the placeholder is replaced by the file name. *)
Theorem X18_generateS3Key :
  forall (proto : string -> option Utils.tvalue) (filename : string)
         (meta : string -> option Utils.tvalue),
    Utils.includes filename "{{" = false ->
    (forall cfg, cfg = None \/ cfg = Some ""%string ->
       S3Uploader.generateS3Key proto cfg filename meta =
         match Utils.read proto meta "userId" with
         | Some v =>
             if Utils.truthy_t v
             then ("recordings/" +:+ Utils.show v +:+ "/" +:+ filename)%string
             else ("recordings/" +:+ filename)%string
         | None => ("recordings/" +:+ filename)%string
         end) /\
    (forall a b,
       Utils.includes a "{{" = false -> Utils.includes b "{{" = false ->
       S3Uploader.generateS3Key proto (Some (a +:+ ("{{filename}}" +:+ b))%string) filename meta =
         (a +:+ (filename +:+ b))%string).
Proof.
  intros proto filename meta Hf. split.
  - intros cfg Hcfg. by apply KeyFacts.generateS3Key_default.
  - intros a b Ha Hb. unfold S3Uploader.generateS3Key.
    set (cb := fun key : string => if String.eqb key "filename" then _ else _).
    assert (Hne : (a +:+ ("{{filename}}" +:+ b))%string <> ""%string).
    { apply TemplateFacts.sapp_not_empty. done. }
    rewrite (proj2 (String.eqb_neq _ "") Hne).
    change ("{{filename}}" +:+ b)%string with (Utils.placeholder "filename" +:+ b)%string.
    rewrite TemplateFacts.replace_app by done.
    by rewrite !TemplateFacts.replace_plain by done.
Qed.

Lemma X18_witness :
  Utils.includes "a.guac.gz" "{{" = false /\
  S3Uploader.generateS3Key bare None "a.guac.gz" meta_u1 = "recordings/u1/a.guac.gz"%string /\
  S3Uploader.generateS3Key bare None "a.guac.gz" bare = "recordings/a.guac.gz"%string /\
  S3Uploader.generateS3Key bare (Some "sessions/{{filename}}"%string) "a.guac.gz" meta_u1 =
    "sessions/a.guac.gz"%string.
Proof.
  destruct (X18_generateS3Key bare "a.guac.gz" meta_u1 eq_refl) as [H1 H3].
  destruct (X18_generateS3Key bare "a.guac.gz" bare eq_refl) as [H2 _].
  split; [reflexivity|]. split; [exact (H1 None (or_introl eq_refl))|].
  split; [exact (H2 None (or_introl eq_refl))|].
  exact (H3 "sessions/"%string ""%string eq_refl eq_refl).
Defined.

(** ** Connection settings *)

Module SettingsFacts.
Import Utils JS ConfigLoader GuacamoleLiteServer.

(** *** parseInt *)

Lemma read_digits_acc (d : Decimal.uint) :
  forall (p : positive) (rest : string),
    match rest with String c _ => is_digit c = false | EmptyString => True end ->
    read_digits true (Z.pos p) (NilEmpty.string_of_uint d +:+ rest) =
      Some (Z.pos (Pos.of_uint_acc d p)).
Proof.
  induction d as [|d IH|d IH|d IH|d IH|d IH|d IH|d IH|d IH|d IH|d IH];
    intros p rest Hrest;
    try (cbn [NilEmpty.string_of_uint Pos.of_uint_acc]; rewrite TemplateFacts.sapp_cons;
         cbn [read_digits]; change (is_digit _) with true; cbn iota;
         match goal with
         | |- read_digits true ?z _ = Some (Z.pos (Pos.of_uint_acc d ?q)) =>
             replace z with (Z.pos q);
               [apply IH; exact Hrest|unfold digit_value; simpl N_of_ascii; lia]
         end).
  change (NilEmpty.string_of_uint Decimal.Nil +:+ rest)%string with rest.
  simpl. destruct rest as [|c r]; [done|]. simpl. by rewrite Hrest.
Qed.

Lemma read_digits_uint (d : Decimal.uint) :
  forall (seen : bool) (rest : string),
    match rest with String c _ => is_digit c = false | EmptyString => True end ->
    seen = true \/ d <> Decimal.Nil ->
    read_digits seen 0 (NilEmpty.string_of_uint d +:+ rest) = Some (Z.of_N (Pos.of_uint d)).
Proof.
  induction d as [|d IH|d IH|d IH|d IH|d IH|d IH|d IH|d IH|d IH|d IH];
    intros seen rest Hrest Hseen;
    try (cbn [NilEmpty.string_of_uint Pos.of_uint]; rewrite TemplateFacts.sapp_cons;
         cbn [read_digits]; change (is_digit _) with true; cbn iota;
         first [apply (IH true rest Hrest); by left
               |apply (read_digits_acc d _ rest Hrest)]).
  destruct Hseen as [->|Hd]; [|done].
  change (NilEmpty.string_of_uint Decimal.Nil +:+ rest)%string with rest.
  simpl. destruct rest as [|c r]; [done|]. simpl. by rewrite Hrest.
Qed.

Lemma to_uint_not_nil (n : N) : N.to_uint n <> Decimal.Nil.
Proof.
  intros H. pose proof (DecimalN.Unsigned.of_to n) as Hn. rewrite H in Hn.
  simpl in Hn. subst n. done.
Qed.

(** The decimal of a natural number, followed by what is no digit, is read
    as that number. *)
Lemma parseInt10_decimal (n : N) (rest : string) :
  match rest with String c _ => is_digit c = false | EmptyString => True end ->
  parseInt10 (NilEmpty.string_of_uint (N.to_uint n) +:+ rest) = Some (Z.of_N n).
Proof.
  intros Hrest.
  pose proof (read_digits_uint (N.to_uint n) false rest Hrest
                (or_intror (to_uint_not_nil n))) as H.
  change (Pos.of_uint (N.to_uint n)) with (N.of_uint (N.to_uint n)) in H.
  rewrite DecimalN.Unsigned.of_to in H. rewrite <- H. clear H.
  unfold parseInt10.
  pose proof (to_uint_not_nil n) as Hn.
  destruct (N.to_uint n); try done; reflexivity.
Qed.

(** *** Rounding to a double *)

Lemma round_double_exact (n : Z) : n < 2 ^ 53 -> round_double n = Finite n.
Proof. intros H. unfold round_double. by rewrite (proj2 (Z.ltb_lt _ _) H). Qed.

(** Rounding does not go below 2^53. *)
Lemma round_double_large (n : Z) :
  2 ^ 53 <= n ->
  round_double n = PosInfinity \/ exists v, round_double n = Finite v /\ 2 ^ 53 <= v.
Proof.
  intros H. unfold round_double. rewrite (proj2 (Z.ltb_ge _ _) H). cbv zeta.
  set (e := Z.log2 n - 52).
  set (q := n / 2 ^ e).
  set (q' := if _ : bool then q + 1 else q).
  destruct (2 ^ 1024 <=? q' * 2 ^ e); [by left|]. right. eexists. split; [done|].
  assert (Hl : 53 <= Z.log2 n) by (apply (Z.log2_le_pow2 n 53); lia).
  assert (He : 1 <= e) by (subst e; lia).
  assert (Hq : 2 ^ 52 <= q).
  { subst q. apply Z.div_le_lower_bound; [apply Z.pow_pos_nonneg; lia|].
    rewrite Z.mul_comm, <- Z.pow_add_r by lia. replace (52 + e) with (Z.log2 n) by (subst e; lia).
    apply Z.log2_spec. lia. }
  assert (Hq' : q <= q') by (subst q'; destruct (_ || _); lia).
  assert (Hp : 2 <= 2 ^ e).
  { change 2 with (2 ^ 1) at 1. apply Z.pow_le_mono_r; lia. }
  change (2 ^ 53) with (2 ^ 52 * 2). nia.
Qed.

Lemma toNumber_nonneg (n : Z) : 0 <= n -> toNumber (Some n) = round_double n.
Proof. intros H. unfold toNumber. by rewrite (proj2 (Z.ltb_ge _ _) H). Qed.



(** *** createConnectionSettings *)

Section Merge.
Variable proto : string -> option tvalue.

(** The settings before the drive path is set: the section of the protocol
    over [defaults.all] over the token. *)
Lemma createConnectionSettings_merged token meta defaults template :
  let all := match defaults with Some d => default ∅ (d !! "all"%string) | None => ∅ end in
  let section :=
    match defaults, prop proto (all ∪ token) "protocol" with
    | Some d, Some p => if truthy_t p then default ∅ (d !! show p) else ∅
    | _, _ => ∅
    end in
  let merged := section ∪ (all ∪ token) in
  createConnectionSettings proto token meta defaults template =
    if configured template && is_rdp (prop proto merged "protocol")
    then <["drive-path"%string :=
            TStr (replace_placeholders
                    (fun key =>
                       if truthy_opt (prop proto token "meta")
                       then match read proto meta key with
                            | Some v => if truthy_t v then Some (show v) else None
                            | None => None
                            end
                       else None)
                    (default ""%string template))]> merged
    else merged.
Proof.
  intros all section merged.
  assert (Hm : match defaults with
               | Some d =>
                   let settings :=
                     match d !! "all"%string with
                     | Some all => assign token all
                     | None => token
                     end in
                   match prop proto settings "protocol" with
                   | Some p =>
                       if truthy_t p
                       then match d !! show p with
                            | Some section => assign settings section
                            | None => settings
                            end
                       else settings
                   | None => settings
                   end
               | None => token
               end = merged).
  { subst merged section all. unfold assign.
    destruct defaults as [d|]; [|by rewrite !(left_id_L ∅ (∪))].
    destruct (d !! "all"%string) as [all|]; simpl; rewrite ?(left_id_L ∅ (∪)).
    - destruct (prop proto (all ∪ token) "protocol") as [p|]; [|by rewrite (left_id_L ∅ (∪))].
      destruct (truthy_t p); [|by rewrite (left_id_L ∅ (∪))].
      destruct (d !! show p); simpl; by rewrite ?(left_id_L ∅ (∪)).
    - destruct (prop proto token "protocol") as [p|]; [|by rewrite (left_id_L ∅ (∪))].
      destruct (truthy_t p); [|by rewrite (left_id_L ∅ (∪))].
      destruct (d !! show p); simpl; by rewrite ?(left_id_L ∅ (∪)). }
  unfold createConnectionSettings. cbv zeta in Hm |- *. by rewrite Hm.
Qed.

Lemma lookup_merged (section all token : gmap string tvalue) key :
  (section ∪ (all ∪ token)) !! key =
    match section !! key with
    | Some v => Some v
    | None => match all !! key with Some v => Some v | None => token !! key end
    end.
Proof.
  rewrite !lookup_union.
  destruct (section !! key), (all !! key), (token !! key); reflexivity.
Qed.

End Merge.

(** *** interpolateTemplate *)

Lemma separators_length sep s : String.length (separators sep s) = String.length s.
Proof. induction s as [|c s IH]; [done|]. simpl. by rewrite IH. Qed.

Lemma separators_get sep s n :
  String.get n (separators sep s) =
    option_map (fun c => if Ascii.eqb c "/" || Ascii.eqb c "\" then sep else c) (String.get n s).
Proof.
  revert n. induction s as [|c s IH]; intros n; [done|].
  destruct n as [|n]; [done|]. simpl. apply IH.
Qed.

(** *** Placeholders *)




(** *** processConnectionSettings *)

Section Process.
Variable proto : string -> option tvalue.
Variable sep : ascii.




End Process.

End SettingsFacts.

(** X19: [createConnectionSettings] lets the configuration win over the
    token.  A property of the section [defaults.<protocol>] has the value of
    that section, a property of [defaults.all] that the section has not has
    the value of [defaults.all], and only what neither sets keeps the value
    of the token; the protocol that chooses the section is read after
    [defaults.all] was applied.  With a drive path template and the protocol
    'rdp' the property 'drive-path' is set on top of that: to the template
    itself when the token has no metadata, and, for a template made of text
    around one placeholder, with the placeholder replaced by the value of
    the metadata if that is truthy. *)
Theorem X19_createConnectionSettings :
  forall (proto : string -> option Utils.tvalue) (token : gmap string Utils.tvalue)
         (meta : string -> option Utils.tvalue)
         (defaults : option (gmap string (gmap string Utils.tvalue)))
         (template : option string),
    let all := match defaults with Some d => default ∅ (d !! "all"%string) | None => ∅ end in
    let section :=
      match defaults, Utils.prop proto (all ∪ token) "protocol" with
      | Some d, Some p => if Utils.truthy_t p then default ∅ (d !! Utils.show p) else ∅
      | _, _ => ∅
      end in
    let rdp :=
      Utils.configured template &&
      Utils.is_rdp (Utils.prop proto (section ∪ (all ∪ token)) "protocol") in
    let settings := Utils.createConnectionSettings proto token meta defaults template in
    (forall key, key <> "drive-path"%string \/ rdp = false ->
       settings !! key =
         match section !! key with
         | Some v => Some v
         | None => match all !! key with Some v => Some v | None => token !! key end
         end) /\
    (forall t, rdp = true -> template = Some t ->
       (Utils.truthy_opt (Utils.prop proto token "meta") = false ->
          settings !! "drive-path"%string = Some (Utils.TStr t)) /\
       (Utils.truthy_opt (Utils.prop proto token "meta") = true ->
          forall a key b,
            key <> ""%string -> Utils.all_word key = true ->
            Utils.includes a "{{" = false -> Utils.includes b "{{" = false ->
            t = (a +:+ (Utils.placeholder key +:+ b))%string ->
            settings !! "drive-path"%string =
              Some (Utils.TStr (a +:+ (Utils.fill (Utils.read proto meta key) key +:+ b))))).
Proof.
  intros proto token meta defaults template all section rdp settings.
  pose proof (SettingsFacts.createConnectionSettings_merged proto token meta defaults template)
    as Hm.
  cbv zeta in Hm. fold all in Hm. fold section in Hm. fold rdp in Hm. fold settings in Hm.
  split.
  - intros key Hkey. rewrite Hm. destruct rdp.
    + destruct Hkey as [Hkey|Hkey]; [|done].
      rewrite lookup_insert_ne by done. apply SettingsFacts.lookup_merged.
    + apply SettingsFacts.lookup_merged.
  - intros t Hrdp Ht. rewrite Hm, Hrdp, Ht. simpl. split.
    + intros Hmeta. rewrite Hmeta. rewrite lookup_insert_eq.
      by rewrite TemplateFacts.replace_none.
    + intros Hmeta a key b Hne Hw Ha Hb ->. rewrite Hmeta. rewrite lookup_insert_eq.
      by rewrite (TemplateFacts.replace_fill (Utils.read proto meta)).
Qed.

Lemma X19_witness :
  let settings :=
    Utils.createConnectionSettings bare rdp_token meta_u1 (Some some_defaults)
      (Some "/data/drives/guacamole_pid_{{userId}}"%string) in
  settings !! "width"%string = Some (Utils.TOther true "1024") /\
  settings !! "dpi"%string = Some (Utils.TOther true "120") /\
  settings !! "hostname"%string = Some (Utils.TStr "h") /\
  settings !! "drive-path"%string = Some (Utils.TStr "/data/drives/guacamole_pid_u1").
Proof.
  intros settings.
  destruct (X19_createConnectionSettings bare rdp_token meta_u1 (Some some_defaults)
              (Some "/data/drives/guacamole_pid_{{userId}}"%string)) as [H1 H2].
  split; [|split; [|split]].
  - etransitivity; [apply (H1 "width"%string); left; discriminate|].
    vm_compute. reflexivity.
  - etransitivity; [apply (H1 "dpi"%string); left; discriminate|].
    vm_compute. reflexivity.
  - etransitivity; [apply (H1 "hostname"%string); left; discriminate|].
    vm_compute. reflexivity.
  - assert (Hrdp : Utils.configured (Some "/data/drives/guacamole_pid_{{userId}}"%string) &&
                   Utils.is_rdp
                     (Utils.prop bare
                        (match Utils.prop bare
                                 (default ∅ (some_defaults !! "all"%string) ∪ rdp_token)
                                 "protocol" with
                         | Some p =>
                             if Utils.truthy_t p then default ∅ (some_defaults !! Utils.show p)
                             else ∅
                         | None => ∅
                         end ∪ (default ∅ (some_defaults !! "all"%string) ∪ rdp_token))
                        "protocol") = true) by (vm_compute; reflexivity).
    destruct (H2 _ Hrdp eq_refl) as [_ H3].
    assert (Hmeta : Utils.truthy_opt (Utils.prop bare rdp_token "meta") = true)
      by (vm_compute; reflexivity).
    apply (H3 Hmeta "/data/drives/guacamole_pid_"%string "userId"%string ""%string);
      [discriminate|reflexivity|reflexivity|reflexivity|reflexivity].
Defined.



(** X21: [interpolateTemplate] returns an empty template and a template
    without '{{' as they are.  In a template made of text around one
    placeholder the placeholder is replaced whenever [data] has or inherits
    the key, whatever the value: a string, the empty one too, is put in with
    every '/' and '\' replaced by [path.sep] and is otherwise unchanged, any
    other value is put in converted to a string; only a key that [data] has
    not leaves its placeholder. *)
Theorem X21_interpolateTemplate :
  forall (proto : string -> option Utils.tvalue) (sep : ascii)
         (data : string -> option Utils.tvalue),
    ConfigLoader.interpolateTemplate proto sep "" data = ""%string /\
    (forall t, Utils.includes t "{{" = false ->
       ConfigLoader.interpolateTemplate proto sep t data = t) /\
    (forall a key b,
       key <> ""%string -> Utils.all_word key = true ->
       Utils.includes a "{{" = false -> Utils.includes b "{{" = false ->
       ConfigLoader.interpolateTemplate proto sep (a +:+ (Utils.placeholder key +:+ b)) data =
         (a +:+ (match Utils.read proto data key with
                 | Some (Utils.TStr value) => ConfigLoader.separators sep value
                 | Some value => Utils.show value
                 | None => Utils.placeholder key
                 end +:+ b))%string) /\
    (forall value n,
       String.get n (ConfigLoader.separators sep value) =
         option_map (fun c => if Ascii.eqb c "/" || Ascii.eqb c "\" then sep else c)
           (String.get n value)).
Proof.
  intros proto sep data. split; [done|]. split; [|split].
  - intros t Ht. unfold ConfigLoader.interpolateTemplate.
    destruct (String.eqb t ""); [done|]. by apply TemplateFacts.replace_plain.
  - intros a key b Hne Hw Ha Hb. unfold ConfigLoader.interpolateTemplate.
    assert (Ht : (a +:+ (Utils.placeholder key +:+ b))%string <> ""%string).
    { apply TemplateFacts.sapp_not_empty, not_eq_sym.
      unfold Utils.placeholder. rewrite !TemplateFacts.sapp_assoc. done. }
    rewrite (proj2 (String.eqb_neq _ "") Ht).
    rewrite TemplateFacts.replace_app by done.
    rewrite !TemplateFacts.replace_plain by done.
    destruct (Utils.read proto data key) as [[s|t0 s]|]; reflexivity.
  - intros value n. apply SettingsFacts.separators_get.
Qed.

Lemma X21_witness :
  ConfigLoader.interpolateTemplate bare "/" "/data/drives/guacamole_pid_{{userId}}" meta_blank =
    "/data/drives/guacamole_pid_"%string /\
  ConfigLoader.interpolateTemplate bare "/" "/data/drives/guacamole_pid_{{userId}}" bare =
    "/data/drives/guacamole_pid_{{userId}}"%string.
Proof.
  destruct (X21_interpolateTemplate bare "/" meta_blank) as (_ & _ & H1 & _).
  destruct (X21_interpolateTemplate bare "/" bare) as (_ & _ & H2 & _).
  split.
  - exact (H1 "/data/drives/guacamole_pid_"%string "userId"%string ""%string
             ltac:(discriminate) eq_refl eq_refl eq_refl).
  - exact (H2 "/data/drives/guacamole_pid_"%string "userId"%string ""%string
             ltac:(discriminate) eq_refl eq_refl eq_refl).
Defined.

(** X22: the settings [processConnectionSettings] returns are those of
    [createConnectionSettings] except for 'drive-path'.  With a drive path
    template and the protocol 'rdp' the drive path that
    [createConnectionSettings] computed is always overwritten by the one of
    [interpolateTemplate] over the metadata of the token, or over an empty
    object when the token has none; without them the settings are
    returned as they are. *)
Theorem X22_processConnectionSettings_drive_path :
  forall (proto : string -> option Utils.tvalue) (sep : ascii)
         (cfg : GuacamoleLiteServer.config) (now : Z)
         (token : gmap string Utils.tvalue) (meta : string -> option Utils.tvalue)
         (meta_object : bool) (s : gmap string Utils.tvalue),
    GuacamoleLiteServer.processConnectionSettings proto sep cfg now token meta meta_object =
      GuacamoleLiteServer.Returned s ->
    let settings :=
      Utils.createConnectionSettings proto token meta (GuacamoleLiteServer.defaults cfg)
        (GuacamoleLiteServer.drive_path_template cfg) in
    let data := if Utils.truthy_opt (Utils.prop proto token "meta") then meta else fun _ => None in
    (forall key, key <> "drive-path"%string -> s !! key = settings !! key) /\
    (settings !! "drive-path"%string = None -> s = settings) /\
    match GuacamoleLiteServer.drive_path_template cfg with
    | Some t =>
        if negb (String.eqb t "") && Utils.is_rdp (Utils.prop proto s "protocol")
        then s !! "drive-path"%string =
               Some (Utils.TStr (ConfigLoader.interpolateTemplate proto sep t data))
        else s = settings
    | None => s = settings
    end.
Proof.
  intros proto sep cfg now token meta meta_object s Hres settings data.
  unfold GuacamoleLiteServer.processConnectionSettings in Hres.
  destruct (_ && _ && _); [done|]. fold settings in Hres. fold data in Hres.
  destruct (Utils.configured (GuacamoleLiteServer.drive_path_template cfg) &&
            Utils.is_rdp (Utils.prop proto settings "protocol")) eqn:Hrdp.
  - destruct (_ && _ && _) in Hres; [done|]. injection Hres as <-.
    apply andb_prop in Hrdp as [Hc Hp].
    destruct (GuacamoleLiteServer.drive_path_template cfg) as [t|] eqn:Ht; [|done].
    simpl in Hc.
    assert (Hs : Utils.prop proto (<["drive-path"%string := Utils.TStr
                   (ConfigLoader.interpolateTemplate proto sep t data)]> settings) "protocol" =
                 Utils.prop proto settings "protocol").
    { unfold Utils.prop, Utils.read. by rewrite lookup_insert_ne. }
    split; [|split].
    + intros key Hkey. by rewrite lookup_insert_ne.
    + intros Hnone. exfalso. subst settings.
      pose proof (SettingsFacts.createConnectionSettings_merged proto token meta
                    (GuacamoleLiteServer.defaults cfg) (Some t)) as Hm.
      cbv zeta in Hm. rewrite Hm in Hnone, Hp. clear Hm.
      match type of Hnone with
      | context [if ?c then _ else _] => destruct c eqn:Hc'
      end.
      * by rewrite lookup_insert_eq in Hnone.
      * rewrite Hp in Hc'. simpl in Hc', Hc. by rewrite Hc in Hc'.
    + simpl default. rewrite Hs, Hc, Hp. simpl. by rewrite lookup_insert_eq.
  - injection Hres as <-. split; [done|]. split; [done|].
    destruct (GuacamoleLiteServer.drive_path_template cfg) as [t|]; [|done].
    simpl in Hrdp. by rewrite Hrdp.
Qed.

Lemma X22_witness :
  exists s,
    GuacamoleLiteServer.processConnectionSettings bare "/" checking 0 rdp_token meta_blank
      true = GuacamoleLiteServer.Returned s /\
    s !! "drive-path"%string = Some (Utils.TStr "/data/drives/guacamole_pid_") /\
    Utils.createConnectionSettings bare rdp_token meta_blank (Some some_defaults)
      (Some "/data/drives/guacamole_pid_{{userId}}"%string) !! "drive-path"%string =
      Some (Utils.TStr "/data/drives/guacamole_pid_{{userId}}") /\
    s !! "width"%string = Some (Utils.TOther true "1024").
Proof.
  destruct (GuacamoleLiteServer.processConnectionSettings bare "/" checking 0 rdp_token
              meta_blank true) as [msg|s|] eqn:Hres;
    [by vm_compute in Hres| |by vm_compute in Hres].
  exists s. split; [reflexivity|].
  destruct (X22_processConnectionSettings_drive_path bare "/" checking 0 rdp_token meta_blank
              true s Hres) as (H1 & _ & H2).
  assert (Hrdp : Utils.is_rdp (Utils.prop bare s "protocol") = true).
  { unfold Utils.prop, Utils.read. rewrite (H1 "protocol"%string) by discriminate.
    vm_compute. reflexivity. }
  simpl in H2. rewrite Hrdp in H2. simpl in H2.
  split; [|split].
  - rewrite H2. vm_compute. reflexivity.
  - vm_compute. reflexivity.
  - rewrite (H1 "width"%string) by discriminate. vm_compute. reflexivity.
Defined.

(** ** Uploads and the local file *)

Module UploadDisk.
Import Utils RecordingManager.

Lemma upload_no_file e : S3Uploader.upload (with_file false e) = (None, 0%nat).
Proof. unfold S3Uploader.upload. simpl. by destruct (S3Uploader.isAvailable e). Qed.

Lemma unlink_files o p d :
  files (snd (unlink o p d)) =
    if unlink_resolves o && bool_decide (p ∈ files d) then files d ∖ {[p]} else files d.
Proof. unfold unlink. by destruct (_ && _). Qed.

(** What a call does to the files, and when it resolves. *)
Lemma uploadRecording_on_spec del s3 o p d :
  exists r d', uploadRecording_on del s3 o p d = (r, d') /\
    ((r = Rejected /\ files d' = files d /\
      ~ (exists e, s3 = Some e /\ p ∈ files d /\
                   fst (uploadRecording (Some (with_file true e))) = true))
     \/
     (exists e, s3 = Some e /\ p ∈ files d /\
                fst (uploadRecording (Some (with_file true e))) = true /\
                r = Resolved (S3Uploader.s3Key e) /\
                files d' = if del && unlink_resolves o then files d ∖ {[p]} else files d)).
Proof.
  unfold uploadRecording_on, reject.
  destruct s3 as [e|].
  2:{ eexists _, _. split; [done|]. left. split; [done|]. split; [done|].
      by intros (e & He & _). }
  destruct (S3Uploader.isAvailable e) eqn:Ha; simpl.
  2:{ eexists _, _. split; [done|]. left. split; [done|]. split; [done|].
      intros (e' & [= <-] & _ & Hup). unfold uploadRecording, S3Uploader.upload in Hup.
      simpl in Hup. by rewrite Ha in Hup. }
  unfold bind, existsSync, called, ret.
  destruct (bool_decide (p ∈ files d)) eqn:Hin.
  - apply bool_decide_eq_true in Hin.
    destruct (S3Uploader.upload (with_file true e)) as [[key|] n] eqn:Hup.
    + assert (Hkey : key = S3Uploader.s3Key e).
      { unfold S3Uploader.upload in Hup. simpl in Hup. rewrite Ha in Hup. simpl in Hup.
        destruct (S3Uploader.getBucket _); [|done].
        destruct (Utils.outcome _); simpl in Hup; congruence. }
      subst key.
      destruct del; simpl.
      * eexists _, _. split; [done|]. right. exists e.
        split; [done|]. split; [done|]. split; [by unfold uploadRecording; rewrite Hup|].
        split; [done|]. rewrite unlink_files. simpl.
        rewrite bool_decide_eq_true_2 by done. by rewrite andb_true_r.
      * eexists _, _. split; [done|]. right. exists e.
        split; [done|]. split; [done|]. split; [by unfold uploadRecording; rewrite Hup|].
        done.
    + eexists _, _. split; [done|]. left. split; [done|]. split; [done|].
      intros (e' & [= <-] & _ & Hup'). unfold uploadRecording in Hup'. by rewrite Hup in Hup'.
  - apply bool_decide_eq_false in Hin. rewrite upload_no_file.
    eexists _, _. split; [done|]. left. split; [done|]. split; [done|].
    by intros (e' & _ & Hp & _).
Qed.

End UploadDisk.

(** X23: [uploadRecording] deletes a recording only after S3 has taken it.
    When it rejects no file is touched.  It resolves exactly when there is
    an uploader, the file exists and [upload] resolves for it, and then with
    the key of [upload]; the file is deleted then if
    [recordings_delete_local_after_upload] is set and the unlink works, and
    a failing unlink does not make the call reject.  No other file is ever
    touched. *)
Theorem X23_uploadRecording_local_file :
  forall (del : bool) (s3 : option S3Uploader.env) (o : R.oracle) (p : string) (d : R.disk),
    let r := fst (R.uploadRecording_on del s3 o p d) in
    let d' := snd (R.uploadRecording_on del s3 o p d) in
    let accepted :=
      exists e, s3 = Some e /\ p ∈ R.files d /\
                fst (R.uploadRecording (Some (R.with_file true e))) = true in
    (r = R.Rejected -> R.files d' = R.files d) /\
    (r <> R.Rejected <-> accepted) /\
    (forall e, s3 = Some e -> r <> R.Rejected -> r = R.Resolved (S3Uploader.s3Key e)) /\
    (accepted ->
       R.files d' = if del && R.unlink_resolves o then R.files d ∖ {[p]} else R.files d) /\
    (forall q, q <> p -> (q ∈ R.files d' <-> q ∈ R.files d)).
Proof.
  intros del s3 o p d r d' accepted.
  destruct (UploadDisk.uploadRecording_on_spec del s3 o p d) as (r0 & d0 & E & H).
  subst r d' accepted. rewrite E. simpl.
  destruct H as [(-> & Hf & Hno)|(e & -> & Hp & Hup & -> & Hf)].
  - split; [done|]. split; [|split; [|split]].
    + split; [done|]. intros Hacc. by destruct Hno.
    + intros e _ Hr. done.
    + intros Hacc. by destruct Hno.
    + intros q _. by rewrite Hf.
  - split; [done|]. split; [|split; [|split]].
    + split; [|done]. intros _. exists e. done.
    + by intros e' [= <-] _.
    + intros _. exact Hf.
    + intros q Hq. rewrite Hf. destruct (del && R.unlink_resolves o); [|done].
      rewrite elem_of_difference, elem_of_singleton. tauto.
Qed.

Lemma X23_witness :
  R.uploadRecording_on true (Some accepting) obliging "/rec/a.guac" one_recording =
    (R.Resolved "recordings/a.guac"%string,
     {| R.files := R.files one_recording ∖ {["/rec/a.guac"%string]};
        R.calls := [R.ExistsSync "/rec/a.guac"; R.Unlink "/rec/a.guac"] |}) /\
  R.files (snd (R.uploadRecording_on true (Some rejecting) obliging "/rec/a.guac"
                  one_recording)) = R.files one_recording.
Proof.
  split; [reflexivity|].
  exact (proj1 (X23_uploadRecording_local_file true (Some rejecting) obliging
                  "/rec/a.guac"%string one_recording) eq_refl).
Defined.

(** X24: compression followed by the upload of the path it returned.  For
    the formats none, gzip and zip the upload finds the file and resolves
    exactly when [upload] of the uploader does; if it rejects, the file to
    upload is still there for the next attempt.  For any other format, once
    the unlink of the compression has worked, the recording is gone: every
    upload rejects and the recording is on disk no more. *)
Theorem X24_compress_then_upload :
  forall (cfg : option string) (o o2 : R.oracle) (del : bool) (e : S3Uploader.env)
         (inputPath : string) (d : R.disk),
    inputPath ∈ R.files d ->
    exists p d1,
      R.compressRecording cfg o inputPath d = (R.Resolved p, d1) /\
      let r := fst (R.uploadRecording_on del (Some e) o2 p d1) in
      let d2 := snd (R.uploadRecording_on del (Some e) o2 p d1) in
      (R.known_format (R.format_of cfg) = true ->
         (r <> R.Rejected <-> fst (R.uploadRecording (Some (R.with_file true e))) = true) /\
         (r = R.Rejected -> p ∈ R.files d2)) /\
      (R.known_format (R.format_of cfg) = false -> R.unlink_resolves o = true ->
         p = inputPath /\ r = R.Rejected /\ inputPath ∉ R.files d2).
Proof.
  intros cfg o o2 del e inputPath d Hin.
  destruct (R.known_format (R.format_of cfg)) eqn:Hk.
  - destruct (CompressMore.compress_known_exists cfg o inputPath d Hk Hin)
      as (p & d1 & E & Hp).
    exists p, d1. split; [exact E|]. cbv zeta. split; [|done]. intros _.
    destruct (UploadDisk.uploadRecording_on_spec del (Some e) o2 p d1) as (r0 & d0 & E2 & H).
    rewrite E2. simpl.
    destruct H as [(-> & Hf & Hno)|(e' & [= <-] & _ & Hup & -> & Hf)].
    + split; [|by rewrite Hf]. split; [done|]. intros Hup. destruct Hno. eauto.
    + split; [done|done].
  - assert (Hcfg : exists f, cfg = Some f /\ f <> ""%string /\ R.known_format f = false).
    { unfold R.format_of in Hk. destruct cfg as [f|]; [|done].
      destruct (String.eqb_spec f ""); [done|]. eauto. }
    destruct Hcfg as (f & -> & Hne & Hf).
    rewrite (CompressMore.compress_unknown f o inputPath d Hne Hf Hin).
    eexists _, _. split; [reflexivity|]. cbv zeta. split; [done|]. intros _ Hu.
    rewrite Hu. split; [done|].
    set (d1 := {| R.files := _; R.calls := _ |}).
    assert (Hgone : inputPath ∉ R.files d1).
    { subst d1. simpl. rewrite elem_of_difference, elem_of_singleton. tauto. }
    destruct (UploadDisk.uploadRecording_on_spec del (Some e) o2 inputPath d1)
      as (r0 & d0 & E2 & H).
    rewrite E2. simpl.
    destruct H as [(-> & Hfiles & _)|(e' & _ & Hp & _)]; [|done].
    split; [done|]. by rewrite Hfiles.
Qed.

Lemma X24_witness :
  "/rec/a.guac"%string ∈ R.files one_recording /\
  (exists d1,
     R.compressRecording (Some "bzip2"%string) obliging "/rec/a.guac" one_recording =
       (R.Resolved "/rec/a.guac"%string, d1) /\
     fst (R.uploadRecording_on true (Some accepting) obliging "/rec/a.guac" d1) = R.Rejected).
Proof.
  assert (Hin : "/rec/a.guac"%string ∈ R.files one_recording)
    by (simpl; apply elem_of_singleton_2; reflexivity).
  split; [exact Hin|].
  destruct (X24_compress_then_upload (Some "bzip2"%string) obliging obliging true accepting
              "/rec/a.guac"%string one_recording Hin) as (p & d1 & E & _ & H).
  destruct (H eq_refl eq_refl) as (-> & Hr & _).
  exists d1. split; [exact E|exact Hr].
Defined.

(** ** The configuration *)

Module ConfigFacts.
Import Utils JS ConfigLoader.

(** *** trim and split *)

Lemma skip_spaces_head s :
  match skip_spaces s with
  | String c _ => is_space c = false
  | EmptyString => True
  end.
Proof.
  induction s as [|c s IH]; [done|]. simpl.
  destruct (is_space c) eqn:E; [exact IH|]. exact E.
Qed.

Lemma skip_spaces_fix s :
  match s with String c _ => is_space c = false | EmptyString => True end ->
  skip_spaces s = s.
Proof.
  destruct s as [|c s]; [done|]. intros H. cbn [skip_spaces]. by rewrite H.
Qed.

Lemma trimEnd_idem s : trimEnd (trimEnd s) = trimEnd s.
Proof.
  induction s as [|c s IH]; [done|]. cbn [trimEnd].
  destruct (is_space c && String.eqb (trimEnd s) "") eqn:E; [done|].
  cbn [trimEnd]. by rewrite IH, E.
Qed.

Lemma trimEnd_head s :
  match s with String c _ => is_space c = false | EmptyString => True end ->
  match trimEnd s with String c _ => is_space c = false | EmptyString => True end.
Proof.
  destruct s as [|c s]; [done|]. intros H. cbn [trimEnd]. rewrite H. exact H.
Qed.

Lemma trim_idem s : trim (trim s) = trim s.
Proof.
  unfold trim.
  rewrite (skip_spaces_fix (trimEnd (skip_spaces s))).
  - apply trimEnd_idem.
  - apply trimEnd_head, skip_spaces_head.
Qed.

Lemma includes_char c s : includes s (String c EmptyString) = negb (lacks c s).
Proof.
  induction s as [|x s IH]; [done|].
  rewrite TemplateFacts.includes_unfold, IH. cbn [String.prefix lacks].
  destruct (ascii_dec c x) as [<-|Hne].
  - rewrite Ascii.eqb_refl. by destruct s.
  - rewrite (proj2 (Ascii.eqb_neq x c)) by done. done.
Qed.

Lemma lacks_skip_spaces c s : lacks c s = true -> lacks c (skip_spaces s) = true.
Proof.
  induction s as [|x s IH]; [done|]. simpl. intros H.
  destruct (is_space x); [|exact H]. apply andb_prop in H as [_ H]. by apply IH.
Qed.

Lemma lacks_trimEnd c s : lacks c s = true -> lacks c (trimEnd s) = true.
Proof.
  induction s as [|x s IH]; [done|]. simpl. intros [Hx Hs]%andb_prop.
  destruct (is_space x && _); [done|]. simpl. by rewrite Hx, IH.
Qed.

Lemma lacks_trim c s : lacks c s = true -> lacks c (trim s) = true.
Proof. intros H. by apply lacks_trimEnd, lacks_skip_spaces. Qed.

Lemma split_lacks c s : Forall (fun p => lacks c p = true) (split c s).
Proof.
  induction s as [|x s IH]; [by repeat constructor|]. simpl.
  destruct (Ascii.eqb x c) eqn:E; [by constructor|].
  destruct (split c s) as [|h t]; [repeat constructor; simpl; by rewrite E|].
  inversion IH as [|? ? Hh Ht]; subst. constructor; [|done]. simpl. by rewrite E, Hh.
Qed.

(** *** convertType *)

Lemma all_digits_lacks s c : all_digits s = true -> is_digit c = false -> lacks c s = true.
Proof.
  intros Hs Hc. induction s as [|x s IH]; [done|]. cbn [all_digits lacks] in *.
  apply andb_prop in Hs as [Hx Hs]. rewrite IH by done.
  destruct (Ascii.eqb_spec x c) as [->|]; [congruence|done].
Qed.

Lemma convertType_list s items :
  convertType (CStr s) = CList items ->
  includes (trim s) "," = true /\
  Forall (fun i => i <> ""%string /\ trim i = i /\ includes i "," = false) items.
Proof.
  unfold convertType.
  destruct (String.eqb (trim s) "true"); [done|].
  destruct (String.eqb (trim s) "false"); [done|].
  destruct (is_integer (trim s)); [done|].
  destruct (is_float (trim s)); [done|].
  destruct (includes (trim s) ",") eqn:E5; [|done].
  intros [= <-]. split; [done|].
  apply Forall_forall. intros i Hi. apply list_elem_of_In, filter_In in Hi as [Hi Hne].
  apply in_map_iff in Hi as (p & <- & Hp).
  split; [|split].
  - intros Hi. by rewrite Hi in Hne.
  - apply trim_idem.
  - rewrite includes_char. apply negb_false_iff, lacks_trim.
    pose proof (split_lacks "," (trim s)) as Hall.
    rewrite Forall_forall in Hall. by apply Hall, list_elem_of_In.
Qed.

Lemma convertType_string s t :
  convertType (CStr s) = CStr t ->
  t = trim s /\ trim t = t /\ includes t "," = false /\ is_integer t = false /\
  is_float t = false /\ t <> "true"%string /\ t <> "false"%string.
Proof.
  unfold convertType.
  destruct (String.eqb_spec (trim s) "true") as [|E1]; [done|].
  destruct (String.eqb_spec (trim s) "false") as [|E2]; [done|].
  destruct (is_integer (trim s)) eqn:E3; [done|].
  destruct (is_float (trim s)) eqn:E4; [done|].
  destruct (includes (trim s) ",") eqn:E5; [done|].
  intros [= <-]. by rewrite trim_idem.
Qed.

(** What is returned for a string is not converted again. *)
Lemma convertType_idem v : convertType (convertType v) = convertType v.
Proof.
  destruct v as [| | | |s| |]; try done.
  destruct (convertType (CStr s)) as [| | | |t| |] eqn:E; try done.
  apply convertType_string in E as (_ & Ht & E5 & E3 & E4 & E1 & E2).
  unfold convertType. rewrite Ht, E3, E4, E5.
  by rewrite (proj2 (String.eqb_neq _ _) E1), (proj2 (String.eqb_neq _ _) E2).
Qed.

Lemma all_digits_decimal d : all_digits (NilEmpty.string_of_uint d) = true.
Proof. induction d; simpl; done. Qed.

Lemma decimal_not_empty n : NilEmpty.string_of_uint (N.to_uint n) <> ""%string.
Proof.
  pose proof (SettingsFacts.to_uint_not_nil n) as H.
  destruct (N.to_uint n); done.
Qed.

(** A natural number in decimal, with white space around it, is read as
    the double nearest to that number. *)
Lemma convertType_decimal s n :
  trim s = NilEmpty.string_of_uint (N.to_uint n) ->
  convertType (CStr s) = CNum (round_double (Z.of_N n)).
Proof.
  intros Ht. unfold convertType. rewrite Ht.
  pose proof (decimal_not_empty n) as Hne.
  pose proof (all_digits_decimal (N.to_uint n)) as Hd.
  assert (E1 : String.eqb (NilEmpty.string_of_uint (N.to_uint n)) "true" = false).
  { apply String.eqb_neq. intros E. rewrite E in Hd. done. }
  assert (E2 : String.eqb (NilEmpty.string_of_uint (N.to_uint n)) "false" = false).
  { apply String.eqb_neq. intros E. rewrite E in Hd. done. }
  rewrite E1, E2. unfold is_integer. rewrite Hd, (proj2 (String.eqb_neq _ _) Hne). simpl.
  pose proof (SettingsFacts.parseInt10_decimal n "" I) as Hp.
  rewrite TemplateFacts.sapp_nil_r in Hp. rewrite Hp.
  by rewrite SettingsFacts.toNumber_nonneg by apply N2Z.is_nonneg.
Qed.

(** *** mergeEnvVarsForSection *)

Lemma mergeEnvVar_target prefix section envVar envValue :
  mergeEnvVar prefix section envVar envValue =
    match target prefix envVar with
    | Some key => <[key := convertType (CStr envValue)]> section
    | None => section
    end.
Proof.
  unfold mergeEnvVar, target.
  destruct (String.prefix prefix envVar); [|done]. cbn [negb]. cbv zeta.
  destruct (String.eqb prefix ""); cbn [andb]; [|done].
  match goal with |- context [existsb ?f ?l] => by destruct (existsb f l) end.
Qed.

Lemma merge_snoc env prefix section envVar envValue :
  mergeEnvVarsForSection (env ++ [(envVar, envValue)]) prefix section =
    mergeEnvVar prefix (mergeEnvVarsForSection env prefix section) envVar envValue.
Proof. unfold mergeEnvVarsForSection. by rewrite fold_left_app. Qed.

(** The last variable that sets a key gives its value; a key that no
    variable sets keeps its value. *)
Lemma merge_lookup env prefix section key :
  mergeEnvVarsForSection env prefix section !! key =
    match last (List.filter (fun nv => bool_decide (target prefix nv.1 = Some key)) env) with
    | Some nv => Some (convertType (CStr nv.2))
    | None => section !! key
    end.
Proof.
  induction env as [|[envVar envValue] env IH] using rev_ind; [done|].
  rewrite merge_snoc, mergeEnvVar_target, List.filter_app. simpl.
  destruct (target prefix envVar) as [k|] eqn:Et.
  - destruct (decide (k = key)) as [->|Hne].
    + rewrite lookup_insert_eq, bool_decide_eq_true_2 by done. by rewrite last_snoc.
    + rewrite lookup_insert_ne by done.
      rewrite bool_decide_eq_false_2 by congruence. by rewrite app_nil_r.
  - rewrite bool_decide_eq_false_2 by congruence. by rewrite app_nil_r.
Qed.

Lemma merge_dom env prefix section key :
  is_Some (section !! key) -> is_Some (mergeEnvVarsForSection env prefix section !! key).
Proof.
  intros H. rewrite merge_lookup. by destruct (last _).
Qed.

Lemma target_top name key :
  target "" name = Some key <->
  toLowerCase name = key /\ existsb (String.eqb key) validConfigKeys = true.
Proof.
  unfold target. change (String.prefix "" name) with (String.prefix "" name).
  assert (Hp : String.prefix "" name = true) by (by destruct name).
  rewrite Hp. cbn [String.length substring_from]. cbv zeta.
  change (String.eqb "" "") with true. cbv iota.
  match goal with |- context [existsb ?f ?l] => destruct (existsb f l) eqn:E end.
  - split; [intros [= <-]; by split|by intros [-> _]].
  - split; [done|]. intros [<- H]. congruence.
Qed.

Lemma target_section prefix name key :
  prefix <> ""%string ->
  target prefix name = Some key <->
  String.prefix prefix name = true /\
  hyphens (toLowerCase (substring_from (String.length prefix) name)) = key.
Proof.
  intros Hne. unfold target. destruct (String.prefix prefix name); cbv zeta.
  - rewrite (proj2 (String.eqb_neq _ _) Hne).
    split; [intros [= <-]; by split|by intros [_ ->]].
  - split; [done|by intros [? _]].
Qed.

(** No variable sets [defaults]. *)
Lemma merge_top_other env section key :
  existsb (String.eqb key) validConfigKeys = false ->
  mergeEnvVarsForSection env "" section !! key = section !! key.
Proof.
  intros Hk. rewrite merge_lookup.
  replace (List.filter _ env) with (@nil (string * string)); [done|].
  symmetry. induction env as [|[n v] env IH]; [done|]. simpl.
  rewrite bool_decide_eq_false_2; [exact IH|].
  intros Ht. apply target_top in Ht as [_ Ht]. congruence.
Qed.

(** *** validateConfig *)

Lemma all_digits_uint s :
  all_digits s = true -> exists d, s = NilEmpty.string_of_uint d.
Proof.
  induction s as [|c s IH]; [by exists Decimal.Nil|]. cbn [all_digits].
  intros [Hc Hs]%andb_prop. destruct (IH Hs) as [d ->].
  destruct c as [[] [] [] [] [] [] [] []]; try (by vm_compute in Hc);
    first [by exists (Decimal.D0 d)|by exists (Decimal.D1 d)|by exists (Decimal.D2 d)
          |by exists (Decimal.D3 d)|by exists (Decimal.D4 d)|by exists (Decimal.D5 d)
          |by exists (Decimal.D6 d)|by exists (Decimal.D7 d)|by exists (Decimal.D8 d)
          |by exists (Decimal.D9 d)].
Qed.

(** [parseInt] of digits is a number, not NaN. *)
Lemma parseInt10_digits s :
  is_integer s = true -> exists n, parseInt10 s = Some n /\ 0 <= n.
Proof.
  unfold is_integer. intros [Hne Hd]%andb_prop.
  apply negb_true_iff, String.eqb_neq in Hne.
  destruct (all_digits_uint s Hd) as [d ->].
  assert (Hd' : d <> Decimal.Nil) by (intros ->; done).
  pose proof (SettingsFacts.read_digits_uint d false "" I (or_intror Hd')) as H.
  rewrite TemplateFacts.sapp_nil_r in H.
  exists (Z.of_N (Pos.of_uint d)). split; [|lia].
  rewrite <- H. unfold parseInt10. destruct d; try done; reflexivity.
Qed.

Section Truthy.
Variable nonzero : string -> bool.

(** The double nearest to a natural number is 0 for 0 alone. *)
Lemma truthy_round n :
  0 <= n -> truthy_c nonzero (CNum (toNumber (Some n))) = negb (n =? 0).
Proof.
  intros Hn. rewrite SettingsFacts.toNumber_nonneg by done.
  destruct (Z.lt_ge_cases n (2 ^ 53)) as [Hs|Hl].
  - by rewrite SettingsFacts.round_double_exact.
  - assert (E : (n =? 0) = false) by (apply Z.eqb_neq; lia). rewrite E.
    destruct (SettingsFacts.round_double_large n Hl) as [->|(v & -> & Hv)]; [done|].
    simpl. apply negb_true_iff, Z.eqb_neq. lia.
Qed.

(** The texts that are converted to a falsy value. *)
Lemma convertType_falsy s :
  truthy_c nonzero (convertType (CStr s)) = false <->
  trim s = ""%string \/ trim s = "false"%string \/
  (is_integer (trim s) = true /\ parseInt10 (trim s) = Some 0) \/
  (is_float (trim s) = true /\ nonzero (trim s) = false).
Proof.
  unfold convertType.
  destruct (String.eqb_spec (trim s) "true") as [E1|E1].
  { rewrite E1. simpl. split; [done|]. intros [H|[H|[[H _]|[H _]]]]; done. }
  destruct (String.eqb_spec (trim s) "false") as [E2|E2].
  { rewrite E2. simpl. split; [auto|done]. }
  destruct (is_integer (trim s)) eqn:E3.
  { destruct (parseInt10_digits _ E3) as (n & Hn & Hpos). rewrite Hn.
    rewrite (truthy_round n Hpos).
    rewrite negb_false_iff, Z.eqb_eq. split.
    - intros ->. auto.
    - intros [H|[H|[[_ [= ->]]|[H _]]]]; try done.
      + rewrite H in E3. done.
      + unfold is_float, is_integer in *.
        destruct (trim s) as [|c r]; [done|].
        apply andb_prop in E3 as [_ E3]. apply andb_prop in H as [_ H].
        assert (Hs : skip_digits (String c r) = ""%string).
        { clear -E3. revert E3. generalize (String c r). intros t.
          induction t as [|x t IH]; [done|]. cbn [all_digits skip_digits].
          intros [-> Ht]%andb_prop. by apply IH. }
        by rewrite Hs in H. }
  destruct (is_float (trim s)) eqn:E4.
  { simpl. split; [auto 6|]. intros [H|[H|[[H _]|[_ H]]]]; try done.
    rewrite H in E4. done. }
  destruct (includes (trim s) ",") eqn:E5.
  { simpl. split; [done|]. intros [H|[H|[[H _]|[H _]]]]; try done.
    rewrite H in E5. done. }
  simpl. rewrite negb_false_iff. split.
  - intros H%String.eqb_eq. auto.
  - intros [H|[H|[[H _]|[H _]]]]; try done. by apply String.eqb_eq.
Qed.

Lemma validateConfig_none config :
  validateConfig nonzero config = None <->
  forall key, In key required ->
    exists v, config !! key = Some v /\ truthy_c nonzero v = true.
Proof.
  unfold validateConfig.
  assert (Hm : missing nonzero config = [] <->
               forall key, In key required ->
                 exists v, config !! key = Some v /\ truthy_c nonzero v = true).
  { unfold missing. generalize required as l. intros l.
    induction l as [|k l IH]; [done|]. simpl.
    destruct (config !! k) as [v|] eqn:Ek; simpl.
    - destruct (truthy_c nonzero v) eqn:Et; simpl.
      + rewrite IH. split.
        * intros H key [<-|Hin]; [eauto|by apply H].
        * intros H key Hin. apply H. by right.
      + split; [done|]. intros H. destruct (H k (or_introl eq_refl)) as (v' & Hv & Ht).
        rewrite Ek in Hv. injection Hv as <-. congruence.
    - split; [done|]. intros H. destruct (H k (or_introl eq_refl)) as (v' & Hv & _).
      by rewrite Ek in Hv. }
  rewrite <- Hm. destruct (missing nonzero config); [done|]. split; done.
Qed.

End Truthy.

(** *** mergeEnvironmentVariables *)

Lemma mergeEnvironmentVariables_other env config key :
  key <> "defaults"%string ->
  mergeEnvironmentVariables env config !! key = mergeEnvVarsForSection env "" config !! key.
Proof.
  intros Hkey. unfold mergeEnvironmentVariables.
  destruct (mergeEnvVarsForSection env "" config !! "defaults"%string) as [[| | | | | |d]|];
    try done.
  by rewrite lookup_insert_ne.
Qed.

End ConfigFacts.

(** X25: [convertType] leaves what is no string as it is, and what it
    returns for a string is not changed by a second conversion.  A natural
    number in decimal with white space around it becomes the double nearest
    to that number, which is the number itself below 2^53.  When a string
    comes back it is the trimmed text, and it has no comma and is none of
    'true', 'false', digits or digits.digits; when a list comes back the
    trimmed text had a comma and every item is trimmed, not empty and
    without a comma. *)
Theorem X25_convertType :
  forall v : ConfigLoader.cvalue,
    ConfigLoader.convertType (ConfigLoader.convertType v) = ConfigLoader.convertType v /\
    ((forall s, v <> ConfigLoader.CStr s) -> ConfigLoader.convertType v = v) /\
    (forall s, v = ConfigLoader.CStr s ->
       (forall n : N,
          JS.trim s = NilEmpty.string_of_uint (N.to_uint n) ->
          ConfigLoader.convertType v = ConfigLoader.CNum (JS.round_double (Z.of_N n)) /\
          (Z.of_N n < 2 ^ 53 ->
             ConfigLoader.convertType v = ConfigLoader.CNum (JS.Finite (Z.of_N n)))) /\
       (forall t,
          ConfigLoader.convertType v = ConfigLoader.CStr t ->
          t = JS.trim s /\ JS.trim t = t /\ Utils.includes t "," = false /\
          ConfigLoader.is_integer t = false /\ ConfigLoader.is_float t = false /\
          t <> "true"%string /\ t <> "false"%string) /\
       (forall items,
          ConfigLoader.convertType v = ConfigLoader.CList items ->
          Utils.includes (JS.trim s) "," = true /\
          Forall (fun i => i <> ""%string /\ JS.trim i = i /\ Utils.includes i "," = false)
            items)).
Proof.
  intros v. split; [apply ConfigFacts.convertType_idem|]. split.
  - intros Hv. destruct v; try done. by destruct (Hv s).
  - intros s ->. split; [|split].
    + intros n Hn. pose proof (ConfigFacts.convertType_decimal s n Hn) as H.
      split; [exact H|]. intros Hs. by rewrite H, SettingsFacts.round_double_exact.
    + intros t. apply ConfigFacts.convertType_string.
    + intros items. apply ConfigFacts.convertType_list.
Qed.

Lemma X25_witness :
  ConfigLoader.convertType (ConfigLoader.CStr " 4822 ") =
    ConfigLoader.CNum (JS.Finite 4822) /\
  ConfigLoader.convertType (ConfigLoader.CStr "9007199254740993") =
    ConfigLoader.CNum (JS.Finite 9007199254740992) /\
  (exists items,
     ConfigLoader.convertType (ConfigLoader.CStr "width, height,,dpi ") =
       ConfigLoader.CList items /\
     Forall (fun i => i <> ""%string /\ JS.trim i = i /\ Utils.includes i "," = false) items).
Proof.
  split; [|split].
  - destruct (X25_convertType (ConfigLoader.CStr " 4822 ")) as (_ & _ & H).
    destruct (H _ eq_refl) as (H1 & _).
    exact (proj2 (H1 4822%N eq_refl) eq_refl).
  - destruct (X25_convertType (ConfigLoader.CStr "9007199254740993")) as (_ & _ & H).
    destruct (H _ eq_refl) as (H1 & _).
    exact (proj1 (H1 9007199254740993%N eq_refl)).
  - exists ["width"; "height"; "dpi"]%string. split; [reflexivity|].
    destruct (X25_convertType (ConfigLoader.CStr "width, height,,dpi ")) as (_ & _ & H).
    destruct (H _ eq_refl) as (_ & _ & H3).
    exact (proj2 (H3 _ eq_refl)).
Defined.

(** X26: after [mergeEnvVarsForSection] a key has the converted value of
    the last variable of the environment that sets it, and the value it had
    when no variable sets it.  At the top level a variable sets the key that
    is its name in lower case, if that is one of the 22 keys of the list, and
    sets nothing otherwise; with a prefix, a variable whose name starts with
    the prefix sets the rest of its name in lower case with '-' for '_'. *)
Theorem X26_mergeEnvVarsForSection :
  forall (env : list (string * string)) (prefix : string)
         (section : gmap string ConfigLoader.cvalue) (key : string),
    ConfigLoader.mergeEnvVarsForSection env prefix section !! key =
      match last (List.filter
                    (fun nv => bool_decide (ConfigLoader.target prefix nv.1 = Some key)) env) with
      | Some nv => Some (ConfigLoader.convertType (ConfigLoader.CStr nv.2))
      | None => section !! key
      end /\
    (forall name,
       ConfigLoader.target "" name = Some key <->
       Utils.toLowerCase name = key /\ In key ConfigLoader.validConfigKeys) /\
    (prefix <> ""%string ->
     forall name,
       ConfigLoader.target prefix name = Some key <->
       String.prefix prefix name = true /\
       ConfigLoader.hyphens
         (Utils.toLowerCase (JS.substring_from (String.length prefix) name)) = key) /\
    (prefix = ""%string -> ~ In key ConfigLoader.validConfigKeys ->
       ConfigLoader.mergeEnvVarsForSection env prefix section !! key = section !! key).
Proof.
  intros env prefix section key.
  assert (Hin : existsb (String.eqb key) ConfigLoader.validConfigKeys = true <->
                In key ConfigLoader.validConfigKeys).
  { rewrite existsb_exists. split.
    - intros (x & Hx & ->%String.eqb_eq). done.
    - intros H. exists key. split; [done|apply String.eqb_refl]. }
  split; [apply ConfigFacts.merge_lookup|]. split; [|split].
  - intros name. rewrite ConfigFacts.target_top. by rewrite Hin.
  - intros Hne name. by apply ConfigFacts.target_section.
  - intros -> Hno. apply ConfigFacts.merge_top_other.
    apply not_true_is_false. intros E. by apply Hin in E.
Qed.

Lemma X26_witness :
  ConfigLoader.mergeEnvVarsForSection some_env "" some_config !! "guacd_port"%string =
    Some (ConfigLoader.CNum (JS.Finite 0)) /\
  ConfigLoader.mergeEnvVarsForSection some_env "" some_config !! "home"%string = None /\
  ConfigLoader.mergeEnvVarsForSection some_env "DEFAULTS_RDP_" ∅ !! "ignore-cert"%string =
    Some (ConfigLoader.CBool true).
Proof.
  split; [|split].
  - etransitivity;
      [exact (proj1 (X26_mergeEnvVarsForSection some_env "" some_config "guacd_port"))|].
    vm_compute. reflexivity.
  - destruct (X26_mergeEnvVarsForSection some_env "" some_config "home") as (_ & _ & _ & H).
    etransitivity; [apply (H eq_refl)|vm_compute; reflexivity].
    intros Hin. repeat (destruct Hin as [Hin|Hin]; [discriminate Hin|]). exact Hin.
  - etransitivity;
      [exact (proj1 (X26_mergeEnvVarsForSection some_env "DEFAULTS_RDP_" ∅ "ignore-cert"))|].
    vm_compute. reflexivity.
Defined.

(** X27: for a configuration in which what lies directly under [defaults]
    is a section or a value that is neither an object nor an array,
    [mergeEnvironmentVariables] changes the top level as
    [mergeEnvVarsForSection] with no prefix does, and [defaults] itself is
    set by no variable.  Under [defaults] every section that is there is
    merged with the prefix 'DEFAULTS_<NAME>_', the name in upper case; a
    value that is no section is left as it is, and no section is made or
    removed.  An array directly under [defaults], which the code takes for
    a section, is not covered. *)
Theorem X27_mergeEnvironmentVariables :
  forall (env : list (string * string)) (config : gmap string ConfigLoader.cvalue),
    let config' := ConfigLoader.mergeEnvironmentVariables env config in
    (forall key, key <> "defaults"%string ->
       config' !! key = ConfigLoader.mergeEnvVarsForSection env "" config !! key) /\
    match config !! "defaults"%string with
    | Some (ConfigLoader.CObj d) =>
        exists d',
          config' !! "defaults"%string = Some (ConfigLoader.CObj d') /\
          forall protocol,
            d' !! protocol =
              match d !! protocol with
              | Some (ConfigLoader.ESection fields) =>
                  Some (ConfigLoader.ESection
                          (ConfigLoader.mergeEnvVarsForSection env
                             ("DEFAULTS_" +:+ JS.toUpperCase protocol +:+ "_") fields))
              | other => other
              end
    | other => config' !! "defaults"%string = other
    end.
Proof.
  intros env config config'. split.
  - intros key Hkey. by apply ConfigFacts.mergeEnvironmentVariables_other.
  - subst config'. unfold ConfigLoader.mergeEnvironmentVariables.
    rewrite (ConfigFacts.merge_top_other env config "defaults") by reflexivity.
    destruct (config !! "defaults"%string) as [[| | | | | |d]|] eqn:Ed;
      try (by rewrite ConfigFacts.merge_top_other by reflexivity).
    eexists. split; [by rewrite lookup_insert_eq|].
    intros protocol. rewrite map_lookup_imap.
    destruct (d !! protocol) as [[v|fields]|]; reflexivity.
Qed.

Lemma X27_witness :
  exists d',
    ConfigLoader.mergeEnvironmentVariables some_env some_config !! "defaults"%string =
      Some (ConfigLoader.CObj d') /\
    d' !! "rdp"%string =
      Some (ConfigLoader.ESection
              (ConfigLoader.mergeEnvVarsForSection some_env "DEFAULTS_RDP_"
                 {[ "security"%string := ConfigLoader.CStr "any" ]})) /\
    d' !! "enabled"%string = Some (ConfigLoader.EScalar (ConfigLoader.SBool true)) /\
    d' !! "ssh"%string = None.
Proof.
  destruct (X27_mergeEnvironmentVariables some_env some_config) as [_ H].
  assert (Hd : some_config !! "defaults"%string =
               Some (ConfigLoader.CObj
                       {[ "rdp"%string :=
                            ConfigLoader.ESection
                              {[ "security"%string := ConfigLoader.CStr "any" ]};
                          "enabled"%string :=
                            ConfigLoader.EScalar (ConfigLoader.SBool true) ]}))
    by (vm_compute; reflexivity).
  rewrite Hd in H. destruct H as (d' & Hd' & Hs).
  exists d'. split; [exact Hd'|]. split; [|split].
  - rewrite Hs. vm_compute. reflexivity.
  - rewrite Hs. vm_compute. reflexivity.
  - rewrite Hs. vm_compute. reflexivity.
Defined.

(** X28: the configuration that comes out of the environment is accepted
    by [validateConfig] exactly when each of [websocket_port], [guacd_host]
    and [guacd_port] has a truthy value, which is the converted value of the
    last variable that sets the key, or else the value of the file.  A value
    of the environment is falsy exactly when its trimmed text is empty, is
    'false', is digits that read as 0, or is digits.digits that read as 0:
    such a variable makes the configuration fail whatever the file says. *)
Theorem X28_validateConfig :
  forall (nonzero : string -> bool) (env : list (string * string))
         (config : gmap string ConfigLoader.cvalue),
    let value key :=
      match last (List.filter
                    (fun nv => bool_decide (ConfigLoader.target "" nv.1 = Some key)) env) with
      | Some nv => Some (ConfigLoader.convertType (ConfigLoader.CStr nv.2))
      | None => config !! key
      end in
    (ConfigLoader.validateConfig nonzero (ConfigLoader.mergeEnvironmentVariables env config) =
       None <->
     forall key, In key ConfigLoader.required ->
       exists v, value key = Some v /\ ConfigLoader.truthy_c nonzero v = true) /\
    (forall s,
       ConfigLoader.truthy_c nonzero (ConfigLoader.convertType (ConfigLoader.CStr s)) = false <->
       JS.trim s = ""%string \/ JS.trim s = "false"%string \/
       (ConfigLoader.is_integer (JS.trim s) = true /\ JS.parseInt10 (JS.trim s) = Some 0) \/
       (ConfigLoader.is_float (JS.trim s) = true /\ nonzero (JS.trim s) = false)).
Proof.
  intros nonzero env config value. split; [|apply ConfigFacts.convertType_falsy].
  rewrite ConfigFacts.validateConfig_none.
  assert (Hv : forall key, In key ConfigLoader.required ->
                 ConfigLoader.mergeEnvironmentVariables env config !! key = value key).
  { intros key Hin. rewrite ConfigFacts.mergeEnvironmentVariables_other.
    - apply ConfigFacts.merge_lookup.
    - intros ->. repeat (destruct Hin as [Hin|Hin]; [discriminate Hin|]). exact Hin. }
  split; intros H key Hin.
  - rewrite <- Hv by done. by apply H.
  - rewrite Hv by done. by apply H.
Qed.

Lemma X28_witness :
  ConfigLoader.validateConfig (fun _ => true)
    (ConfigLoader.mergeEnvironmentVariables some_env some_config) =
    Some "Missing required configuration: guacd_port"%string /\
  ~ (forall key, In key ConfigLoader.required ->
       exists v,
         match last (List.filter
                       (fun nv => bool_decide (ConfigLoader.target "" nv.1 = Some key))
                       some_env) with
         | Some nv => Some (ConfigLoader.convertType (ConfigLoader.CStr nv.2))
         | None => some_config !! key
         end = Some v /\ ConfigLoader.truthy_c (fun _ => true) v = true).
Proof.
  assert (E : ConfigLoader.validateConfig (fun _ => true)
                (ConfigLoader.mergeEnvironmentVariables some_env some_config) =
              Some "Missing required configuration: guacd_port"%string)
    by (vm_compute; reflexivity).
  split; [exact E|].
  intros H.
  apply (proj1 (X28_validateConfig (fun _ => true) some_env some_config)) in H.
  rewrite E in H. discriminate H.
Defined.

(** ** The key in the notification and the key in the bucket *)

Module SavedKeyFacts.
Import Utils JS GuacamoleLiteServer.

Lemma split_not_nil c s : split c s <> [].
Proof.
  destruct s as [|x s]; [done|]. simpl.
  destruct (Ascii.eqb x c); [done|]. by destruct (split c s).
Qed.

Lemma split_app c a b :
  split c (a +:+ String c b) = split c a ++ split c b.
Proof.
  induction a as [|x a IH].
  - change (""%string +:+ String c b)%string with (String c b).
    simpl. by rewrite Ascii.eqb_refl.
  - rewrite TemplateFacts.sapp_cons. cbn [split].
    destruct (Ascii.eqb x c); [by rewrite IH|].
    rewrite IH. pose proof (split_not_nil c a) as Hne.
    by destruct (split c a).
Qed.

Lemma split_lacks_one c s : lacks c s = true -> split c s = [s].
Proof.
  induction s as [|x s IH]; [done|]. cbn [lacks split].
  intros [Hx Hs]%andb_prop. apply negb_true_iff in Hx. by rewrite Hx, IH.
Qed.

Lemma basename_join dir name :
  name <> ""%string -> lacks "/" name = true ->
  basename (dir +:+ String "/" name) = name.
Proof.
  intros Hne Hl. unfold basename.
  rewrite split_app, (split_lacks_one "/" name) by done.
  rewrite List.filter_app. simpl.
  rewrite (proj2 (String.eqb_neq _ _) Hne). simpl. by rewrite last_snoc.
Qed.

Lemma prefix_app a b : String.prefix a (a +:+ b) = true.
Proof.
  induction a as [|x a IH]; [by destruct b|].
  rewrite TemplateFacts.sapp_cons. cbn [String.prefix].
  by destruct (ascii_dec x x).
Qed.

Lemma substring_from_app a b : substring_from (String.length a) (a +:+ b) = b.
Proof. induction a as [|x a IH]; [done|]. exact IH. Qed.

Lemma remove_first_prefix a b : remove_first a (a +:+ b) = b.
Proof.
  destruct (a +:+ b)%string eqn:E; cbn [remove_first]; rewrite <- E;
    by rewrite prefix_app, substring_from_app.
Qed.

Lemma savedKey_join dir name : savedKey dir (dir +:+ String "/" name) = name.
Proof. unfold savedKey. by rewrite remove_first_prefix. Qed.

Lemma longer_differs (a b : string) : a <> EmptyString -> (a +:+ b)%string <> b.
Proof.
  intros Ha E. apply (f_equal String.length) in E.
  rewrite TemplateFacts.slength_app in E. destruct a; [done|]. simpl in E. lia.
Qed.

End SavedKeyFacts.

(** X29: for a recording that lies in [recordings_path] under the name
    [name], [handleSessionClose] gives the name itself to
    [sendRecordingSaved] as the key, with the bucket of [getBucket], and
    calls it only for the storage 's3'.  The key that [upload] makes for
    the same path with no [s3_key_template] is 'recordings/<name>', or
    'recordings/<userId>/<name>' for a truthy [userId] of the metadata: the
    key in the notification is not the key of the object in the bucket. *)
Theorem X29_saved_key_and_bucket_key :
  forall (proto : string -> option Utils.tvalue) (e : S3Uploader.env)
         (storage : option string) (dir name : string)
         (meta : string -> option Utils.tvalue),
    name <> ""%string -> JS.lacks "/" name = true -> Utils.includes name "{{" = false ->
    let processedPath := (dir +:+ String "/" name)%string in
    let objectKey := S3Uploader.generateS3Key proto None (JS.basename processedPath) meta in
    GuacamoleLiteServer.savedRecording storage dir e (Some processedPath) =
      (if match storage with Some v => String.eqb v "s3" | None => false end
       then match S3Uploader.getBucket e with
            | Some bucket => GuacamoleLiteServer.Returned (Some (bucket, name))
            | None =>
                GuacamoleLiteServer.Threw "No S3 bucket specified in token or configuration"
            end
       else GuacamoleLiteServer.Returned None) /\
    objectKey =
      match Utils.read proto meta "userId" with
      | Some v =>
          if Utils.truthy_t v
          then ("recordings/" +:+ Utils.show v +:+ "/" +:+ name)%string
          else ("recordings/" +:+ name)%string
      | None => ("recordings/" +:+ name)%string
      end /\
    objectKey <> name.
Proof.
  intros proto e storage dir name meta Hne Hslash Hplain processedPath objectKey.
  assert (Hkey : objectKey =
                 match Utils.read proto meta "userId" with
                 | Some v =>
                     if Utils.truthy_t v
                     then ("recordings/" +:+ Utils.show v +:+ "/" +:+ name)%string
                     else ("recordings/" +:+ name)%string
                 | None => ("recordings/" +:+ name)%string
                 end).
  { subst objectKey processedPath. rewrite SavedKeyFacts.basename_join by done.
    apply KeyFacts.generateS3Key_default; [done|by left]. }
  split; [|split; [exact Hkey|]].
  - unfold GuacamoleLiteServer.savedRecording. subst processedPath.
    rewrite SavedKeyFacts.savedKey_join.
    assert (Hp : (dir +:+ String "/" name)%string <> ""%string)
      by (by apply TemplateFacts.sapp_not_empty).
    by rewrite (proj2 (String.eqb_neq _ _) Hp).
  - rewrite Hkey.
    destruct (Utils.read proto meta "userId") as [v|]; [destruct (Utils.truthy_t v)|].
    + rewrite <- !TemplateFacts.sapp_assoc. by apply SavedKeyFacts.longer_differs.
    + by apply SavedKeyFacts.longer_differs.
    + by apply SavedKeyFacts.longer_differs.
Qed.

Lemma X29_witness :
  GuacamoleLiteServer.savedRecording (Some "s3"%string) "/data/recordings" accepting
    (Some "/data/recordings/a.guac.gz"%string) =
    GuacamoleLiteServer.Returned (Some ("recordings"%string, "a.guac.gz"%string)) /\
  S3Uploader.generateS3Key bare None (JS.basename "/data/recordings/a.guac.gz") meta_u1 =
    "recordings/u1/a.guac.gz"%string.
Proof.
  destruct (X29_saved_key_and_bucket_key bare accepting (Some "s3"%string)
              "/data/recordings"%string "a.guac.gz"%string meta_u1
              ltac:(discriminate) eq_refl eq_refl) as (H1 & H2 & _).
  split; [exact H1|exact H2].
Defined.
